(* ===== verification/_CoqProject ===== *)
-Q . S2P
Prelude.v
CLib.v
Getopt.v
Types.v
World.v
Demo.v
Utils.v
Logging.v
Configuration.v
MqttClient.v
Mqtt2Rest.v
Messages.v
Rest2Mqtt.v
Uploads.v
RestThread.v
Signals.v
Threads.v
Schedules.v
Process.v
Delivery.v
Options.v
Main.v
Startup.v
Program.v
Shutdown.v
