(* ===== verification/Prelude.v ===== *)
(** * mqrestt: a verification of the MQTT to REST translation daemon

    mqrestt is a C daemon that connects an MQTT broker with web services. An
    mqtt2rest unit subscribes to a topic and turns each message into an HTTP
    POST; a rest2mqtt unit listens for HTTP POST requests and publishes their
    bodies. [main] reads the configuration, starts a thread per unit, and on
    SIGINT signals the threads to stop. This development translates the C
    sources of [src/src] into executable Rocq definitions and proves what they
    do, and where they do not do what they are meant to.

    ** The model

    A piece of code is a computation of the monad [M] (World.v): a function
    from the state of the process to an outcome and a new state. The state, the
    record [World] of Types.v, has the globals of the program (the logging
    state of logging.c, [cfg] of configuration.c, [pid_fd] and [threads] of
    main.c), the heap with the structs and byte blocks the program allocates,
    the per-request pointers libmicrohttpd keeps, the output, and the trace of
    all calls made out of the program. An outcome is a value, an exit of the
    process, a failed assertion, [Crash why] for undefined behaviour of the
    given kind, or, for the two endless loops, the fuel running out. So a
    theorem that a computation ends in [Ok] also says that it runs into no null
    pointer, no access outside a buffer, no uninitialised byte, no freed block,
    no mismatched format and no signed overflow of the kinds modelled.

    Code that is not in the repository (libmosquitto, libcurl, libmicrohttpd,
    libconfuse, the operating system) is a parameter, the class [Env]: each
    call is answered by a function of all calls made before it, so a theorem
    holds for every behaviour of the libraries that its hypotheses allow. The
    calls themselves, with their arguments, are the constructors of [ext].
    A call into libmosquitto also gives the list of callbacks it runs; a call
    of [MHD_run] gives the list of calls of the request handler.

    ** The files

    - Prelude.v (this file): strings as lists of characters, machine integers.
    - CLib.v: the part of the C library the code uses, computing on buffers with
      checked bounds: [strncpy], [strncat], [snprintf], [printf] formats,
      [strtol].
    - Getopt.v: [getopt_long] of the C library, from the elements of [argv] to
      the options it returns, and the grammar [spells] of command lines.
    - Types.v: the structs and enums of the headers, the calls out of the
      program, the state.
    - World.v: [Env], the monad, the heap, the rules of the weakest
      precondition [wp], equality of states up to output as a setoid, and
      invariants ([preserves]).
    - Demo.v: concrete environments for the witnesses.
    - Utils.v (utils.c), Logging.v (logging.c), Configuration.v
      (configuration.c), MqttClient.v (mqtt_client.c), Mqtt2Rest.v
      (mqtt2rest_unit.c), Rest2Mqtt.v (rest2mqtt_unit.c): a module per source
      file, with a definition per C function under its name; Options.v, Signals.v
      and Main.v (main.c): the command line, the signal handler and daemonizing,
      and the rest of [main].
      Loops and parts of long functions have definitions of their own
      ([connect_loop], [make_full_url], [mqtt2rest_pass], [start_loop],
      [start_up], [run_units], ...), composed the way the C code runs them.
    - Messages.v: over Mqtt2Rest.v, the messages a thread is given in a whole run
      and the requests it makes of libcurl.
    - Uploads.v, RestThread.v: over Rest2Mqtt.v, the abstract machine of uploads
      that overlap and the handler's refinement of it; the loop and the whole
      thread against that machine.
    - Threads.v: the two thread functions as state machines whose turns are the
      thread's start, a pass of its loop up to [poll], and the rest of the pass
      from there on, which ends the thread when [poll] failed; [run_turns] runs
      the process by a schedule, a list of turns and of SIGINTs taken by [main] or
      by a thread: [handle_signal] runs, and the threads it signals inside [poll]
      come out of it interrupted.
    - Schedules.v: over Threads.v, what a schedule makes of the threads: where
      each is after a number of turns, whom SIGINT reaches, and which schedules
      end all threads ([ends]).
    - Process.v: any number of threads of both directions in one process, each
      from its creation to its end, by any schedule.
    - Delivery.v: over Process.v and Messages.v, the messages of all units of a
      process and the requests made of them.
    - Startup.v: over Main.v, Process.v and Delivery.v, the two loops of [main]
      that create the threads, cut into their passes, which are interleaved with
      the turns of the threads created so far and with SIGINTs ([run_start]).
    - Program.v: over Main.v, Process.v and Delivery.v, what holds of every run
      of [main], and a run of the whole process from the command line to the exit
      status.
    - Shutdown.v: the interleaving of the creation of the threads, the signal
      handler, the signals, the threads' polls and the joins of [main], as a
      step relation, and the proof that the process of Startup.v refines it.

    The client calls back into the unit that owns it: the class [MsgHandler]
    of MqttClient.v states what it needs, and Mqtt2Rest.v gives the instance.
    In the other direction the class [ClientUser] states what a unit owes its
    client (a condition its callbacks keep) and the lemmas of MqttClient.v then
    hold for its thread; the units of both directions are instances. The
    classes [CallbackInv] (Mqtt2Rest.v) and [HandlerInv] (Rest2Mqtt.v) collect
    the invariants that survive every callback and every handler call: that a
    lost connection stays lost, that the uploads are left alone, how [poll]
    went. [ThreadInv] (Threads.v) and [MainInv] (Main.v) do the same for every
    turn of every thread and for every step of [main]. What the threads do while
    [main] waits for them is the class [Scheduler] of Main.v; [by_turns] of
    Program.v is its instance that runs them by a schedule.

    ** What the theorems show

    - Utils: [parseInt] accepts exactly the integer literals of C and reads back
      every printed [int]; its range check is dead.
    - Logging: what a line of the log is, byte for byte, and when it overflows
      its buffer; thresholds, initialisation and finalisation on every branch;
      FATAL never returns.
    - Configuration: what the structs hold after reading, on every branch, and
      that the TLS check is defeated by the defaults.
    - MqttClient: connecting retries three times; the connect callback
      subscribes; publishing, the loop functions and the poll entry.
    - Mqtt2Rest: the URL buffer on all inputs; a message becomes one POST; the
      thread never fails while libmosquitto's callbacks are of a kind it can
      survive, and ends when [poll] is interrupted; it leaks its handle; a lost
      connection is never restored.
    - Messages: over a whole run of the loop, one request per message delivered,
      in their order ([posted]), as long as libcurl hands out handles; what the
      threads of the other direction do is [still] for the messages.
    - Rest2Mqtt: the poll set; a request in any number of chunks is published
      once and its memory freed, when the allocator leaves a byte behind each
      block; without that byte, and for requests without qos or body, undefined
      behaviour; a lost connection is never restored.
    - Uploads: the specification is the machine [spec_calls] on the requests
      under way, those answered, the messages sent and the replies; the relation
      [represents] gives its state's heap, request table and trace; the handler
      implements it for any sequence of calls it accepts, and the order of calls
      of different requests does not matter.
    - RestThread: the loop and the thread implement the machine for whatever a
      well-behaved libmicrohttpd ([GoodMhd]) delivers, end once [poll] fails, and
      leave allocated exactly the uploads in progress; without a server the whole
      process ends.
    - Threads: taking turns is the thread: the turns of one thread, run alone,
      compute what the thread function computes, step for step.
    - Process: the threads of any number of units of both directions do not
      interfere, in any schedule and with any SIGINTs, from their creation to
      their end, which [poll] brings when it fails, and SIGINT when it finds them
      inside [poll]. A unit's
      share of the process is a [unit_view] (Uploads.v): its client, its server
      and the requests its server hands it; what one unit does leaves every
      other view [idle].
    - Delivery: Messages for all units of a process, in any schedule: no message
      is lost, repeated, reordered or posted to the URL of another unit.
    - Options: [getopt_long] with the program's tables returns exactly the
      options of the command lines in the grammar [spells]; what [main] makes of
      them on every branch.
    - Signals: SIGINT signals every thread in the table, and runs past the end of
      a table that is full; daemonizing.
    - Main: unit limits, the threads started, every outcome of [main] for the
      options, and the two log targets with which the program does not survive
      its first message.
    - Startup: the passes of the loops, one after the other, are the loops; with
      threads running in between nothing fails, the threads do not interfere with
      the structs of the units still to be started, every message is posted, and
      all threads end once [main] has looked at all units and [poll] fails or a
      SIGINT finds them inside it.
    - Program: the types of the global state in every run; a foreground run of
      the whole process, threads and SIGINT included and in any schedule that
      ends the threads, returns success
      with its heap restored but for the common configuration, the leaked clients
      and the uploads in progress, every message posted and every upload
      published and answered.
    - Shutdown: SIGINT ends the process when the threads are inside [poll], in
      every interleaving and whichever thread it interrupts; a signal that
      arrives outside [poll], or before a thread is created, is lost; the
      structs are freed only after all threads have stopped; the executable
      process makes, along every schedule of its creation of threads, their
      turns and SIGINTs, a run of the step relation ([process_refines_shutdown]):
      what is proved of all its runs holds of the threads of Threads.v.

    ** Bounds and fuel

    The two [while (true)] loops run on fuel; [mqtt2rest_loop_safe_and_ends] and
    [rest2mqtt_loop_implements_uploads] give the fuel that is enough once [poll]
    fails after a given number of calls. Every other loop is structural. [dec]
    prints with as much fuel as the number has binary digits. A schedule has no
    fuel; a thread of Process.v is over after its start and two turns per [poll]
    up to the first that fails, so after [2 * N + 3] turns when [poll] fails from
    the [N]-th call on ([need]), or one turn after a SIGINT that finds it inside
    [poll], where it is after an even number of turns, and at least two, unless
    it is over ([at_stage]). The machine of
    Shutdown.v has no fuel: its runs between two polls are bounded by the
    measure [remaining].

    ** Not modelled

    The WIN32 branches; the messages [getopt_long] prints itself for an option it
    does not know, and the environment variable POSIXLY_CORRECT, which would end
    the options at the first operand; padding and placement of structs; the copy of
    the log file's name made by [strdup] as a heap block; data races between the
    threads: a turn of a thread, up to [poll] or from there on, is one step of the
    schedule, a run of the SIGINT handler with the delivery of its signals is
    another, and Shutdown.v, which takes the handler apart, interleaves control
    only. In Program.v, which has all of [main], the threads take their turns
    while [main] waits in its joins; Startup.v has them run while [main] still
    creates others, but not its steps before and after. A second SIGINT
    while the handler runs is left out, and a full thread table is in
    [sigint_signals_threads] only. The errno [strtol] and [poll] leave beyond the
    tests the code makes. [localtime] and the clock are parameters with their
    documented ranges. A NULL printed with [%s] is "(null)", as glibc does. A
    request is identified by a number of its own in the whole process, where
    libmicrohttpd has a connection per server, reuses it and resets its pointer;
    the units of Process.v are assumed to have requests, clients and servers of
    their own. *)
From Stdlib Require Import ZArith Lia ZifyBool Ascii String List.
From stdpp Require Import base numbers list strings gmap.

Declare Scope c_scope.
Delimit Scope c_scope with C.

#[global] Open Scope Z_scope.

(** * Strings as lists of characters

    A C string is modelled by the [string] of the characters before its
    terminating NUL; buffers are lists, so the two views are linked here. *)
Definition explode (s : string) : list ascii := String.list_ascii_of_string s.
Definition implode (l : list ascii) : string := String.string_of_list_ascii l.
Definition strlen (s : string) : nat := length (explode s).
Definition str_take (n : nat) (s : string) : string := implode (take n (explode s)).
Definition str_drop (n : nat) (s : string) : string := implode (drop n (explode s)).

Abbreviation NUL := (Ascii.ascii_of_nat 0).
(** The newline of an escape sequence. *)
Definition nl : string := String (Ascii.ascii_of_nat 10) EmptyString.
Definition tab : string := String (Ascii.ascii_of_nat 9) EmptyString.
Abbreviation SLASH := (Ascii.ascii_of_nat 47).

(** The part of a character sequence that the string functions of C see. *)
Fixpoint cut_nul (l : list ascii) : list ascii :=
  match l with
  | [] => []
  | c :: l' => if bool_decide (c = NUL) then [] else c :: cut_nul l'
  end.

Definition no_nul (l : list ascii) : Prop := NUL ∉ l.

#[global] Instance no_nul_dec l : Decision (no_nul l) := _.

Create HintDb mq.
Create Rewrite HintDb strs.

Lemma implode_explode s : implode (explode s) = s.
Proof. apply String.string_of_list_ascii_of_string. Qed.

Lemma explode_implode l : explode (implode l) = l.
Proof. apply String.list_ascii_of_string_of_list_ascii. Qed.

Lemma explode_inj s1 s2 : explode s1 = explode s2 → s1 = s2.
Proof. intros H. by rewrite <- (implode_explode s1), H, implode_explode. Qed.

Lemma explode_cons c s : explode (String c s) = c :: explode s.
Proof. reflexivity. Qed.

Lemma explode_nil : explode "" = [].
Proof. reflexivity. Qed.

Lemma explode_app s1 s2 : explode (s1 +:+ s2) = explode s1 ++ explode s2.
Proof.
  induction s1 as [|c s1 IH]; [done|].
  change (String c s1 +:+ s2) with (String c (s1 +:+ s2)).
  by rewrite !explode_cons, IH.
Qed.

#[export] Hint Rewrite implode_explode explode_implode explode_cons explode_nil
  explode_app : strs.

Lemma implode_app l1 l2 : implode (l1 ++ l2) = implode l1 +:+ implode l2.
Proof. apply explode_inj. by autorewrite with strs. Qed.

Lemma strlen_app s1 s2 : strlen (s1 +:+ s2) = (strlen s1 + strlen s2)%nat.
Proof. unfold strlen. by rewrite explode_app, length_app. Qed.

Lemma strlen_implode l : strlen (implode l) = length l.
Proof. unfold strlen. by rewrite explode_implode. Qed.

Lemma strlen_cons c s : strlen (String c s) = S (strlen s).
Proof. reflexivity. Qed.

Lemma strlen_nil : strlen "" = 0%nat.
Proof. reflexivity. Qed.

Lemma strlen_take n s : strlen (str_take n s) = min n (strlen s).
Proof. unfold str_take. rewrite strlen_implode, length_take. done. Qed.

Lemma strlen_drop n s : strlen (str_drop n s) = (strlen s - n)%nat.
Proof. unfold str_drop. rewrite strlen_implode, length_drop. done. Qed.

#[export] Hint Rewrite strlen_app strlen_implode strlen_cons strlen_nil
  strlen_take strlen_drop : strs.

Lemma explode_take n s : explode (str_take n s) = take n (explode s).
Proof. apply explode_implode. Qed.

Lemma explode_drop n s : explode (str_drop n s) = drop n (explode s).
Proof. apply explode_implode. Qed.

#[export] Hint Rewrite explode_take explode_drop : strs.

Lemma str_app_assoc s1 s2 s3 : (s1 +:+ s2) +:+ s3 = s1 +:+ (s2 +:+ s3).
Proof. apply explode_inj. autorewrite with strs. by rewrite app_assoc. Qed.

Lemma str_app_nil_r s : s +:+ "" = s.
Proof. apply explode_inj. autorewrite with strs. by rewrite app_nil_r. Qed.

Lemma str_drop_app s1 s2 : str_drop (strlen s1) (s1 +:+ s2) = s2.
Proof.
  apply explode_inj. autorewrite with strs. unfold strlen.
  by rewrite drop_app_length.
Qed.

Lemma str_take_ge n s : (strlen s ≤ n)%nat → str_take n s = s.
Proof.
  intros H. apply explode_inj. autorewrite with strs.
  by apply take_ge.
Qed.

Lemma cut_nul_no_nul l : no_nul (cut_nul l).
Proof.
  unfold no_nul. induction l as [|c l IH]; cbn; [set_solver|].
  case_bool_decide; [set_solver|]. set_solver.
Qed.

Lemma cut_nul_id l : no_nul l → cut_nul l = l.
Proof.
  unfold no_nul. induction l as [|c l IH]; [done|].
  intros H. cbn. rewrite bool_decide_false by set_solver.
  f_equal. apply IH. set_solver.
Qed.

Lemma no_nul_app l1 l2 : no_nul l1 → no_nul l2 → no_nul (l1 ++ l2).
Proof. unfold no_nul. rewrite elem_of_app. tauto. Qed.

Lemma cut_nul_app_nul l1 l2 : no_nul l1 → cut_nul (l1 ++ NUL :: l2) = l1.
Proof.
  unfold no_nul. induction l1 as [|c l1 IH]; intros H; cbn.
  - by rewrite bool_decide_true.
  - rewrite bool_decide_false by set_solver. f_equal. apply IH. set_solver.
Qed.

Lemma cut_nul_length l : (length (cut_nul l) ≤ length l)%nat.
Proof. induction l as [|c l IH]; cbn; [lia|]. case_bool_decide; cbn; lia. Qed.

(** * Machine integers: [int] is 32 bits, [long] and [size_t] are 64 bits. *)
Definition INT_MIN : Z := - 2 ^ 31.
Definition INT_MAX : Z := 2 ^ 31 - 1.
Definition LONG_MIN : Z := - 2 ^ 63.
Definition LONG_MAX : Z := 2 ^ 63 - 1.

(** Conversion to [int] of a wider value (reduction modulo 2^32). *)
Definition to_int (z : Z) : Z := (z + 2 ^ 31) mod 2 ^ 32 - 2 ^ 31.
(** Conversion to [size_t]. *)
Definition to_size (z : Z) : Z := z mod 2 ^ 64.
Definition in_int (z : Z) : Prop := INT_MIN ≤ z ≤ INT_MAX.

#[global] Instance in_int_dec z : Decision (in_int z).
Proof. unfold in_int. apply _. Defined.

Lemma to_int_range z : in_int (to_int z).
Proof.
  unfold in_int, to_int, INT_MIN, INT_MAX.
  pose proof (Z.mod_pos_bound (z + 2 ^ 31) (2 ^ 32)). lia.
Qed.

Lemma to_int_id z : in_int z → to_int z = z.
Proof.
  unfold in_int, to_int, INT_MIN, INT_MAX. intros H.
  rewrite Z.mod_small by lia. lia.
Qed.

#[export] Hint Resolve to_int_range : mq.

(** * Shared tactics *)
(** Case analysis on every [if] and [match] scrutinee of the goal. *)
Ltac split_cases :=
  repeat (case_match; simplify_eq/=; try done).

(** A function without repetitions on a list is injective there. *)
Lemma NoDup_fmap_eq {A B} (f : A → B) l a b :
  NoDup (f <$> l) → a ∈ l → b ∈ l → f a = f b → a = b.
Proof.
  intros Hnd Ha Hb E. apply list_elem_of_lookup in Ha as [i Hi], Hb as [j Hj].
  assert (i = j) as <-.
  { eapply (NoDup_lookup (f <$> l)); [done|by rewrite list_lookup_fmap, Hi|].
    rewrite list_lookup_fmap, Hj. cbn. by rewrite E. }
  congruence.
Qed.
