(* ===== verification/CLib.v ===== *)
(** The part of C and of its standard library that mqrestt's own code uses:
    outcomes of a computation, character buffers with checked bounds,
    [strncpy]/[strncat]/[snprintf] on them, [printf] formatting and [strtol]. *)
From Stdlib Require Import ZArith Lia ZifyBool Ascii String List.
From stdpp Require Import base numbers list strings gmap.
From S2P Require Import Prelude.

(** * Outcomes *)

(** Why a run has no defined continuation. *)
Inductive ub :=
  | NullDeref        (* a null pointer is read, written or called *)
  | OutOfBounds      (* an access outside the object a pointer points into *)
  | Uninit           (* an uninitialised byte or field is read *)
  | UseAfterFree     (* the object has been freed, or has another type *)
  | BadVarargs       (* a format and its arguments do not match *)
  | SignedOverflow.  (* arithmetic on [int] leaves its range *)

Inductive outcome (A : Type) :=
  | Ok (a : A)
  | Exit (code : Z)      (* the process exits *)
  | Abort                (* a failed [assert] *)
  | Crash (why : ub)
  | OutOfFuel.           (* the bound on a non-terminating loop is used up *)
Arguments Ok {A} a.
Arguments Exit {A} code.
Arguments Abort {A}.
Arguments Crash {A} why.
Arguments OutOfFuel {A}.

#[global] Instance outcome_ret : MRet outcome := fun A a => Ok a.
#[global] Instance outcome_bind : MBind outcome := fun A B f o =>
  match o with
  | Ok a => f a
  | Exit c => Exit c
  | Abort => Abort
  | Crash u => Crash u
  | OutOfFuel => OutOfFuel
  end.

#[global] Instance ub_eq_dec : EqDecision ub.
Proof. solve_decision. Defined.
#[global] Instance outcome_eq_dec `{EqDecision A} : EqDecision (outcome A).
Proof. solve_decision. Defined.

(** Arithmetic on [int]: overflow is undefined. *)
Definition int_mul (x y : Z) : outcome Z :=
  if bool_decide (in_int (x * y)) then Ok (x * y) else Crash SignedOverflow.

(** * Character buffers *)

(** A byte of memory, [None] while it is uninitialised. *)
Abbreviation cell := (option ascii).

Definition buf_get (b : list cell) (i : Z) : outcome ascii :=
  if i <? 0 then Crash OutOfBounds
  else match b !! Z.to_nat i with
       | Some (Some c) => Ok c
       | Some None => Crash Uninit
       | None => Crash OutOfBounds
       end.

(** Store the characters [cs] from index [off] on. *)
Definition buf_write (b : list cell) (off : Z) (cs : list ascii) : outcome (list cell) :=
  if (off <? 0) || (Z.of_nat (length b) <? off + Z.of_nat (length cs))
  then Crash OutOfBounds
  else Ok (take (Z.to_nat off) b ++ (Some <$> cs)
           ++ drop (Z.to_nat off + length cs) b).

(** The characters of the C string at the start of [b]. *)
Fixpoint scan_cstr (b : list cell) : outcome (list ascii) :=
  match b with
  | [] => Crash OutOfBounds
  | None :: _ => Crash Uninit
  | Some c :: b' =>
      if bool_decide (c = NUL) then Ok []
      else l ← scan_cstr b'; Ok (c :: l)
  end.

(** The C string that starts at index [off]. *)
Definition buf_cstr (b : list cell) (off : Z) : outcome (list ascii) :=
  if (off <? 0) || (Z.of_nat (length b) <? off) then Crash OutOfBounds
  else scan_cstr (drop (Z.to_nat off) b).

(** At most [n] characters of [l], [n] being a [size_t]. *)
Definition take_size (n : Z) (l : list ascii) : list ascii :=
  take (Z.to_nat (Z.min n (Z.of_nat (length l)))) l.

(** [strncpy(b, src, n)]: copy, and pad with NUL up to [n]. *)
Definition strncpy (b : list cell) (src : list ascii) (n : nat) : outcome (list cell) :=
  buf_write b 0 (take n src ++ replicate (n - length src) NUL).

(** [strncat(b + off, src, n)]. *)
Definition strncat (b : list cell) (off : Z) (src : list ascii) (n : Z)
    : outcome (list cell) :=
  l ← buf_cstr b off;
  buf_write b (off + Z.of_nat (length l)) (take_size n src ++ [NUL]).

(** [snprintf(b + off, size, ...)] whose expansion is [s]: at most [size - 1]
    characters and a NUL are stored; the result is the full length. *)
Definition snprintf (b : list cell) (off : Z) (size : Z) (s : list ascii)
    : outcome (list cell * Z) :=
  if Z.of_nat (length b) <? off then Crash OutOfBounds
  else if size =? 0 then Ok (b, Z.of_nat (length s))
  else b' ← buf_write b off (take_size (size - 1) s ++ [NUL]);
       Ok (b', Z.of_nat (length s)).

(** * Decimal notation *)
Definition digit_char (d : Z) : ascii := ascii_of_nat (Z.to_nat (48 + d)).

Fixpoint dec_digits (fuel : nat) (z : Z) (acc : list ascii) : list ascii :=
  match fuel with
  | O => acc
  | S fuel' =>
      let acc' := digit_char (z mod 10) :: acc in
      if z / 10 =? 0 then acc' else dec_digits fuel' (z / 10) acc'
  end.

(** The fuel: a number of [k] binary digits has at most [k] decimal digits. *)
Definition dec_nonneg (z : Z) : list ascii :=
  dec_digits (S (Z.to_nat (Z.log2 z))) z [].

Definition dec (z : Z) : list ascii :=
  if z <? 0 then ascii_of_nat 45 :: dec_nonneg (- z) else dec_nonneg z.

(** [%03d] *)
Definition pad_zeros (n : nat) (l : list ascii) : list ascii :=
  replicate (n - length l) (digit_char 0) ++ l.

(** * printf *)

(** An argument of a variadic call. *)
Inductive parg :=
  | PInt (z : Z)
  | PStr (s : option string)     (* a C string, or NULL *)
  | PMem (l : list ascii)        (* a pointer to exactly these bytes *)
  | PBad.                        (* a pointer outside any object *)

Inductive piece :=
  | Lit (c : ascii)
  | Conv_s | Conv_d | Conv_zd | Conv_lu | Conv_03d | Conv_other.

#[global] Instance piece_eq_dec : EqDecision piece.
Proof. solve_decision. Defined.

Definition ch (n : nat) (c : ascii) : bool := bool_decide (c = ascii_of_nat n).

(** The conversions the source's format strings use: %s %d %zd %lu %03d. *)
Fixpoint parse_fmt (f : string) : list piece :=
  match f with
  | EmptyString => []
  | String c f1 =>
      if ch 37 c then
        match f1 with
        | EmptyString => [Conv_other]
        | String c1 f2 =>
            if ch 115 c1 then Conv_s :: parse_fmt f2
            else if ch 100 c1 then Conv_d :: parse_fmt f2
            else match f2 with
                 | EmptyString => [Conv_other]
                 | String c2 f3 =>
                     if ch 122 c1 && ch 100 c2 then Conv_zd :: parse_fmt f3
                     else if ch 108 c1 && ch 117 c2 then Conv_lu :: parse_fmt f3
                     else match f3 with
                          | EmptyString => [Conv_other]
                          | String c3 f4 =>
                              if ch 48 c1 && ch 51 c2 && ch 100 c3
                              then Conv_03d :: parse_fmt f4
                              else [Conv_other]
                          end
                 end
        end
      else Lit c :: parse_fmt f1
  end.

(** What [%s] prints; glibc prints a null pointer as [(null)]. *)
Definition show_str (a : parg) : outcome (list ascii) :=
  match a with
  | PStr s => Ok (explode (default "(null)" s))
  | PMem l => if bool_decide (NUL ∈ l) then Ok (cut_nul l) else Crash OutOfBounds
  | PBad => Crash OutOfBounds
  | PInt _ => Crash BadVarargs
  end.

Definition show_int (f : Z → list ascii) (a : parg) : outcome (list ascii) :=
  match a with
  | PInt z => Ok (f z)
  | _ => Crash BadVarargs
  end.

Definition show_conv (p : piece) (a : parg) : outcome (list ascii) :=
  match p with
  | Conv_s => show_str a
  | Conv_d => show_int (λ z, dec (to_int z)) a
  | Conv_zd => show_int dec a
  | Conv_lu => show_int dec a
  | Conv_03d => show_int (λ z, pad_zeros 3 (dec (to_int z))) a
  | _ => Crash BadVarargs
  end.

Fixpoint interp_fmt (ps : list piece) (args : list parg) : outcome (list ascii) :=
  match ps with
  | [] => Ok []
  | Lit c :: ps' => l ← interp_fmt ps' args; Ok (c :: l)
  | p :: ps' =>
      match args with
      | [] => Crash BadVarargs
      | a :: args' => s ← show_conv p a; l ← interp_fmt ps' args'; Ok (s ++ l)
      end
  end.

Definition format (f : string) (args : list parg) : outcome (list ascii) :=
  interp_fmt (parse_fmt f) args.

(** * strtol with base 0 *)
Definition is_space (c : ascii) : bool :=
  let n := nat_of_ascii c in ((n =? 32)%nat || ((9 <=? n)%nat && (n <=? 13)%nat)).

Definition digit_val (c : ascii) : option Z :=
  let n := Z.of_nat (nat_of_ascii c) in
  if (48 <=? n) && (n <=? 57) then Some (n - 48)
  else if (97 <=? n) && (n <=? 122) then Some (n - 87)
  else if (65 <=? n) && (n <=? 90) then Some (n - 55)
  else None.

Definition is_digit (base : Z) (c : ascii) : bool :=
  match digit_val c with Some d => d <? base | None => false end.

Fixpoint span (p : ascii → bool) (l : list ascii) : nat :=
  match l with
  | [] => 0%nat
  | c :: l' => if p c then S (span p l') else 0%nat
  end.

(** The value of a run of digits. *)
Definition digits_value (base : Z) (l : list ascii) : Z :=
  fold_left (λ acc c, acc * base + from_option id 0 (digit_val c)) l 0.

Record strtol_result := {
  st_value : Z;      (* the returned [long] *)
  st_end : nat;      (* [*endptr - nptr] *)
  st_erange : bool;  (* errno is set to ERANGE *)
}.

Definition strtol_sign (l : list ascii) : bool * nat :=
  match l with
  | c :: _ => if ch 45 c then (true, 1%nat) else if ch 43 c then (false, 1%nat)
              else (false, 0%nat)
  | [] => (false, 0%nat)
  end.

(** The base and the length of its prefix: 0x is a prefix only before a
    hexadecimal digit. *)
Definition strtol_base (l : list ascii) : Z * nat :=
  match l with
  | z :: l' =>
      if ch 48 z then
        match l' with
        | x :: d :: _ =>
            if (ch 120 x || ch 88 x) && is_digit 16 d then (16, 2%nat) else (8, 0%nat)
        | _ => (8, 0%nat)
        end
      else (10, 0%nat)
  | [] => (10, 0%nat)
  end.

Definition clamp_long (z : Z) : Z := Z.max LONG_MIN (Z.min LONG_MAX z).

Definition strtol (s : list ascii) : strtol_result :=
  let ws := span is_space s in
  let l1 := drop ws s in
  let '(neg, sg) := strtol_sign l1 in
  let l2 := drop sg l1 in
  let '(base, pre) := strtol_base l2 in
  let l3 := drop pre l2 in
  let n := span (is_digit base) l3 in
  let mag := digits_value base (take n l3) in
  let v := if neg : bool then - mag else mag in
  if (n =? 0)%nat then {| st_value := 0; st_end := 0; st_erange := false |}
  else {| st_value := clamp_long v; st_end := (ws + sg + pre + n)%nat;
          st_erange := negb (clamp_long v =? v) |}.

(** Evaluate the closed format strings of the goal. *)
Ltac fmt_eval :=
  repeat match goal with
  | |- context [format ?f ?args] =>
      let p := eval vm_compute in (parse_fmt f) in
      change (format f args) with (interp_fmt p args)
  end;
  cbn -[implode explode pad_zeros dec to_int cut_nul].

(** * Lemmas on buffers *)
Lemma buf_write_ok b off cs :
  0 ≤ off → off + Z.of_nat (length cs) ≤ Z.of_nat (length b) →
  buf_write b off cs
  = Ok (take (Z.to_nat off) b ++ (Some <$> cs) ++ drop (Z.to_nat off + length cs) b).
Proof.
  intros H1 H2. unfold buf_write.
  destruct (_ || _) eqn:E; [lia|done].
Qed.

Lemma buf_write_oob b off cs :
  Z.of_nat (length b) < off + Z.of_nat (length cs) →
  buf_write b off cs = Crash OutOfBounds.
Proof.
  intros H. unfold buf_write. destruct (_ <? off + _) eqn:E; [|lia].
  by rewrite orb_true_r.
Qed.

Lemma buf_write_length b off cs b' :
  buf_write b off cs = Ok b' → length b' = length b.
Proof.
  unfold buf_write. destruct (_ || _) eqn:E; [done|].
  apply orb_false_iff in E as [E1 E2]. intros [= <-].
  rewrite !length_app, length_take, length_fmap, length_drop. lia.
Qed.

Lemma buf_write_is_ok b off cs :
  0 ≤ off → off + Z.of_nat (length cs) ≤ Z.of_nat (length b) →
  ∃ b', buf_write b off cs = Ok b' ∧ length b' = length b.
Proof.
  intros H1 H2. eexists. split; [by apply buf_write_ok|].
  eapply buf_write_length. by apply buf_write_ok.
Qed.

Lemma buf_cstr_0 b : buf_cstr b 0 = scan_cstr b.
Proof. unfold buf_cstr. destruct (_ || _) eqn:E; [lia|done]. Qed.

Lemma scan_cstr_app cs rest :
  no_nul cs → scan_cstr ((Some <$> cs) ++ Some NUL :: rest) = Ok cs.
Proof.
  unfold no_nul. induction cs as [|c cs IH]; intros H; cbn.
  - by rewrite bool_decide_true.
  - rewrite bool_decide_false by set_solver.
    rewrite IH by set_solver. done.
Qed.

Lemma scan_cstr_cut cs rest :
  scan_cstr ((Some <$> cs) ++ Some NUL :: rest) = Ok (cut_nul cs).
Proof.
  induction cs as [|c cs IH]; cbn.
  - by rewrite bool_decide_true.
  - case_bool_decide; [done|]. by rewrite IH.
Qed.

Lemma scan_cstr_no_nul b l : scan_cstr b = Ok l → no_nul l.
Proof.
  unfold no_nul. revert l. induction b as [|[c|] b IH]; intros l; cbn; [done| |done].
  case_bool_decide; [intros [= <-]; set_solver|].
  destruct (scan_cstr b) eqn:E; cbn; try done. intros [= <-].
  specialize (IH _ eq_refl). set_solver.
Qed.

Lemma take_size_ge n l : Z.of_nat (length l) ≤ n → take_size n l = l.
Proof. intros H. unfold take_size. rewrite Z.min_r by lia. rewrite Nat2Z.id. by apply take_ge. Qed.

Lemma take_size_nat n l : 0 ≤ n → take_size n l = take (Z.to_nat n) l.
Proof.
  intros H. unfold take_size. destruct (decide (n ≤ Z.of_nat (length l))).
  - by rewrite Z.min_l.
  - rewrite Z.min_r by lia. rewrite Nat2Z.id. rewrite !take_ge; [done|lia|lia].
Qed.

Lemma length_take_size n l :
  0 ≤ n → Z.of_nat (length (take_size n l)) = Z.min n (Z.of_nat (length l)).
Proof. intros H. unfold take_size. rewrite length_take. lia. Qed.

(** Reading back what was just written. *)
Lemma buf_cstr_write b off cs b' :
  buf_write b off (cs ++ [NUL]) = Ok b' → no_nul cs → buf_cstr b' off = Ok cs.
Proof.
  intros H Hn. pose proof (buf_write_length _ _ _ _ H) as HL.
  unfold buf_write in H. destruct (_ || _) eqn:E; [done|].
  apply orb_false_iff in E as [E1 E2]. rewrite length_app in E2.
  change (length [NUL]) with 1%nat in E2. injection H as <-. unfold buf_cstr. rewrite HL.
  destruct (_ || _) eqn:E; [lia|].
  rewrite drop_app_length' by (rewrite length_take; lia).
  rewrite fmap_app. rewrite <- app_assoc. by apply scan_cstr_app.
Qed.

(** Writing over the middle of a buffer. *)
Lemma buf_write_mid pre mid post cs :
  length mid = length cs →
  buf_write (pre ++ mid ++ post) (Z.of_nat (length pre)) cs = Ok (pre ++ (Some <$> cs) ++ post).
Proof.
  intros Hm. rewrite buf_write_ok; rewrite ?length_app; [|lia|lia].
  rewrite Nat2Z.id, take_app_length, <- Hm. do 3 f_equal.
  by rewrite app_assoc, <- length_app, drop_app_length.
Qed.

(** Appending to the string [cs] at offset [length pre]. *)
Lemma strncat_spec pre cs rest src n :
  no_nul cs →
  strncat (pre ++ (Some <$> cs) ++ Some NUL :: rest) (Z.of_nat (length pre)) src n
  = if (length (take_size n src) <=? length rest)%nat
    then Ok (pre ++ (Some <$> cs ++ take_size n src)
             ++ Some NUL :: drop (length (take_size n src)) rest)
    else Crash OutOfBounds.
Proof.
  intros Hn. unfold strncat, buf_cstr. rewrite Nat2Z.id.
  destruct (_ || _) eqn:E; [rewrite length_app in E; lia|]. clear E.
  rewrite drop_app_length, scan_cstr_app by done. cbn [mbind outcome_bind].
  set (t := take_size n src).
  replace (Z.of_nat (length pre) + Z.of_nat (length cs))
    with (Z.of_nat (length (pre ++ (Some <$> cs)))) by (rewrite length_app, length_fmap; lia).
  rewrite app_assoc. destruct (_ <=? _)%nat eqn:E.
  - rewrite <- (take_drop (length t) rest) at 1. rewrite app_comm_cons, buf_write_mid.
    + by rewrite !fmap_app, <- !app_assoc.
    + rewrite length_app. cbn [length]. rewrite length_take. lia.
  - apply buf_write_oob. rewrite !length_app, !length_fmap. cbn [length]. lia.
Qed.

(** * Lemmas on decimal notation and [strtol] *)
Definition is_dec (c : ascii) : Prop := ∃ d, 0 ≤ d < 10 ∧ c = digit_char d.

Lemma digit_val_char d : 0 ≤ d < 10 → digit_val (digit_char d) = Some d.
Proof.
  intros H. unfold digit_val, digit_char.
  rewrite nat_ascii_embedding by lia. rewrite Z2Nat.id by lia.
  destruct (_ && _) eqn:E; [f_equal; lia|].
  apply andb_false_iff in E as [E|E]; lia.
Qed.

Lemma is_dec_digit_val c :
  is_dec c → ∃ d, digit_val c = Some d ∧ 0 ≤ d < 10.
Proof. intros (d & H & ->). exists d. split; [by apply digit_val_char|done]. Qed.

Lemma is_dec_code c : is_dec c → (48 ≤ nat_of_ascii c ≤ 57)%nat.
Proof.
  intros (d & H & ->). unfold digit_char.
  rewrite nat_ascii_embedding by lia. lia.
Qed.

Lemma span_app p l1 l2 :
  Forall (λ c, p c = true) l1 →
  (match l2 with [] => true | c :: _ => negb (p c) end) = true →
  span p (l1 ++ l2) = length l1.
Proof.
  induction 1 as [|c l1 Hc _ IH]; intros H2; cbn [span app length].
  - destruct l2 as [|c l2]; [done|]. cbn. by destruct (p c).
  - change ((c :: l1) ++ l2) with (c :: (l1 ++ l2)). cbn [span].
    rewrite Hc. f_equal. by apply IH.
Qed.

Lemma digits_value_snoc base l c :
  digits_value base (l ++ [c])
  = digits_value base l * base + from_option id 0 (digit_val c).
Proof. unfold digits_value. by rewrite fold_left_app. Qed.

(** The digits accumulate in front of [acc], so the value is read off a
    generalised invariant. *)
Lemma dec_digits_spec fuel z acc :
  0 ≤ z < 2 ^ Z.of_nat fuel → (0 < fuel)%nat →
  ∃ ds, dec_digits fuel z acc = ds ++ acc ∧ Forall is_dec ds ∧ ds ≠ []
        ∧ digits_value 10 ds = z
        ∧ (10 ≤ z → head ds ≠ Some (digit_char 0))
        ∧ (z < 10 → ds = [digit_char z]).
Proof.
  revert z acc. induction fuel as [|fuel IH]; intros z acc Hz Hf; [lia|].
  cbn [dec_digits].
  assert (Hd : is_dec (digit_char (z mod 10))).
  { exists (z mod 10). split; [|done]. apply Z.mod_pos_bound. lia. }
  pose proof (Z.mod_pos_bound z 10 ltac:(lia)) as Hm.
  pose proof (Z.div_mod z 10 ltac:(lia)) as Hdm.
  destruct (z / 10 =? 0) eqn:E.
  - exists [digit_char (z mod 10)]. apply Z.eqb_eq in E.
    assert (Hs : z mod 10 = z) by lia.
    split_and!; [done|by constructor|done| |lia|].
    + cbn. rewrite digit_val_char by lia. cbn. unfold id. lia.
    + intros _. by rewrite Hs.
  - apply Z.eqb_neq in E.
    assert (Hlt : 0 < z / 10 < 2 ^ Z.of_nat fuel).
    { rewrite Nat2Z.inj_succ, Z.pow_succ_r in Hz by lia.
      assert (0 < z / 10) by (pose proof (Z.div_pos z 10); lia).
      pose proof (Z.div_lt_upper_bound z 10 (2 ^ Z.of_nat fuel)). lia. }
    destruct fuel as [|fuel]; [change (2 ^ Z.of_nat 0) with 1 in Hlt; lia|].
    destruct (IH (z / 10) (digit_char (z mod 10) :: acc)) as (ds & Hds & HF & Hne & Hv & Hh & Hs);
      [lia|lia|].
    exists (ds ++ [digit_char (z mod 10)]). rewrite Hds.
    split_and!.
    + by rewrite <- app_assoc.
    + apply Forall_app; split; [done|]. by constructor.
    + by destruct ds.
    + rewrite digits_value_snoc, Hv, digit_val_char by lia. cbn. unfold id. lia.
    + intros _. destruct ds as [|d ds]; [done|]. cbn.
      destruct (decide (10 ≤ z / 10)) as [Hge|Hge]; [by apply Hh|].
      specialize (Hs ltac:(lia)). injection Hs as -> _.
      intros [= H0]. apply (f_equal nat_of_ascii) in H0. unfold digit_char in H0.
      rewrite !nat_ascii_embedding in H0 by lia. lia.
    + lia.
Qed.

Lemma dec_nonneg_spec z :
  0 ≤ z →
  Forall is_dec (dec_nonneg z) ∧ dec_nonneg z ≠ [] ∧ digits_value 10 (dec_nonneg z) = z
  ∧ (10 ≤ z → head (dec_nonneg z) ≠ Some (digit_char 0))
  ∧ (z < 10 → dec_nonneg z = [digit_char z]).
Proof.
  intros Hz. unfold dec_nonneg.
  destruct (dec_digits_spec (S (Z.to_nat (Z.log2 z))) z []) as (ds & -> & H).
  - split; [done|]. rewrite Nat2Z.inj_succ, Z2Nat.id by apply Z.log2_nonneg.
    destruct (decide (z = 0)) as [->|]; [done|]. apply Z.log2_spec. lia.
  - lia.
  - by rewrite app_nil_r.
Qed.

Lemma is_dec_not_space c : is_dec c → is_space c = false.
Proof. intros H. apply is_dec_code in H. unfold is_space. lia. Qed.

Lemma ch_is_dec n c : is_dec c → (n < 48 ∨ 57 < n < 256)%nat → ch n c = false.
Proof.
  intros H Hn. apply is_dec_code in H. apply bool_decide_false. intros ->.
  rewrite nat_ascii_embedding in H by lia. lia.
Qed.

Lemma is_digit_dec base c : is_dec c → 10 ≤ base → is_digit base c = true.
Proof.
  intros H Hb. unfold is_digit. destruct (is_dec_digit_val c H) as (d & -> & Hd). lia.
Qed.

(** The base detected on a printed number: eight for the single digit 0 and
    ten otherwise, so that its value is what was printed either way. *)
Lemma strtol_base_dec z :
  0 ≤ z → strtol_base (dec_nonneg z) = (if bool_decide (z = 0) then 8 else 10, 0%nat).
Proof.
  intros Hz. destruct (dec_nonneg_spec z Hz) as (HF & Hne & _ & Hh & Hs).
  destruct (decide (z = 0)) as [->|Hnz]; [by vm_compute|].
  rewrite bool_decide_false by done. unfold strtol_base.
  destruct (dec_nonneg z) as [|c l] eqn:E; [done|].
  assert (ch 48 c = false) as ->; [|done].
  apply bool_decide_false. change (ascii_of_nat 48) with (digit_char 0).
  intros ->. destruct (decide (10 ≤ z)); [by apply Hh|].
  specialize (Hs ltac:(lia)). injection Hs as Hs _.
  apply (f_equal nat_of_ascii) in Hs. unfold digit_char in Hs.
  rewrite !nat_ascii_embedding in Hs by lia. lia.
Qed.

Lemma span_dec z :
  0 ≤ z →
  span (is_digit (if bool_decide (z = 0) then 8 else 10)) (dec_nonneg z)
  = length (dec_nonneg z).
Proof.
  intros Hz. destruct (decide (z = 0)) as [->|Hnz]; [by vm_compute|].
  rewrite bool_decide_false by done.
  rewrite <- (app_nil_r (dec_nonneg z)) at 1. apply span_app; [|done].
  destruct (dec_nonneg_spec z Hz) as (HF & _).
  eapply Forall_impl; [exact HF|]. intros c Hc. by apply is_digit_dec.
Qed.

Lemma digits_value_dec z :
  0 ≤ z → digits_value (if bool_decide (z = 0) then 8 else 10) (dec_nonneg z) = z.
Proof.
  intros Hz. destruct (decide (z = 0)) as [->|Hnz]; [by vm_compute|].
  rewrite bool_decide_false by done. by apply dec_nonneg_spec.
Qed.

Lemma dec_nonneg_cons z : 0 ≤ z → ∃ c l, dec_nonneg z = c :: l ∧ is_dec c.
Proof.
  intros Hz. destruct (dec_nonneg_spec z Hz) as (HF & Hne & _).
  destruct (dec_nonneg z) as [|c l]; [done|]. inversion HF; subst. by eauto.
Qed.

(** * The integer notations [strtol] reads with base 0 *)

Inductive sign_literal : list ascii → bool → Prop :=
  | sign_none : sign_literal [] false
  | sign_plus : sign_literal [ascii_of_nat 43] false
  | sign_minus : sign_literal [ascii_of_nat 45] true.

(** Digits with the prefix that selects their base. *)
Inductive magnitude_literal : list ascii → Z → Prop :=
  | mag_decimal c l :
      c ≠ ascii_of_nat 48 → Forall (λ c, is_digit 10 c = true) (c :: l) →
      magnitude_literal (c :: l) (digits_value 10 (c :: l))
  | mag_octal l :
      Forall (λ c, is_digit 8 c = true) l →
      magnitude_literal (ascii_of_nat 48 :: l) (digits_value 8 (ascii_of_nat 48 :: l))
  | mag_hex x c l :
      (x = ascii_of_nat 120 ∨ x = ascii_of_nat 88) →
      Forall (λ c, is_digit 16 c = true) (c :: l) →
      magnitude_literal (ascii_of_nat 48 :: x :: c :: l) (digits_value 16 (c :: l)).

(** White space, a sign and a magnitude, with the value they denote. *)
Inductive int_literal : list ascii → Z → Prop :=
  | int_lit ws sg neg mag z :
      Forall (λ c, is_space c = true) ws → sign_literal sg neg →
      magnitude_literal mag z →
      int_literal (ws ++ sg ++ mag) (if neg : bool then - z else z).

Lemma ch_true n c : ch n c = true ↔ c = ascii_of_nat n.
Proof. unfold ch. by rewrite bool_decide_eq_true. Qed.

Lemma ch_false n c : ch n c = false ↔ c ≠ ascii_of_nat n.
Proof. unfold ch. by rewrite bool_decide_eq_false. Qed.

Lemma span_le p l : (span p l ≤ length l)%nat.
Proof. induction l as [|c l IH]; cbn; [lia|]. destruct (p c); lia. Qed.

Lemma span_all p l : Forall (λ c, p c = true) l → span p l = length l.
Proof. intros H. rewrite <- (app_nil_r l) at 1. by apply span_app. Qed.

Lemma span_take p l : Forall (λ c, p c = true) (take (span p l) l).
Proof.
  induction l as [|c l IH]; cbn [span]; [constructor|].
  destruct (p c) eqn:E; [|constructor]. by constructor.
Qed.

Lemma span_full p l : (length l ≤ span p l)%nat → Forall (λ c, p c = true) l.
Proof. intros H. pose proof (span_take p l) as HF. by rewrite take_ge in HF. Qed.

(** What [strtol] finds after the sign of a literal. *)
Lemma strtol_base_literal mag z :
  magnitude_literal mag z →
  ∃ base pre,
    strtol_base mag = (base, pre)
    ∧ span (is_digit base) (drop pre mag) = length (drop pre mag)
    ∧ digits_value base (drop pre mag) = z
    ∧ drop pre mag ≠ [] ∧ (pre ≤ length mag)%nat.
Proof.
  intros H. inversion H as [c l Hc HF|l HF|x c l Hx HF]; subst.
  - exists 10, 0%nat. unfold strtol_base. rewrite (proj2 (ch_false 48 c)) by done.
    rewrite drop_0, span_all by done. split_and!; [done..|cbn; lia].
  - exists 8, 0%nat. rewrite drop_0, span_all by (by constructor).
    split_and!; [|done..|cbn; lia].
    destruct l as [|x [|d l]]; [done..|]. cbn.
    inversion HF as [|? ? Hx HF']; subst.
    assert (ch 120 x = false ∧ ch 88 x = false) as [-> ->]; [|done].
    split; apply ch_false; intros ->; by vm_compute in Hx.
  - exists 16, 2%nat. cbn [drop]. rewrite span_all by done.
    split_and!; [|done..|cbn; lia].
    inversion HF as [|? ? Hc _]; subst. cbn.
    rewrite Hc. by destruct Hx as [-> | ->].
Qed.

Lemma strtol_sign_literal sg neg mag z :
  sign_literal sg neg → magnitude_literal mag z →
  strtol_sign (sg ++ mag) = (neg, length sg).
Proof.
  intros Hs Hm. destruct Hs; [|done|done].
  inversion Hm as [c l Hc HF|l HF|x c l Hx HF]; subst; [|done|done].
  inversion HF as [|? ? Hd _]; subst. cbn.
  assert (ch 45 c = false ∧ ch 43 c = false) as [-> ->]; [|done].
  split; apply ch_false; intros ->; by vm_compute in Hd.
Qed.

Lemma literal_not_space sg neg mag z :
  sign_literal sg neg → magnitude_literal mag z →
  match sg ++ mag with [] => true | c :: _ => negb (is_space c) end = true.
Proof.
  intros Hs Hm. destruct Hs; [|done|done].
  inversion Hm as [c l Hc HF|l HF|x c l Hx HF]; subst; [|done|done].
  inversion HF as [|? ? Hd _]; subst. cbn.
  destruct (is_space c) eqn:E; [|done]. exfalso. revert Hd E.
  unfold is_digit, digit_val, is_space. clear.
  generalize (nat_of_ascii c). intros n Hd E. cbv zeta in *.
  repeat (case_match; simplify_eq/=); try lia.
Qed.

(** [strtol] on a literal consumes all of it and returns its value, clamped. *)
Lemma strtol_literal s z :
  int_literal s z →
  strtol s = {| st_value := clamp_long z; st_end := length s;
                st_erange := negb (clamp_long z =? z) |} ∧ s ≠ [].
Proof.
  destruct 1 as [ws sg neg mag z Hws Hsg Hmag].
  pose proof (literal_not_space _ _ _ _ Hsg Hmag) as Hns.
  pose proof (strtol_sign_literal _ _ _ _ Hsg Hmag) as Hsign.
  destruct (strtol_base_literal _ _ Hmag) as (base & pre & Hb & Hsp & Hv & Hne & Hpre).
  unfold strtol. rewrite span_app by done. rewrite drop_app_length, Hsign.
  rewrite drop_app_length, Hb, Hsp, firstn_all, Hv.
  destruct (length (drop pre mag) =? 0)%nat eqn:E.
  { apply Nat.eqb_eq, length_zero_iff_nil in E. done. }
  assert (Hlen : length (ws ++ sg ++ mag)
                 = (length ws + length sg + pre + length (drop pre mag))%nat).
  { rewrite !length_app, length_drop. lia. }
  split; [by rewrite Hlen|]. intros Hnil. rewrite Hnil in Hlen. cbn in Hlen. lia.
Qed.

Lemma strtol_sign_inv l neg sg :
  strtol_sign l = (neg, sg) →
  sign_literal (take sg l) neg ∧ (sg ≤ length l)%nat.
Proof.
  unfold strtol_sign. destruct l as [|c l]; [intros [= <- <-]; split; [constructor|done]|].
  destruct (ch 45 c) eqn:E1; [apply ch_true in E1 as ->|destruct (ch 43 c) eqn:E2];
    [|apply ch_true in E2 as ->|]; intros [= <- <-]; cbn; (split; [constructor|lia]).
Qed.

Lemma strtol_base_inv l base pre :
  strtol_base l = (base, pre) →
  span (is_digit base) (drop pre l) = length (drop pre l) →
  drop pre l ≠ [] →
  magnitude_literal l (digits_value base (drop pre l)) ∧ (pre ≤ length l)%nat.
Proof.
  intros Hb Hsp Hne. assert (Hf := span_full _ _ (eq_ind_r (λ k, (_ ≤ k)%nat) (le_n _) Hsp)).
  clear Hsp. destruct l as [|c l]; [by destruct pre|].
  unfold strtol_base in Hb. destruct (ch 48 c) eqn:E0.
  - apply ch_true in E0 as ->.
    destruct l as [|x [|d l]]; [by simplify_eq; split; [by apply (mag_octal [])|cbn; lia]| |].
    + injection Hb as <- <-. rewrite drop_0 in *. inversion Hf; subst.
      split; [by apply mag_octal|cbn; lia].
    + destruct ((ch 120 x || ch 88 x) && is_digit 16 d) eqn:E1; injection Hb as <- <-.
      * apply andb_true_iff in E1 as [E1 E2]. apply orb_true_iff in E1.
        rewrite !ch_true in E1. cbn [drop] in *. split; [by apply mag_hex|cbn; lia].
      * rewrite drop_0 in *. inversion Hf; subst. split; [by apply mag_octal|cbn; lia].
  - apply ch_false in E0. injection Hb as <- <-. rewrite drop_0 in *.
    split; [by apply mag_decimal|cbn; lia].
Qed.

(** Conversely, what is consumed completely is a literal. *)
Lemma strtol_complete s :
  st_end (strtol s) = length s → s ≠ [] →
  ∃ z, int_literal s z ∧ st_value (strtol s) = clamp_long z.
Proof.
  intros He Hs. unfold strtol in *.
  destruct (strtol_sign _) as [neg sg] eqn:Esg.
  destruct (strtol_base _) as [base pre] eqn:Eb.
  set (ws := span is_space s) in *. set (l1 := drop ws s) in *. set (l2 := drop sg l1) in *.
  destruct (_ =? 0)%nat eqn:En; cbn [st_end st_value] in *.
  { destruct s; [done|]. cbn in He. lia. }
  apply strtol_sign_inv in Esg as [Hsign Hsg].
  assert (Hws : (ws ≤ length s)%nat) by apply span_le.
  assert (Hl1 : length l1 = (length s - ws)%nat) by (unfold l1; apply length_drop).
  assert (Hl2 : length l2 = (length l1 - sg)%nat) by (unfold l2; apply length_drop).
  pose proof (span_le (is_digit base) (drop pre l2)) as Hn.
  rewrite length_drop in Hn.
  assert (Hfull : span (is_digit base) (drop pre l2) = length (drop pre l2)).
  { rewrite length_drop. apply Nat.eqb_neq in En. lia. }
  apply strtol_base_inv in Eb as [Hmag Hpre]; [|done|].
  2: { intros Hnil. rewrite Hnil in En. done. }
  rewrite Hfull, firstn_all. eexists. split; [|reflexivity].
  rewrite <- (take_drop ws s). fold l1. rewrite <- (take_drop sg l1). fold l2.
  apply int_lit; [apply span_take|done|done].
Qed.

(** The decimal notation of an integer is a literal for it. *)
Lemma dec_nonneg_literal z : 0 ≤ z → magnitude_literal (dec_nonneg z) z.
Proof.
  intros Hz. pose proof (strtol_base_dec z Hz) as Hb. pose proof (span_dec z Hz) as Hs.
  pose proof (digits_value_dec z Hz) as Hv.
  destruct (dec_nonneg_cons z Hz) as (c & l & Hc & _).
  apply strtol_base_inv in Hb; rewrite ?drop_0 in *; [|done|by rewrite Hc].
  by rewrite Hv in Hb; destruct Hb.
Qed.

Lemma dec_literal z : int_literal (dec z) z.
Proof.
  unfold dec. destruct (z <? 0) eqn:E.
  - rewrite <- (Z.opp_involutive z) at 2.
    apply (int_lit [] [ascii_of_nat 45] true); [constructor..|].
    apply dec_nonneg_literal. lia.
  - apply (int_lit [] [] false); [constructor..|]. apply dec_nonneg_literal. lia.
Qed.

(** Every value [strtol] returns is a [long]. *)
Lemma strtol_range s : LONG_MIN ≤ st_value (strtol s) ≤ LONG_MAX.
Proof.
  assert (H : ∀ v, LONG_MIN ≤ clamp_long v ≤ LONG_MAX)
    by (intros v; unfold clamp_long, LONG_MIN, LONG_MAX; lia).
  unfold strtol. destruct (strtol_sign _) as [neg sg]. destruct (strtol_base _) as [base pre].
  case_match; cbn; [unfold LONG_MIN, LONG_MAX; lia|apply H].
Qed.

#[export] Hint Resolve strtol_range span_le : mq.
