(* ===== verification/Getopt.v ===== *)
(** [getopt_long] of the C library, as [main] uses it: from the elements of
    [argv] behind the program's name to the options it returns, one after the
    other, and the grammar of the command lines it accepts. *)
From Stdlib Require Import ZArith Lia Ascii String List.
From stdpp Require Import base numbers list sets strings.
From S2P Require Import Prelude.

Module Getopt.

Abbreviation DASH := "-"%char.
Abbreviation EQUALS := "="%char.
Abbreviation COLON := ":"%char.
Abbreviation QUESTION := "?"%char.

(** [struct option]: the name, whether [has_arg] is [required_argument] or
    [no_argument], and [val]; [flag] is null. *)
Record long_option := { lo_name : string; lo_arg : bool; lo_val : ascii }.

(** What one call returns, and [optarg] after it. *)
Record option_found := Found { of_value : ascii; of_optarg : option string }.

Abbreviation unknown := (Found QUESTION None).

#[global] Instance long_option_eq_dec : EqDecision long_option.
Proof. solve_decision. Defined.
#[global] Instance option_found_eq_dec : EqDecision option_found.
Proof. solve_decision. Defined.

(** [strchr(optstring, c)] and the character behind it: whether the option [c]
    has an argument. *)
Fixpoint lookup_short (optstring : list ascii) (c : ascii) : option bool :=
  match optstring with
  | [] => None
  | x :: optstring' =>
      if bool_decide (x = c) then Some (bool_decide (head optstring' = Some COLON))
      else lookup_short optstring' c
  end.

Definition short_option (optstring : list ascii) (c : ascii) : option bool :=
  if bool_decide (c = COLON) || bool_decide (c = ";"%char) then None
  else lookup_short optstring c.

(** The option a name stands for: the one of that name, else the one it
    abbreviates, where several that differ are ambiguous. *)
Definition find_long (longs : list long_option) (name : string) : option long_option :=
  match filter (λ o, lo_name o = name) longs with
  | o :: _ => Some o
  | [] =>
      match filter (λ o, String.prefix name (lo_name o) = true) longs with
      | [] => None
      | o :: os =>
          if forallb (λ o', Bool.eqb (lo_arg o') (lo_arg o) && Ascii.eqb (lo_val o') (lo_val o)) os
          then Some o else None
      end
  end.

(** The name before the first [=], and what follows it. *)
Fixpoint split_equals (s : string) : string * option string :=
  match s with
  | EmptyString => (EmptyString, None)
  | String c s' =>
      if bool_decide (c = EQUALS) then (EmptyString, Some s')
      else let '(name, v) := split_equals s' in (String c name, v)
  end.

(** The options of one element, behind its dash; and the last one's letter when
    its argument is the next element. *)
Fixpoint cluster (optstring : list ascii) (s : string) : list option_found * option ascii :=
  match s with
  | EmptyString => ([], None)
  | String c s' =>
      match short_option optstring c with
      | Some true =>
          match s' with
          | EmptyString => ([], Some c)
          | _ => ([Found c (Some s')], None)
          end
      | r =>
          let '(l, pending) := cluster optstring s' in
          ((match r with Some _ => Found c None | None => unknown end) :: l, pending)
      end
  end.

(** All that [getopt_long] returns until it returns -1. Elements that are no
    options are passed over: the function moves them to the end of [argv]. *)
Fixpoint getopt_long (optstring : list ascii) (longs : list long_option) (argv : list string)
    : list option_found :=
  match argv with
  | [] => []
  | a :: argv' =>
      (** An option [c] that takes the next element as its argument. *)
      let next c :=
        match argv' with
        | [] => [unknown]
        | v :: argv'' => Found c (Some v) :: getopt_long optstring longs argv''
        end in
      match a with
      | String c1 (String c2 s) =>
          if negb (bool_decide (c1 = DASH)) then getopt_long optstring longs argv'
          else if bool_decide (c2 = DASH) then
            if bool_decide (s = EmptyString) then []
            else
              let '(name, v) := split_equals s in
              match find_long longs name with
              | None => unknown :: getopt_long optstring longs argv'
              | Some o =>
                  match lo_arg o, v with
                  | false, None => Found (lo_val o) None :: getopt_long optstring longs argv'
                  | false, Some _ => unknown :: getopt_long optstring longs argv'
                  | true, Some _ => Found (lo_val o) v :: getopt_long optstring longs argv'
                  | true, None => next (lo_val o)
                  end
              end
          else
            let '(l, pending) := cluster optstring (String c2 s) in
            l ++ match pending with
                 | None => getopt_long optstring longs argv'
                 | Some c => next c
                 end
      | _ => getopt_long optstring longs argv'
      end
  end.

(** * The grammar *)

(** A name that stands for an option: it begins this option's name, and no
    other's. *)
Definition stands_for (longs : list long_option) (name : string) (o : long_option) : Prop :=
  o ∈ longs ∧ String.prefix name (lo_name o) = true
  ∧ ∀ o', o' ∈ longs → String.prefix name (lo_name o') = true → o' = o.

(** An element that is no option: it does not begin with a dash, or is one. *)
Definition operand (a : string) : Prop := a = "-" ∨ ∀ s, a ≠ String DASH s.

Definition flag (c : ascii) : option_found := Found c None.

Section grammar.
Context (optstring : list ascii) (longs : list long_option).

Definition is_flag (c : ascii) : Prop := short_option optstring c = Some false.
Definition has_argument (c : ascii) : Prop := short_option optstring c = Some true.

(** The command lines, and the options they spell. *)
Inductive spells : list string → list option_found → Prop :=
  | sp_nil : spells [] []
  | sp_end operands : spells ("--" :: operands) []
  | sp_operand a argv l : operand a → spells argv l → spells (a :: argv) l
  | sp_long name o argv l :
      stands_for longs name o → EQUALS ∉ explode name → name ≠ "" → lo_arg o = false →
      spells argv l → spells (("--" +:+ name) :: argv) (flag (lo_val o) :: l)
  | sp_long_equals name v o argv l :
      stands_for longs name o → EQUALS ∉ explode name → lo_arg o = true →
      spells argv l →
      spells (("--" +:+ name +:+ "=" +:+ v) :: argv) (Found (lo_val o) (Some v) :: l)
  | sp_long_next name v o argv l :
      stands_for longs name o → EQUALS ∉ explode name → name ≠ "" → lo_arg o = true →
      spells argv l →
      spells (("--" +:+ name) :: v :: argv) (Found (lo_val o) (Some v) :: l)
  | sp_flags cs argv l :
      Forall is_flag cs → cs ≠ [] → spells argv l →
      spells (String DASH (implode cs) :: argv) ((flag <$> cs) ++ l)
  | sp_attached cs c v argv l :
      Forall is_flag cs → has_argument c → v ≠ "" → spells argv l →
      spells (String DASH (implode cs +:+ String c v) :: argv)
             ((flag <$> cs) ++ Found c (Some v) :: l)
  | sp_next cs c v argv l :
      Forall is_flag cs → has_argument c → spells argv l →
      spells (String DASH (implode cs +:+ String c "") :: v :: argv)
             ((flag <$> cs) ++ Found c (Some v) :: l).

(** The tables hold no option twice, the name of none begins another's, and [?]
    and [-] are none. *)
Record tables_ok : Prop := {
  tb_long : ∀ o o', o ∈ longs → o' ∈ longs →
            String.prefix (lo_name o) (lo_name o') = true ∨ lo_val o = lo_val o' → o = o';
  tb_value : ∀ o, o ∈ longs → lo_val o ≠ QUESTION;
  tb_unknown : short_option optstring QUESTION = None;
  tb_dash : short_option optstring DASH = None;
}.

Lemma prefix_refl s : String.prefix s s = true.
Proof. induction s as [|c s IH]; [done|]. cbn. by destruct (ascii_dec c c). Qed.

Lemma elem_of_filtered (P : long_option → Prop) `{∀ o, Decision (P o)} os o :
  filter P longs = os → o ∈ os ↔ P o ∧ o ∈ longs.
Proof. intros <-. apply list_elem_of_filter. Qed.

Lemma find_long_spec name o :
  tables_ok → find_long longs name = Some o ↔ stands_for longs name o.
Proof.
  intros [Hl _ _ _]. unfold find_long, stands_for.
  destruct (filter (λ o, lo_name o = name) longs) as [|o1 os] eqn:E1.
  - destruct (filter (λ o, String.prefix name (lo_name o) = true) longs) as [|o2 os] eqn:E2;
      pose proof (fun x => elem_of_filtered _ _ x E2) as H2; cbn beta in H2.
    { split; [done|]. intros (Hin & Hp & _). destruct (not_elem_of_nil o). by apply H2. }
    destruct (proj1 (H2 o2)) as [Hp2 Hin2]; [by left|]. destruct (forallb _ os) eqn:Ef.
    + assert (Hall : ∀ o', o' ∈ longs → String.prefix name (lo_name o') = true → o' = o2).
      { intros o' Hin Hp. assert (Hos : o' ∈ o2 :: os) by (by apply H2).
        apply elem_of_cons in Hos as [->|Hos]; [done|]. rewrite forallb_forall in Ef. apply list_elem_of_In, Ef in Hos.
        apply andb_prop in Hos as [_ Hv%Ascii.eqb_eq]. apply Hl; auto. }
      split; [by intros [= ->]|]. intros (Hin & Hp & _). by rewrite (Hall o).
    + split; [done|]. intros (Hin & Hp & Hall).
      assert (o2 = o) as <- by auto. apply not_true_iff_false in Ef. destruct Ef.
      apply forallb_forall. intros o' Ho'%list_elem_of_In. assert (o' = o2) as ->.
      { apply Hall; apply H2; by right. }
      by rewrite eqb_reflx, Ascii.eqb_refl.
  - destruct (proj1 (elem_of_filtered _ _ o1 E1)) as [<- Hin]; [by left|]. split.
    + intros [= <-]. split_and!; [done|apply prefix_refl|]. intros o' Hin' Hp. symmetry.
      apply Hl; auto.
    + intros (_ & _ & Hall). rewrite (Hall o1); [done..|apply prefix_refl].
Qed.

Lemma split_equals_plain name : EQUALS ∉ explode name → split_equals name = (name, None).
Proof.
  induction name as [|c name IH]; [done|]. rewrite explode_cons, not_elem_of_cons. intros [Hc Hn].
  cbn. rewrite bool_decide_false, IH by done. done.
Qed.

Lemma split_equals_at name v :
  EQUALS ∉ explode name → split_equals (name +:+ "=" +:+ v) = (name, Some v).
Proof.
  induction name as [|c name IH]; [done|]. rewrite explode_cons, not_elem_of_cons. intros [Hc Hn].
  change (String c name +:+ "=" +:+ v) with (String c (name +:+ "=" +:+ v)).
  cbn [split_equals]. rewrite bool_decide_false, IH by done. done.
Qed.

Lemma split_equals_inv s name v :
  split_equals s = (name, v) →
  (EQUALS ∉ explode name) ∧ s = (match v with None => name | Some v => name +:+ "=" +:+ v end).
Proof.
  revert name v. induction s as [|c s IH]; intros name v; cbn [split_equals].
  { intros [= <- <-]. split; [apply not_elem_of_nil|done]. }
  case_bool_decide as Hc.
  - intros [= <- <-]. subst c. split; [apply not_elem_of_nil|done].
  - destruct (split_equals s) as [n v'] eqn:E. intros [= <- <-].
    destruct (IH _ _ eq_refl) as [Hn ->]. split; [by rewrite explode_cons, not_elem_of_cons|]. by destruct v'.
Qed.

(** The letters before one that takes an argument. *)
Lemma cluster_flags cs s :
  Forall is_flag cs →
  cluster optstring (implode cs +:+ s)
  = ((flag <$> cs) ++ fst (cluster optstring s), snd (cluster optstring s)).
Proof.
  unfold is_flag. induction 1 as [|c cs Hc Hcs IH].
  { change (implode [] +:+ s) with s. by destruct (cluster optstring s). }
  change (implode (c :: cs) +:+ s) with (String c (implode cs +:+ s)).
  cbn [cluster]. rewrite Hc, IH. done.
Qed.

Lemma cluster_argument c s :
  has_argument c →
  cluster optstring (String c s) = match s with
                                   | EmptyString => ([], Some c)
                                   | _ => ([Found c (Some s)], None)
                                   end.
Proof. unfold has_argument. intros Hc. cbn [cluster]. by rewrite Hc. Qed.

(** The elements without an unknown letter. *)
Lemma cluster_inv s l pending :
  cluster optstring s = (l, pending) → unknown ∉ l →
  ∃ cs, Forall is_flag cs ∧
    match pending with
    | Some c => l = flag <$> cs ∧ s = implode cs +:+ String c "" ∧ has_argument c
    | None => l = flag <$> cs ∧ s = implode cs
              ∨ ∃ c v, l = (flag <$> cs) ++ [Found c (Some v)] ∧ has_argument c ∧ v ≠ ""
                       ∧ s = implode cs +:+ String c v
    end.
Proof.
  revert l. induction s as [|c s IH]; intros l.
  { intros [= <- <-] _. exists []. split; [constructor|by left]. }
  cbn [cluster]. destruct (short_option optstring c) as [[]|] eqn:Ec.
  - destruct s as [|c' s]; intros [= <- <-] _; (exists []; split; [constructor|]).
    + done.
    + right. by exists c, (String c' s).
  - destruct (cluster optstring s) as [l' p']. intros [= <- <-] Hl.
    destruct (IH l' eq_refl) as (cs & Hcs & H); [set_solver|].
    exists (c :: cs). split; [by constructor|]. destruct p' as [c'|].
    + destruct H as (-> & -> & Hc). done.
    + destruct H as [[-> ->]|(c' & v & -> & Hc & Hv & ->)]; [by left|]. right. by exists c', v.
  - destruct (cluster optstring s) as [l' p']. intros [= <- <-] Hl. set_solver.
Qed.

Abbreviation getopt := (getopt_long optstring longs).

Lemma getopt_operand a argv : operand a → getopt (a :: argv) = getopt argv.
Proof.
  intros Ha. cbn [getopt_long]. destruct a as [|c1 [|c2 s]]; [done..|].
  rewrite bool_decide_false; [done|]. intros ->. destruct Ha as [Ha|Ha]; [done|]. by destruct (Ha (String c2 s)).
Qed.

(** The element of a long option. *)
Lemma getopt_dashes s argv :
  s ≠ "" →
  getopt (("--" +:+ s) :: argv) =
  let '(name, v) := split_equals s in
  match find_long longs name with
  | None => unknown :: getopt argv
  | Some o =>
      match lo_arg o, v with
      | false, None => Found (lo_val o) None :: getopt argv
      | false, Some _ => unknown :: getopt argv
      | true, Some _ => Found (lo_val o) v :: getopt argv
      | true, None => match argv with
                      | [] => [unknown]
                      | v :: argv' => Found (lo_val o) (Some v) :: getopt argv'
                      end
      end
  end.
Proof.
  intros Hs. change ("--" +:+ s) with (String DASH (String DASH s)). cbn [getopt_long].
  by rewrite !bool_decide_true, bool_decide_false by done.
Qed.

(** The element of short options. *)
Lemma getopt_cluster s argv :
  s ≠ "" → (∀ s', s ≠ String DASH s') →
  getopt (String DASH s :: argv) =
  fst (cluster optstring s) ++
  match snd (cluster optstring s) with
  | None => getopt argv
  | Some c => match argv with
              | [] => [unknown]
              | v :: argv' => Found c (Some v) :: getopt argv'
              end
  end.
Proof.
  intros Hs Hd. destruct s as [|c2 s]; [done|]. cbn [getopt_long].
  rewrite bool_decide_true by done. cbn [negb].
  rewrite bool_decide_false by (intros ->; by apply (Hd s)).
  by destruct (cluster optstring (String c2 s)).
Qed.

(** An element is an operand, the end of the options, a long option or letters. *)
Lemma element_cases a :
  operand a ∨ a = "--" ∨ (∃ s, s ≠ "" ∧ a = "--" +:+ s)
  ∨ ∃ s, s ≠ "" ∧ (∀ s', s ≠ String DASH s') ∧ a = String DASH s.
Proof.
  destruct a as [|c1 s]; [left; by right|]. destruct (decide (c1 = DASH)) as [->|Hc].
  2:{ left. right. congruence. }
  destruct s as [|c2 s]; [left; by left|]. right. destruct (decide (c2 = DASH)) as [->|Hc2].
  - destruct s as [|c3 s]; [by left|]. right. left. by exists (String c3 s).
  - right. right. exists (String c2 s). split_and!; congruence.
Qed.

Lemma getopt_spells argv : tables_ok → unknown ∉ getopt argv → spells argv (getopt argv).
Proof.
  intros Ht. remember (length argv) as n eqn:Hn. assert (Hle : (length argv ≤ n)%nat) by lia.
  clear Hn. revert argv Hle. induction n as [|n IH]; intros argv Hle.
  { destruct argv; [constructor|cbn in Hle; lia]. }
  destruct argv as [|a argv]; [constructor|]. cbn [length] in Hle.
  assert (IH1 : unknown ∉ getopt argv → spells argv (getopt argv)) by (apply IH; lia).
  assert (IH2 : ∀ v argv', argv = v :: argv' → unknown ∉ getopt argv' → spells argv' (getopt argv'))
    by (intros v argv' ->; apply IH; cbn in Hle; lia). clear IH Hle.
  destruct (element_cases a) as [Ha|[->|[(s & Hs & ->)|(s & Hs & Hd & ->)]]].
  - rewrite getopt_operand by done. intros H. constructor; auto.
  - intros _. constructor.
  - rewrite getopt_dashes by done. destruct (split_equals s) as [name v] eqn:E.
    apply split_equals_inv in E as [Hn ->].
    destruct (find_long longs name) as [o|] eqn:Eo; [|set_solver].
    apply find_long_spec in Eo; [|done].
    destruct (lo_arg o) eqn:Ea, v as [v|].
    + intros H. apply sp_long_equals; [done..|]. apply IH1. set_solver.
    + destruct argv as [|v argv]; [set_solver|]. intros H. apply sp_long_next; [done..|].
      eapply IH2; [done|]. set_solver.
    + intros H. destruct H. by left.
    + intros H. apply sp_long; [done..|]. apply IH1. set_solver.
  - rewrite getopt_cluster by done. destruct (cluster optstring s) as [l p] eqn:E. cbn [fst snd].
    intros H. apply cluster_inv in E as (cs & Hcs & E); [|set_solver]. destruct p as [c|].
    + destruct E as (-> & -> & Hc). destruct argv as [|v argv]; [set_solver|].
      apply sp_next; [done..|]. eapply IH2; [done|]. set_solver.
    + destruct E as [[-> ->]|(c & v & -> & Hc & Hv & ->)].
      * apply sp_flags; [done|by intros ->|]. apply IH1. set_solver.
      * rewrite <- app_assoc. apply sp_attached; [done..|]. apply IH1. set_solver.
Qed.

(** Letters of options are neither the unknown option nor a dash. *)
Lemma option_letter c b : tables_ok → short_option optstring c = Some b → c ≠ QUESTION ∧ c ≠ DASH.
Proof. intros [_ _ Hu Hd] Hc. split; intros ->; congruence. Qed.

Lemma not_unknown v a l : v ≠ QUESTION → unknown ∉ l → unknown ∉ Found v a :: l.
Proof. intros Hv Hl. apply not_elem_of_cons. split; [congruence|done]. Qed.

Lemma not_unknown_flags cs l :
  tables_ok → Forall is_flag cs → unknown ∉ l → unknown ∉ (flag <$> cs) ++ l.
Proof.
  intros Ht Hcs Hl. induction Hcs as [|c cs Hc Hcs IH]; [done|]. apply not_unknown; [|done].
  by eapply option_letter.
Qed.

(** Letters are no long option: they do not begin with a dash. *)
Lemma letters_no_dash cs s s' :
  tables_ok → Forall is_flag cs → (cs = [] → ∀ s', s ≠ String DASH s') →
  implode cs +:+ s ≠ String DASH s'.
Proof.
  intros Ht Hcs Hs. destruct Hcs as [|c cs Hc _]; [by apply Hs|]. intros [= -> _].
  by apply option_letter in Hc as [_ ?].
Qed.

Lemma spells_getopt argv l : tables_ok → spells argv l → getopt argv = l ∧ unknown ∉ l.
Proof.
  intros Ht. induction 1 as [|operands|a argv l Ha Hs [<- IH]|name o argv l Ho Hn Hne Ha Hs [<- IH]
    |name v o argv l Ho Hn Ha Hs [<- IH]|name v o argv l Ho Hn Hne Ha Hs [<- IH]
    |cs argv l Hcs Hne Hs [<- IH]|cs c v argv l Hcs Hc Hv Hs [<- IH]|cs c v argv l Hcs Hc Hs [<- IH]].
  - split; [done|set_solver].
  - split; [done|set_solver].
  - by rewrite getopt_operand.
  - rewrite getopt_dashes, split_equals_plain by done.
    rewrite (proj2 (find_long_spec _ _ Ht) Ho), Ha. split; [done|].
    apply not_unknown; [|done]. by apply (tb_value Ht), Ho.
  - rewrite getopt_dashes by (by destruct name). rewrite split_equals_at by done.
    rewrite (proj2 (find_long_spec _ _ Ht) Ho), Ha. split; [done|].
    apply not_unknown; [|done]. by apply (tb_value Ht), Ho.
  - rewrite getopt_dashes, split_equals_plain by done.
    rewrite (proj2 (find_long_spec _ _ Ht) Ho), Ha. split; [done|].
    apply not_unknown; [|done]. by apply (tb_value Ht), Ho.
  - rewrite <- (str_app_nil_r (implode cs)). rewrite getopt_cluster.
    + rewrite cluster_flags by done. cbn [fst snd cluster]. rewrite app_nil_r.
      split; [done|by apply not_unknown_flags].
    + by destruct cs.
    + intros s'. by apply letters_no_dash.
  - rewrite getopt_cluster.
    + rewrite cluster_flags, cluster_argument by done. destruct v as [|cv v]; [done|].
      cbn [fst snd]. rewrite <- app_assoc. split; [done|]. apply not_unknown_flags; [done..|].
      apply not_unknown; [by eapply option_letter|done].
    + by destruct cs.
    + intros s'. apply letters_no_dash; [done..|]. intros _ s2 [= -> _].
      by apply option_letter in Hc as [_ ?].
  - rewrite getopt_cluster.
    + rewrite cluster_flags, cluster_argument by done.
      cbn [fst snd]. rewrite app_nil_r. split; [done|]. apply not_unknown_flags; [done..|].
      apply not_unknown; [by eapply option_letter|done].
    + by destruct cs.
    + intros s'. apply letters_no_dash; [done..|]. intros _ s2 [= -> _].
      by apply option_letter in Hc as [_ ?].
Qed.

(** The options a table has with an argument, or without. *)
Definition takes (v : ascii) (b : bool) : Prop :=
  short_option optstring v = Some b ∨ ∃ o, o ∈ longs ∧ lo_val o = v ∧ lo_arg o = b.

Definition well_formed (f : option_found) : Prop :=
  f = unknown ∨ takes (of_value f) (bool_decide (is_Some (of_optarg f))).

Lemma find_long_elem name o : find_long longs name = Some o → o ∈ longs.
Proof.
  unfold find_long. destruct (filter _ longs) as [|o1 os] eqn:E1.
  - clear E1. destruct (filter _ longs) as [|o2 os] eqn:E2; [done|]. destruct (forallb _ _); [|done].
    intros [= <-]. by apply (elem_of_filtered _ _ o2 E2); left.
  - intros [= <-]. by apply (elem_of_filtered _ _ o1 E1); left.
Qed.

Lemma cluster_well_formed s :
  Forall well_formed (fst (cluster optstring s))
  ∧ ∀ c, snd (cluster optstring s) = Some c → has_argument c.
Proof.
  induction s as [|c s IH]; [done|]. cbn [cluster].
  destruct (short_option optstring c) as [[]|] eqn:Ec.
  - destruct s as [|c' s]; cbn [fst snd]; (split; [|by intros ? [= <-]]); [done|].
    constructor; [|done]. right. by left.
  - destruct (cluster optstring s) as [l p]. destruct IH as [IH1 IH2]. split; [|done].
    constructor; [|done]. right. by left.
  - destruct (cluster optstring s) as [l p]. destruct IH as [IH1 IH2]. split; [|done].
    constructor; [by left|done].
Qed.

(** Every option returned has its argument, when it takes one. *)
Lemma getopt_well_formed argv : Forall well_formed (getopt argv).
Proof.
  remember (length argv) as n eqn:Hn. assert (Hle : (length argv ≤ n)%nat) by lia.
  clear Hn. revert argv Hle. induction n as [|n IH]; intros argv Hle.
  { destruct argv; [constructor|cbn in Hle; lia]. }
  destruct argv as [|a argv]; [constructor|]. cbn [length] in Hle.
  assert (IH1 : Forall well_formed (getopt argv)) by (apply IH; lia).
  assert (Hnext : ∀ c, takes c true → Forall well_formed
    match argv with [] => [unknown] | v :: argv' => Found c (Some v) :: getopt argv' end).
  { intros c Hc. destruct argv as [|v argv]; constructor; [by left|done|by right|].
    apply IH. cbn in Hle. lia. }
  clear IH Hle. destruct (element_cases a) as [Ha|[->|[(s & Hs & ->)|(s & Hs & Hd & ->)]]].
  - by rewrite getopt_operand.
  - constructor.
  - rewrite getopt_dashes by done. destruct (split_equals s) as [name v].
    destruct (find_long longs name) as [o|] eqn:Eo; [|constructor; [by left|done]].
    apply find_long_elem in Eo. assert (Ht : takes (lo_val o) (lo_arg o)) by (right; eauto).
    destruct (lo_arg o), v as [v|]; try (constructor; [|done]); [by right|by apply Hnext|by left|by right].
  - rewrite getopt_cluster by done. destruct (cluster_well_formed s) as [H1 H2].
    apply Forall_app. split; [done|]. destruct (snd (cluster optstring s)) as [c|]; [|done].
    apply Hnext. left. by apply H2.
Qed.

End grammar.

End Getopt.
