(* ===== verification/Types.v ===== *)
(** The data of the program: the structs and enums of [src/*.h], the values
    that cross the boundary to the libraries, and the calls to them. *)
From Stdlib Require Import ZArith Lia ZifyBool Ascii String List.
From stdpp Require Import base numbers list strings gmap.
From S2P Require Import Prelude.
From S2P Require Import CLib.

(** Addresses of the heap; a pointer is an address or NULL. *)
Abbreviation loc := positive (only parsing).
Abbreviation ptr := (option positive) (only parsing).
(** Handles of the libraries, never looked into by the program. *)
Abbreviation mosq_ptr := positive (only parsing).
Abbreviation cfg_ptr := positive (only parsing).

(** [const char *] values are C strings or NULL. *)
Abbreviation cstr := (option string) (only parsing).

(** * configuration.h *)
Record Configuration := {
  appname : cstr;
  logtarget : cstr;
  cf_logfile : cstr;
  logfacility : cstr;
  cf_loglevel : cstr;
  mqtt_broker_host : cstr;
  mqtt_broker_port : Z;
  mqtt_keepalive : Z;
  mqtt_tls : bool;
  mqtt_cafile : cstr;
  mqtt_capath : cstr;
  mqtt_certfile : cstr;
  mqtt_keyfile : cstr;
  mqtt_user_pw : bool;
  mqtt_user : cstr;
  mqtt_pw : cstr;
}.

Record Mqtt2RestUnitConfiguration := {
  m2r_unit_name : cstr;
  m2r_enabled : bool;
  m2r_webservice_baseurl : cstr;
  m2r_mqtt_topic : cstr;
  m2r_common_configuration : ptr;
}.

Record Rest2MqttUnitConfiguration := {
  r2m_unit_name : cstr;
  r2m_enabled : bool;
  r2m_listen_port : Z;
  r2m_mqtt_topic_root : cstr;
  r2m_common_configuration : ptr;
}.

(** * mqtt_client.h and mqtt_client.c *)

(** The values the function pointer [msg_callback] takes. *)
Inductive msg_callback := on_mqtt_msg_cb.

Record MqttClientConfiguration := {
  label : cstr;
  topic : cstr;
  broker_host : cstr;
  broker_port : Z;
  keepalive : Z;
  tls_enabled : bool;
  cafile : cstr;
  capath : cstr;
  certfile : cstr;
  keyfile : cstr;
  user_pw_auth_enabled : bool;
  user : cstr;
  pw : cstr;
  callback_context : ptr;
  msg_callback_ptr : option msg_callback;
}.

Record MqttClientHandle := {
  mosq : mosq_ptr;
  config : MqttClientConfiguration;
  connected : bool;
}.

(** * rest2mqtt_unit.c *)
Record IncomingData := {
  in_length : nat;
  in_data : ptr;
}.

(** * logging.h and logging.c *)
Inductive log_msg_type := log_fatal | log_error | log_warning | log_info | log_debug.

(** The functions the pointer [log_print] can hold. *)
Inductive log_printer := log_to_file | log_to_console | log_to_syslog.

Record LogState := {
  loglevel : Z;
  logfile : option string;      (* the open FILE, by its path *)
  logfilename : cstr;
  log_print_ptr : option log_printer;
}.

(** Where a logging macro is used: __FILE__, __LINE__, __PRETTY_FUNCTION__. *)
Record site := At { s_file : string; s_line : Z; s_func : string }.

Inductive output :=
  | to_file (s : list ascii)
  | to_stdout (s : list ascii)
  | to_stderr (s : list ascii)
  | to_syslog (priority : Z) (fmt : string).

(** Broken-down local time, the fields the program prints. *)
Record tm := { tm_hour : Z; tm_min : Z; tm_sec : Z }.

(** * The heap *)
Inductive obj :=
  | OConfiguration (c : Configuration)
  | OMqtt2Rest (u : Mqtt2RestUnitConfiguration)
  | ORest2Mqtt (u : Rest2MqttUnitConfiguration)
  | OHandle (h : MqttClientHandle)
  | OIncoming (d : IncomingData)
  | OBytes (size : nat) (cells : list cell)
  | OUninit.

(** * Values at the boundary *)

(** What libmosquitto calls back during one call of the program into it. *)
Inductive mosq_cb :=
  | CB_log (level : Z) (str : string)
  | CB_connect (result : Z)
  | CB_message (topic : string) (payload : option (list ascii))
  | CB_subscribe (mid : Z) (granted_qos : list Z)
  | CB_disconnect (rc : Z).

Inductive cb_kind := Cb_log | Cb_connect | Cb_message | Cb_subscribe | Cb_disconnect.

(** One call of the access handler by libmicrohttpd. [upload_data] is the
    memory from the pointer to the end of its buffer. *)
Record mhd_call := {
  mh_request : positive;
  mh_url : string;
  mh_method : string;
  mh_version : string;
  mh_upload_data : option (list ascii);
  mh_upload_data_size : nat;
}.

Record fdset_result := {
  fs_ret : Z;
  fs_rs : list Z; fs_ws : list Z; fs_es : list Z;
  fs_max : Z;
}.

Record pollfd := { pfd_fd : Z; pfd_events : Z; pfd_revents : Z }.

Record poll_result := { pr_ret : Z; pr_errno : Z; pr_revents : list Z }.

(** Options handed to libconfuse. *)
Inductive cfg_opt :=
  | CFG_STR (name : string) (default : string)
  | CFG_INT (name : string) (default : Z)
  | CFG_BOOL (name : string) (default : bool)
  | CFG_SEC (name : string) (opts : list cfg_opt).

(** The thread entry points. *)
Inductive thread_main := run_mqtt2rest | run_rest2mqtt.

(** Calls out of the program, with the type of what they return. *)
Inductive ext : Type → Type :=
  (* libc and POSIX *)
  | X_malloc (n : Z) : ext bool
  | X_realloc (n : Z) : ext bool
  | X_fopen (path mode : string) : ext (bool * Z)
  | X_fclose (path : string) : ext Z
  | X_openlog (ident : string) (option facility : Z) : ext unit
  | X_poll (fds : list pollfd) (timeout : Z) : ext poll_result
  | X_sleep (n : Z) : ext unit
  | X_getenv (name : string) : ext cstr
  | X_getpid : ext Z
  | X_signal (sig : Z) (ignored : bool) : ext unit
  | X_fork : ext Z
  | X_setsid : ext Z
  | X_umask (mask : Z) : ext unit
  | X_chdir (path : string) : ext Z
  | X_sysconf_open_max : ext Z
  | X_close (fd : Z) : ext Z
  | X_reopen (path mode : string) : ext unit
  | X_open (path : string) : ext Z
  | X_lockf (fd : Z) (unlock : bool) : ext Z
  | X_write (fd : Z) (s : list ascii) : ext Z
  | X_unlink (path : string) : ext Z
  | X_pthread_create (f : thread_main) (arg : ptr) : ext (Z * Z)
  | X_pthread_kill (t sig : Z) : ext Z
  | X_pthread_join (t : Z) : ext Z
  (* libconfuse *)
  | X_cfg_init (opts : list cfg_opt) : ext (option cfg_ptr)
  | X_cfg_parse (c : ptr) (path : string) : ext Z
  | X_cfg_print (c : cfg_ptr) : ext unit
  | X_cfg_free (c : cfg_ptr) : ext Z
  (* libmosquitto *)
  | X_mosquitto_lib_init : ext Z
  | X_mosquitto_lib_cleanup : ext Z
  | X_mosquitto_new (id : cstr) (clean_session : bool) (obj : MqttClientConfiguration)
      : ext (option mosq_ptr)
  | X_mosquitto_threaded_set (m : mosq_ptr) (b : bool) : ext Z
  | X_mosquitto_user_data_set (m : mosq_ptr) (c : MqttClientConfiguration) : ext unit
  | X_mosquitto_callback_set (m : mosq_ptr) (k : cb_kind) : ext unit
  | X_mosquitto_tls_set (m : mosq_ptr) (cafile capath certfile keyfile : cstr) : ext Z
  | X_mosquitto_username_pw_set (m : mosq_ptr) (user pw : cstr) : ext Z
  | X_mosquitto_connect (m : mosq_ptr) (host : cstr) (port keepalive : Z)
      : ext (list mosq_cb * Z)
  | X_mosquitto_subscribe (m : mosq_ptr) (topic : string) (qos : Z)
      : ext (list (Z * string) * Z)
  | X_mosquitto_publish (m : mosq_ptr) (topic : string) (len : Z)
      (payload : list ascii) (qos : Z) (retain : bool) : ext (list mosq_cb * Z)
  | X_mosquitto_socket (m : mosq_ptr) : ext Z
  | X_mosquitto_want_write (m : mosq_ptr) : ext bool
  | X_mosquitto_loop_write (m : mosq_ptr) (max_packets : Z) : ext (list mosq_cb * Z)
  | X_mosquitto_loop_read (m : mosq_ptr) (max_packets : Z) : ext (list mosq_cb * Z)
  | X_mosquitto_loop_misc (m : mosq_ptr) : ext (list mosq_cb * Z)
  | X_mosquitto_destroy (m : mosq_ptr) : ext unit
  (* libcurl *)
  | X_curl_easy_init : ext ptr
  | X_curl_setopt_url (curl : ptr) (url : list ascii) : ext Z
  | X_curl_setopt_customrequest (curl : ptr) (m : string) : ext Z
  | X_curl_setopt_postfields (curl : ptr) (payload : list ascii) : ext Z
  | X_curl_easy_perform (curl : ptr) : ext Z
  | X_curl_easy_cleanup (curl : ptr) : ext unit
  (* libmicrohttpd *)
  | X_MHD_start_daemon (port : Z) (cls : ptr) : ext ptr
  | X_MHD_get_fdset (daemon : ptr) : ext fdset_result
  | X_MHD_run (daemon : ptr) : ext (list mhd_call)
  | X_MHD_answered (request : positive) (ret : Z) (upload_data_size : nat) : ext unit
  | X_MHD_stop_daemon (daemon : ptr) : ext unit
  | X_MHD_lookup_connection_value (request : positive) (key : string) : ext cstr
  | X_MHD_create_response_from_buffer (size : Z) (s : string) : ext ptr
  | X_MHD_add_response_header (response : ptr) (name value : string) : ext Z
  | X_MHD_queue_response (request : positive) (status : Z) (response : ptr) : ext Z
  | X_MHD_destroy_response (response : ptr) : ext unit.

(** A call with what it returned. *)
Inductive event :=
  | Ev {A : Type} (c : ext A) (r : A).

(** * The state of the process *)
Record World := {
  w_trace : list event;           (* the calls made so far, latest first *)
  w_out : list output;            (* what was logged or printed, latest first *)
  w_log : LogState;
  w_heap : gmap positive obj;
  w_cfg : ptr;                    (* configuration.c: cfg *)
  w_con_cls : gmap positive positive;  (* per request: *con_cls, absent for NULL *)
  w_pid_fd : Z;                   (* main.c: pid_fd *)
  w_threads : list Z;             (* main.c: threads *)
}.

Definition set_trace (t : list event) (w : World) : World :=
  {| w_trace := t; w_out := w_out w; w_log := w_log w; w_heap := w_heap w;
     w_cfg := w_cfg w; w_con_cls := w_con_cls w; w_pid_fd := w_pid_fd w;
     w_threads := w_threads w |}.
Definition set_out (o : list output) (w : World) : World :=
  {| w_trace := w_trace w; w_out := o; w_log := w_log w; w_heap := w_heap w;
     w_cfg := w_cfg w; w_con_cls := w_con_cls w; w_pid_fd := w_pid_fd w;
     w_threads := w_threads w |}.
Definition set_log (l : LogState) (w : World) : World :=
  {| w_trace := w_trace w; w_out := w_out w; w_log := l; w_heap := w_heap w;
     w_cfg := w_cfg w; w_con_cls := w_con_cls w; w_pid_fd := w_pid_fd w;
     w_threads := w_threads w |}.
Definition set_heap (h : gmap positive obj) (w : World) : World :=
  {| w_trace := w_trace w; w_out := w_out w; w_log := w_log w; w_heap := h;
     w_cfg := w_cfg w; w_con_cls := w_con_cls w; w_pid_fd := w_pid_fd w;
     w_threads := w_threads w |}.
Definition set_cfg (c : ptr) (w : World) : World :=
  {| w_trace := w_trace w; w_out := w_out w; w_log := w_log w; w_heap := w_heap w;
     w_cfg := c; w_con_cls := w_con_cls w; w_pid_fd := w_pid_fd w;
     w_threads := w_threads w |}.
Definition set_con_cls (m : gmap positive positive) (w : World) : World :=
  {| w_trace := w_trace w; w_out := w_out w; w_log := w_log w; w_heap := w_heap w;
     w_cfg := w_cfg w; w_con_cls := m; w_pid_fd := w_pid_fd w;
     w_threads := w_threads w |}.
Definition set_pid_fd (fd : Z) (w : World) : World :=
  {| w_trace := w_trace w; w_out := w_out w; w_log := w_log w; w_heap := w_heap w;
     w_cfg := w_cfg w; w_con_cls := w_con_cls w; w_pid_fd := fd;
     w_threads := w_threads w |}.
Definition set_threads (t : list Z) (w : World) : World :=
  {| w_trace := w_trace w; w_out := w_out w; w_log := w_log w; w_heap := w_heap w;
     w_cfg := w_cfg w; w_con_cls := w_con_cls w; w_pid_fd := w_pid_fd w;
     w_threads := t |}.
