(* ===== verification/World.v ===== *)
(** The effects of the program: the monad of process states and outcomes, the
    environment that answers its calls, the heap, and the rules of a weakest
    precondition that the other files reason with. *)
From Stdlib Require Import ZArith Lia ZifyBool Ascii String List.
From stdpp Require Import base numbers list strings gmap.
From S2P Require Import Prelude.
From S2P Require Import CLib.
From S2P Require Import Types.

(** * The environment

    Everything outside the program. [answer] gives what a call returns, as a
    function of all calls made before it; the configuration is read through
    functions of the parsed file, as nothing changes it after parsing. *)
Class Env := {
  answer : list event → ∀ A : Type, ext A → A;
  (* the bytes a heap block of [n] requested bytes really has *)
  usable : nat → nat;
  usable_ge : ∀ n, (n ≤ usable n)%nat;
  (* the clock, read when the n-th line is logged *)
  gettimeofday : nat → Z * Z;
  localtime : Z → tm;
  gettimeofday_usec : ∀ n, 0 ≤ snd (gettimeofday n) < 1000000;
  localtime_range : ∀ t,
    0 ≤ tm_hour (localtime t) < 24 ∧ 0 ≤ tm_min (localtime t) < 60
    ∧ 0 ≤ tm_sec (localtime t) ≤ 60;
  (* ftell(logfile) != -1 when the n-th line is logged *)
  ftell_ok : nat → bool;
  (* errno when the n-th line is logged *)
  log_errno : nat → Z;
  strerror : Z → string;
  mosquitto_strerror : Z → string;
  curl_easy_strerror : Z → string;
  (* <syslog.h> *)
  facilitynames : list (string * Z);
  (* versions of the libraries *)
  mosquitto_lib_version : Z * Z * Z * Z;
  curl_version : string;
  MHD_get_version : string;
  confuse_version : string;
  (* libconfuse after parsing *)
  cfg_getstr : cfg_ptr → string → cstr;
  cfg_getint : cfg_ptr → string → Z;
  cfg_getbool : cfg_ptr → string → bool;
  cfg_size : cfg_ptr → string → Z;
  cfg_getnsec : cfg_ptr → string → Z → cfg_ptr;
  cfg_title : cfg_ptr → cstr;
}.

(** * The monad *)
Definition M (A : Type) : Type := World → outcome A * World.

#[global] Instance M_ret : MRet M := fun A a w => (Ok a, w).
#[global] Instance M_bind : MBind M := fun A B f m w =>
  match m w with
  | (Ok a, w') => f a w'
  | (Exit c, w') => (Exit c, w')
  | (Abort, w') => (Abort, w')
  | (Crash u, w') => (Crash u, w')
  | (OutOfFuel, w') => (OutOfFuel, w')
  end.

(** A computation without effects. *)
Definition lift {A} (o : outcome A) : M A := fun w => (o, w).
Definition get_world : M World := fun w => (Ok w, w).
Definition modify (f : World → World) : M unit := fun w => (Ok tt, f w).
Definition exit_process {A} (code : Z) : M A := lift (Exit code).
Definition crash {A} (u : ub) : M A := lift (Crash u).
Definition assert_that (b : bool) : M unit := if b then mret tt else lift Abort.

(** Sequencing over the elements of a list. *)
Fixpoint for_each {A} (l : list A) (f : A → M unit) : M unit :=
  match l with
  | [] => mret tt
  | a :: l' => f a;; for_each l' f
  end.

Section calls.
Context `{EV : Env}.

(** A call out of the program; it and its answer are added to the trace. *)
Definition call {A} (c : ext A) : M A := fun w =>
  let r := answer (w_trace w) A c in
  (Ok r, set_trace (Ev c r :: w_trace w) w).

(** * The heap *)
Definition fresh_loc (h : gmap positive obj) : positive := fresh (dom h : gset positive).

(** [malloc(n)] for an object [o]. *)
Definition malloc (n : Z) (o : obj) : M ptr :=
  ok ← call (X_malloc n);
  if ok : bool then
    w ← get_world;
    let l := fresh_loc (w_heap w) in
    modify (set_heap (<[l := o]> (w_heap w)));;
    mret (Some l)
  else mret None.

Definition load (p : ptr) : M obj :=
  match p with
  | None => crash NullDeref
  | Some l => w ← get_world;
      match w_heap w !! l with
      | Some o => mret o
      | None => crash UseAfterFree
      end
  end.

Definition store (p : ptr) (o : obj) : M unit :=
  match p with
  | None => crash NullDeref
  | Some l => w ← get_world;
      match w_heap w !! l with
      | Some _ => modify (set_heap (<[l := o]> (w_heap w)))
      | None => crash UseAfterFree
      end
  end.

(** [free(p)]: nothing for NULL, undefined for a block that is not allocated. *)
Definition free (p : ptr) : M unit :=
  match p with
  | None => mret tt
  | Some l => w ← get_world;
      match w_heap w !! l with
      | Some _ => modify (set_heap (delete l (w_heap w)))
      | None => crash UseAfterFree
      end
  end.

(** [realloc(p, n)] of a block of bytes: its first bytes move to a block of
    [n] bytes, the rest of which is uninitialised. NULL on failure. *)
Definition realloc (p : ptr) (n : nat) : M ptr :=
  ok ← call (X_realloc (Z.of_nat n));
  if ok : bool then
    old ← match p with
          | None => mret []
          | Some _ => o ← load p;
              match o with
              | OBytes sz cs => mret (take sz cs)
              | _ => crash UseAfterFree
              end
          end;
    free p;;
    w ← get_world;
    let l := fresh_loc (w_heap w) in
    let kept := take n old in
    let cells := kept ++ replicate (usable n - length kept) None in
    modify (set_heap (<[l := OBytes n cells]> (w_heap w)));;
    mret (Some l)
  else mret None.

Definition load_handle (p : ptr) : M MqttClientHandle :=
  o ← load p; match o with OHandle h => mret h | _ => crash UseAfterFree end.
Definition load_incoming (p : ptr) : M IncomingData :=
  o ← load p; match o with OIncoming d => mret d | _ => crash UseAfterFree end.
Definition load_bytes (p : ptr) : M (nat * list cell) :=
  o ← load p; match o with OBytes n cs => mret (n, cs) | _ => crash UseAfterFree end.
Definition load_configuration (p : ptr) : M Configuration :=
  o ← load p; match o with OConfiguration c => mret c | _ => crash UseAfterFree end.
Definition load_mqtt2rest (p : ptr) : M Mqtt2RestUnitConfiguration :=
  o ← load p; match o with OMqtt2Rest u => mret u | _ => crash UseAfterFree end.
Definition load_rest2mqtt (p : ptr) : M Rest2MqttUnitConfiguration :=
  o ← load p; match o with ORest2Mqtt u => mret u | _ => crash UseAfterFree end.

(** A use of a [const char *] that must point to a string. *)
Definition deref (s : cstr) : M string :=
  match s with Some s => mret s | None => crash NullDeref end.

Definition fprintf_stderr (f : string) (args : list parg) : M unit :=
  s ← lift (format f args);
  modify (λ w, set_out (to_stderr s :: w_out w) w).

End calls.

(** The world after a call. *)
Definition called `{EV : Env} {A} (c : ext A) (w : World) : World :=
  set_trace (Ev c (answer (w_trace w) A c) :: w_trace w) w.

(** * Worlds that differ in what was printed only *)
#[global] Instance World_equiv : Equiv World := fun w1 w2 => set_out [] w1 = set_out [] w2.

#[global] Instance World_equivalence : Equivalence (≡@{World}).
Proof. split; unfold equiv, World_equiv; red; intros; congruence. Qed.

Lemma set_out_id w : set_out (w_out w) w = w.
Proof. by destruct w. Qed.

Lemma set_out_equiv o w : set_out o w ≡ w.
Proof. reflexivity. Qed.

#[global] Instance w_trace_proper : Proper ((≡) ==> (=)) w_trace.
Proof. intros w1 w2 H. exact (f_equal w_trace H). Qed.
#[global] Instance w_log_proper : Proper ((≡) ==> (=)) w_log.
Proof. intros w1 w2 H. exact (f_equal w_log H). Qed.
#[global] Instance w_heap_proper : Proper ((≡) ==> (=)) w_heap.
Proof. intros w1 w2 H. exact (f_equal w_heap H). Qed.
#[global] Instance w_con_cls_proper : Proper ((≡) ==> (=)) w_con_cls.
Proof. intros w1 w2 H. exact (f_equal w_con_cls H). Qed.
#[global] Instance w_cfg_proper : Proper ((≡) ==> (=)) w_cfg.
Proof. intros w1 w2 H. exact (f_equal w_cfg H). Qed.

#[global] Instance called_proper `{EV : Env} {A} (c : ext A) :
  Proper ((≡) ==> (≡)) (called c).
Proof.
  intros w1 w2 H. pose proof (w_trace_proper _ _ H) as Ht. unfold called. rewrite Ht.
  unfold equiv, World_equiv in *. destruct w1, w2. unfold set_out, set_trace in *. cbn in *.
  by simplify_eq.
Qed.

(** * Weakest preconditions *)
Definition wp {A} (m : M A) (Q : outcome A → World → Prop) (w : World) : Prop :=
  Q (fst (m w)) (snd (m w)).

(** What a bind requires of its first computation. *)
Definition bind_post {A B} (k : A → M B) (Q : outcome B → World → Prop)
    (o : outcome A) (w : World) : Prop :=
  match o with
  | Ok a => wp (k a) Q w
  | Exit c => Q (Exit c) w
  | Abort => Q Abort w
  | Crash u => Q (Crash u) w
  | OutOfFuel => Q OutOfFuel w
  end.

Lemma wp_bind {A B} (m : M A) (k : A → M B) Q w :
  wp m (bind_post k Q) w → wp (m ≫= k) Q w.
Proof.
  unfold wp, bind_post, mbind, M_bind. by destruct (m w) as [[] ?].
Qed.

Lemma wp_ret {A} (a : A) Q w : Q (Ok a) w → wp (mret a) Q w.
Proof. done. Qed.

Lemma wp_lift {A} (o : outcome A) Q w : Q o w → wp (lift o) Q w.
Proof. done. Qed.

Lemma wp_lift_lift {A B} (o : outcome A) (k : A → outcome B) Q w :
  Q (o ≫= k) w → wp (lift o) (bind_post (λ a, lift (k a)) Q) w.
Proof. by destruct o. Qed.

Lemma wp_mono {A} (m : M A) (P Q : outcome A → World → Prop) w :
  wp m P w → (∀ o w', P o w' → Q o w') → wp m Q w.
Proof. unfold wp. auto. Qed.

Lemma wp_conj {A} (m : M A) (P Q : outcome A → World → Prop) w :
  wp m P w → wp m Q w → wp m (λ o w', P o w' ∧ Q o w') w.
Proof. by split. Qed.

Lemma wp_eq {A} (m m' : M A) Q w : m w = m' w → wp m' Q w → wp m Q w.
Proof. unfold wp. by intros ->. Qed.

Lemma wp_intro {A} (m : M A) Q w :
  (∀ o w', m w = (o, w') → Q o w') → wp m Q w.
Proof. intros H. apply H. by destruct (m w). Qed.

Lemma wp_elim {A} (m : M A) Q w o w' : wp m Q w → m w = (o, w') → Q o w'.
Proof. unfold wp. intros H Heq. by rewrite Heq in H. Qed.

Lemma wp_call `{Env} {A} (c : ext A) Q w :
  Q (Ok (answer (w_trace w) A c)) (called c w) →
  wp (call c) Q w.
Proof. done. Qed.

Lemma wp_get Q w : Q (Ok w) w → wp get_world Q w.
Proof. done. Qed.

Lemma wp_modify f Q w : Q (Ok tt) (f w) → wp (modify f) Q w.
Proof. done. Qed.

Lemma wp_assert (b : bool) Q w : b = true → Q (Ok tt) w → wp (assert_that b) Q w.
Proof. by intros ->. Qed.

(** Bind is associative: loops and helpers can be regrouped. *)
Lemma wp_bind_ret {A} (m : M A) Q w : wp (m ≫= mret) Q w → wp m Q w.
Proof. unfold wp, mbind, M_bind, mret, M_ret. by destruct (m w) as [[] ?]. Qed.

Create HintDb wp.

(** * Conclusions: [m] run in [w] gives the outcome [o] in [w'], up to what is
    printed. *)
Definition runs {A} (m : M A) (w : World) (o : outcome A) (w' : World) : Prop :=
  fst (m w) = o ∧ snd (m w) ≡ w'.

Lemma runs_wp {A} (m : M A) w o w' : wp m (λ o1 w1, o1 = o ∧ w1 ≡ w') w ↔ runs m w o w'.
Proof. reflexivity. Qed.

Lemma wp_fprintf_stderr f args l Q w :
  format f args = Ok l →
  (∀ o, Q (Ok tt) (set_out o w)) → wp (fprintf_stderr f args) Q w.
Proof. intros Hf HQ. unfold fprintf_stderr, wp, mbind, M_bind, lift. rewrite Hf. apply HQ. Qed.

Lemma wp_deref s t Q w : s = Some t → Q (Ok t) w → wp (deref s) Q w.
Proof. intros ->. done. Qed.

Lemma fresh_loc_spec h : h !! fresh_loc h = None.
Proof. apply (not_elem_of_dom (D:=gset positive)). exact (is_fresh (dom h : gset positive)). Qed.

(** * Rules for the heap *)
Section heap_rules.
Context `{EV : Env}.

Lemma wp_malloc n o Q w :
  (answer (w_trace w) bool (X_malloc n) = false → Q (Ok None) (called (X_malloc n) w)) →
  (∀ l, answer (w_trace w) bool (X_malloc n) = true → w_heap w !! l = None →
        Q (Ok (Some l)) (set_heap (<[l := o]> (w_heap w)) (called (X_malloc n) w))) →
  wp (malloc n o) Q w.
Proof.
  intros H1 H2. unfold malloc. apply wp_bind, wp_call. cbn [bind_post].
  destruct (answer _ _ _) eqn:Ea; [|by apply wp_ret, H1].
  apply wp_bind, wp_get. cbn [bind_post]. apply wp_bind, wp_modify. cbn [bind_post].
  apply wp_ret. apply H2; [done|]. apply fresh_loc_spec.
Qed.

Lemma wp_load l o Q w :
  w_heap w !! l = Some o → Q (Ok o) w → wp (load (Some l)) Q w.
Proof.
  intros Hl HQ. unfold load. apply wp_bind, wp_get. cbn [bind_post]. by rewrite Hl.
Qed.

Lemma wp_store l o o' Q w :
  w_heap w !! l = Some o → Q (Ok tt) (set_heap (<[l := o']> (w_heap w)) w) →
  wp (store (Some l) o') Q w.
Proof.
  intros Hl HQ. unfold store. apply wp_bind, wp_get. cbn [bind_post]. by rewrite Hl.
Qed.

Lemma wp_free l o Q w :
  w_heap w !! l = Some o → Q (Ok tt) (set_heap (delete l (w_heap w)) w) →
  wp (free (Some l)) Q w.
Proof.
  intros Hl HQ. unfold free. apply wp_bind, wp_get. cbn [bind_post]. by rewrite Hl.
Qed.

Lemma wp_load_handle l h Q w :
  w_heap w !! l = Some (OHandle h) → Q (Ok h) w → wp (load_handle (Some l)) Q w.
Proof. intros Hl HQ. apply wp_bind. by eapply wp_load. Qed.

Lemma wp_load_incoming l d Q w :
  w_heap w !! l = Some (OIncoming d) → Q (Ok d) w → wp (load_incoming (Some l)) Q w.
Proof. intros Hl HQ. apply wp_bind. by eapply wp_load. Qed.

Lemma wp_load_bytes l n cs Q w :
  w_heap w !! l = Some (OBytes n cs) → Q (Ok (n, cs)) w → wp (load_bytes (Some l)) Q w.
Proof. intros Hl HQ. apply wp_bind. by eapply wp_load. Qed.

Lemma wp_load_configuration l c Q w :
  w_heap w !! l = Some (OConfiguration c) → Q (Ok c) w →
  wp (load_configuration (Some l)) Q w.
Proof. intros Hl HQ. apply wp_bind. by eapply wp_load. Qed.

Lemma wp_load_mqtt2rest l u Q w :
  w_heap w !! l = Some (OMqtt2Rest u) → Q (Ok u) w → wp (load_mqtt2rest (Some l)) Q w.
Proof. intros Hl HQ. apply wp_bind. by eapply wp_load. Qed.

Lemma wp_load_rest2mqtt l u Q w :
  w_heap w !! l = Some (ORest2Mqtt u) → Q (Ok u) w → wp (load_rest2mqtt (Some l)) Q w.
Proof. intros Hl HQ. apply wp_bind. by eapply wp_load. Qed.

(** The heap without the block a [realloc] gives back. *)
Definition freed (p : ptr) (h : gmap positive obj) : gmap positive obj :=
  match p with None => h | Some l => delete l h end.

(** [p] is NULL, or a block whose bytes are [old]. *)
Definition bytes_at (p : ptr) (old : list cell) (h : gmap positive obj) : Prop :=
  match p with
  | None => old = []
  | Some l => ∃ cs, h !! l = Some (OBytes (length old) (old ++ cs))
  end.

Lemma wp_realloc p old n Q w :
  bytes_at p old (w_heap w) → (length old ≤ n)%nat →
  (answer (w_trace w) bool (X_realloc (Z.of_nat n)) = false →
     Q (Ok None) (called (X_realloc (Z.of_nat n)) w)) →
  (∀ l, answer (w_trace w) bool (X_realloc (Z.of_nat n)) = true →
     freed p (w_heap w) !! l = None →
     Q (Ok (Some l))
       (set_heap (<[l := OBytes n (old ++ replicate (usable n - length old) None)]>
                    (freed p (w_heap w))) (called (X_realloc (Z.of_nat n)) w))) →
  wp (realloc p n) Q w.
Proof.
  intros Hp Hn H1 H2. unfold realloc. apply wp_bind, wp_call. cbn [bind_post].
  destruct (answer _ _ _) eqn:Ea; [|by apply wp_ret, H1].
  apply wp_bind, (wp_mono _ (λ o w', o = Ok old ∧ w' = called (X_realloc (Z.of_nat n)) w)).
  { destruct p as [l|]; [|by rewrite Hp; apply wp_ret]. destruct Hp as [cs Hl].
    apply wp_bind. eapply wp_load; [exact Hl|]. cbn [bind_post]. apply wp_ret.
    by rewrite take_app_length. }
  intros o w' [-> ->]. cbn [bind_post].
  apply wp_bind, (wp_mono _ (λ o w', o = Ok tt
    ∧ w' = set_heap (freed p (w_heap w)) (called (X_realloc (Z.of_nat n)) w))).
  { destruct p as [l|]; [|by apply wp_ret]. destruct Hp as [cs Hl].
    by eapply wp_free. }
  intros o w' [-> ->]. cbn [bind_post]. apply wp_bind, wp_get. cbn [bind_post].
  apply wp_bind, wp_modify. cbn [bind_post]. apply wp_ret. rewrite take_ge by done.
  apply H2; [done|]. apply fresh_loc_spec.
Qed.

End heap_rules.

(** One step of symbolic execution. *)
Ltac wp_step :=
  lazymatch goal with
  | |- wp (mbind _ _) _ _ => apply wp_bind
  | |- wp (call _) _ _ => apply wp_call
  | |- wp (mret _) _ _ => apply wp_ret
  | |- wp (lift _) _ _ => apply wp_lift
  | |- wp (assert_that _) _ _ => apply wp_assert; [reflexivity|]
  | |- wp get_world _ _ => apply wp_get
  | |- wp (modify _) _ _ => apply wp_modify
  | |- wp (fprintf_stderr _ _) _ _ =>
      eapply wp_fprintf_stderr; [fmt_eval; reflexivity|intros ?]
  | |- wp (crash _) _ _ => apply wp_lift
  | |- wp (store None _) _ _ => apply wp_lift
  | |- wp (load None) _ _ => apply wp_lift
  | |- wp (free None) _ _ => apply wp_ret
  | |- wp (exit_process _) _ _ => apply wp_lift
  | |- bind_post _ _ _ _ => cbn [bind_post]
  end.

(** * Runs that only print and make calls *)

(** [w'] is a later world in which only the trace and the output have grown. *)
Record keeps (w w' : World) : Prop := {
  k_log : w_log w' = w_log w;
  k_heap : w_heap w' = w_heap w;
  k_trace : ∃ evs, w_trace w' = evs ++ w_trace w;
}.

#[global] Instance keeps_preorder : PreOrder keeps.
Proof.
  split.
  - intros w. split; [done..|by exists []].
  - intros w1 w2 w3 [Hl1 Hh1 [e1 Ht1]] [Hl2 Hh2 [e2 Ht2]].
    split; [congruence..|]. exists (e2 ++ e1). by rewrite Ht2, Ht1, app_assoc.
Qed.

Lemma keeps_out o w w' : keeps w w' → keeps w (set_out o w').
Proof. intros [Hl Hh Ht]. by split. Qed.

Lemma keeps_out_l o w w' : keeps (set_out o w) w' → keeps w w'.
Proof. intros [Hl Hh Ht]. by split. Qed.

Lemma keeps_called `{EV : Env} {A} (c : ext A) w w' : keeps w w' → keeps w (called c w').
Proof.
  intros [Hl Hh [evs Ht]]. split; [done..|].
  exists (Ev c (answer (w_trace w') A c) :: evs). cbn. by rewrite Ht.
Qed.

(** A later world, in which the trace has grown. *)
Definition later (w w' : World) : Prop := ∃ evs, w_trace w' = evs ++ w_trace w.

Lemma later_refl w : later w w.
Proof. by exists []. Qed.

Lemma later_called `{EV : Env} {A} (c : ext A) w w' : later w w' → later w (called c w').
Proof. intros [evs Ht]. exists (Ev c (answer (w_trace w') A c) :: evs). cbn. by rewrite Ht. Qed.

Lemma later_heap h w w' : later w w' → later w (set_heap h w').
Proof. done. Qed.

Create HintDb keeps.
#[export] Hint Resolve keeps_out keeps_called : keeps.
#[export] Hint Extern 1 (keeps ?w ?w) => reflexivity : keeps.

(** Sequencing steps that keep the world, each from any world satisfying [P]. *)
Lemma wp_for_each_keeps {A} (P : World → Prop) (l : list A) (f : A → M unit) w :
  (∀ w w', P w → keeps w w' → P w') → P w →
  Forall (λ a, ∀ w, P w → wp (f a) (λ o w', o = Ok tt ∧ keeps w w') w) l →
  wp (for_each l f) (λ o w', o = Ok tt ∧ keeps w w') w.
Proof.
  intros HP Hw Hl. revert w Hw. induction Hl as [|a l Ha Hl IH]; intros w Hw; cbn [for_each].
  { by apply wp_ret. }
  apply wp_bind. eapply wp_mono; [by apply Ha|]. intros o w1 [-> Hk]. cbn [bind_post].
  eapply wp_mono; [apply IH; by eapply HP|]. intros o w2 [-> Hk2]. split; [done|].
  by transitivity w1.
Qed.

(** * Invariants

    [m] keeps [I] whatever its outcome. The rules follow the structure of the
    program, so [eauto with pres] proves most instances. *)
Definition preserves {A} (I : World → Prop) (m : M A) : Prop :=
  ∀ w, I w → I (snd (m w)).

(** A result together with an invariant that is preserved. *)
Lemma wp_preserved {A} (m : M A) (I : World → Prop) Q w :
  preserves I m → I w → wp m Q w → wp m (λ o w', Q o w' ∧ I w') w.
Proof. intros Hm Hw HQ. split; [exact HQ|]. by apply Hm. Qed.

(** A postcondition of the computations that return. *)
Definition returns {A} (Q : A → World → Prop) (o : outcome A) (w : World) : Prop :=
  match o with Ok a => Q a w | _ => True end.

Lemma returns_bind {A B} (I : World → Prop) (m : M A) (k : A → M B) Q w :
  preserves I m → I w → (∀ a w1, fst (m w) = Ok a → I w1 → wp (k a) (returns Q) w1) →
  wp (m ≫= k) (returns Q) w.
Proof.
  intros Hm Hw Hk. specialize (Hm w Hw). apply wp_bind, wp_intro. intros o w1 E.
  rewrite E in Hm, Hk. destruct o as [a| | | |]; try done. by apply Hk.
Qed.

Lemma returns_ret {A} (a : A) (Q : A → World → Prop) w : Q a w → wp (mret a) (returns Q) w.
Proof. done. Qed.

Lemma returns_mono {A} (m : M A) (P Q : A → World → Prop) w :
  wp m (returns P) w → (∀ a w', P a w' → Q a w') → wp m (returns Q) w.
Proof. intros Hm H. eapply wp_mono; [exact Hm|]. intros [] w'; try done. apply H. Qed.

Lemma returns_seq {A B} (P : A → World → Prop) (m : M A) (k : A → M B) Q w :
  wp m (returns P) w → (∀ a w1, P a w1 → wp (k a) (returns Q) w1) → wp (m ≫= k) (returns Q) w.
Proof.
  intros Hm Hk. apply wp_bind. eapply wp_mono; [exact Hm|]. intros [] w'; try done. apply Hk.
Qed.

Create HintDb pres.

Section preserves.
Context `{EV : Env} (I : World → Prop).

Lemma pres_ret {A} (a : A) : preserves I (mret a).
Proof. intros w H. exact H. Qed.

Lemma pres_lift {A} (o : outcome A) : preserves I (lift o).
Proof. intros w H. exact H. Qed.

Lemma pres_crash {A} u : preserves I (crash (A := A) u).
Proof. apply pres_lift. Qed.

Lemma pres_exit {A} c : preserves I (exit_process (A := A) c).
Proof. apply pres_lift. Qed.

Lemma pres_assert b : preserves I (assert_that b).
Proof. destruct b; [apply pres_ret|apply pres_lift]. Qed.

Lemma pres_get : preserves I get_world.
Proof. intros w H. exact H. Qed.

Lemma pres_bind {A B} (m : M A) (k : A → M B) :
  preserves I m → (∀ a, preserves I (k a)) → preserves I (m ≫= k).
Proof.
  intros Hm Hk w Hw. specialize (Hm w Hw). unfold mbind, M_bind.
  destruct (m w) as [[a| | | |] w']; cbn in *; [by apply Hk|done..].
Qed.

(** The continuation may use what is known of the value. *)
Lemma pres_bind_ok {A B} (P : A → Prop) (m : M A) (k : A → M B) :
  preserves I m → (∀ w a, fst (m w) = Ok a → P a) → (∀ a, P a → preserves I (k a)) →
  preserves I (m ≫= k).
Proof.
  intros Hm HP Hk w Hw. specialize (Hm w Hw). specialize (HP w). unfold mbind, M_bind.
  destruct (m w) as [[a| | | |] w']; cbn in *; [by apply Hk; [apply HP|]|done..].
Qed.

(** The continuation of [get_world] may use that the world is the current one. *)
Lemma pres_get_bind {B} (k : World → M B) :
  (∀ w, I w → I (snd (k w w))) → preserves I (get_world ≫= k).
Proof. intros Hk w Hw. by apply Hk. Qed.

Lemma pres_call {A} (c : ext A) : (∀ w, I w → I (called c w)) → preserves I (call c).
Proof. intros Hc w Hw. by apply Hc. Qed.

Lemma pres_for_each {A} (l : list A) (f : A → M unit) :
  (∀ a, preserves I (f a)) → preserves I (for_each l f).
Proof.
  intros Hf. induction l as [|a l IH]; cbn; [apply pres_ret|].
  apply pres_bind; [apply Hf|intros _; exact IH].
Qed.

Lemma pres_deref s : preserves I (deref s).
Proof. destruct s; [apply pres_ret|apply pres_crash]. Qed.

Lemma pres_load p : preserves I (load p).
Proof.
  destruct p as [l|]; [|apply pres_crash]. apply pres_get_bind. intros w Hw.
  by destruct (w_heap w !! l).
Qed.

Lemma pres_load_handle p : preserves I (load_handle p).
Proof. apply pres_bind; [apply pres_load|]. intros []; apply pres_ret || apply pres_crash. Qed.
Lemma pres_load_incoming p : preserves I (load_incoming p).
Proof. apply pres_bind; [apply pres_load|]. intros []; apply pres_ret || apply pres_crash. Qed.
Lemma pres_load_bytes p : preserves I (load_bytes p).
Proof. apply pres_bind; [apply pres_load|]. intros []; apply pres_ret || apply pres_crash. Qed.
Lemma pres_load_mqtt2rest p : preserves I (load_mqtt2rest p).
Proof. apply pres_bind; [apply pres_load|]. intros []; apply pres_ret || apply pres_crash. Qed.
Lemma pres_load_rest2mqtt p : preserves I (load_rest2mqtt p).
Proof. apply pres_bind; [apply pres_load|]. intros []; apply pres_ret || apply pres_crash. Qed.
Lemma pres_load_configuration p : preserves I (load_configuration p).
Proof. apply pres_bind; [apply pres_load|]. intros []; apply pres_ret || apply pres_crash. Qed.

(** Printing keeps every invariant that does not speak of the output. *)
Lemma pres_fprintf_stderr f args `{!Proper ((≡) ==> iff) I} :
  preserves I (fprintf_stderr f args).
Proof.
  apply pres_bind; [apply pres_lift|]. intros s w Hw. cbn. by rewrite set_out_equiv.
Qed.

End preserves.

#[export] Hint Resolve pres_ret pres_lift pres_crash pres_exit pres_assert pres_get
  pres_deref pres_load pres_load_handle pres_load_incoming pres_load_bytes
  pres_load_mqtt2rest pres_load_rest2mqtt pres_load_configuration : pres.

(** Follow the program; calls and stores are left when the hints do not
    decide them. *)
Ltac pres :=
  repeat first
    [ progress intros
    | lazymatch goal with
      | |- preserves _ (mbind _ _) => apply pres_bind
      | |- preserves _ (for_each _ _) => apply pres_for_each
      end
    | lazymatch goal with |- preserves _ (let _ := _ in _) => cbv zeta end
    | progress (eauto 2 with pres nocore)
    | match goal with
      | |- preserves _ (if ?b then _ else _) => destruct b
      | |- preserves _ (match ?o with _ => _ end) => destruct o
      | |- preserves _ (let '(_, _) := ?o in _) => destruct o
      end ].

(** As many steps as the program's control allows without a case split. *)
Ltac wp_steps := repeat (wp_step; cbn beta iota).

(** Projections of an updated world. *)
Ltac wsimpl :=
  cbn [w_trace w_out w_log w_heap w_cfg w_con_cls w_pid_fd w_threads
       set_trace set_out set_log set_heap set_cfg set_con_cls set_pid_fd set_threads called] in *.
