(* ===== verification/Demo.v ===== *)
(** Concrete environments and worlds for evaluating the model: every call
    succeeds, [poll] is interrupted at once, and the log goes to the console.
    The witnesses of the other files override single answers. *)
From Stdlib Require Import ZArith Lia ZifyBool Ascii String List.
From stdpp Require Import base numbers list strings gmap.
From S2P Require Import Prelude.
From S2P Require Import CLib.
From S2P Require Import Types.
From S2P Require Import World.

Module Demo.

Definition poll_interrupted : poll_result :=
  {| pr_ret := -1; pr_errno := 4; pr_revents := [] |}.

Definition answer_ok (A : Type) (c : ext A) : A :=
  match c in ext A return A with
  | X_malloc _ => true
  | X_realloc _ => true
  | X_fopen _ _ => (true, 0)
  | X_fclose _ => 0
  | X_openlog _ _ _ => tt
  | X_poll _ _ => poll_interrupted
  | X_sleep _ => tt
  | X_getenv _ => None
  | X_getpid => 1234
  | X_signal _ _ => tt
  | X_fork => 0
  | X_setsid => 1
  | X_umask _ => tt
  | X_chdir _ => 0
  | X_sysconf_open_max => 3
  | X_close _ => 0
  | X_reopen _ _ => tt
  | X_open _ => 3
  | X_lockf _ _ => 0
  | X_write _ _ => 5
  | X_unlink _ => 0
  | X_pthread_create _ _ => (0, 7)
  | X_pthread_kill _ _ => 0
  | X_pthread_join _ => 0
  | X_cfg_init _ => Some 1%positive
  | X_cfg_parse _ _ => 0
  | X_cfg_print _ => tt
  | X_cfg_free _ => 0
  | X_mosquitto_lib_init => 0
  | X_mosquitto_lib_cleanup => 0
  | X_mosquitto_new _ _ _ => Some 1%positive
  | X_mosquitto_threaded_set _ _ => 0
  | X_mosquitto_user_data_set _ _ => tt
  | X_mosquitto_callback_set _ _ => tt
  | X_mosquitto_tls_set _ _ _ _ _ => 0
  | X_mosquitto_username_pw_set _ _ _ => 0
  | X_mosquitto_connect _ _ _ _ => ([], 0)
  | X_mosquitto_subscribe _ _ _ => ([], 0)
  | X_mosquitto_publish _ _ _ _ _ _ => ([], 0)
  | X_mosquitto_socket _ => 5
  | X_mosquitto_want_write _ => false
  | X_mosquitto_loop_write _ _ => ([], 0)
  | X_mosquitto_loop_read _ _ => ([], 0)
  | X_mosquitto_loop_misc _ => ([], 0)
  | X_mosquitto_destroy _ => tt
  | X_curl_easy_init => Some 1%positive
  | X_curl_setopt_url _ _ => 0
  | X_curl_setopt_customrequest _ _ => 0
  | X_curl_setopt_postfields _ _ => 0
  | X_curl_easy_perform _ => 0
  | X_curl_easy_cleanup _ => tt
  | X_MHD_start_daemon _ _ => Some 1%positive
  | X_MHD_get_fdset _ => {| fs_ret := 1; fs_rs := [3]; fs_ws := []; fs_es := []; fs_max := 3 |}
  | X_MHD_run _ => []
  | X_MHD_answered _ _ _ => tt
  | X_MHD_stop_daemon _ => tt
  | X_MHD_lookup_connection_value _ _ => Some "1"
  | X_MHD_create_response_from_buffer _ _ => Some 1%positive
  | X_MHD_add_response_header _ _ _ => 1
  | X_MHD_queue_response _ _ _ => 1
  | X_MHD_destroy_response _ => tt
  end.

(** An option that no configuration file sets has its default; here the
    strings the program gives as defaults. *)
Definition demo_getstr (c : cfg_ptr) (name : string) : cstr :=
  if bool_decide (name = "mqtt_topic") then Some "unit1"
  else if bool_decide (name = "webservice_baseurl") then Some "http://h/api"
  else if bool_decide (name = "logtarget") then Some "stdout"
  else if bool_decide (name = "loglevel") then Some "debug"
  else Some "-----".

(** An environment with the answers [ans], [slack] bytes behind each heap
    block, and the given view of the configuration. *)
Definition mk_env (ans : list event → ∀ A, ext A → A) (slack : nat)
    (getstr : cfg_ptr → string → cstr) (getint : cfg_ptr → string → Z)
    (getbool : cfg_ptr → string → bool) (getsize : cfg_ptr → string → Z) : Env.
Proof.
  refine {|
    answer := ans;
    usable := fun n => (n + slack)%nat;
    gettimeofday := fun n => (0, 123456);
    localtime := fun t => {| tm_hour := 12; tm_min := 34; tm_sec := 56 |};
    ftell_ok := fun n => true;
    log_errno := fun n => 9;
    strerror := fun e => "error";
    mosquitto_strerror := fun e => "mosquitto error";
    curl_easy_strerror := fun e => "curl error";
    facilitynames := [("auth", 32); ("daemon", 24); ("local1", 136)];
    mosquitto_lib_version := (2, 0, 11, 2000011);
    curl_version := "libcurl";
    MHD_get_version := "mhd";
    confuse_version := "confuse";
    cfg_getstr := getstr;
    cfg_getint := getint;
    cfg_getbool := getbool;
    cfg_size := getsize;
    cfg_getnsec := fun c name i => Z.to_pos (i + 2);
    cfg_title := fun c => Some "unit";
  |}; intros; cbn; lia.
Defined.

(** The strict environment has no slack behind a block. *)
Definition demo_env (slack : nat) (ans : list event → ∀ A, ext A → A) : Env :=
  mk_env ans slack demo_getstr (λ _ _, 30) (λ _ _, true) (λ _ _, 1).

Definition all_ok : list event → ∀ A, ext A → A := λ _, answer_ok.

Definition console_log : LogState :=
  {| loglevel := 4; logfile := None; logfilename := None;
     log_print_ptr := Some log_to_console |}.
Definition file_log : LogState :=
  {| loglevel := 3; logfile := Some "mqrestt.log"; logfilename := Some "mqrestt.log";
     log_print_ptr := Some log_to_file |}.
Definition syslog_log : LogState :=
  {| loglevel := 3; logfile := None; logfilename := None;
     log_print_ptr := Some log_to_syslog |}.
(** Before [log_init] the function pointer is null. *)
Definition no_log : LogState :=
  {| loglevel := 0; logfile := None; logfilename := None; log_print_ptr := None |}.

Definition world_of (l : LogState) (h : gmap positive obj) : World :=
  {| w_trace := []; w_out := []; w_log := l; w_heap := h; w_cfg := Some 1%positive;
     w_con_cls := ∅; w_pid_fd := -1; w_threads := replicate 32 0 |}.

Definition demo_world : World := world_of console_log ∅.

End Demo.
