(* ===== verification/Utils.v ===== *)
(** Model of [src/utils.c]: [parseInt] and the allocation helpers that exit
    when memory is exhausted. *)
From Stdlib Require Import ZArith Lia ZifyBool Ascii String List.
From stdpp Require Import base numbers list strings gmap.
From S2P Require Import Prelude.
From S2P Require Import CLib.
From S2P Require Import Types.
From S2P Require Import World.

Module Utils.

(** [parseInt(str, val)]: the returned flag and the new [*val]. [val] is what
    [*val] holds on entry; a null [str] is dereferenced by [strtol]. *)
Definition parseInt (str : option string) (val : Z) : outcome (bool * Z) :=
  match str with
  | None => Crash NullDeref
  | Some s =>
      let r := strtol (explode s) in
      let res := st_value r in
      let rc :=
        if (st_end r =? 0)%nat || negb (st_end r =? strlen s)%nat
           || (((val =? LONG_MIN) || (val =? LONG_MAX)) && st_erange r)
        then false else true in
      Ok (rc, to_int res)
  end.

Definition EXIT_SUCCESS : Z := 0.
Definition EXIT_FAILURE : Z := 1.

Section alloc.
Context `{EV : Env}.

Definition out_of_memory {A} (n line : Z) : M A :=
  fprintf_stderr ("[%s:%lu]Out of memory(%lu bytes)" +:+ nl)
    [PStr (Some "utils.c"); PInt line; PInt n];;
  exit_process EXIT_FAILURE.

(** [SAFEMALLOC(n)] at line [line], for an object [o]. *)
Definition safe_malloc (n : Z) (o : obj) (line : Z) : M ptr :=
  p ← malloc n o;
  match p with
  | None => out_of_memory n line
  | Some _ => mret p
  end.

(** [SAFEREALLOC(ptr, n)] at line [line]. *)
Definition safe_realloc (p0 : ptr) (n : nat) (line : Z) : M ptr :=
  p ← realloc p0 n;
  match p with
  | None => out_of_memory (Z.of_nat n) line
  | Some _ => mret p
  end.

Lemma wp_safe_malloc n o line Q w :
  answer (w_trace w) bool (X_malloc n) = true →
  (∀ l, w_heap w !! l = None →
     Q (Ok (Some l)) (set_heap (<[l := o]> (w_heap w)) (called (X_malloc n) w))) →
  wp (safe_malloc n o line) Q w.
Proof.
  intros Ha HQ. unfold safe_malloc. apply wp_bind, wp_malloc; [congruence|].
  intros l _ Hl. cbn [bind_post]. by apply wp_ret, HQ.
Qed.

Lemma wp_safe_realloc p old n line Q w :
  bytes_at p old (w_heap w) → (length old ≤ n)%nat →
  answer (w_trace w) bool (X_realloc (Z.of_nat n)) = true →
  (∀ l, freed p (w_heap w) !! l = None →
     Q (Ok (Some l))
       (set_heap (<[l := OBytes n (old ++ replicate (usable n - length old) None)]>
                    (freed p (w_heap w))) (called (X_realloc (Z.of_nat n)) w))) →
  wp (safe_realloc p n line) Q w.
Proof.
  intros Hp Hn Ha HQ. unfold safe_realloc. apply wp_bind. eapply wp_realloc; [done..|congruence|].
  intros l _ Hl. cbn [bind_post]. by apply wp_ret, HQ.
Qed.

End alloc.

(** The decimal notation of [z] as a C string. *)
Definition show_dec (z : Z) : string := implode (dec z).

(** [*val] is an [int], so the range test of the code is never true. *)
Lemma parseInt_flag s val :
  in_int val →
  parseInt (Some s) val
  = Ok (negb (st_end (strtol (explode s)) =? 0)%nat
        && (st_end (strtol (explode s)) =? strlen s)%nat,
        to_int (st_value (strtol (explode s)))).
Proof.
  intros Hv. unfold parseInt, in_int, INT_MIN, INT_MAX in *.
  replace (val =? LONG_MIN) with false by (unfold LONG_MIN; lia).
  replace (val =? LONG_MAX) with false by (unfold LONG_MAX; lia).
  cbn. rewrite orb_false_r.
  by destruct (_ =? 0)%nat, (_ =? strlen s)%nat.
Qed.

Lemma strlen_explode s : strlen s = length (explode s).
Proof. done. Qed.

(** What [parseInt] makes of a literal. *)
Lemma parseInt_literal s z val :
  in_int val → int_literal (explode s) z →
  parseInt (Some s) val = Ok (true, to_int (clamp_long z)).
Proof.
  intros Hv Hz. rewrite parseInt_flag by done.
  destruct (strtol_literal _ _ Hz) as [-> Hne]. cbn [st_end st_value].
  rewrite strlen_explode, Nat.eqb_refl.
  destruct (explode s) as [|c l]; [done|]. done.
Qed.

Lemma show_dec_literal z : int_literal (explode (show_dec z)) z.
Proof. unfold show_dec. rewrite explode_implode. apply dec_literal. Qed.

(** C28: [parseInt] accepts exactly the notations of C for integers (white
    space, a sign, a decimal, octal or hexadecimal magnitude) with nothing
    after them, and yields the denoted value clamped to [long] and then
    converted to [int]. *)
Theorem parseInt_accepts_literals s val v :
  in_int val →
  parseInt (Some s) val = Ok (true, v)
  ↔ ∃ z, int_literal (explode s) z ∧ v = to_int (clamp_long z).
Proof.
  intros Hv. split.
  - rewrite parseInt_flag by done. intros [= Hf <-].
    apply andb_true_iff in Hf as [Hf1 Hf2]. apply Nat.eqb_eq in Hf2.
    rewrite strlen_explode in Hf2.
    destruct (strtol_complete (explode s)) as (z & Hz & ->); [done| |by eauto].
    intros Hnil. rewrite Hnil in Hf1. done.
  - intros (z & Hz & ->). by apply parseInt_literal.
Qed.

Lemma parseInt_accepts_literals_witness :
  in_int 0 ∧ parseInt (Some " -0x1F") 0 = Ok (true, -31).
Proof.
  split; [vm_compute; split; discriminate|].
  apply (parseInt_accepts_literals " -0x1F" 0 (-31)); [vm_compute; split; discriminate|].
  exists (-31). split; [|reflexivity].
  apply (int_lit [ascii_of_nat 32] [ascii_of_nat 45] true (explode "0x1F") 31).
  - repeat constructor.
  - constructor.
  - apply (mag_hex (ascii_of_nat 120)); [by left|]. repeat constructor.
Defined.

(** C29: Round trip: the decimal notation of every [int] is read back as that
    number, whatever [*val] held before. *)
Theorem parseInt_roundtrip z val :
  in_int z → in_int val → parseInt (Some (show_dec z)) val = Ok (true, z).
Proof.
  intros Hz Hv. erewrite parseInt_literal; [|done|apply show_dec_literal].
  assert (clamp_long z = z) as ->.
  { unfold in_int, INT_MIN, INT_MAX in Hz. unfold clamp_long, LONG_MIN, LONG_MAX. lia. }
  by rewrite to_int_id.
Qed.

Lemma parseInt_roundtrip_witness :
  in_int (-2147483648) ∧ in_int 7
  ∧ parseInt (Some (show_dec (-2147483648))) 7 = Ok (true, -2147483648).
Proof.
  assert (H : in_int (-2147483648) ∧ in_int 7) by (vm_compute; repeat split; discriminate).
  destruct H as [H1 H2]. split; [exact H1|]. split; [exact H2|].
  exact (parseInt_roundtrip _ _ H1 H2).
Defined.

(** The range check is dead: a decimal number that is not an [int] is
    accepted all the same, with another value. *)
Lemma parseInt_no_range_check z val :
  in_int val → ¬ in_int z →
  ∃ v, parseInt (Some (show_dec z)) val = Ok (true, v) ∧ v ≠ z ∧ in_int v.
Proof.
  intros Hv Hz. eexists. split; [apply parseInt_literal, show_dec_literal; done|].
  split; [|apply to_int_range].
  intros Heq. apply Hz. rewrite <- Heq. apply to_int_range.
Qed.

Lemma parseInt_no_range_check_witness :
  in_int 0 ∧ ¬ in_int 4294967298
  ∧ ∃ v, parseInt (Some (show_dec 4294967298)) 0 = Ok (true, v)
         ∧ v ≠ 4294967298 ∧ in_int v.
Proof.
  assert (H1 : in_int 0) by (vm_compute; split; discriminate).
  assert (H2 : ¬ in_int 4294967298) by (intros [_ H]; vm_compute in H; by apply H).
  split; [exact H1|]. split; [exact H2|].
  exact (parseInt_no_range_check _ _ H1 H2).
Defined.

End Utils.
