(* ===== verification/Logging.v ===== *)
(** Model of [src/logging.c] and [src/logging.h]: the log levels and targets,
    the composition of a line in its fixed buffer, the three printers and the
    set-up of logging. *)
From Stdlib Require Import ZArith Lia ZifyBool Ascii String List.
From stdpp Require Import base numbers list strings gmap.
From S2P Require Import Prelude.
From S2P Require Import CLib.
From S2P Require Import Types.
From S2P Require Import World.
From S2P Require Import Demo.

Module Logging.

Definition log_code (t : log_msg_type) : Z :=
  match t with
  | log_fatal => 0 | log_error => 1 | log_warning => 2 | log_info => 3 | log_debug => 4
  end.

Definition LOG_MSG_MAX_LENGTH : Z := 256.

Definition ESC : ascii := ascii_of_nat 27.
Definition TERM_CYAN : string := String ESC "[36m".
Definition TERM_RED : string := String ESC "[1;31m".
Definition TERM_GREEN : string := String ESC "[1;32m".
Definition TERM_NORMAL : string := String ESC "[0;39m".
Definition TERM_BOLD : string := String ESC "[1m".

(** [strftime(temp, 10, "%H:%M:%S", tm_info)] *)
Definition two_digits (z : Z) : list ascii := [digit_char (z / 10); digit_char (z mod 10)].
Definition strftime_HMS (t : tm) : list ascii :=
  two_digits (tm_hour t) ++ [ascii_of_nat 58] ++ two_digits (tm_min t)
  ++ [ascii_of_nat 58] ++ two_digits (tm_sec t).

Definition file_head (t : log_msg_type) : string :=
  match t with
  | log_fatal => "FTL" | log_error => "ERR" | log_warning => "WRN"
  | log_info => "NFO" | log_debug => "DBG"
  end.

Definition console_head (t : log_msg_type) : string :=
  match t with
  | log_fatal => TERM_RED +:+ "FTL" +:+ TERM_NORMAL
  | log_error => TERM_RED +:+ "ERR" +:+ TERM_NORMAL
  | log_warning => TERM_CYAN +:+ "WRN" +:+ TERM_NORMAL
  | log_info => TERM_GREEN +:+ "NFO" +:+ TERM_NORMAL
  | log_debug => TERM_BOLD +:+ "DBG" +:+ TERM_NORMAL
  end.

(** syslog priorities *)
Definition syslog_priority (t : log_msg_type) : Z :=
  match t with
  | log_fatal => 0 | log_error => 2 | log_warning => 4 | log_info => 6 | log_debug => 7
  end.

Definition LOG_LOCAL0 : Z := 128.
Definition LOG_PID : Z := 1.
Definition LOG_CONS : Z := 2.
Definition LOG_NDELAY : Z := 8.

Section logging.
Context `{EV : Env}.

(** [n] is the number of lines printed before: the clock is read then. *)
Definition print_time (n : nat) (bufsize : Z) : outcome (list ascii) :=
  let '(tv_sec, tv_usec) := gettimeofday n in
  let millisec := Z.quot tv_usec 1000 in
  let '(tv_sec, millisec) :=
    if 1000 <=? millisec then (tv_sec + 1, millisec - 1000) else (tv_sec, millisec) in
  let tm_info := localtime tv_sec in
  let temp := strftime_HMS tm_info in
  s ← format "%s.%03d" [PStr (Some (implode temp)); PInt millisec];
  Ok (take_size (bufsize - 1) s).

(** The line both buffering printers build in [buffer]. *)
Definition log_line (head : string) (n : nat) (at_ : site) (formatstring : string)
    (args : list parg) : outcome (list ascii) :=
  let buffer := replicate (Z.to_nat LOG_MSG_MAX_LENGTH) None in
  time ← print_time n 16;
  header ← format "[%s][%s] (%s:%d,%s) "
             [PStr (Some head); PStr (Some (implode time)); PStr (Some (s_file at_));
              PInt (s_line at_); PStr (Some (s_func at_))];
  '(buffer, i) ← snprintf buffer 0 LOG_MSG_MAX_LENGTH header;
  body ← format formatstring args;
  '(buffer, i) ← snprintf buffer i (to_size (LOG_MSG_MAX_LENGTH - i - 1)) body;
  buf_cstr buffer 0.

(** [type <= loglevel] compares as unsigned numbers. *)
Definition log_enabled (t : log_msg_type) (w : World) : bool :=
  log_code t <=? loglevel (w_log w) mod 2 ^ 32.

Definition emit (o : output) : M unit := modify (λ w, set_out (o :: w_out w) w).

Definition exit_if_fatal (t : log_msg_type) : M unit :=
  match t with log_fatal => exit_process 1 | _ => mret tt end.

Definition log_print_file (t : log_msg_type) (at_ : site) (f : string)
    (args : list parg) : M unit :=
  w ← get_world;
  if log_enabled t w then
    line ← lift (log_line (file_head t) (length (w_out w)) at_ f args);
    match logfile (w_log w), ftell_ok (length (w_out w)) with
    | Some _, true => emit (to_file line)
    | _, _ => fprintf_stderr ("Write to logfile failed: %s" +:+ nl)
                [PStr (Some (strerror (log_errno (length (w_out w)))))]
    end;;
    exit_if_fatal t
  else mret tt.

Definition log_print_console (t : log_msg_type) (at_ : site) (f : string)
    (args : list parg) : M unit :=
  w ← get_world;
  (if log_enabled t w then
     line ← lift (log_line (console_head t) (length (w_out w)) at_ f args);
     emit (to_stdout line)
   else mret tt);;
  exit_if_fatal t.

(** The [va_list] itself is passed to [syslog] as its only argument, so no
    conversion of the format finds an argument of its type. *)
Definition log_print_syslog (t : log_msg_type) (at_ : site) (f : string)
    (args : list parg) : M unit :=
  w ← get_world;
  (if log_enabled t w then
     lift (format f []);;
     emit (to_syslog (syslog_priority t) f)
   else mret tt);;
  exit_if_fatal t.

(** A call through the function pointer. *)
Definition log_print (t : log_msg_type) (at_ : site) (f : string) (args : list parg)
    : M unit :=
  w ← get_world;
  match log_print_ptr (w_log w) with
  | None => crash NullDeref
  | Some log_to_file => log_print_file t at_ f args
  | Some log_to_console => log_print_console t at_ f args
  | Some log_to_syslog => log_print_syslog t at_ f args
  end.

Definition DEBUG := log_print log_debug.
Definition INFO := log_print log_info.
Definition WARNING := log_print log_warning.
Definition ERROR := log_print log_error.
Definition FATAL := log_print log_fatal.

Definition set_log_fields (f : LogState → LogState) : M unit :=
  modify (λ w, set_log (f (w_log w)) w).

Definition log_lookup_loglevel (name : cstr) : M Z :=
  name ← deref name;
  if bool_decide (name = "fatal") then mret 0
  else if bool_decide (name = "error") then mret 1
  else if bool_decide (name = "warning") then mret 2
  else if bool_decide (name = "info") then mret 3
  else if bool_decide (name = "debug") then mret 4
  else fprintf_stderr ("Loglevel not found %s" +:+ nl +:+ ":") [PStr (Some name)];; mret 0.

(** The [while] loop over the table. *)
Fixpoint facility_loop (name : string) (table : list (string * Z)) : M Z :=
  match table with
  | [] => mret LOG_LOCAL0
  | (c_name, c_val) :: table' =>
      if bool_decide (name = c_name) then
        s ← lift (format ("found facility: %s, code: %d" +:+ nl) [PStr (Some c_name); PInt c_val]);
        emit (to_stdout s);;
        mret c_val
      else facility_loop name table'
  end.

Definition log_lookup_syslog_facility (name : cstr) : M Z :=
  match facilitynames with
  | [] => mret LOG_LOCAL0
  | _ => name ← deref name; facility_loop name facilitynames
  end.

Definition log_init (cloglevel target filepath facility : cstr) (max_size : Z) : M Z :=
  level ← log_lookup_loglevel cloglevel;
  set_log_fields (λ l, {| loglevel := level; logfile := logfile l;
                          logfilename := logfilename l; log_print_ptr := log_print_ptr l |});;
  path ← deref filepath;
  set_log_fields (λ l, {| loglevel := loglevel l; logfile := logfile l;
                          logfilename := Some path; log_print_ptr := log_print_ptr l |});;
  let set_printer p :=
    set_log_fields (λ l, {| loglevel := loglevel l; logfile := logfile l;
                            logfilename := logfilename l; log_print_ptr := Some p |}) in
  target ← deref target;
  if bool_decide (target = "stdout") then set_printer log_to_console;; mret 0
  else if bool_decide (target = "syslog") then
    code ← log_lookup_syslog_facility facility;
    call (X_openlog "mqrestt" (Z.lor (Z.lor LOG_CONS LOG_PID) LOG_NDELAY) code);;
    set_printer log_to_syslog;;
    mret 0
  else if bool_decide (target = "file") then
    '(opened, errno) ← call (X_fopen path "a+");
    if opened : bool then
      set_log_fields (λ l, {| loglevel := loglevel l; logfile := Some path;
                              logfilename := logfilename l; log_print_ptr := log_print_ptr l |});;
      set_printer log_to_file;;
      mret 0
    else
      set_log_fields (λ l, {| loglevel := loglevel l; logfile := None;
                              logfilename := logfilename l; log_print_ptr := log_print_ptr l |});;
      fprintf_stderr ("Opening logfile %s failed: %s" +:+ nl)
        [PStr (Some path); PStr (Some (strerror errno))];;
      mret (-1)
  else mret 0.

Definition log_finalize : M unit :=
  w ← get_world;
  match logfile (w_log w) with
  | Some path => call (X_fclose path);; mret tt
  | None => mret tt
  end;;
  set_log_fields (λ l, {| loglevel := loglevel l; logfile := None;
                          logfilename := logfilename l; log_print_ptr := log_print_ptr l |}).

(** * The time stamp *)
Lemma two_digits_length z : length (two_digits z) = 2%nat.
Proof. done. Qed.

Lemma pad_millis ms : 0 ≤ ms < 1000 → length (pad_zeros 3 (dec (to_int ms))) = 3%nat.
Proof.
  intros H.
  assert (HF : Forall (λ n, length (pad_zeros 3 (dec (to_int (Z.of_nat n)))) = 3%nat) (seq 0 1000)).
  { apply (bool_decide_unpack _). vm_compute. exact I. }
  rewrite Forall_forall in HF. specialize (HF (Z.to_nat ms)).
  rewrite Z2Nat.id in HF by lia. apply HF. apply elem_of_seq. lia.
Qed.

Lemma print_time_eq n :
  print_time n 16
  = Ok (strftime_HMS (localtime (fst (gettimeofday n))) ++ [ascii_of_nat 46]
        ++ pad_zeros 3 (dec (to_int (snd (gettimeofday n) / 1000)))).
Proof.
  unfold print_time. pose proof (gettimeofday_usec n) as Hu.
  destruct (gettimeofday n) as [sec usec]. cbn [fst snd] in *.
  rewrite Z.quot_div_nonneg by lia.
  assert (usec / 1000 < 1000) by (apply Z.div_lt_upper_bound; lia).
  assert (0 ≤ usec / 1000) by (apply Z.div_pos; lia).
  destruct (1000 <=? _) eqn:E; [lia|].
  set (body := pad_zeros 3 (dec (to_int (usec / 1000)))).
  assert (Hf : format "%s.%03d" [PStr (Some (implode (strftime_HMS (localtime sec))));
                                  PInt (usec / 1000)]
          = Ok (strftime_HMS (localtime sec) ++ [ascii_of_nat 46] ++ body ++ [])).
  { fmt_eval. by rewrite explode_implode. }
  rewrite Hf. cbn [mbind outcome_bind]. f_equal. rewrite app_nil_r.
  apply take_size_ge. rewrite !length_app. unfold body. rewrite pad_millis by lia.
  cbn. lia.
Qed.

Lemma print_time_length n : ∃ l, print_time n 16 = Ok l ∧ length l = 12%nat.
Proof.
  rewrite print_time_eq. eexists; split; [done|].
  pose proof (gettimeofday_usec n). rewrite !length_app, pad_millis; [cbn; lia|].
  split; [apply Z.div_pos; lia|apply Z.div_lt_upper_bound; lia].
Qed.

(** * The line *)
Definition log_header (head : string) (time : list ascii) (at_ : site) : list ascii :=
  explode "[" ++ explode head ++ explode "][" ++ time ++ explode "] ("
  ++ explode (s_file at_) ++ explode ":" ++ dec (to_int (s_line at_)) ++ explode ","
  ++ explode (s_func at_) ++ explode ") ".

Lemma format_header head time at_ :
  format "[%s][%s] (%s:%d,%s) "
    [PStr (Some head); PStr (Some (implode time)); PStr (Some (s_file at_));
     PInt (s_line at_); PStr (Some (s_func at_))]
  = Ok (log_header head time at_).
Proof.
  fmt_eval. unfold log_header. by rewrite explode_implode.
Qed.

Lemma log_header_length head time at_ :
  length (log_header head time at_)
  = (10 + strlen head + length time + strlen (s_file at_)
     + length (dec (to_int (s_line at_))) + strlen (s_func at_))%nat.
Proof.
  unfold log_header, strlen, explode. rewrite !length_app. cbn -[dec to_int]. lia.
Qed.

(** The buffer after the header and the body have been printed into it. *)
Lemma snprintf_header h :
  Z.of_nat (length h) ≤ 255 →
  snprintf (replicate 256 None) 0 256 h
  = Ok ((Some <$> h) ++ Some NUL :: replicate (255 - length h) None, Z.of_nat (length h)).
Proof.
  intros H. unfold snprintf. rewrite length_replicate.
  change (Z.of_nat 256 <? 0) with false. change (256 =? 0) with false. cbv iota.
  rewrite take_size_ge by lia.
  rewrite buf_write_ok; rewrite ?length_replicate, ?length_app; cbn [length]; [|lia|lia].
  cbn [mbind outcome_bind]. f_equal. f_equal.
  change (Z.to_nat 0) with 0%nat. rewrite take_0, app_nil_l.
  rewrite fmap_app, <- app_assoc. f_equal.
  change ([Some NUL] ++ drop (0 + (length h + 1)) (replicate 256 None)
          = [Some NUL] ++ replicate (255 - length h) (None : cell)).
  f_equal. rewrite drop_replicate. f_equal. lia.
Qed.

Lemma log_line_ok head n at_ f args time body :
  print_time n 16 = Ok time →
  format f args = Ok body →
  (length (log_header head time at_) ≤ 255)%nat →
  log_line head n at_ f args
  = Ok (cut_nul (log_header head time at_
                 ++ take (254 - length (log_header head time at_)) body)).
Proof.
  intros Ht Hb Hh. unfold log_line. rewrite Ht. cbn [mbind outcome_bind].
  rewrite format_header. cbn [mbind outcome_bind]. unfold LOG_MSG_MAX_LENGTH.
  set (h := log_header head time at_) in *.
  change (Z.to_nat 256) with 256%nat. rewrite snprintf_header by lia.
  cbn [mbind outcome_bind]. rewrite Hb. cbn [mbind outcome_bind].
  assert (Hsz : to_size (256 - Z.of_nat (length h) - 1) = 255 - Z.of_nat (length h)).
  { unfold to_size. rewrite Z.mod_small; lia. }
  rewrite Hsz. unfold snprintf.
  assert (Hl : length ((Some <$> h) ++ Some NUL :: replicate (255 - length h) (None : cell))
               = 256%nat).
  { rewrite length_app, length_fmap. cbn [length]. rewrite length_replicate. lia. }
  rewrite Hl. destruct (Z.of_nat 256 <? _) eqn:E1; [lia|].
  destruct (255 - Z.of_nat (length h) =? 0) eqn:E2.
  - cbn [mbind outcome_bind]. rewrite buf_cstr_0, scan_cstr_cut. replace (254 - length h)%nat with 0%nat by lia.
    by rewrite app_nil_r.
  - assert (Hts : take_size (255 - Z.of_nat (length h) - 1) body
                  = take (254 - length h) body).
    { rewrite take_size_nat by lia. f_equal. lia. }
    rewrite Hts. set (bd := take (254 - length h) body).
    assert (Hbd : (length bd ≤ 254 - length h)%nat) by (unfold bd; rewrite length_take; lia).
    rewrite buf_write_ok; rewrite ?Hl, ?length_app; cbn [length]; [|lia|lia].
    cbn [mbind outcome_bind]. rewrite Nat2Z.id.
    rewrite take_app_length' by (by rewrite length_fmap).
    rewrite buf_cstr_0, fmap_app, <- (app_assoc (Some <$> bd)), app_assoc, <- fmap_app.
    apply scan_cstr_cut.
Qed.

Lemma snprintf_header_long h :
  256 ≤ Z.of_nat (length h) →
  ∃ b, snprintf (replicate 256 None) 0 256 h = Ok (b, Z.of_nat (length h))
       ∧ length b = 256%nat.
Proof.
  intros H. unfold snprintf. rewrite length_replicate.
  change (Z.of_nat 256 <? 0) with false. change (256 =? 0) with false. cbv iota.
  assert (Hts : Z.of_nat (length (take_size (256 - 1) h)) = 255)
    by (rewrite length_take_size; lia).
  destruct (buf_write_is_ok (replicate 256 None) 0 (take_size (256 - 1) h ++ [NUL]))
    as (b' & -> & Eb); rewrite ?length_app, ?length_replicate; cbn [length]; [lia..|].
  rewrite length_replicate in Eb. by exists b'.
Qed.

(** A header of 256 characters or more: [buffer + i] leaves the buffer. *)
Lemma log_line_oob head n at_ f args time body :
  print_time n 16 = Ok time →
  format f args = Ok body →
  (256 ≤ length (log_header head time at_))%nat →
  log_line head n at_ f args = Crash OutOfBounds.
Proof.
  intros Ht Hb Hh. unfold log_line. rewrite Ht. cbn [mbind outcome_bind].
  rewrite format_header. cbn [mbind outcome_bind]. unfold LOG_MSG_MAX_LENGTH.
  set (h := log_header head time at_) in *.
  change (Z.to_nat 256) with 256%nat.
  destruct (snprintf_header_long h) as (b & -> & Hl); [lia|].
  cbn [mbind outcome_bind]. rewrite Hb. cbn [mbind outcome_bind].
  unfold snprintf. rewrite Hl.
  destruct (decide (length h = 256%nat)) as [Heq|].
  - rewrite Heq. change (Z.of_nat 256 <? Z.of_nat 256) with false.
    change (to_size (256 - Z.of_nat 256 - 1) =? 0) with false. cbv iota.
    rewrite buf_write_oob; [done|]. rewrite length_app, Hl. cbn [length]. lia.
  - destruct (_ <? _) eqn:E; [done|lia].
Qed.

(** * Rules for the logging macros

    With a buffering printer installed and a header that fits, a message
    below [log_fatal] only adds output and a fatal one exits. *)
Definition log_ready (l : LogState) : Prop :=
  (log_print_ptr l = Some log_to_file ∨ log_print_ptr l = Some log_to_console)
  ∧ 0 ≤ loglevel l ≤ 4.

Definition site_ok (at_ : site) : bool :=
  (strlen (s_file at_) + length (dec (to_int (s_line at_))) + strlen (s_func at_) <=? 200)%nat.

Lemma log_line_total head n at_ f args body :
  (strlen head ≤ 17)%nat → site_ok at_ = true → format f args = Ok body →
  ∃ line, log_line head n at_ f args = Ok line.
Proof.
  intros Hh Hs Hb. destruct (print_time_length n) as (time & Ht & Hl).
  eexists. eapply log_line_ok; [done..|].
  rewrite log_header_length. unfold site_ok in Hs. lia.
Qed.

(** * Printing keeps what does not speak of the output *)
Section log_preserves.
Context (I : World → Prop) `{!Proper ((≡) ==> iff) I}.

Lemma pres_emit o : preserves I (emit o).
Proof. intros w Hw. unfold emit, modify. cbn. by rewrite set_out_equiv. Qed.

Lemma pres_exit_if_fatal t : preserves I (exit_if_fatal t).
Proof. unfold exit_if_fatal. destruct t; auto with pres. Qed.

Lemma pres_log_print t at_ f args : preserves I (log_print t at_ f args).
Proof.
  unfold log_print. apply pres_bind; [apply pres_get|]. intros w.
  pose proof pres_emit. pose proof pres_exit_if_fatal.
  pose proof (pres_fprintf_stderr I).
  destruct (log_print_ptr (w_log w)) as [[]|]; [| | |auto with pres];
    unfold log_print_file, log_print_console, log_print_syslog; pres; auto with pres.
Qed.

Lemma pres_DEBUG at_ f args : preserves I (DEBUG at_ f args).
Proof. apply pres_log_print. Qed.
Lemma pres_INFO at_ f args : preserves I (INFO at_ f args).
Proof. apply pres_log_print. Qed.
Lemma pres_WARNING at_ f args : preserves I (WARNING at_ f args).
Proof. apply pres_log_print. Qed.
Lemma pres_ERROR at_ f args : preserves I (ERROR at_ f args).
Proof. apply pres_log_print. Qed.
Lemma pres_FATAL at_ f args : preserves I (FATAL at_ f args).
Proof. apply pres_log_print. Qed.

End log_preserves.

(** * Reading names *)
Definition level_of (name : string) : Z :=
  match list_find (λ n, n = name) ["fatal"; "error"; "warning"; "info"; "debug"] with
  | Some (i, _) => Z.of_nat i
  | None => 0
  end.

Lemma wp_lookup_loglevel name Q w :
  (∀ o, Q (Ok (level_of name)) (set_out o w)) →
  wp (log_lookup_loglevel (Some name)) Q w.
Proof.
  intros HQ. pose proof (HQ (w_out w)) as HQ0. rewrite set_out_id in HQ0.
  unfold log_lookup_loglevel, level_of, deref in *. wp_steps. cbn [list_find] in *.
  repeat match goal with
  | |- context [bool_decide (name = ?s)] => destruct (decide (name = s)) as [->|?];
      [by wp_steps; apply HQ0|]; rewrite (bool_decide_false (name = s)) by done
  end.
  rewrite !decide_False in HQ by done. wp_steps. apply HQ.
Qed.

Lemma wp_facility_loop name table Q w :
  (∀ o, Q (Ok (default LOG_LOCAL0 (snd ∘ snd <$> list_find (λ p, name = p.1) table)))
          (set_out o w)) →
  wp (facility_loop name table) Q w.
Proof.
  revert Q. induction table as [|[c_name c_val] table IH]; intros Q HQ.
  { pose proof (HQ (w_out w)) as HQ0. by rewrite set_out_id in HQ0. }
  cbn [facility_loop list_find fst] in *. destruct (decide (name = c_name)) as [->|Hn].
  - rewrite bool_decide_true by done. unfold emit. wp_steps. fmt_eval. wp_steps. apply HQ.
  - rewrite bool_decide_false by done. apply IH. intros o. specialize (HQ o).
    by destruct (list_find _ table) as [[i p]|].
Qed.

Lemma file_head_length t : (strlen (file_head t) ≤ 17)%nat.
Proof. destruct t; vm_compute; lia. Qed.

Lemma console_head_length t : (strlen (console_head t) ≤ 17)%nat.
Proof. destruct t; vm_compute; lia. Qed.

Lemma log_enabled_ready t w :
  0 ≤ loglevel (w_log w) ≤ 4 → log_enabled t w = (log_code t <=? loglevel (w_log w)).
Proof. intros H. unfold log_enabled. rewrite Z.mod_small by lia. done. Qed.

Definition log_outcome (t : log_msg_type) : outcome unit :=
  match t with log_fatal => Exit 1 | _ => Ok tt end.

Lemma wp_exit_if_fatal t Q w : Q (log_outcome t) w → wp (exit_if_fatal t) Q w.
Proof. by destruct t. Qed.

Lemma fatal_enabled w : 0 ≤ loglevel (w_log w) ≤ 4 → log_enabled log_fatal w = true.
Proof. intros H. rewrite log_enabled_ready by done. cbn. lia. Qed.

Lemma wp_log_print t at_ f args body Q w :
  log_ready (w_log w) → site_ok at_ = true → format f args = Ok body →
  (∀ o, Q (log_outcome t) (set_out o w)) →
  wp (log_print t at_ f args) Q w.
Proof.
  intros [Hp Hl] Hs Hb HQ. unfold log_print. wp_steps.
  pose proof (HQ (w_out w)) as HQ0. rewrite set_out_id in HQ0.
  destruct (log_line_total (file_head t) (length (w_out w)) at_ f args body)
    as [line1 Hline1]; [apply file_head_length|done..|].
  destruct (log_line_total (console_head t) (length (w_out w)) at_ f args body)
    as [line2 Hline2]; [apply console_head_length|done..|].
  destruct Hp as [-> | ->]; unfold log_print_file, log_print_console; wp_steps;
    destruct (log_enabled t w) eqn:He.
  - wp_steps. rewrite Hline1. wp_steps.
    destruct (logfile (w_log w)) as [?|]; [destruct (ftell_ok _)|];
      unfold emit, fprintf_stderr; wp_steps; apply wp_exit_if_fatal, HQ.
  - wp_steps. destruct t; [by rewrite fatal_enabled in He|apply HQ0..].
  - wp_steps. rewrite Hline2. unfold emit. wp_steps. apply wp_exit_if_fatal, HQ.
  - wp_steps. apply wp_exit_if_fatal, HQ0.
Qed.

Lemma wp_log_msg t at_ f args body Q w :
  log_ready (w_log w) → site_ok at_ = true → format f args = Ok body → t ≠ log_fatal →
  (∀ o, Q (Ok tt) (set_out o w)) →
  wp (log_print t at_ f args) Q w.
Proof. intros H1 H2 H3 Ht HQ. eapply wp_log_print; [done..|]. by destruct t. Qed.

Lemma wp_fatal at_ f args body Q w :
  log_ready (w_log w) → site_ok at_ = true → format f args = Ok body →
  (∀ o, Q (Exit 1) (set_out o w)) →
  wp (FATAL at_ f args) Q w.
Proof. intros H1 H2 H3 HQ. by eapply wp_log_print. Qed.

(** * Properties *)

(** C26: A line in the 256-byte buffer. While its header has at most 255
    characters, the line is the header followed by as much of the message as
    fits into 254 characters, NUL-terminated; with a longer header the message
    is written outside the buffer. *)
Theorem log_line_bounds head n at_ f args body :
  format f args = Ok body →
  ∃ time, print_time n 16 = Ok time ∧ length time = 12%nat
  ∧ let header := log_header head time at_ in
    ((length header ≤ 255)%nat →
       log_line head n at_ f args
       = Ok (cut_nul (header ++ take (254 - length header) body)))
    ∧ ((256 ≤ length header)%nat → log_line head n at_ f args = Crash OutOfBounds).
Proof.
  intros Hb. destruct (print_time_length n) as (time & Ht & Hl).
  exists time. split_and!; [done..|]. split; intros Hh.
  - by apply log_line_ok.
  - by eapply log_line_oob.
Qed.

(** The console printer prints exactly the messages up to the configured
    level, one line each, and changes nothing else. *)
Lemma console_threshold t at_ f args w body time :
  log_print_ptr (w_log w) = Some log_to_console →
  0 ≤ loglevel (w_log w) ≤ 4 → t ≠ log_fatal →
  format f args = Ok body → print_time (length (w_out w)) 16 = Ok time →
  (length (log_header (console_head t) time at_) ≤ 255)%nat →
  let header := log_header (console_head t) time at_ in
  log_print t at_ f args w
  = (Ok tt,
     if log_code t <=? loglevel (w_log w)
     then set_out (to_stdout (cut_nul (header ++ take (254 - length header) body))
                   :: w_out w) w
     else w).
Proof.
  intros Hp Hl Ht Hb Htm Hh header.
  unfold log_print, log_print_console, get_world, mbind, M_bind. rewrite Hp.
  rewrite log_enabled_ready by done. destruct (_ <=? _).
  - unfold lift. rewrite (log_line_ok _ _ _ _ _ time body) by done. by destruct t.
  - by destruct t.
Qed.

(** [FATAL] never returns to its caller, whichever printer is installed,
    whatever the level, even when logging was never initialised. *)
Lemma fatal_never_returns at_ f args w : fst (FATAL at_ f args w) ≠ Ok tt.
Proof.
  assert (He : log_enabled log_fatal w = true).
  { unfold log_enabled. pose proof (Z.mod_pos_bound (loglevel (w_log w)) (2 ^ 32)).
    cbn. lia. }
  unfold FATAL, log_print, log_print_file, log_print_console, log_print_syslog.
  unfold get_world, mbind, M_bind, lift, emit, fprintf_stderr, exit_if_fatal, exit_process,
    modify, crash, lift.
  destruct (log_print_ptr (w_log w)) as [[]|]; rewrite ?He; [| | |done].
  - destruct (log_line _ _ _ _ _); [|done..]. by destruct (logfile (w_log w)), (ftell_ok (length (w_out w))).
  - by destruct (log_line _ _ _ _ _).
  - by destruct (format f []).
Qed.

Lemma level_of_range level : 0 ≤ level_of level ≤ 4.
Proof.
  unfold level_of. destruct (list_find _ _) as [[i n]|] eqn:E; [|lia].
  apply list_find_Some in E as [E _]. apply lookup_lt_Some in E. cbn in E. lia.
Qed.

(** The printer and log file [log_init] installs for a target. *)
Definition log_after_init (level target path : string) (opened : bool) (l : LogState)
    : Z * LogState :=
  let set p file := {| loglevel := level_of level; logfile := file;
                       logfilename := Some path; log_print_ptr := p |} in
  if bool_decide (target = "stdout") then (0, set (Some log_to_console) (logfile l))
  else if bool_decide (target = "syslog") then (0, set (Some log_to_syslog) (logfile l))
  else if bool_decide (target = "file") then
    if opened then (0, set (Some log_to_file) (Some path))
    else (-1, set (log_print_ptr l) None)
  else (0, set (log_print_ptr l) (logfile l)).

Lemma wp_lookup_facility name Q w :
  (∀ code o, Q (Ok code) (set_out o w)) →
  wp (log_lookup_syslog_facility (Some name)) Q w.
Proof.
  intros HQ. unfold log_lookup_syslog_facility, deref.
  destruct facilitynames as [|p l].
  - pose proof (HQ LOG_LOCAL0 (w_out w)) as HQ0. rewrite set_out_id in HQ0. apply HQ0.
  - wp_steps. apply wp_facility_loop. intros o. apply HQ.
Qed.

Lemma wp_log_init level target path facility w :
  let opened := fst (answer (w_trace w) _ (X_fopen path "a+")) in
  wp (log_init (Some level) (Some target) (Some path) (Some facility) 0)
    (λ o w', o = Ok (fst (log_after_init level target path opened (w_log w)))
             ∧ w_log w' = snd (log_after_init level target path opened (w_log w))
             ∧ w_heap w' = w_heap w) w.
Proof.
  intros opened. unfold log_init, set_log_fields, log_after_init.
  apply wp_bind, wp_lookup_loglevel. intros o. unfold deref. wp_steps.
  case_bool_decide; [by wp_steps|].
  case_bool_decide.
  - apply wp_bind, wp_lookup_facility. intros code o'. by wp_steps.
  - case_bool_decide; [|by wp_steps]. wp_steps. cbn [w_trace set_trace set_log set_out].
    unfold opened. destruct (answer (w_trace w) _ (X_fopen path "a+")) as [[] e].
    + by wp_steps.
    + by wp_steps.
Qed.

(** [log_init] on every branch: its value and the logging state for each
    target. *)
Lemma log_init_spec level target path facility w :
  let opened := fst (answer (w_trace w) _ (X_fopen path "a+")) in
  wp (log_init (Some level) (Some target) (Some path) (Some facility) 0)
    (λ o w', o = Ok (fst (log_after_init level target path opened (w_log w)))
             ∧ w_log w' = snd (log_after_init level target path opened (w_log w))
             ∧ w_heap w' = w_heap w) w.
Proof. apply wp_log_init. Qed.

(** A target that is none of the three leaves the function pointer null and
    is not reported: [log_init] returns 0 and the first message, of any kind,
    calls through the null pointer. *)
Lemma log_init_unknown_target level target path facility w :
  target ∉ ["stdout"; "syslog"; "file"] → log_print_ptr (w_log w) = None →
  wp (log_init (Some level) (Some target) (Some path) (Some facility) 0)
    (λ o w', o = Ok 0 ∧ log_print_ptr (w_log w') = None) w.
Proof.
  intros Ht Hp. eapply wp_mono; [apply wp_log_init|]. intros o w' (-> & -> & _).
  unfold log_after_init. by rewrite !bool_decide_false by set_solver.
Qed.

Lemma log_print_null t at_ f args w :
  log_print_ptr (w_log w) = None → log_print t at_ f args w = (Crash NullDeref, w).
Proof. intros Hp. unfold log_print, get_world, mbind, M_bind. by rewrite Hp. Qed.

(** The syslog printer passes its [va_list] as if it were the arguments, so
    every enabled message whose format has a conversion is undefined. *)
Lemma syslog_needs_plain_format t at_ f args w :
  log_print_ptr (w_log w) = Some log_to_syslog → 0 ≤ loglevel (w_log w) ≤ 4 →
  log_code t ≤ loglevel (w_log w) →
  (∃ p, p ∈ parse_fmt f ∧ ∀ c, p ≠ Lit c) →
  log_print t at_ f args w = (Crash BadVarargs, w).
Proof.
  intros Hp Hl Ht (p & Hin & Hc). unfold log_print, log_print_syslog, get_world, mbind, M_bind.
  rewrite Hp, log_enabled_ready by done. rewrite (proj2 (Z.leb_le _ _)) by done.
  assert (Hf : format f [] = Crash BadVarargs).
  { unfold format. revert Hin. generalize (parse_fmt f). intros ps.
    induction ps as [|q ps IH]; intros Hin; [set_solver|].
    apply elem_of_cons in Hin as [<-|Hin].
    - destruct p; cbn; try done. by destruct (Hc c).
    - cbn. rewrite IH by done. by destruct q. }
  unfold lift. by rewrite Hf.
Qed.

(** After [log_finalize] the file printer has no file: further lines go to
    standard error instead. *)
Lemma log_finalize_closes w :
  wp log_finalize (λ o w',
    o = Ok tt ∧ logfile (w_log w') = None
    ∧ (log_print_ptr (w_log w) = Some log_to_file → 0 ≤ loglevel (w_log w) ≤ 4 →
       ∀ t at_ f args body, site_ok at_ = true → format f args = Ok body →
       t ≠ log_fatal → log_code t ≤ loglevel (w_log w) →
       ∃ line, log_print t at_ f args w'
               = (Ok tt, set_out (to_stderr line :: w_out w') w'))) w.
Proof.
  unfold log_finalize, set_log_fields. wp_steps.
  assert (H : ∀ w', w_log w' = {| loglevel := loglevel (w_log w); logfile := None;
                     logfilename := logfilename (w_log w);
                     log_print_ptr := log_print_ptr (w_log w) |} →
    log_print_ptr (w_log w) = Some log_to_file → 0 ≤ loglevel (w_log w) ≤ 4 →
    ∀ t at_ f args body, site_ok at_ = true → format f args = Ok body →
    t ≠ log_fatal → log_code t ≤ loglevel (w_log w) →
    ∃ line, log_print t at_ f args w' = (Ok tt, set_out (to_stderr line :: w_out w') w')).
  { intros w' Hw Hp Hl t at_ f args body Hs Hb Ht Hc.
    destruct (log_line_total (file_head t) (length (w_out w')) at_ f args body)
      as [line Hline]; [apply file_head_length|done..|].
    assert (He : log_enabled t w' = true).
    { rewrite log_enabled_ready; rewrite Hw; cbn [loglevel]; [|done]. by apply Z.leb_le. }
    eexists. unfold log_print, get_world, mbind, M_bind. rewrite Hw. cbn [log_print_ptr].
    rewrite Hp. unfold log_print_file, get_world, mbind, M_bind, lift. rewrite He, Hline, Hw.
    cbn [logfile]. unfold fprintf_stderr, mbind, M_bind, lift. fmt_eval. by destruct t. }
  destruct (logfile (w_log w)) as [path|]; wp_steps; (split_and!; [done..|]); by apply H.
Qed.

(** The level names and their numbers: each of the five names is read as
    its own [log_msg_type], and any other name as [fatal]. *)
Lemma log_lookup_loglevel_spec name w :
  wp (log_lookup_loglevel (Some name)) (λ o w',
    w' ≡ w ∧
    ((∃ t, o = Ok (log_code t) ∧
       name = match t with log_fatal => "fatal" | log_error => "error"
              | log_warning => "warning" | log_info => "info" | log_debug => "debug" end)
     ∨ ((name ∉ ["fatal"; "error"; "warning"; "info"; "debug"]) ∧ o = Ok 0))) w.
Proof.
  apply wp_lookup_loglevel. intros o. split; [apply set_out_equiv|].
  unfold level_of. destruct (list_find _ _) as [[i n]|] eqn:E.
  - apply list_find_Some in E as (Hi & -> & _). left.
    destruct i as [|[|[|[|[|i]]]]]; cbn in Hi; simplify_eq;
      [exists log_fatal|exists log_error|exists log_warning|exists log_info|exists log_debug];
      done.
  - apply list_find_None in E. right. split; [|done].
    intros Hin. rewrite Forall_forall in E. by apply (E name).
Qed.

(** The syslog facility is the first entry of the table with that name,
    [LOG_LOCAL0] when there is none. *)
Lemma log_lookup_syslog_facility_spec name w :
  wp (log_lookup_syslog_facility (Some name)) (λ o w',
    o = Ok (default LOG_LOCAL0
              (snd ∘ snd <$> list_find (λ p, name = p.1) facilitynames)) ∧ w' ≡ w) w.
Proof.
  unfold log_lookup_syslog_facility, deref.
  destruct facilitynames as [|p l] eqn:E; [by wp_steps|].
  wp_steps. apply wp_facility_loop. intros o. split; [done|apply set_out_equiv].
Qed.

End logging.

(** ** Witnesses *)
Import Demo.

Lemma log_line_bounds_witness :
  format "hi %d" [PInt 3] = Ok (explode "hi 3")
  ∧ log_line (EV := demo_env 8 all_ok) "NFO" 0 (At "main.c" 1 "main") "hi %d" [PInt 3]
    = Ok (explode "[NFO][12:34:56.123] (main.c:1,main) hi 3").
Proof.
  assert (Hf : format "hi %d" [PInt 3] = Ok (explode "hi 3")) by (vm_compute; reflexivity).
  split; [exact Hf|].
  destruct (log_line_bounds (EV := demo_env 8 all_ok) "NFO" 0 (At "main.c" 1 "main")
              "hi %d" [PInt 3] _ Hf) as (time & Ht & _ & H1 & _).
  vm_compute in Ht. injection Ht as <-.
  etransitivity; [apply H1; vm_compute; lia|vm_compute; reflexivity].
Defined.

Lemma console_threshold_witness :
  log_print (EV := demo_env 8 all_ok) log_error (At "main.c" 1 "main") "hi" [] demo_world
    = (Ok tt, set_out [to_stdout (explode ("[" +:+ console_head log_error
                         +:+ "][12:34:56.123] (main.c:1,main) hi"))] demo_world).
Proof.
  etransitivity.
  - eapply (console_threshold (EV := demo_env 8 all_ok) log_error);
      [reflexivity|cbn; lia|discriminate|vm_compute; reflexivity|vm_compute; reflexivity
      |vm_compute; lia].
  - vm_compute. reflexivity.
Defined.

(** Step over a logging macro whose arguments can be formatted; the printed
    output becomes a variable. *)
Ltac wp_log :=
  lazymatch goal with
  | |- wp (FATAL _ _ _) _ _ =>
      eapply wp_fatal; [assumption|reflexivity|fmt_eval; reflexivity|intros ?]
  | |- wp (INFO _ _ _) _ _ =>
      eapply (wp_log_msg log_info);
      [assumption|reflexivity|fmt_eval; reflexivity|discriminate|intros ?]
  | |- wp (DEBUG _ _ _) _ _ =>
      eapply (wp_log_msg log_debug);
      [assumption|reflexivity|fmt_eval; reflexivity|discriminate|intros ?]
  | |- wp (WARNING _ _ _) _ _ =>
      eapply (wp_log_msg log_warning);
      [assumption|reflexivity|fmt_eval; reflexivity|discriminate|intros ?]
  | |- wp (ERROR _ _ _) _ _ =>
      eapply (wp_log_msg log_error);
      [assumption|reflexivity|fmt_eval; reflexivity|discriminate|intros ?]
  end.

(** Straight-line execution. *)
#[export] Hint Extern 0 (preserves _ (DEBUG _ _ _)) => apply pres_DEBUG, _ : pres.
#[export] Hint Extern 0 (preserves _ (INFO _ _ _)) => apply pres_INFO, _ : pres.
#[export] Hint Extern 0 (preserves _ (WARNING _ _ _)) => apply pres_WARNING, _ : pres.
#[export] Hint Extern 0 (preserves _ (ERROR _ _ _)) => apply pres_ERROR, _ : pres.
#[export] Hint Extern 0 (preserves _ (FATAL _ _ _)) => apply pres_FATAL, _ : pres.

Ltac wp_go := repeat (first [wp_step | wp_log]; cbn beta iota).

End Logging.
