(* ===== verification/Configuration.v ===== *)
(** Model of [src/configuration.c]: reading the configuration file through
    libconfuse into the program's structs. *)
From Stdlib Require Import ZArith Lia ZifyBool Ascii String List.
From stdpp Require Import base numbers list strings gmap.
From S2P Require Import Prelude.
From S2P Require Import CLib.
From S2P Require Import Types.
From S2P Require Import World.
From S2P Require Import Demo.
From S2P Require Import Logging.
Import Logging.

Module Configuration.

(** [PACKAGE_NAME ":"], the package name being set in [configure.ac]. *)
Definition PACKAGE_NAME : string := "mqrestt".
Definition INISECTION : string := PACKAGE_NAME +:+ ":".

Definition mqtt2rest_unit_opts : list cfg_opt :=
  [ CFG_STR "webservice_baseurl" "localhost";
    CFG_STR "mqtt_topic" "default_topic";
    CFG_BOOL "enabled" true ].

Definition rest2mqtt_unit_opts : list cfg_opt :=
  [ CFG_INT "listen_port" 8888;
    CFG_STR "mqtt_topic_root" "default_topic";
    CFG_BOOL "enabled" true ].

Definition opts : list cfg_opt :=
  [ CFG_STR "logtarget" "stdout";
    CFG_STR "logfile" "mgrestt.log";
    CFG_STR "logfacility" "local0";
    CFG_STR "loglevel" "fatal";
    CFG_STR "mqtt_broker_host" "localhost";
    CFG_INT "mqtt_broker_port" 1883;
    CFG_INT "mqtt_keepalive" 30;
    CFG_BOOL "mqtt_tls" false;
    CFG_STR "mqtt_cafile" "-----";
    CFG_STR "mqtt_capath" "-----";
    CFG_STR "mqtt_certfile" "-----";
    CFG_STR "mqtt_keyfile" "-----";
    CFG_BOOL "mqtt_user_pw" false;
    CFG_STR "mqtt_user" "-----";
    CFG_STR "mqtt_pw" "-----";
    CFG_SEC "mqtt2rest_unit" mqtt2rest_unit_opts;
    CFG_SEC "rest2mqtt_unit" rest2mqtt_unit_opts ].

(** [if (s && !strlen(s)) s = NULL;] *)
Definition null_if_empty (s : cstr) : cstr :=
  match s with
  | Some s' => if (strlen s' =? 0)%nat then None else Some s'
  | None => None
  end.

Section configuration.
Context `{EV : Env}.

Definition free_config : M unit :=
  w ← get_world;
  assert_that (bool_decide (is_Some (w_cfg w)));;
  match w_cfg w with
  | Some c => call (X_cfg_free c);; mret tt
  | None => mret tt
  end.

(** The struct as the assignments of [init_config] fill it. *)
Definition read_configuration (c : cfg_ptr) : Configuration := {|
  appname := Some INISECTION;
  logtarget := cfg_getstr c "logtarget";
  cf_logfile := cfg_getstr c "logfile";
  logfacility := cfg_getstr c "logfacility";
  cf_loglevel := cfg_getstr c "loglevel";
  mqtt_broker_host := cfg_getstr c "mqtt_broker_host";
  mqtt_broker_port := to_int (cfg_getint c "mqtt_broker_port");
  mqtt_keepalive := to_int (cfg_getint c "mqtt_keepalive");
  mqtt_tls := cfg_getbool c "mqtt_tls";
  mqtt_cafile := null_if_empty (cfg_getstr c "mqtt_cafile");
  mqtt_capath := null_if_empty (cfg_getstr c "mqtt_capath");
  mqtt_certfile := null_if_empty (cfg_getstr c "mqtt_certfile");
  mqtt_keyfile := null_if_empty (cfg_getstr c "mqtt_keyfile");
  mqtt_user_pw := cfg_getbool c "mqtt_user_pw";
  mqtt_user := cfg_getstr c "mqtt_user";
  mqtt_pw := cfg_getstr c "mqtt_pw";
|}.

Definition sizeof_Configuration : Z := 120.
Definition sizeof_Mqtt2RestUnitConfiguration : Z := 40.
Definition sizeof_Rest2MqttUnitConfiguration : Z := 32.

Definition init_config (filepath : string) (dump : bool) : M ptr :=
  retval ← malloc sizeof_Configuration OUninit;
  cfg ← call (X_cfg_init opts);
  modify (set_cfg cfg);;
  call (X_cfg_parse cfg filepath);;
  match cfg with
  | None =>
      fprintf_stderr ("cannot parse file: %s" +:+ nl) [PStr (Some filepath)];;
      free_config;;
      mret None
  | Some c =>
      (if dump then
         fprintf_stderr ("Config dump from file: %s" +:+ nl +:+ nl) [PStr (Some filepath)];;
         call (X_cfg_print c);;
         fprintf_stderr (nl +:+ nl) []
       else mret tt);;
      let conf := read_configuration c in
      store retval (OConfiguration conf);;
      if mqtt_tls conf && bool_decide (mqtt_cafile conf = None)
         && bool_decide (mqtt_capath conf = None)
      then
        fprintf_stderr ("config error: either mqtt_cafile or mqtt_capath need to be set!"
                        +:+ nl) [];;
        free_config;;
        mret None
      else mret retval
  end.

(** [configarray[i] = p], the array having as many slots as [a]. *)
Definition set_slot (a : list ptr) (i : nat) (p : ptr) : outcome (list ptr) :=
  if (i <? length a)%nat then Ok (<[i := p]> a) else Crash OutOfBounds.

Definition read_mqtt2rest (unit_ : cfg_ptr) : Mqtt2RestUnitConfiguration := {|
  m2r_unit_name := cfg_title unit_;
  m2r_enabled := cfg_getbool unit_ "enabled";
  m2r_webservice_baseurl := cfg_getstr unit_ "webservice_baseurl";
  m2r_mqtt_topic := cfg_getstr unit_ "mqtt_topic";
  m2r_common_configuration := None;   (* not set here: main sets it *)
|}.

(** The [for] loop of the two functions below from [i] on, with [todo] units
    left; [fill] is what the body does with the block it allocated. *)
Fixpoint unitconfigs_loop (size : Z) (fill : nat → ptr → M unit) (unit_count : Z)
    (todo i : nat) (configarray : list ptr) : M (Z * list ptr) :=
  match todo with
  | O => mret (unit_count, configarray)
  | S todo' =>
      p ← malloc size OUninit;
      configarray ← lift (set_slot configarray i p);
      match p with
      | None =>
          fprintf_stderr ("failed to allocate memory" +:+ nl) [];;
          mret (-1, configarray)
      | Some _ =>
          fill i p;;
          unitconfigs_loop size fill unit_count todo' (S i) configarray
      end
  end.

Definition fill_mqtt2rest (c : cfg_ptr) (i : nat) (p : ptr) : M unit :=
  let unit_ := cfg_getnsec c "mqtt2rest_unit" (Z.of_nat i) in
  INFO (At "configuration.c" 163 "get_mqtt2rest_unitconfigs") "UNIT: %s"
    [PStr (cfg_title unit_)];;
  INFO (At "configuration.c" 166 "get_mqtt2rest_unitconfigs") (tab +:+ "URL: %s")
    [PStr (cfg_getstr unit_ "webservice_baseurl")];;
  INFO (At "configuration.c" 170 "get_mqtt2rest_unitconfigs") (tab +:+ "TOPIC: %s")
    [PStr (cfg_getstr unit_ "mqtt_topic")];;
  store p (OMqtt2Rest (read_mqtt2rest unit_)).

Definition get_mqtt2rest_unitconfigs (configarray : list ptr) (max_size : Z)
    : M (Z * list ptr) :=
  w ← get_world;
  match w_cfg w with
  | None => lift Abort
  | Some c =>
      let unit_count := to_int (cfg_size c "mqtt2rest_unit") in
      if max_size <? unit_count then
        fprintf_stderr ("config error: configarray too small" +:+ nl) [];;
        mret (-1, configarray)
      else unitconfigs_loop sizeof_Mqtt2RestUnitConfiguration (fill_mqtt2rest c) unit_count
             (Z.to_nat unit_count) 0 configarray
  end.

Definition read_rest2mqtt (unit_ : cfg_ptr) : Rest2MqttUnitConfiguration := {|
  r2m_unit_name := cfg_title unit_;
  r2m_enabled := cfg_getbool unit_ "enabled";
  r2m_listen_port := to_int (cfg_getint unit_ "listen_port");
  r2m_mqtt_topic_root := cfg_getstr unit_ "mqtt_topic_root";
  r2m_common_configuration := None;
|}.

Definition fill_rest2mqtt (c : cfg_ptr) (i : nat) (p : ptr) : M unit :=
  let unit_ := cfg_getnsec c "rest2mqtt_unit" (Z.of_nat i) in
  INFO (At "configuration.c" 194 "get_rest2mqtt_unitconfigs") "UNIT: %s"
    [PStr (cfg_title unit_)];;
  INFO (At "configuration.c" 197 "get_rest2mqtt_unitconfigs")
    (tab +:+ "Listen port: %d") [PInt (cfg_getint unit_ "listen_port")];;
  INFO (At "configuration.c" 201 "get_rest2mqtt_unitconfigs")
    (tab +:+ "TOPIC ROOT: %s") [PStr (cfg_getstr unit_ "mqtt_topic_root")];;
  store p (ORest2Mqtt (read_rest2mqtt unit_)).

Definition get_rest2mqtt_unitconfigs (configarray : list ptr) (max_size : Z)
    : M (Z * list ptr) :=
  w ← get_world;
  match w_cfg w with
  | None => lift Abort
  | Some c =>
      let unit_count := to_int (cfg_size c "rest2mqtt_unit") in
      if max_size <? unit_count then
        fprintf_stderr ("config error: configarray too small" +:+ nl) [];;
        mret (-1, configarray)
      else unitconfigs_loop sizeof_Rest2MqttUnitConfiguration (fill_rest2mqtt c) unit_count
             (Z.to_nat unit_count) 0 configarray
  end.

(** * Reading the units: the loop *)

(** [ls] are the blocks of the units from index [i] on, all new in [h]; [h']
    is [h] with those units added. *)
Record units_added (rd : nat → obj) (i : nat) (h h' : gmap positive obj)
    (ls : list positive) : Prop := {
  ua_units : ∀ k l, ls !! k = Some l → h' !! l = Some (rd (i + k)%nat);
  ua_new : ∀ l, l ∈ ls → h !! l = None;
  ua_nodup : NoDup ls;
  ua_rest : ∀ l, l ∉ ls → h' !! l = h !! l;
}.

Lemma units_added_nil rd i h : units_added rd i h h [].
Proof. split; [done|set_solver|constructor|done]. Qed.

Lemma units_added_cons rd i h h' l ls :
  h !! l = None →
  units_added rd (S i) (<[l := rd i]> h) h' ls →
  units_added rd i h h' (l :: ls).
Proof.
  intros Hl [Hu Hn Hd Hr].
  assert (Hnot : l ∉ ls).
  { intros Hin. apply Hn in Hin. by rewrite lookup_insert_eq in Hin. }
  split.
  - intros [|k] l' Hk; cbn in Hk.
    + injection Hk as <-. rewrite Hr by done. rewrite lookup_insert_eq. do 2 f_equal. lia.
    + rewrite (Hu _ _ Hk). do 2 f_equal. lia.
  - intros l' Hin. apply elem_of_cons in Hin as [->|Hin]; [done|].
    specialize (Hn l' Hin). by apply lookup_insert_None in Hn as [Hn _].
  - by constructor.
  - intros l' Hin. apply not_elem_of_cons in Hin as [Hne Hin].
    rewrite Hr by done. by rewrite lookup_insert_ne.
Qed.

(** What a body must do: turn the new block into the unit's struct. *)
Definition fills (fill : nat → ptr → M unit) (rd : nat → obj) : Prop :=
  ∀ i l w Q, log_ready (w_log w) → w_heap w !! l = Some OUninit →
    (∀ o, Q (Ok tt) (set_heap (<[l := rd i]> (w_heap w)) (set_out o w))) →
    wp (fill i (Some l)) Q w.

Lemma fill_mqtt2rest_fills c :
  fills (fill_mqtt2rest c)
    (λ i, OMqtt2Rest (read_mqtt2rest (cfg_getnsec c "mqtt2rest_unit" (Z.of_nat i)))).
Proof.
  intros i l w Q Hlog Hl HQ. unfold fill_mqtt2rest. wp_go.
  eapply wp_store; [exact Hl|]. apply HQ.
Qed.

Lemma fill_rest2mqtt_fills c :
  fills (fill_rest2mqtt c)
    (λ i, ORest2Mqtt (read_rest2mqtt (cfg_getnsec c "rest2mqtt_unit" (Z.of_nat i)))).
Proof.
  intros i l w Q Hlog Hl HQ. unfold fill_rest2mqtt. wp_go.
  eapply wp_store; [exact Hl|]. apply HQ.
Qed.

(** The result of the loop: all units, or the ones before a failed
    allocation and -1. *)
Definition loop_result (rd : nat → obj) (unit_count : Z) (todo i : nat)
    (arr : list ptr) (w : World) (o : outcome (Z * list ptr)) (w' : World) : Prop :=
  ∃ ls, units_added rd i (w_heap w) (w_heap w') ls ∧ w_log w' = w_log w
  ∧ w_cfg w' = w_cfg w ∧ w_threads w' = w_threads w
  ∧ ((length ls = todo
      ∧ o = Ok (unit_count, take i arr ++ (Some <$> ls) ++ drop (i + todo) arr))
     ∨ ((length ls < todo)%nat ∧ (∃ tr n, answer tr bool (X_malloc n) = false)
        ∧ o = Ok (-1, take i arr ++ (Some <$> ls) ++ None :: drop (i + S (length ls)) arr))).

Lemma set_slot_ok arr i p :
  (i < length arr)%nat → set_slot arr i p = Ok (take i arr ++ p :: drop (S i) arr).
Proof.
  intros H. unfold set_slot. rewrite (proj2 (Nat.ltb_lt _ _)) by done.
  f_equal. by apply insert_take_drop.
Qed.

Lemma take_set_slot {A} (i : nat) (arr : list A) p :
  (i < length arr)%nat → take (S i) (take i arr ++ p :: drop (S i) arr) = take i arr ++ [p].
Proof.
  intros H. rewrite take_app_ge by (rewrite length_take; lia).
  rewrite length_take, Nat.min_l by lia. by replace (S i - i)%nat with 1%nat by lia.
Qed.

Lemma drop_set_slot {A} (i k : nat) (arr : list A) p :
  (i < length arr)%nat → (i < k)%nat → drop k (take i arr ++ p :: drop (S i) arr) = drop k arr.
Proof.
  intros H Hk. rewrite drop_app_ge by (rewrite length_take; lia).
  rewrite length_take, Nat.min_l by lia. destruct (k - i)%nat as [|m] eqn:E; [lia|].
  cbn [drop]. rewrite drop_drop. f_equal. lia.
Qed.

Lemma wp_unitconfigs_loop size fill rd unit_count todo :
  fills fill rd →
  ∀ i arr w, log_ready (w_log w) → (i + todo ≤ length arr)%nat →
  wp (unitconfigs_loop size fill unit_count todo i arr)
     (loop_result rd unit_count todo i arr w) w.
Proof.
  intros Hfill. induction todo as [|todo IH]; intros i arr w Hlog Hlen.
  { cbn. apply wp_ret. exists []. split_and!; [apply units_added_nil|done..|].
    left. split; [done|]. f_equal. f_equal. rewrite Nat.add_0_r. by rewrite app_nil_l, take_drop. }
  cbn [unitconfigs_loop]. apply wp_bind, wp_malloc.
  - intros Hm. cbn [bind_post]. wp_step. wp_step. rewrite set_slot_ok by lia. wp_steps.
    exists []. split_and!; [apply units_added_nil|done..|]. right.
    split_and!; [cbn; lia|by eauto|]. cbn [length fmap list_fmap app].
    by rewrite Nat.add_1_r.
  - intros l Hm Hnew. cbn [bind_post]. wp_step. wp_step. rewrite set_slot_ok by lia. wp_step.
    apply wp_bind, Hfill; [done|by apply lookup_insert_eq|]. intros o. cbn [bind_post].
    set (arr' := take i arr ++ Some l :: drop (S i) arr).
    assert (Hla : length arr' = length arr).
    { unfold arr'. rewrite length_app, length_take. cbn [length]. rewrite length_drop. lia. }
    eapply wp_mono; [apply IH; [done|lia]|]. intros o' w' (ls & Hu & Hl & Hc & Ht & Hres).
    cbn [w_heap set_heap called set_out set_trace w_log w_cfg w_threads] in *.
    rewrite insert_insert_eq in Hu.
    exists (l :: ls). split_and!; [by apply units_added_cons|done..|].
    unfold arr' in Hres. rewrite take_set_slot, !drop_set_slot in Hres by lia.
    rewrite <- !app_assoc in Hres. cbn [app] in Hres.
    destruct Hres as [[Hls ->]|(Hls & Hf & ->)]; [left|right].
    + split; [cbn; lia|]. by replace (i + S todo)%nat with (S i + todo)%nat by lia.
    + split_and!; [cbn; lia|done|].
      by replace (i + S (length (l :: ls)))%nat with (S i + S (length ls))%nat by (cbn; lia).
Qed.

Lemma wp_free_config c Q w :
  w_cfg w = Some c → Q (Ok tt) (called (X_cfg_free c) w) → wp free_config Q w.
Proof. intros Hc HQ. unfold free_config. wp_step. wp_step. wp_step. rewrite Hc. by wp_steps. Qed.

(** * What [init_config] does *)
Lemma wp_init_config path dump w :
  wp (init_config path dump) (λ o w',
    match answer (w_trace (called (X_malloc 120) w)) _ (X_cfg_init opts) with
    | None => o = Abort
    | Some c =>
        let conf := read_configuration c in
        if answer (w_trace w) bool (X_malloc 120) then
          ∃ l, w_heap w !! l = None
            ∧ w_heap w' = <[l := OConfiguration conf]> (w_heap w) ∧ w_cfg w' = Some c
            ∧ w_log w' = w_log w ∧ w_threads w' = w_threads w
            ∧ o = Ok (if mqtt_tls conf && bool_decide (mqtt_cafile conf = None)
                         && bool_decide (mqtt_capath conf = None)
                      then None else Some l)
        else o = Crash NullDeref
    end) w.
Proof.
  unfold init_config, free_config, assert_that, sizeof_Configuration.
  apply wp_bind, wp_malloc.
  - intros Hm. cbn [bind_post]. wp_step. wp_step. cbn [bind_post].
    destruct (answer _ _ (X_cfg_init opts)) as [c|]; rewrite ?Hm.
    + by destruct dump; wp_steps.
    + by wp_steps.
  - intros l Hm Hnew. cbn [bind_post]. wp_step. wp_step. cbn [bind_post].
    change (w_trace (set_heap ?h ?w)) with (w_trace w).
    destruct (answer _ _ (X_cfg_init opts)) as [c|]; rewrite ?Hm; [|by wp_steps].
    destruct dump; wp_steps; (eapply wp_store; [apply lookup_insert_eq|]);
      cbn [bind_post]; destruct (_ && _); wp_steps; exists l; wsimpl;
      rewrite insert_insert_eq; done.
Qed.

Lemma wp_get_mqtt2rest_unitconfigs arr max_size w c :
  log_ready (w_log w) → w_cfg w = Some c → max_size ≤ Z.of_nat (length arr) →
  let n := to_int (cfg_size c "mqtt2rest_unit") in
  wp (get_mqtt2rest_unitconfigs arr max_size) (λ o w',
    if max_size <? n then o = Ok (-1, arr) ∧ ∃ out, w' = set_out out w
    else loop_result
           (λ i, OMqtt2Rest (read_mqtt2rest (cfg_getnsec c "mqtt2rest_unit" (Z.of_nat i))))
           n (Z.to_nat n) 0 arr w o w') w.
Proof.
  intros Hlog Hc Hmax n. unfold get_mqtt2rest_unitconfigs. wp_steps. rewrite Hc. fold n.
  destruct (max_size <? n) eqn:E; [wp_steps; by eauto|].
  apply wp_unitconfigs_loop; [apply fill_mqtt2rest_fills|done|lia].
Qed.

Lemma wp_get_rest2mqtt_unitconfigs arr max_size w c :
  log_ready (w_log w) → w_cfg w = Some c → max_size ≤ Z.of_nat (length arr) →
  let n := to_int (cfg_size c "rest2mqtt_unit") in
  wp (get_rest2mqtt_unitconfigs arr max_size) (λ o w',
    if max_size <? n then o = Ok (-1, arr) ∧ ∃ out, w' = set_out out w
    else loop_result
           (λ i, ORest2Mqtt (read_rest2mqtt (cfg_getnsec c "rest2mqtt_unit" (Z.of_nat i))))
           n (Z.to_nat n) 0 arr w o w') w.
Proof.
  intros Hlog Hc Hmax n. unfold get_rest2mqtt_unitconfigs. wp_steps. rewrite Hc. fold n.
  destruct (max_size <? n) eqn:E; [wp_steps; by eauto|].
  apply wp_unitconfigs_loop; [apply fill_rest2mqtt_fills|done|lia].
Qed.

(** * Properties *)

(** C34: [init_config] on every branch. It does not look at the result of
    [cfg_parse]; the struct holds the values read, with empty TLS paths turned
    into null pointers, and is refused only when TLS is on without either path.
    A failed [cfg_init] aborts in [free_config] instead of returning NULL. *)
Theorem init_config_outcomes path dump w :
  wp (init_config path dump) (λ o w',
    match answer (w_trace (called (X_malloc 120) w)) _ (X_cfg_init opts) with
    | None => o = Abort
    | Some c =>
        let conf := read_configuration c in
        if answer (w_trace w) bool (X_malloc 120) then
          ∃ l, w_heap w !! l = None
            ∧ w_heap w' = <[l := OConfiguration conf]> (w_heap w) ∧ w_cfg w' = Some c
            ∧ o = Ok (if mqtt_tls conf && bool_decide (mqtt_cafile conf = None)
                         && bool_decide (mqtt_capath conf = None)
                      then None else Some l)
        else o = Crash NullDeref
    end) w.
Proof.
  eapply wp_mono; [apply wp_init_config|]. intros o w' H.
  destruct (answer _ _ (X_cfg_init opts)) as [c|]; [|done].
  destruct (answer _ bool _); [|done]. destruct H as (l & H1 & H2 & H3 & _ & _ & ->).
  by exists l.
Qed.

(** The TLS check is defeated by the option defaults: when the file turns
    TLS on and sets neither mqtt_cafile nor mqtt_capath, the configuration is
    accepted, with the placeholder "-----" as both paths. The hypothesis on
    [cfg_getstr] is libconfuse's documented rule that an option absent from the
    file has its default. *)
Lemma tls_check_defeated path dump w c (unset : string → Prop) :
  answer (w_trace w) bool (X_malloc 120) = true →
  answer (w_trace (called (X_malloc 120) w)) _ (X_cfg_init opts) = Some c →
  (∀ name d, CFG_STR name d ∈ opts → unset name → cfg_getstr c name = Some d) →
  unset "mqtt_cafile" → unset "mqtt_capath" → cfg_getbool c "mqtt_tls" = true →
  wp (init_config path dump) (λ o w', ∃ l conf,
    o = Ok (Some l) ∧ w_heap w' !! l = Some (OConfiguration conf)
    ∧ mqtt_tls conf = true
    ∧ mqtt_cafile conf = Some "-----" ∧ mqtt_capath conf = Some "-----") w.
Proof.
  intros Hm Hi Hdef Hca Hcp Htls. eapply wp_mono; [apply wp_init_config|].
  intros o w'. cbn beta zeta. rewrite Hi, Hm. intros (l & _ & Hh & _ & _ & _ & ->).
  assert (Hca' : mqtt_cafile (read_configuration c) = Some "-----").
  { cbn. by rewrite (Hdef "mqtt_cafile" "-----"); [|unfold opts; set_solver|]. }
  assert (Hcp' : mqtt_capath (read_configuration c) = Some "-----").
  { cbn. by rewrite (Hdef "mqtt_capath" "-----"); [|unfold opts; set_solver|]. }
  exists l, (read_configuration c). rewrite Hca', Hcp', Hh, lookup_insert_eq.
  cbn [mqtt_tls read_configuration]. rewrite Htls. done.
Qed.

(** C33: [get_mqtt2rest_unitconfigs]: more units than slots are refused with
    -1 and the array untouched; otherwise the first slots point to new structs
    with the units of the file in their order, unless an allocation fails: then
    -1, with the units before it. *)
Theorem get_mqtt2rest_unitconfigs_spec arr max_size w c :
  log_ready (w_log w) → w_cfg w = Some c → max_size ≤ Z.of_nat (length arr) →
  let n := to_int (cfg_size c "mqtt2rest_unit") in
  wp (get_mqtt2rest_unitconfigs arr max_size) (λ o w',
    if max_size <? n then o = Ok (-1, arr) ∧ w' ≡ w
    else loop_result
           (λ i, OMqtt2Rest (read_mqtt2rest (cfg_getnsec c "mqtt2rest_unit" (Z.of_nat i))))
           n (Z.to_nat n) 0 arr w o w') w.
Proof.
  intros Hlog Hc Hmax n. eapply wp_mono; [by apply wp_get_mqtt2rest_unitconfigs|].
  intros o w'. cbn zeta. fold n. destruct (_ <? _); [|done]. by intros [-> [out ->]].
Qed.

End configuration.

(** ** Witnesses *)
Import Demo.

Lemma tls_check_defeated_witness :
  cfg_getbool (Env := demo_env 8 all_ok) 1 "mqtt_tls" = true
  ∧ wp (init_config (EV := demo_env 8 all_ok) "f" false) (λ o w', ∃ l conf,
      o = Ok (Some l) ∧ w_heap w' !! l = Some (OConfiguration conf)
      ∧ mqtt_tls conf = true
      ∧ mqtt_cafile conf = Some "-----" ∧ mqtt_capath conf = Some "-----") demo_world.
Proof.
  split; [reflexivity|].
  apply (tls_check_defeated (EV := demo_env 8 all_ok) "f" false demo_world 1%positive
           (λ n, n = "mqtt_cafile" ∨ n = "mqtt_capath")); [reflexivity|reflexivity| |by left|by right|reflexivity].
  intros name d Hin Hn.
  assert (Hall : Forall (λ o, match o with
     | CFG_STR n' d' => n' = "mqtt_cafile" ∨ n' = "mqtt_capath" → d' = "-----"
     | _ => True end) opts).
  { repeat constructor; intros [H|H]; try discriminate H; reflexivity. }
  rewrite Forall_forall in Hall. specialize (Hall _ Hin). cbn in Hall.
  rewrite (Hall Hn). by destruct Hn as [-> | ->].
Defined.

Lemma demo_log_ready : log_ready (w_log demo_world).
Proof. split; [by right|cbn; lia]. Qed.

Lemma get_mqtt2rest_unitconfigs_spec_witness :
  log_ready (w_log demo_world)
  ∧ wp (get_mqtt2rest_unitconfigs (EV := demo_env 8 all_ok) [None; None] 2) (λ o w',
      if 2 <? 1 then o = Ok (-1, [None; None]) ∧ w' ≡ demo_world
      else loop_result (EV := demo_env 8 all_ok)
             (λ i, OMqtt2Rest (read_mqtt2rest (EV := demo_env 8 all_ok)
                                 (Z.to_pos (Z.of_nat i + 2))))
             1 1 0 [None; None] demo_world o w') demo_world.
Proof.
  split; [apply demo_log_ready|].
  exact (get_mqtt2rest_unitconfigs_spec (EV := demo_env 8 all_ok) [None; None] 2 demo_world
           1%positive demo_log_ready eq_refl ltac:(cbn; lia)).
Defined.

End Configuration.
