(* ===== verification/MqttClient.v ===== *)
(** Model of [src/mqtt_client.c]: the client object around libmosquitto, the
    callbacks it registers, connecting, publishing and the loop functions. *)
From Stdlib Require Import ZArith Lia ZifyBool Ascii String List.
From stdpp Require Import base numbers list strings gmap.
From S2P Require Import Prelude.
From S2P Require Import CLib.
From S2P Require Import Types.
From S2P Require Import World.
From S2P Require Import Demo.
From S2P Require Import Logging.
Import Logging.

(** What the client needs of the function behind [msg_callback]; the unit that
    registers it provides the instance. *)
Class MsgHandler `{EV : Env} :=
  handle_msg : msg_callback → string → option (list ascii) → ptr → M unit.

Module MqttClient.

Definition MAX_TOPIC_LENGTH : Z := 256.

(** Constants of [mosquitto.h] and [poll.h]. *)
Definition MOSQ_ERR_SUCCESS : Z := 0.
Definition MOSQ_ERR_NO_CONN : Z := 4.
Definition MOSQ_ERR_CONN_LOST : Z := 7.
Definition MOSQ_LOG_INFO : Z := 1.
Definition MOSQ_LOG_NOTICE : Z := 2.
Definition MOSQ_LOG_WARNING : Z := 4.
Definition MOSQ_LOG_ERR : Z := 8.
Definition MOSQ_LOG_DEBUG : Z := 16.
Definition POLLIN : Z := 1.
Definition POLLPRI : Z := 2.
Definition POLLOUT : Z := 4.

Section client.
Context `{MH : MsgHandler}.

(** * The callbacks *)
Definition mqtt_cb_msg (config : MqttClientConfiguration) (topic : string)
    (payload : option (list ascii)) : M unit :=
  match msg_callback_ptr config with
  | Some f => handle_msg f topic payload (callback_context config)
  | None => mret tt
  end.

Definition mqtt_cb_subscribe (config : MqttClientConfiguration) (mid : Z)
    (granted_qos : list Z) : M unit :=
  match granted_qos with
  | [] => crash OutOfBounds
  | q0 :: rest =>
      INFO (At "mqtt_client.c" 38 "mqtt_cb_subscribe")
        "Unit [%s]: Subscribed to topic [%s] (mid: %d): %d"
        [PStr (label config); PStr (topic config); PInt mid; PInt q0];;
      for_each rest (λ q,
        INFO (At "mqtt_client.c" 41 "mqtt_cb_subscribe") (tab +:+ " %d") [PInt q])
  end.

Definition mqtt_cb_disconnect (config : MqttClientConfiguration) (rc : Z) : M unit :=
  WARNING (At "mqtt_client.c" 48 "mqtt_cb_disconnect")
    "Unit [%s] MQTT disconnect, error: %d: %s"
    [PStr (label config); PInt rc; PStr (Some (mosquitto_strerror rc))].

Definition mqtt_cb_log (config : MqttClientConfiguration) (level : Z) (str : string)
    : M unit :=
  let msg := [PStr (label config); PStr (Some str)] in
  if level =? MOSQ_LOG_DEBUG then
    DEBUG (At "mqtt_client.c" 63 "mqtt_cb_log") "Unit [%s]: %s" msg
  else if (level =? MOSQ_LOG_INFO) || (level =? MOSQ_LOG_NOTICE) then
    INFO (At "mqtt_client.c" 67 "mqtt_cb_log") "Unit [%s]: %s" msg
  else if level =? MOSQ_LOG_WARNING then
    WARNING (At "mqtt_client.c" 70 "mqtt_cb_log") "Unit [%s]: %s" msg
  else if level =? MOSQ_LOG_ERR then
    ERROR (At "mqtt_client.c" 73 "mqtt_cb_log") "Unit [%s]: %s" msg
  else FATAL (At "mqtt_client.c" 76 "mqtt_cb_log") "Unknown MOSQ loglevel!" [].

Definition mqtt_cb_connect (m : mosq_ptr) (config : MqttClientConfiguration)
    (result : Z) : M unit :=
  DEBUG (At "mqtt_client.c" 85 "mqtt_cb_connect") "MQTT connect, UNIT: %s"
    [PStr (label config)];;
  match topic config with
  | None => mret tt
  | Some t =>
      s ← lift (format "%s/#" [PStr (Some t)]);
      '(buffer, len) ← lift (snprintf (replicate 256 None) 0 MAX_TOPIC_LENGTH s);
      if MAX_TOPIC_LENGTH <=? len then
        FATAL (At "mqtt_client.c" 92 "mqtt_cb_connect")
          "Topic length in config is too long, the max is %d" [PInt MAX_TOPIC_LENGTH]
      else if result =? 0 then
        sub ← lift (buf_cstr buffer 0);
        '(logs, rc) ← call (X_mosquitto_subscribe m (implode sub) 2);
        for_each logs (λ '(level, str), mqtt_cb_log config level str)
      else
        WARNING (At "mqtt_client.c" 99 "mqtt_cb_connect") ("MQTT Connect failed" +:+ nl) []
  end.

(** libmosquitto calling back. *)
Definition run_cb (m : mosq_ptr) (config : MqttClientConfiguration) (cb : mosq_cb)
    : M unit :=
  match cb with
  | CB_log level str => mqtt_cb_log config level str
  | CB_connect result => mqtt_cb_connect m config result
  | CB_message topic payload => mqtt_cb_msg config topic payload
  | CB_subscribe mid granted_qos => mqtt_cb_subscribe config mid granted_qos
  | CB_disconnect rc => mqtt_cb_disconnect config rc
  end.

(** A call into libmosquitto, during which it runs callbacks. *)
Definition mosq_call (h : MqttClientHandle) (c : ext (list mosq_cb * Z)) : M Z :=
  '(cbs, rc) ← call c;
  for_each cbs (run_cb (mosq h) (config h));;
  mret rc.

(** * The operations *)
Definition sizeof_MqttClientHandle : Z := 24.

Definition mqtt_client_init (config : MqttClientConfiguration) : M ptr :=
  retval ← malloc sizeof_MqttClientHandle OUninit;
  mosq ← call (X_mosquitto_new (label config) true config);
  match mosq with
  | None =>
      FATAL (At "mqtt_client.c" 110 "mqtt_client_init") ("Error: Out of memory." +:+ nl) [];;
      mret None
  | Some m =>
      call (X_mosquitto_threaded_set m true);;
      call (X_mosquitto_user_data_set m config);;
      call (X_mosquitto_callback_set m Cb_log);;
      call (X_mosquitto_callback_set m Cb_connect);;
      call (X_mosquitto_callback_set m Cb_message);;
      call (X_mosquitto_callback_set m Cb_subscribe);;
      call (X_mosquitto_callback_set m Cb_disconnect);;
      store retval (OHandle {| mosq := m; config := config; connected := false |});;
      mret retval
  end.

Definition set_connected (h : ptr) (b : bool) : M unit :=
  hd ← load_handle h;
  store h (OHandle {| mosq := mosq hd; config := config hd; connected := b |}).

(** The [while (count--)] loop. *)
Fixpoint connect_loop (count : nat) (h : ptr) : M unit :=
  match count with
  | O => mret tt
  | S count' =>
      hd ← load_handle h;
      let c := config hd in
      ret ← mosq_call hd
              (X_mosquitto_connect (mosq hd) (broker_host c) (broker_port c) (keepalive c));
      if negb (ret =? 0) then
        ERROR (At "mqtt_client.c" 157 "mqtt_client_connect")
          "Unable to connect, host: %s, port: %d, error: %s"
          [PStr (broker_host c); PInt (broker_port c); PStr (Some (mosquitto_strerror ret))];;
        call (X_sleep 2);;
        connect_loop count' h
      else set_connected h true
  end.

Definition mqtt_client_connect (h : ptr) : M bool :=
  hd ← load_handle h;
  let c := config hd in
  (if tls_enabled c then
     INFO (At "mqtt_client.c" 136 "mqtt_client_connect") "Enable MQTT TLS support" [];;
     r ← call (X_mosquitto_tls_set (mosq hd) (cafile c) (capath c) (certfile c) (keyfile c));
     if negb (r =? MOSQ_ERR_SUCCESS) then
       FATAL (At "mqtt_client.c" 141 "mqtt_client_connect")
         "Failed to set up TLS, check config!" []
     else mret tt
   else mret tt);;
  (if user_pw_auth_enabled c then
     r ← call (X_mosquitto_username_pw_set (mosq hd) (user c) (pw c));
     if negb (r =? MOSQ_ERR_SUCCESS) then
       FATAL (At "mqtt_client.c" 148 "mqtt_client_connect")
         "Failed to set up username/password, check config!" []
     else mret tt
   else mret tt);;
  connect_loop 3 h;;
  hd' ← load_handle h;
  mret (connected hd').

Definition mqtt_client_connected (h : ptr) : M bool :=
  assert_that (bool_decide (is_Some h));;
  hd ← load_handle h;
  mret (connected hd).

Definition mqtt_client_reconnect (h : ptr) : M bool :=
  assert_that (bool_decide (is_Some h));;
  mret true.

(** [topic + 1]: past the terminator for an empty string. *)
Definition skip_first (s : string) : option string :=
  match s with
  | String _ s' => Some s'
  | EmptyString => None
  end.

Definition mqtt_client_publish (h : ptr) (topic : string) (msg : ptr) (qos : Z) : M bool :=
  let topic1 := skip_first topic in
  INFO (At "mqtt_client.c" 183 "mqtt_client_publish") "Publishing on topic %s"
    [match topic1 with Some t => PStr (Some t) | None => PBad end];;
  assert_that (bool_decide (is_Some h));;
  hd ← load_handle h;
  '(_, cells) ← load_bytes msg;
  payload ← lift (scan_cstr cells);
  match topic1 with
  | None => crash OutOfBounds
  | Some t =>
      ret ← mosq_call hd
              (X_mosquitto_publish (mosq hd) t (Z.of_nat (length payload)) payload qos false);
      (if negb (ret =? MOSQ_ERR_SUCCESS) then
         WARNING (At "mqtt_client.c" 188 "mqtt_client_publish")
           "Failed to publish, reason:  %s" [PStr (Some (mosquitto_strerror ret))]
       else mret tt);;
      mret (ret =? MOSQ_ERR_SUCCESS)
  end.

(** The entry written to [pfds[0]]. *)
Definition mqtt_client_get_pollfds (h : ptr) : M pollfd :=
  assert_that (bool_decide (is_Some h));;
  hd ← load_handle h;
  fd ← call (X_mosquitto_socket (mosq hd));
  want_write ← call (X_mosquitto_want_write (mosq hd));
  let events := if want_write : bool then Z.lor POLLIN POLLOUT else POLLIN in
  mret {| pfd_fd := fd; pfd_events := events; pfd_revents := 0 |}.

Definition mqtt_client_loop (h : ptr) (read write : bool) : M unit :=
  assert_that (bool_decide (is_Some h));;
  hd ← load_handle h;
  ret ← (if write then mosq_call hd (X_mosquitto_loop_write (mosq hd) 1)
         else mret MOSQ_ERR_SUCCESS);
  ret ← (if read then mosq_call hd (X_mosquitto_loop_read (mosq hd) 1) else mret ret);
  (if (ret =? MOSQ_ERR_CONN_LOST) || (ret =? MOSQ_ERR_NO_CONN)
   then set_connected h false else mret tt);;
  mosq_call hd (X_mosquitto_loop_misc (mosq hd));;
  mret tt.

Definition mqtt_client_destroy (h : ptr) : M unit :=
  assert_that (bool_decide (is_Some h));;
  hd ← load_handle h;
  call (X_mosquitto_destroy (mosq hd));;
  free h.

(** * Log callbacks

    The calls of the main flow are documented to run the log callback; at its
    known levels it only prints. *)
Definition known_level (level : Z) : bool :=
  (level =? MOSQ_LOG_DEBUG) || (level =? MOSQ_LOG_INFO) || (level =? MOSQ_LOG_NOTICE)
  || (level =? MOSQ_LOG_WARNING) || (level =? MOSQ_LOG_ERR).

Definition is_log_cb (cb : mosq_cb) : bool :=
  match cb with CB_log level _ => known_level level | _ => false end.

Definition log_only (cbs : list mosq_cb) : bool := forallb is_log_cb cbs.

Lemma wp_mqtt_cb_log config level str Q w :
  log_ready (w_log w) → known_level level = true →
  (∀ o, Q (Ok tt) (set_out o w)) → wp (mqtt_cb_log config level str) Q w.
Proof.
  intros Hlog Hk HQ. unfold mqtt_cb_log, known_level in *.
  destruct (level =? MOSQ_LOG_DEBUG); [wp_go; apply HQ|].
  destruct (_ || _) eqn:E1 in |- *; [wp_go; apply HQ|].
  apply orb_false_iff in E1 as [E1 E2].
  destruct (level =? MOSQ_LOG_WARNING); [wp_go; apply HQ|].
  destruct (level =? MOSQ_LOG_ERR); [wp_go; apply HQ|].
  by rewrite E1, E2 in Hk.
Qed.

Lemma wp_log_cbs m config cbs Q w :
  log_ready (w_log w) → log_only cbs = true →
  (∀ o, Q (Ok tt) (set_out o w)) → wp (for_each cbs (run_cb m config)) Q w.
Proof.
  revert w Q. induction cbs as [|cb cbs IH]; intros w Q Hlog Hk HQ.
  { pose proof (HQ (w_out w)) as HQ0. by rewrite set_out_id in HQ0. }
  cbn in Hk. apply andb_true_iff in Hk as [Hk Hks].
  destruct cb as [level str| | | |]; try done. cbn [for_each run_cb].
  apply wp_bind, wp_mqtt_cb_log; [done..|]. intros o. cbn [bind_post].
  apply IH; [done..|]. intros o'. apply HQ.
Qed.

Lemma wp_log_callbacks_subscribe config logs Q w :
  log_ready (w_log w) → forallb (λ l, known_level l.1) logs = true →
  (∀ o, Q (Ok tt) (set_out o w)) →
  wp (for_each logs (λ '(level, str), mqtt_cb_log config level str)) Q w.
Proof.
  revert w Q. induction logs as [|[level str] logs IH]; intros w Q Hlog Hk HQ.
  { pose proof (HQ (w_out w)) as HQ0. by rewrite set_out_id in HQ0. }
  cbn in Hk. apply andb_true_iff in Hk as [Hk Hks]. cbn [for_each].
  apply wp_bind, wp_mqtt_cb_log; [done..|]. intros o. cbn [bind_post].
  apply IH; [done..|]. intros o'. apply HQ.
Qed.

Lemma wp_mosq_call h c Q w :
  log_ready (w_log w) → log_only (fst (answer (w_trace w) _ c)) = true →
  (∀ o, Q (Ok (snd (answer (w_trace w) _ c))) (set_out o (called c w))) →
  wp (mosq_call h c) Q w.
Proof.
  intros Hlog Hk HQ. unfold mosq_call. do 3 wp_step.
  destruct (answer (w_trace w) _ c) as [cbs rc]. cbn [fst snd] in *.
  apply wp_bind, wp_log_cbs; [done..|]. intros o. wp_step. apply wp_ret, HQ.
Qed.

(** * Connecting *)

(** The events of [n] failed attempts, latest first: a refused connection and
    a pause of two seconds each. *)
Inductive failed_attempts (c : ext (list mosq_cb * Z)) : nat → list event → Prop :=
  | no_attempt : failed_attempts c 0 []
  | one_more n evs cbs rc :
      rc ≠ 0 → failed_attempts c n evs →
      failed_attempts c (S n) (evs ++ [Ev (X_sleep 2) tt; Ev c (cbs, rc)]).

Definition connect_of (h : MqttClientHandle) : ext (list mosq_cb * Z) :=
  X_mosquitto_connect (mosq h) (broker_host (config h)) (broker_port (config h))
    (keepalive (config h)).

Definition with_connected (b : bool) (h : MqttClientHandle) : MqttClientHandle :=
  {| mosq := mosq h; config := config h; connected := b |}.

(** During [mosquitto_connect] only the log callback runs. *)
Definition connect_logs_only (h : MqttClientHandle) : Prop :=
  ∀ tr, log_only (fst (answer tr _ (connect_of h))) = true.

(** How up to [count] attempts end: success after [k] failures, or [count]
    failures. *)
Definition connect_result (count : nat) (l : positive) (h : MqttClientHandle)
    (w w' : World) : Prop :=
  w_log w' = w_log w ∧
  ((∃ k evs cbs, (k < count)%nat ∧ failed_attempts (connect_of h) k evs
     ∧ w_trace w' = Ev (connect_of h) (cbs, 0) :: evs ++ w_trace w
     ∧ w_heap w' = <[l := OHandle (with_connected true h)]> (w_heap w))
   ∨ (∃ evs, failed_attempts (connect_of h) count evs
     ∧ w_trace w' = evs ++ w_trace w ∧ w_heap w' = w_heap w)).

Lemma wp_connect_loop count l h w :
  log_ready (w_log w) → w_heap w !! l = Some (OHandle h) → connect_logs_only h →
  wp (connect_loop count (Some l)) (λ o w', o = Ok tt ∧ connect_result count l h w w') w.
Proof.
  revert w. induction count as [|count IH]; intros w Hlog Hl Hc.
  { wp_steps. split; [done|]. split; [done|]. right. exists []. by repeat constructor. }
  cbn [connect_loop]. wp_step. eapply wp_load_handle; [exact Hl|]. cbn [bind_post].
  fold (connect_of h). apply wp_bind, wp_mosq_call; [done|apply Hc|]. intros o.
  destruct (answer (w_trace w) _ (connect_of h)) as [cbs ret] eqn:Ea. cbn [snd bind_post].
  destruct (ret =? 0) eqn:Er; cbn [negb].
  - apply Z.eqb_eq in Er as ->. unfold set_connected. wp_step.
    eapply wp_load_handle; [exact Hl|]. cbn [bind_post]. eapply wp_store; [exact Hl|].
    split; [done|]. split; [done|]. left. exists 0%nat, [], cbs.
    split_and!; [lia|constructor| |done]. wsimpl. by rewrite Ea.
  - apply Z.eqb_neq in Er. wp_go.
    eapply wp_mono; [apply IH; [done|exact Hl|exact Hc]|].
    intros o1 w' [-> [Hlg Hres]]. split; [done|]. split; [done|]. wsimpl. rewrite Ea in Hres.
    destruct (answer _ _ (X_sleep 2)).
    destruct Hres as [(k & evs & cbs' & Hk & Hf & Ht & Hh)|(evs & Hf & Ht & Hh)]; [left|right].
    + exists (S k), (evs ++ [Ev (X_sleep 2) tt; Ev (connect_of h) (cbs, ret)]), cbs'.
      split_and!; [lia|by constructor|by rewrite Ht, <- app_assoc|done].
    + exists (evs ++ [Ev (X_sleep 2) tt; Ev (connect_of h) (cbs, ret)]).
      split_and!; [by constructor|by rewrite Ht, <- app_assoc|done].
Qed.

(** What TLS and password set-up add to the trace when they succeed. *)
Definition tls_call (h : MqttClientHandle) : ext Z :=
  X_mosquitto_tls_set (mosq h) (cafile (config h)) (capath (config h))
    (certfile (config h)) (keyfile (config h)).
Definition pw_call (h : MqttClientHandle) : ext Z :=
  X_mosquitto_username_pw_set (mosq h) (user (config h)) (pw (config h)).

Definition setup_events (h : MqttClientHandle) : list event :=
  (if user_pw_auth_enabled (config h) then [Ev (pw_call h) 0] else [])
  ++ (if tls_enabled (config h) then [Ev (tls_call h) 0] else []).

Lemma wp_connect_setup l h Q w :
  log_ready (w_log w) → w_heap w !! l = Some (OHandle h) →
  (tls_enabled (config h) = true → ∀ tr, answer tr _ (tls_call h) = 0) →
  (user_pw_auth_enabled (config h) = true → ∀ tr, answer tr _ (pw_call h) = 0) →
  (∀ w1, w_log w1 = w_log w → w_heap w1 = w_heap w →
     w_trace w1 = setup_events h ++ w_trace w →
     wp (connect_loop 3 (Some l))
        (bind_post (λ _, hd' ← load_handle (Some l); mret (connected hd')) Q) w1) →
  wp (mqtt_client_connect (Some l)) Q w.
Proof.
  intros Hlog Hl Htls Hpw HQ. unfold mqtt_client_connect, setup_events, tls_call, pw_call in *.
  wp_step. eapply wp_load_handle; [exact Hl|]. cbn [bind_post].
  destruct (tls_enabled (config h)) eqn:Et.
  - wp_go. rewrite Htls by done. cbn [negb Z.eqb MOSQ_ERR_SUCCESS]. do 3 wp_step.
    destruct (user_pw_auth_enabled (config h)) eqn:Ep; wp_go.
    + rewrite Hpw by done. cbn [negb Z.eqb MOSQ_ERR_SUCCESS]. do 3 wp_step.
      apply HQ; [done..|]. wsimpl. by rewrite Htls, Hpw.
    + apply HQ; [done..|]. wsimpl. by rewrite Htls.
  - wp_go. destruct (user_pw_auth_enabled (config h)) eqn:Ep; wp_go.
    + rewrite Hpw by done. cbn [negb Z.eqb MOSQ_ERR_SUCCESS]. do 3 wp_step.
      apply HQ; [done..|]. wsimpl. by rewrite Hpw.
    + by apply HQ.
Qed.

Lemma format_subscription t : format "%s/#" [PStr (Some t)] = Ok (explode (t +:+ "/#")).
Proof. fmt_eval. by rewrite explode_app. Qed.

Lemma wp_mqtt_cb_connect m config result w :
  log_ready (w_log w) →
  (∀ tr t, forallb (λ l, known_level l.1) (fst (answer tr _ (X_mosquitto_subscribe m t 2))) = true) →
  (∀ t, topic config = Some t → no_nul (explode t)) →
  wp (mqtt_cb_connect m config result) (λ o w',
    match topic config with
    | None => o = Ok tt ∧ ∃ out, w' = set_out out w
    | Some t =>
        if (254 <=? strlen t)%nat then o = Exit 1 ∧ ∃ out, w' = set_out out w
        else if result =? 0
             then o = Ok tt ∧ ∃ out, w' = set_out out (called (X_mosquitto_subscribe m (t +:+ "/#") 2) w)
             else o = Ok tt ∧ ∃ out, w' = set_out out w
    end) w.
Proof.
  intros Hlog Hsub Hnul. unfold mqtt_cb_connect. wp_go.
  destruct (topic config) as [t|] eqn:Et; [|wp_go; by eauto].
  do 2 wp_step. rewrite format_subscription. do 3 wp_step.
  set (s := explode (t +:+ "/#")).
  assert (Hs : length s = (strlen t + 2)%nat) by (unfold s; by rewrite explode_app, length_app).
  change MAX_TOPIC_LENGTH with 256. destruct (254 <=? strlen t)%nat eqn:E.
  - destruct (snprintf_header_long s) as (b & -> & _); [lia|]. wp_step.
    rewrite (proj2 (Z.leb_le 256 _)) by lia. wp_go. by eauto.
  - rewrite snprintf_header by lia. wp_step.
    rewrite (proj2 (Z.leb_gt 256 _)) by lia. destruct (result =? 0); [|wp_go; by eauto].
    do 2 wp_step. rewrite buf_cstr_0, scan_cstr_cut, cut_nul_id; last first.
    { unfold s. rewrite explode_app. apply no_nul_app; [by apply Hnul|]. by apply (bool_decide_unpack _). }
    do 3 wp_step. unfold s. rewrite implode_explode.
    wp_step. change (w_trace (set_out ?o ?w)) with (w_trace w).
    pose proof (Hsub (w_trace w) (t +:+ "/#")) as Hk.
    destruct (answer (w_trace w) _ (X_mosquitto_subscribe m (t +:+ "/#") 2)) as [logs rc] eqn:Ea.
    apply wp_log_callbacks_subscribe; [done|exact Hk|]. by eauto.
Qed.

(** * Creating a client *)

(** [mqtt_client_init] creates the handle, not connected. Its own allocation
    is not checked: without memory it writes through a null pointer; a refusal
    of [mosquitto_new] ends the process. *)
Lemma wp_mqtt_client_init config w :
  log_ready (w_log w) →
  let got := answer (w_trace w) bool (X_malloc sizeof_MqttClientHandle) in
  let w1 := called (X_malloc sizeof_MqttClientHandle) w in
  let c := X_mosquitto_new (label config) true config in
  wp (mqtt_client_init config) (λ o w',
    match answer (w_trace w1) _ c with
    | None => o = Exit 1
    | Some m =>
        w_log w' = w_log w ∧ (∃ evs, w_trace w' = evs ++ w_trace w) ∧
        if got then ∃ l, o = Ok (Some l) ∧ w_heap w !! l = None
             ∧ w_heap w' = <[l := OHandle {| mosq := m; config := config; connected := false |}]>
                             (w_heap w)
        else o = Crash NullDeref
    end) w.
Proof.
  intros Hlog got w1 c. unfold mqtt_client_init. apply wp_bind, wp_malloc.
  - intros Hm. fold got in Hm. rewrite Hm. wp_step. wp_step. wp_step. fold w1 c. wp_step.
    destruct (answer (w_trace w1) _ c) as [m|]; [|by wp_go]. wp_steps. split_and!; [done| |done].
    repeat first [apply later_called|apply later_heap]. apply later_refl.
  - intros l Hm Hnew. fold got in Hm. rewrite Hm. wp_step. wp_step. wp_step. fold c. wp_step.
    change (w_trace (set_heap ?h ?w)) with (w_trace w). fold w1.
    destruct (answer (w_trace w1) _ c) as [m|]; [|by wp_go]. wp_steps.
    eapply wp_store; [apply lookup_insert_eq|]. wp_steps. split_and!; [done| |].
    { repeat first [apply later_called|apply later_heap]. apply later_refl. }
    exists l. split_and!; [done|done|]. wsimpl. by rewrite insert_insert_eq.
Qed.

(** * Publishing *)
Lemma wp_mqtt_client_publish l h m size cells payload c0 t qos Q w :
  log_ready (w_log w) → w_heap w !! l = Some (OHandle h) →
  w_heap w !! m = Some (OBytes size cells) → scan_cstr cells = Ok payload →
  let c := X_mosquitto_publish (mosq h) t (Z.of_nat (length payload)) payload qos false in
  log_only (fst (answer (w_trace w) _ c)) = true →
  (∀ o, Q (Ok (snd (answer (w_trace w) _ c) =? 0)) (set_out o (called c w))) →
  wp (mqtt_client_publish (Some l) (String c0 t) (Some m) qos) Q w.
Proof.
  intros Hlog Hl Hm Hs c Hc HQ. unfold mqtt_client_publish, skip_first. wp_go.
  eapply wp_load_handle; [exact Hl|]. cbn [bind_post]. wp_step.
  eapply wp_load_bytes; [exact Hm|]. cbn [bind_post]. do 2 wp_step. rewrite Hs.
  cbn [bind_post]. fold c. apply wp_bind, wp_mosq_call; [done|exact Hc|]. intros o'.
  cbn [bind_post]. change (w_trace (set_out ?o ?w)) with (w_trace w).
  unfold MOSQ_ERR_SUCCESS.
  destruct (snd (answer (w_trace w) _ c) =? 0); cbn [negb]; wp_go; apply HQ.
Qed.

(** * The user of a client

    What a unit thread owes its client, and what it may then rely on. [ready]
    is what the unit needs of the world, [good] the callbacks it survives; the
    units of both directions are instances. *)
Class ClientUser (m : mosq_ptr) (cfg : MqttClientConfiguration)
    (ready : World → Prop) (good : mosq_cb → Prop) : Prop := {
  cu_log : ∀ w, ready w → log_ready (w_log w);
  (* handles are not the unit's business *)
  cu_ready : ∀ w w', ready w → w_log w' = w_log w →
    (∀ a o, w_heap w !! a = Some o → (∀ h, o ≠ OHandle h) → w_heap w' !! a = Some o) →
    ready w';
  cu_cb : ∀ cb w, ready w → good cb →
    wp (run_cb m cfg cb) (λ o w', o = Ok tt ∧ keeps w w') w;
  cu_read : ∀ tr, Forall good (fst (answer tr _ (X_mosquitto_loop_read m 1)));
  cu_write : ∀ tr, Forall good (fst (answer tr _ (X_mosquitto_loop_write m 1)));
  cu_misc : ∀ tr, Forall good (fst (answer tr _ (X_mosquitto_loop_misc m)));
}.

(** The broker side of setting up a client: memory, a client object, options
    that are accepted, and log callbacks only while connecting. *)
Record GoodBroker (m : mosq_ptr) (cfg : MqttClientConfiguration) : Prop := {
  gb_malloc : ∀ tr, answer tr _ (X_malloc sizeof_MqttClientHandle) = true;
  gb_new : ∀ tr, answer tr _ (X_mosquitto_new (label cfg) true cfg) = Some m;
  gb_tls : tls_enabled cfg = true → ∀ tr,
    answer tr _ (tls_call {| mosq := m; config := cfg; connected := false |}) = 0;
  gb_pw : user_pw_auth_enabled cfg = true → ∀ tr,
    answer tr _ (pw_call {| mosq := m; config := cfg; connected := false |}) = 0;
  gb_connect : connect_logs_only {| mosq := m; config := cfg; connected := false |};
}.

(** How a pass of either thread begins: whatever the flag says, it goes on. *)
Lemma wp_check_connection {A} l h (trying : M unit) (k : bool → M A) Q w :
  w_heap w !! l = Some (OHandle h) →
  wp trying (λ o w', o = Ok tt ∧ ∃ out, w' = set_out out w) w →
  (∀ out, wp (k false) Q (set_out out w)) →
  wp (conn ← mqtt_client_connected (Some l);
      retry ← (if negb conn then
                 trying;; ok ← mqtt_client_reconnect (Some l); mret (negb ok)
               else mret false);
      k retry) Q w.
Proof.
  intros Hl Ht HQ. unfold mqtt_client_connected, mqtt_client_reconnect. wp_steps.
  eapply wp_load_handle; [exact Hl|]. wp_steps. destruct (connected h); cbn [negb].
  - wp_steps. specialize (HQ (w_out w)). by rewrite set_out_id in HQ.
  - wp_step. eapply wp_mono; [exact Ht|]. intros o w' [-> [out ->]]. wp_steps. apply HQ.
Qed.

(** A callback that is not a message. *)
Definition plain_cb (cb : mosq_cb) : Prop :=
  match cb with
  | CB_log level _ => known_level level = true
  | CB_connect _ => True
  | CB_message _ _ => False
  | CB_subscribe _ granted_qos => granted_qos ≠ []
  | CB_disconnect _ => True
  end.

(** The topic can be subscribed to. *)
Definition topic_fits (cfg : MqttClientConfiguration) : Prop :=
  ∀ t, topic cfg = Some t → no_nul (explode t) ∧ (strlen t < 254)%nat.

Definition subscribe_logs (m : mosq_ptr) : Prop :=
  ∀ tr t, forallb (λ l, known_level l.1) (fst (answer tr _ (X_mosquitto_subscribe m t 2))) = true.

Lemma wp_plain_cb m cfg cb w :
  log_ready (w_log w) → topic_fits cfg → subscribe_logs m → plain_cb cb →
  wp (run_cb m cfg cb) (λ o w', o = Ok tt ∧ keeps w w') w.
Proof.
  intros Hlog Hfit Hsub Hcb. destruct cb as [level str|result|topic payload|mid qs|rc];
    cbn [run_cb].
  - apply wp_mqtt_cb_log; [done..|]. intros o. split; [done|]. auto with keeps.
  - eapply wp_mono; [apply wp_mqtt_cb_connect; [done..|]; intros t Ht; by apply Hfit|].
    cbn beta. intros o w' H. destruct (topic cfg) as [t|] eqn:Et.
    + rewrite (proj2 (Nat.leb_gt _ _)) in H by (by apply Hfit).
      destruct (result =? 0), H as [-> [out ->]]; split; auto with keeps.
    + destruct H as [-> [out ->]]. split; auto with keeps.
  - done.
  - unfold mqtt_cb_subscribe. destruct qs as [|q0 qs]; [done|].
    wp_go. eapply wp_mono.
    + apply (wp_for_each_keeps (λ w, log_ready (w_log w))); [|exact Hlog|].
      { intros w1 w2 H1 [Hl _ _]. by rewrite Hl. }
      apply Forall_forall. intros q _ w1 Hlog1. wp_go. split; auto with keeps.
    + intros o1 w1 [-> Hk]. split; [done|]. by eapply keeps_out_l.
  - unfold mqtt_cb_disconnect. wp_go. split; auto with keeps.
Qed.

Section user.
Context (m : mosq_ptr) (cfg : MqttClientConfiguration).
Context (ready : World → Prop) (good : mosq_cb → Prop) `{CU : !ClientUser m cfg ready good}.

Abbreviation handle b := {| mosq := m; config := cfg; connected := b |}.

Lemma ready_keeps w w' : ready w → keeps w w' → ready w'.
Proof.
  intros Hw [Kl Kh _]. eapply cu_ready; [exact Hw|done|]. intros a o Ha _. by rewrite Kh.
Qed.

(** [w'] is a later world in which, besides, only the flag of the client's
    handle may have changed. *)
Record advances (l : positive) (w w' : World) : Prop := {
  ad_log : w_log w' = w_log w;
  ad_heap : ∃ b, w_heap w' = <[l := OHandle (handle b)]> (w_heap w);
  ad_trace : ∃ evs, w_trace w' = evs ++ w_trace w;
}.

Definition thread_ready (l : positive) (w : World) : Prop :=
  ready w ∧ ∃ b, w_heap w !! l = Some (OHandle (handle b)).

Lemma advances_trans l w1 w2 w3 : advances l w1 w2 → advances l w2 w3 → advances l w1 w3.
Proof.
  intros [Hl1 [b1 Hh1] [e1 Ht1]] [Hl2 [b2 Hh2] [e2 Ht2]]. split.
  - congruence.
  - exists b2. by rewrite Hh2, Hh1, insert_insert_eq.
  - exists (e2 ++ e1). by rewrite Ht2, Ht1, app_assoc.
Qed.

Lemma keeps_advances l w w' : thread_ready l w → keeps w w' → advances l w w'.
Proof.
  intros [_ [b Hb]] [Hl Hh Ht]. split; [done| |done]. exists b. by rewrite Hh, insert_id.
Qed.

Lemma advances_ready l w w' : thread_ready l w → advances l w w' → thread_ready l w'.
Proof.
  intros [Hw [b Hb]] [Hl [b' Hh] _]. split.
  - eapply cu_ready; [exact Hw|done|]. intros a o Ha Ho. rewrite Hh.
    rewrite lookup_insert_ne; [done|]. intros ->. rewrite Hb in Ha. injection Ha as <-.
    by eapply Ho.
  - exists b'. rewrite Hh. apply lookup_insert_eq.
Qed.

Lemma thread_ready_keeps l w w' : thread_ready l w → keeps w w' → thread_ready l w'.
Proof. intros Hw Hk. eapply advances_ready, keeps_advances; done. Qed.

Lemma wp_good_mosq_call b (c : ext (list mosq_cb * Z)) w :
  ready w → (∀ tr, Forall good (fst (answer tr _ c))) →
  wp (mosq_call (handle b) c) (λ o w', (∃ rc, o = Ok rc) ∧ keeps w w') w.
Proof.
  intros Hw Hc. unfold mosq_call. do 3 wp_step. specialize (Hc (w_trace w)).
  destruct (answer (w_trace w) _ c) as [cbs rc] eqn:E. cbn [fst] in Hc. wp_step.
  eapply wp_mono.
  { apply (wp_for_each_keeps ready); [exact ready_keeps| |].
    - eapply ready_keeps; [exact Hw|]. by apply keeps_called.
    - eapply Forall_impl; [exact Hc|]. intros cb Hcb w1 Hw1. by apply cu_cb. }
  intros o w1 [-> Hk]. wp_steps. split; [by eexists|].
  transitivity (called c w); [|exact Hk]. by apply keeps_called.
Qed.

(** A further invariant of the thread, which the callbacks of the loop
    functions keep. *)
Definition loop_call (c : ext (list mosq_cb * Z)) : Prop :=
  c = X_mosquitto_loop_write m 1 ∨ c = X_mosquitto_loop_read m 1 ∨ c = X_mosquitto_loop_misc m.

Record LoopInv (J : World → Prop) : Prop := {
  li_heap : ∀ h w, J w → J (set_heap h w);
  li_call : ∀ b c w, loop_call c → ready w → J w → J (snd (mosq_call (handle b) c w));
}.

Lemma wp_loop_call J b c w :
  LoopInv J → ready w → J w → loop_call c →
  wp (mosq_call (handle b) c) (λ o w', (∃ rc, o = Ok rc) ∧ keeps w w' ∧ J w') w.
Proof.
  intros HJ Hw HJw Hc.
  pose proof (wp_good_mosq_call b c w Hw) as H. unfold wp in H.
  destruct H as [H1 H2]; [|split_and!; [done|done|by apply li_call]].
  destruct Hc as [->|[->| ->]]; [apply cu_write|apply cu_read|apply cu_misc].
Qed.

Lemma wp_good_client_loop J l (read write : bool) w :
  LoopInv J → thread_ready l w → J w →
  wp (mqtt_client_loop (Some l) read write) (λ o w', o = Ok tt ∧ advances l w w' ∧ J w') w.
Proof.
  intros HJ Hw HJw. pose proof Hw as [Huw [b Hb]]. unfold mqtt_client_loop. wp_steps.
  eapply wp_load_handle; [exact Hb|]. do 2 wp_step.
  apply (wp_mono _ (λ o w', (∃ rc, o = Ok rc) ∧ keeps w w' ∧ J w')).
  { destruct write; [|by wp_steps; eauto with keeps].
    apply wp_loop_call; [done..|by left]. }
  intros o1 w1 ([rc1 ->] & Hk1 & HJ1). do 2 wp_step.
  pose proof (ready_keeps _ _ Huw Hk1) as Huw1.
  apply (wp_mono _ (λ o w', (∃ rc, o = Ok rc) ∧ keeps w1 w' ∧ J w')).
  { destruct read; [|by wp_steps; eauto with keeps].
    apply wp_loop_call; [done..|by right; left]. }
  intros o2 w2 ([rc2 ->] & Hk2 & HJ2). do 2 wp_step.
  pose proof (keeps_advances l w w2 Hw (transitivity Hk1 Hk2)) as Ha2.
  pose proof (advances_ready _ _ _ Hw Ha2) as Hw2.
  apply (wp_mono _ (λ o w', o = Ok tt ∧ advances l w2 w' ∧ J w')).
  { destruct (_ || _); [|wp_steps; split_and!; [done|by apply keeps_advances|done]].
    destruct Hw2 as [Hr2 [b2 Hb2]]. unfold set_connected. wp_step.
    eapply wp_load_handle; [exact Hb2|]. wp_step. eapply wp_store; [exact Hb2|].
    split_and!; [done| |by apply li_heap]. split; [done| |by exists []]. by exists false. }
  intros o3 w3 (-> & Ha3 & HJ3). pose proof (advances_ready _ _ _ Hw2 Ha3) as Hw3. do 2 wp_step.
  eapply wp_mono; [apply wp_loop_call; [done|apply Hw3|done|by right; right]|].
  intros o4 w4 ([rc4 ->] & Hk4 & HJ4). wp_steps. split_and!; [done| |done].
  eapply advances_trans; [exact Ha2|]. eapply advances_trans; [exact Ha3|].
  by apply keeps_advances.
Qed.

Lemma loop_inv_True : LoopInv (λ _, True).
Proof. by split. Qed.

Lemma wp_thread_connect l Q w :
  GoodBroker m cfg → log_ready (w_log w) → w_heap w !! l = Some (OHandle (handle false)) →
  (∀ r b w', w_log w' = w_log w → (∃ evs, w_trace w' = evs ++ w_trace w) →
     w_heap w' = <[l := OHandle (handle b)]> (w_heap w) → Q (Ok r) w') →
  wp (mqtt_client_connect (Some l)) Q w.
Proof.
  intros Hbr Hlog Hl HQ. apply (wp_connect_setup l (handle false)); [done|done|apply Hbr..|].
  intros w1 Hlg1 Hh1 Ht1. eapply wp_mono.
  { apply (wp_connect_loop 3 l (handle false)); [by rewrite Hlg1|by rewrite Hh1|apply Hbr]. }
  intros o w2 [-> [Hlg2 Hres]]. wp_steps. rewrite Hh1, Ht1 in Hres.
  destruct Hres as [(k & evs & cbs & _ & _ & Ht & Hh)|(evs & _ & Ht & Hh)].
  - eapply wp_load_handle; [rewrite Hh; apply lookup_insert_eq|]. wp_steps.
    apply (HQ _ true); [congruence| |done]. rewrite Ht, !app_assoc. by eexists (_ :: _ ++ _).
  - eapply wp_load_handle; [by rewrite Hh|]. wp_steps.
    apply (HQ _ false); [congruence| |by rewrite Hh, insert_id].
    rewrite Ht, app_assoc. by eexists.
Qed.

(** Creating the client and connecting it, as both threads start; [I] is any
    invariant of the two functions. *)
Lemma wp_client_setup {A} (I : World → Prop) (k : ptr → M A) (k' : positive → M A) Q w :
  GoodBroker m cfg → ready w →
  I w → preserves I (mqtt_client_init cfg) → (∀ h, preserves I (mqtt_client_connect h)) →
  (∀ l, k (Some l) = (mqtt_client_connect (Some l);; k' l)) →
  (∀ l b w', w_heap w !! l = None → w_log w' = w_log w → I w' →
     (∃ evs, w_trace w' = evs ++ w_trace w) →
     w_heap w' = <[l := OHandle (handle b)]> (w_heap w) → thread_ready l w' →
     wp (k' l) Q w') →
  wp (mqtt_client_init cfg) (bind_post k Q) w.
Proof.
  intros Hbr Hw HI Hinit Hcon Hk HQ. pose proof (cu_log _ Hw) as Hlog.
  eapply wp_mono; [by apply (wp_preserved _ I), wp_mqtt_client_init|].
  intros o1 w1 [H1 HI1]. cbn beta zeta in H1.
  rewrite (gb_new _ _ Hbr), (gb_malloc _ _ Hbr) in H1.
  destruct H1 as (Hlg1 & [evs1 Ht1] & l & -> & Hl & Hh1). cbn [bind_post].
  rewrite Hk. wp_step.
  eapply wp_mono.
  { apply (wp_preserved _ I (λ o w', (∃ r, o = Ok r) ∧ w_log w' = w_log w1
      ∧ (∃ evs, w_trace w' = evs ++ w_trace w1)
      ∧ ∃ b, w_heap w' = <[l := OHandle (handle b)]> (w_heap w1))); [apply Hcon|done|].
    apply wp_thread_connect; [done|by rewrite Hlg1|rewrite Hh1; apply lookup_insert_eq|].
    intros r b w2 Hlg2 Ht2 Hh2. split_and!; [by exists r|done|done|by exists b]. }
  intros o2 w2 [([r ->] & Hlg2 & [evs2 Ht2] & b & Hh2) HI2]. wp_step.
  rewrite Hh1, insert_insert_eq in Hh2. apply (HQ l b); [done|congruence|done| |done|].
  { exists (evs2 ++ evs1). by rewrite Ht2, Ht1, app_assoc. }
  split; [|exists b; rewrite Hh2; apply lookup_insert_eq].
  eapply cu_ready; [exact Hw|congruence|]. intros a o Ha _. rewrite Hh2.
  rewrite lookup_insert_ne; [done|]. intros ->. congruence.
Qed.

End user.

(** * Properties *)

(** During the loop functions only the log callback runs. *)
Definition loop_logs_only (m : mosq_ptr) : Prop :=
  (∀ tr, log_only (fst (answer tr _ (X_mosquitto_loop_write m 1))) = true)
  ∧ (∀ tr, log_only (fst (answer tr _ (X_mosquitto_loop_read m 1))) = true)
  ∧ (∀ tr, log_only (fst (answer tr _ (X_mosquitto_loop_misc m))) = true).

(** C21: [mqtt_client_connect] tries at most three times, with two seconds of
    sleep after each refusal, and stops at the first success: it returns true
    exactly when one attempt succeeded, and the handle then says connected. *)
Theorem connect_attempts l h w :
  log_ready (w_log w) → w_heap w !! l = Some (OHandle h) → connected h = false →
  connect_logs_only h →
  (tls_enabled (config h) = true → ∀ tr, answer tr _ (tls_call h) = 0) →
  (user_pw_auth_enabled (config h) = true → ∀ tr, answer tr _ (pw_call h) = 0) →
  wp (mqtt_client_connect (Some l)) (λ o w', ∃ k evs,
    failed_attempts (connect_of h) k evs ∧ w_log w' = w_log w
    ∧ (((k < 3)%nat ∧ o = Ok true
        ∧ (∃ cbs, w_trace w' = Ev (connect_of h) (cbs, 0) :: evs ++ setup_events h ++ w_trace w)
        ∧ w_heap w' = <[l := OHandle (with_connected true h)]> (w_heap w))
       ∨ (k = 3%nat ∧ o = Ok false ∧ w_trace w' = evs ++ setup_events h ++ w_trace w
          ∧ w_heap w' = w_heap w))) w.
Proof.
  intros Hlog Hl Hcon Hc Htls Hpw. apply (wp_connect_setup l h); [done..|].
  intros w1 Hlg1 Hh1 Ht1. eapply wp_mono.
  { apply (wp_connect_loop 3 l h); [by rewrite Hlg1|by rewrite Hh1|done]. }
  intros o w' [-> [Hlg Hres]]. cbn [bind_post].
  destruct Hres as [(k & evs & cbs & Hk & Hf & Ht & Hh)|(evs & Hf & Ht & Hh)].
  - wp_step. eapply wp_load_handle; [rewrite Hh; apply lookup_insert_eq|]. wp_steps.
    exists k, evs. split_and!; [done|by rewrite Hlg|]. left.
    split_and!; [done..| |by rewrite Hh, Hh1]. exists cbs. by rewrite Ht, Ht1.
  - wp_step. eapply wp_load_handle; [by rewrite Hh, Hh1|]. wp_steps.
    exists 3%nat, evs. split_and!; [done|by rewrite Hlg|]. right.
    split_and!; [done|by rewrite Hcon|by rewrite Ht, Ht1|by rewrite Hh, Hh1].
Qed.

(** A TLS set-up that libmosquitto refuses ends the process with status 1
    before any connection is attempted. *)
Lemma connect_tls_failure l h w :
  log_ready (w_log w) → w_heap w !! l = Some (OHandle h) →
  tls_enabled (config h) = true → answer (w_trace w) _ (tls_call h) ≠ 0 →
  wp (mqtt_client_connect (Some l)) (λ o w',
    o = Exit 1 ∧ w' ≡ called (tls_call h) w) w.
Proof.
  intros Hlog Hl Ht Hr. unfold mqtt_client_connect, tls_call in *.
  wp_step. eapply wp_load_handle; [exact Hl|]. cbn [bind_post]. rewrite Ht. wp_go.
  change (w_trace (set_out ?o ?w)) with (w_trace w).
  destruct (answer (w_trace w) Z _ =? MOSQ_ERR_SUCCESS) eqn:E;
    [by apply Z.eqb_eq in E|]. cbn [negb]. wp_go. done.
Qed.

(** Reconnecting is not implemented: [mqtt_client_reconnect] reports
    success and does nothing, in particular no call to libmosquitto. *)
Lemma reconnect_does_nothing l w : mqtt_client_reconnect (Some l) w = (Ok true, w).
Proof. reflexivity. Qed.

(** [mqtt_client_publish] publishes the characters of the message before
    its first NUL, on the topic without its first character, and returns
    whether libmosquitto accepted it. *)
Lemma publish_spec l h m size cells payload c0 t qos w :
  log_ready (w_log w) → w_heap w !! l = Some (OHandle h) →
  w_heap w !! m = Some (OBytes size cells) → scan_cstr cells = Ok payload →
  let c := X_mosquitto_publish (mosq h) t (Z.of_nat (length payload)) payload qos false in
  log_only (fst (answer (w_trace w) _ c)) = true →
  wp (mqtt_client_publish (Some l) (String c0 t) (Some m) qos) (λ o w',
    o = Ok (snd (answer (w_trace w) _ c) =? 0) ∧ w' ≡ called c w) w.
Proof. intros ????? Hc. by eapply wp_mqtt_client_publish. Qed.

(** The connect callback subscribes to the topic followed by "/#" with QoS
    2, exactly when the connection was accepted; a topic of 254 characters or
    more ends the process, and no topic means no subscription. *)
Lemma cb_connect_spec m config result w :
  log_ready (w_log w) →
  (∀ tr t, forallb (λ l, known_level l.1) (fst (answer tr _ (X_mosquitto_subscribe m t 2))) = true) →
  (∀ t, topic config = Some t → no_nul (explode t)) →
  wp (mqtt_cb_connect m config result) (λ o w',
    match topic config with
    | None => o = Ok tt ∧ w' ≡ w
    | Some t =>
        if (254 <=? strlen t)%nat then o = Exit 1 ∧ w' ≡ w
        else if result =? 0
             then o = Ok tt ∧ w' ≡ called (X_mosquitto_subscribe m (t +:+ "/#") 2) w
             else o = Ok tt ∧ w' ≡ w
    end) w.
Proof.
  intros Hlog Hsub Hnul. eapply wp_mono; [by apply wp_mqtt_cb_connect|]. intros o w' H.
  destruct (topic config) as [t|]; [|by destruct H as [-> [out ->]]].
  destruct (_ <=? _)%nat; [by destruct H as [-> [out ->]]|].
  by destruct (result =? 0), H as [-> [out ->]].
Qed.

(** The entry for [poll]: the socket of the client, always with POLLIN, and
    with POLLOUT exactly when libmosquitto has something to write. *)
Lemma get_pollfds_spec l h w :
  w_heap w !! l = Some (OHandle h) →
  let w1 := called (X_mosquitto_socket (mosq h)) w in
  let want := answer (w_trace w1) _ (X_mosquitto_want_write (mosq h)) in
  wp (mqtt_client_get_pollfds (Some l)) (λ o w', ∃ p,
    o = Ok p ∧ w' = called (X_mosquitto_want_write (mosq h)) w1
    ∧ pfd_fd p = answer (w_trace w) _ (X_mosquitto_socket (mosq h))
    ∧ Z.land (pfd_events p) POLLIN = POLLIN
    ∧ (Z.land (pfd_events p) POLLOUT = POLLOUT ↔ want = true)) w.
Proof.
  intros Hl w1 want. unfold mqtt_client_get_pollfds. wp_steps.
  eapply wp_load_handle; [exact Hl|]. wp_steps. eexists. split_and!; [done..| |].
  all: fold w1 want; by destruct want.
Qed.

(** [mqtt_client_loop] marks the handle as not connected exactly when the
    result it looks at is a lost or missing connection. That is the result of
    the read when there is one: the result of the write is then dropped. *)
Lemma loop_spec l h (read write : bool) w :
  log_ready (w_log w) → w_heap w !! l = Some (OHandle h) →
  loop_logs_only (mosq h) →
  let wr := X_mosquitto_loop_write (mosq h) 1 in
  let rd := X_mosquitto_loop_read (mosq h) 1 in
  let w1 := if write then called wr w else w in
  let w2 := if read then called rd w1 else w1 in
  let ret := if read then snd (answer (w_trace w1) _ rd)
             else if write then snd (answer (w_trace w) _ wr) else MOSQ_ERR_SUCCESS in
  wp (mqtt_client_loop (Some l) read write) (λ o w', o = Ok tt ∧
    w' ≡ called (X_mosquitto_loop_misc (mosq h))
           (if bool_decide (ret = MOSQ_ERR_CONN_LOST ∨ ret = MOSQ_ERR_NO_CONN)
            then set_heap (<[l := OHandle (with_connected false h)]> (w_heap w)) w2
            else w2)) w.
Proof.
  intros Hlog Hl (Hcw & Hcr & Hcm) wr rd w1 w2 ret. unfold mqtt_client_loop. wp_steps.
  eapply wp_load_handle; [exact Hl|]. do 2 wp_step. fold wr rd.
  apply (wp_mono _ (λ o w', o = Ok (if write then snd (answer (w_trace w) _ wr)
                                    else MOSQ_ERR_SUCCESS) ∧ ∃ o, w' = set_out o w1)).
  { destruct write; [|wp_steps; split; [done|exists (w_out w)]; by rewrite set_out_id].
    apply wp_mosq_call; [done|apply Hcw|]. eauto. }
  intros o1 w1' [-> [out1 ->]]. do 2 wp_step.
  assert (Hlog1 : log_ready (w_log w1)) by (unfold w1; by destruct write).
  apply (wp_mono _ (λ o w', o = Ok ret ∧ ∃ o, w' = set_out o w2)).
  { unfold ret, w2. destruct read; [|wp_steps; eauto].
    apply wp_mosq_call; [done|apply Hcr|]. eauto. }
  intros o2 w2' [-> [out2 ->]].
  assert (Hheap2 : w_heap w2 = w_heap w) by (unfold w2, w1; by destruct read, write).
  assert (Hlog2 : log_ready (w_log w2)) by (unfold w2; by destruct read).
  wp_step. destruct (_ || _) eqn:E.
  - rewrite bool_decide_true by lia. unfold set_connected. do 2 wp_step.
    eapply wp_load_handle; [by rewrite <- Hl, <- Hheap2|]. wp_step.
    eapply wp_store; [by rewrite <- Hl, <- Hheap2|]. do 2 wp_step.
    apply wp_mosq_call; [done|apply Hcm|]. intros o3. wp_steps. split; [done|].
    unfold with_connected. by rewrite <- Hheap2.
  - rewrite bool_decide_false by lia. do 4 wp_step.
    apply wp_mosq_call; [done|apply Hcm|]. intros o3. by wp_steps.
Qed.

End client.

#[global] Arguments ready_keeps {_ _ m cfg ready good CU} w w' _ _.
#[global] Arguments advances_trans {m cfg} l w1 w2 w3 _ _.
#[global] Arguments keeps_advances {m cfg ready} l w w' _ _.
#[global] Arguments advances_ready {_ _ m cfg ready good CU} l w w' _ _.
#[global] Arguments thread_ready_keeps {_ _ m cfg ready good CU} l w w' _ _.

(** ** Witnesses *)
Import Demo.

(** A client without a message callback. *)
Definition demo_client : MqttClientConfiguration := {|
  label := Some "unit1"; topic := Some "unit1"; broker_host := Some "localhost";
  broker_port := 1883; keepalive := 60; tls_enabled := true; cafile := Some "ca";
  capath := None; certfile := None; keyfile := None; user_pw_auth_enabled := false;
  user := None; pw := None; callback_context := None; msg_callback_ptr := None;
|}.

Definition demo_handle : MqttClientHandle :=
  {| mosq := 1%positive; config := demo_client; connected := false |}.

Definition demo_heap : gmap positive obj :=
  {[ 1%positive := OHandle demo_handle;
     2%positive := OBytes 3 (Some <$> explode "hi" ++ [NUL]) ]}.

#[local] Instance demo_handler (EV : Env) : MsgHandler := λ _ _ _ _, mret tt.

(** The first [n] connections are refused. *)
Definition refuse_connects (n : nat) : list event → ∀ A, ext A → A := λ tr A c,
  match c in ext A return A with
  | X_mosquitto_connect _ _ _ _ =>
      ([CB_log 16 "connecting"], if (length tr <? n)%nat then 14 else 0)
  | c => answer_ok _ c
  end.

Definition refuse_tls : list event → ∀ A, ext A → A := λ tr A c,
  match c in ext A return A with
  | X_mosquitto_tls_set _ _ _ _ _ => 3
  | c => answer_ok _ c
  end.

Lemma connect_attempts_witness :
  let EV := demo_env 8 (refuse_connects 3) in
  wp (mqtt_client_connect (Some 1%positive)) (λ o w', ∃ k evs,
    failed_attempts (connect_of demo_handle) k evs ∧ w_log w' = console_log
    ∧ (((k < 3)%nat ∧ o = Ok true
        ∧ (∃ cbs, w_trace w' = Ev (connect_of demo_handle) (cbs, 0)
                               :: evs ++ setup_events demo_handle ++ [])
        ∧ w_heap w' = <[1%positive := OHandle (with_connected true demo_handle)]> demo_heap)
       ∨ (k = 3%nat ∧ o = Ok false ∧ w_trace w' = evs ++ setup_events demo_handle ++ []
          ∧ w_heap w' = demo_heap))) (world_of console_log demo_heap).
Proof.
  intros EV.
  apply (connect_attempts 1%positive demo_handle (world_of console_log demo_heap));
    [split; [by right|cbn; lia]|vm_compute; reflexivity|reflexivity
    |intros tr; reflexivity|intros _ tr; reflexivity|discriminate].
Defined.

Lemma connect_tls_failure_witness :
  let EV := demo_env 8 refuse_tls in
  wp (mqtt_client_connect (Some 1%positive)) (λ o w',
    o = Exit 1 ∧ w' ≡ called (tls_call demo_handle) (world_of console_log demo_heap))
    (world_of console_log demo_heap).
Proof.
  intros EV.
  apply (connect_tls_failure 1%positive demo_handle (world_of console_log demo_heap));
    [split; [by right|cbn; lia]|vm_compute; reflexivity|reflexivity|discriminate].
Defined.

Lemma publish_spec_witness :
  let EV := demo_env 8 all_ok in
  wp (mqtt_client_publish (Some 1%positive) "/a/b" (Some 2%positive) 1) (λ o w',
    o = Ok true
    ∧ w' ≡ called (X_mosquitto_publish 1%positive "a/b" 2 (explode "hi") 1 false)
             (world_of console_log demo_heap)) (world_of console_log demo_heap).
Proof.
  intros EV.
  eapply wp_mono.
  - apply (publish_spec 1%positive demo_handle 2%positive 3 (Some <$> explode "hi" ++ [NUL])
             (explode "hi") "/"%char "a/b" 1 (world_of console_log demo_heap));
      [split; [by right|cbn; lia]|vm_compute; reflexivity..].
  - intros o w' [-> Hw]. split; [vm_compute; reflexivity|exact Hw].
Defined.

Lemma cb_connect_spec_witness :
  let EV := demo_env 8 all_ok in
  wp (mqtt_cb_connect 1%positive demo_client 0) (λ o w',
    o = Ok tt ∧ w' ≡ called (X_mosquitto_subscribe 1%positive "unit1/#" 2) demo_world)
    demo_world.
Proof.
  intros EV.
  apply (cb_connect_spec 1%positive demo_client 0 demo_world);
    [split; [by right|cbn; lia]|intros tr t; reflexivity|].
  intros t [= <-]. apply (bool_decide_unpack _). vm_compute. exact I.
Defined.

Lemma get_pollfds_spec_witness :
  let EV := demo_env 8 all_ok in
  wp (mqtt_client_get_pollfds (Some 1%positive)) (λ o w', ∃ p,
    o = Ok p ∧ pfd_fd p = 5 ∧ Z.land (pfd_events p) POLLIN = POLLIN
    ∧ ¬ Z.land (pfd_events p) POLLOUT = POLLOUT) (world_of console_log demo_heap).
Proof.
  intros EV. eapply wp_mono.
  - apply (get_pollfds_spec 1%positive demo_handle). vm_compute. reflexivity.
  - intros o w' (p & -> & _ & Hf & Hi & Ho). exists p. split_and!; [done..|].
    intros H. by apply Ho in H.
Defined.

(** The write loses the connection, the read after it succeeds. *)
Definition lose_write : list event → ∀ A, ext A → A := λ tr A c,
  match c in ext A return A with
  | X_mosquitto_loop_write _ _ => ([], 7)
  | c => answer_ok _ c
  end.

Lemma loop_spec_witness :
  let EV := demo_env 8 lose_write in
  let w := world_of console_log demo_heap in
  wp (mqtt_client_loop (Some 1%positive) true true) (λ o w', o = Ok tt ∧
    w' ≡ called (X_mosquitto_loop_misc 1%positive)
           (called (X_mosquitto_loop_read 1%positive 1)
             (called (X_mosquitto_loop_write 1%positive 1) w))) w.
Proof.
  intros EV w.
  eapply wp_mono.
  - apply (loop_spec 1%positive demo_handle true true w);
      [split; [by right|cbn; lia]|vm_compute; reflexivity|].
    split_and!; intros tr; reflexivity.
  - intros o w' [-> Hw]. split; [reflexivity|].
    rewrite bool_decide_false in Hw by (vm_compute; intros [H|H]; discriminate H). exact Hw.
Defined.

End MqttClient.
