(* ===== verification/Mqtt2Rest.v ===== *)
(** Model of [src/mqtt2rest_unit.c]: the thread that turns MQTT messages into
    HTTP POST requests. *)
From Stdlib Require Import ZArith Lia ZifyBool Ascii String List.
From stdpp Require Import base numbers list strings gmap.
From S2P Require Import Prelude.
From S2P Require Import CLib.
From S2P Require Import Types.
From S2P Require Import World.
From S2P Require Import Demo.
From S2P Require Import Logging.
From S2P Require Import MqttClient.
Import Logging MqttClient.

Module Mqtt2Rest.

Definition URL_MAX_SIZE : Z := 2048.
Definition CURLE_OK : Z := 0.
Definition EINTR : Z := 4.

(** A pointer into a string: [s + n], which may be at most one past the
    terminating NUL, and may be read only up to the NUL. *)
Definition ptr_add (s : string) (n : nat) : option string :=
  if (n <=? strlen s)%nat then Some (str_drop n s) else None.

Section unit_.
Context `{EV : Env}.

(** The lines of [rest_post] that build [full_url]; the result is the C string
    the buffer then holds. [url] is [None] for a pointer past its string. *)
Definition make_full_url (baseurl : string) (url : option string) : M (list ascii) :=
  let len := to_int (Z.of_nat (strlen baseurl)) in
  url ← match url with Some u => mret u | None => crash OutOfBounds end;
  DEBUG (At "mqtt2rest_unit.c" 44 "rest_post") "len url: %d"
    [PInt (Z.of_nat (strlen url))];;
  full_url ← lift (strncpy (replicate (Z.to_nat URL_MAX_SIZE) None) (explode baseurl)
                     (Z.to_nat (URL_MAX_SIZE - 1)));
  c ← lift (buf_get full_url (len - 1));
  full_url ←
    (if negb (bool_decide (c = SLASH)) then
       DEBUG (At "mqtt2rest_unit.c" 48 "rest_post") "Need to append a '/'" [];;
       full_url ← lift (buf_write full_url len [SLASH]);
       lift (buf_write full_url (len + 1) [NUL])
     else mret full_url);
  full_url ← lift (strncat full_url 0 (explode url) (to_size (URL_MAX_SIZE - len - 1)));
  lift (buf_cstr full_url 0).

Definition rest_post (u : Mqtt2RestUnitConfiguration) (url : option string)
    (payload : option (list ascii)) : M Z :=
  baseurl ← deref (m2r_webservice_baseurl u);
  full_url ← make_full_url baseurl url;
  INFO (At "mqtt2rest_unit.c" 53 "rest_post") "FULL URL: %s"
    [PStr (Some (implode full_url))];;
  curl ← call X_curl_easy_init;
  match curl with
  | None => mret 0
  | Some _ =>
      call (X_curl_setopt_url curl full_url);;
      match payload with
      | None => call (X_curl_setopt_customrequest curl "POST");; mret tt
      | Some p => call (X_curl_setopt_postfields curl (cut_nul p));; mret tt
      end;;
      res ← call (X_curl_easy_perform curl);
      retval ← (if negb (res =? CURLE_OK) then
                  ERROR (At "mqtt2rest_unit.c" 65 "rest_post") "curl_easy_perform() failed: %s"
                    [PStr (Some (curl_easy_strerror res))];;
                  mret (-1)
                else mret 0);
      call (X_curl_easy_cleanup curl);;
      mret retval
  end.

Definition on_mqtt_msg (topic : string) (msg : option (list ascii)) (ctx : ptr) : M unit :=
  INFO (At "mqtt2rest_unit.c" 75 "on_mqtt_msg") "Got MQTT msg on topic %s"
    [PStr (Some topic)];;
  unitconfig ← load_mqtt2rest ctx;
  base ← deref (m2r_mqtt_topic unitconfig);
  let url := ptr_add topic (strlen base + 1) in
  match msg with
  | Some p => DEBUG (At "mqtt2rest_unit.c" 82 "on_mqtt_msg") "Payload: %s"
                [PStr (Some (implode (cut_nul p)))]
  | None => mret tt
  end;;
  rest_post unitconfig url msg;;
  mret tt.

(** The function the client calls for an incoming message. *)
#[export] Instance mqtt2rest_handler : MsgHandler :=
  λ f topic msg ctx, match f with on_mqtt_msg_cb => on_mqtt_msg topic msg ctx end.

(** The configuration the unit gives to its client. *)
Definition mqtt2rest_client_config (u : Mqtt2RestUnitConfiguration) (up : ptr)
    (c : Configuration) : MqttClientConfiguration := {|
  label := m2r_unit_name u;
  topic := m2r_mqtt_topic u;
  broker_host := mqtt_broker_host c;
  broker_port := mqtt_broker_port c;
  keepalive := mqtt_keepalive c;
  tls_enabled := mqtt_tls c;
  cafile := mqtt_cafile c;
  capath := mqtt_capath c;
  certfile := mqtt_certfile c;
  keyfile := mqtt_keyfile c;
  user_pw_auth_enabled := mqtt_user_pw c;
  user := mqtt_user c;
  pw := mqtt_pw c;
  callback_context := up;
  msg_callback_ptr := Some on_mqtt_msg_cb;
|}.

(** Half the keepalive in milliseconds. *)
Definition poll_timeout (keepalive : Z) : outcome Z :=
  int_mul (Z.quot keepalive 2) 1000.

Definition flag (revents bit : Z) : bool := negb (Z.land revents bit =? 0).

(** One pass of the [while (true)] loop: up to [poll], with what it is to watch,
    or nothing when the pass starts over; and from what [poll] returned, [true]
    when it breaks out. *)
Definition mqtt2rest_before_poll (mqtt : ptr) : M (option (list pollfd)) :=
  conn ← mqtt_client_connected mqtt;
  retry ← (if negb conn then
             DEBUG (At "mqtt2rest_unit.c" 126 "mqtt2rest_unit_run") "Trying to reconnect..." [];;
             ok ← mqtt_client_reconnect mqtt;
             mret (negb ok)
           else mret false);
  if retry : bool then mret None
  else
    pfd ← mqtt_client_get_pollfds mqtt;
    mret (Some [pfd]).

Definition mqtt2rest_after_poll (mqtt : ptr) (r : poll_result) : M bool :=
  if pr_ret r <? 0 then
    (if negb (pr_errno r =? EINTR) then
       ERROR (At "mqtt2rest_unit.c" 136 "mqtt2rest_unit_run")
         "Poll() failed with <%s>, exiting" [PStr (Some (strerror (pr_errno r)))]
     else mret tt);;
    mret true
  else
    let revents := default 0 (pr_revents r !! 0%nat) in
    mqtt_client_loop mqtt (flag revents POLLIN) (flag revents POLLOUT);;
    mret false.

Definition mqtt2rest_pass (mqtt : ptr) (timeout : Z) : M bool :=
  fds ← mqtt2rest_before_poll mqtt;
  match fds with
  | None => mret false
  | Some fds =>
      r ← call (X_poll fds timeout);
      mqtt2rest_after_poll mqtt r
  end.

Fixpoint mqtt2rest_loop (fuel : nat) (mqtt : ptr) (timeout : Z) : M unit :=
  match fuel with
  | O => lift OutOfFuel
  | S fuel' =>
      stop ← mqtt2rest_pass mqtt timeout;
      if stop : bool then mret tt else mqtt2rest_loop fuel' mqtt timeout
  end.

(** The thread function up to its loop: the client and the timeout of [poll]. *)
Definition mqtt2rest_start (configdata : ptr) : M (option (ptr * Z)) :=
  assert_that (bool_decide (is_Some configdata));;
  unitconfig ← load_mqtt2rest configdata;
  INFO (At "mqtt2rest_unit.c" 92 "mqtt2rest_unit_run") "Starting thread for unit: %s"
    [PStr (m2r_unit_name unitconfig)];;
  assert_that (bool_decide (is_Some (m2r_common_configuration unitconfig)));;
  config ← load_configuration (m2r_common_configuration unitconfig);
  mqtt ← mqtt_client_init (mqtt2rest_client_config unitconfig configdata config);
  match mqtt with
  | None =>
      FATAL (At "mqtt2rest_unit.c" 116 "mqtt2rest_unit_run") "Failed to init MQTT client" [];;
      mret None
  | Some _ =>
      mqtt_client_connect mqtt;;
      timeout ← lift (poll_timeout (mqtt_keepalive config));
      mret (Some (mqtt, timeout))
  end.

(** What follows the loop. *)
Definition mqtt2rest_end (configdata : ptr) : M unit :=
  unitconfig ← load_mqtt2rest configdata;
  INFO (At "mqtt2rest_unit.c" 144 "mqtt2rest_unit_run") "Unit thread %s exiting..."
    [PStr (m2r_unit_name unitconfig)].

Definition mqtt2rest_unit_run (fuel : nat) (configdata : ptr) : M unit :=
  started ← mqtt2rest_start configdata;
  match started with
  | None => mret tt
  | Some (mqtt, timeout) => mqtt2rest_loop fuel mqtt timeout;; mqtt2rest_end configdata
  end.

(** * The URL *)

(** [strncpy] of a base that leaves room for its terminator. *)
Lemma strncpy_base n (base : list ascii) :
  (length base < n)%nat →
  strncpy (replicate (S n) None) base n
  = Ok ((Some <$> base) ++ Some NUL :: replicate (n - 1 - length base) (Some NUL) ++ [None]).
Proof.
  intros H. unfold strncpy. rewrite take_ge by lia.
  rewrite buf_write_ok; rewrite ?length_app, ?length_replicate; [|lia|lia].
  change (Z.to_nat 0) with 0%nat. rewrite take_0, app_nil_l. f_equal.
  rewrite drop_replicate, fmap_app, <- app_assoc, fmap_replicate. f_equal.
  replace (S n - (0 + _))%nat with 1%nat by lia.
  by replace (n - length base)%nat with (S (n - 1 - length base)) by lia.
Qed.

(** A base that does not: its first [n] characters and no terminator. *)
Lemma strncpy_long_base n (base : list ascii) :
  (n ≤ length base)%nat →
  strncpy (replicate (S n) None) base n = Ok ((Some <$> take n base) ++ [None]).
Proof.
  intros H. unfold strncpy. replace (n - length base)%nat with 0%nat by lia.
  rewrite app_nil_r.
  assert (Hl : length (take n base) = n) by (rewrite length_take; lia).
  rewrite buf_write_ok; rewrite ?Hl, ?length_replicate; [|lia|lia].
  change (Z.to_nat 0) with 0%nat. rewrite take_0, app_nil_l, drop_replicate.
  by replace (S n - (0 + n))%nat with 1%nat by lia.
Qed.

Definition ends_with_slash (base : string) : bool :=
  bool_decide (last (explode base) = Some SLASH).

(** What the buffer holds for a base and a relative URL. *)
Definition full_url_result (base url : string) : outcome (list ascii) :=
  let len := Z.of_nat (strlen base) in
  if (len =? 0) || (2049 <=? len) then Crash OutOfBounds
  else if len =? 2048 then Crash Uninit
  else if ends_with_slash base then
    if len =? 2047 then Crash Uninit
    else Ok (explode base ++ take (Z.to_nat (2047 - len)) (explode url))
  else if len + 1 + Z.of_nat (strlen url) <=? 2047
       then Ok (explode base ++ [SLASH] ++ explode url)
       else Crash OutOfBounds.

Lemma buf_get_last (base : list ascii) c rest :
  last base = Some c →
  buf_get ((Some <$> base) ++ rest) (Z.of_nat (length base) - 1) = Ok c.
Proof.
  intros Hl. destruct base as [|b base _] using rev_ind; [done|].
  rewrite last_snoc in Hl. injection Hl as ->. unfold buf_get.
  rewrite length_app. cbn [length]. destruct (_ <? 0) eqn:E; [lia|].
  replace (Z.to_nat (Z.of_nat (length base + 1) - 1)) with (length base) by lia.
  rewrite fmap_app, <- app_assoc. change ((Some <$> [c]) ++ rest) with (Some c :: rest).
  rewrite list_lookup_middle; [done|]. by rewrite length_fmap.
Qed.

Lemma to_size_small z : 0 ≤ z < 2 ^ 64 → to_size z = z.
Proof. intros H. unfold to_size. by apply Z.mod_small. Qed.

(** [buf_get] at the last character of a base without terminator. *)
Lemma buf_get_long n (base : list ascii) :
  (n < length base)%nat →
  buf_get ((Some <$> take n base) ++ [None]) (Z.of_nat (length base) - 1)
  = if (length base =? S n)%nat then Crash Uninit else Crash OutOfBounds.
Proof.
  intros H. assert (Hl : length (Some <$> take n base) = n)
    by (rewrite length_fmap, length_take; lia).
  unfold buf_get. destruct (_ <? 0) eqn:E; [lia|].
  rewrite lookup_app_r by lia. rewrite Hl. destruct (_ =? _)%nat eqn:E2.
  - by replace (Z.to_nat (Z.of_nat (length base) - 1) - n)%nat with 0%nat by lia.
  - by rewrite lookup_ge_None_2 by (cbn [length]; lia).
Qed.

Lemma scan_cstr_uninit cs : no_nul cs → scan_cstr ((Some <$> cs) ++ [None]) = Crash Uninit.
Proof.
  unfold no_nul. induction cs as [|c cs IH]; intros H; cbn; [done|].
  rewrite bool_decide_false by set_solver. by rewrite IH by set_solver.
Qed.

Lemma take_size_int z l :
  0 ≤ z < 2 ^ 64 → take_size (to_size z) l = take (Z.to_nat z) l.
Proof. intros H. rewrite to_size_small by done. apply take_size_nat; lia. Qed.

(** Appending a '/' to the copied base. *)
Lemma append_slash (base : list ascii) rest :
  (1 ≤ length rest)%nat →
  ∃ b, buf_write ((Some <$> base) ++ Some NUL :: rest) (Z.of_nat (length base)) [SLASH] = Ok b
  ∧ buf_write b (Z.of_nat (length base) + 1) [NUL]
    = Ok ((Some <$> base ++ [SLASH]) ++ Some NUL :: drop 1 rest).
Proof.
  intros Hr. destruct rest as [|c rest]; [cbn in Hr; lia|].
  exists ((Some <$> base) ++ (Some <$> [SLASH]) ++ c :: rest). split.
  - rewrite <- (length_fmap (@Some ascii) base).
    by rewrite (buf_write_mid _ [Some NUL] (c :: rest) [SLASH]).
  - rewrite app_assoc, <- fmap_app.
    replace (Z.of_nat (length base) + 1)
      with (Z.of_nat (length (Some <$> base ++ [SLASH])))
      by (rewrite length_fmap, length_app; cbn [length]; lia).
    by rewrite (buf_write_mid _ [c] rest [NUL]).
Qed.

(** The last [strncat] and reading the buffer back. *)
Lemma append_url (cs : list ascii) rest url n :
  no_nul cs → no_nul url →
  (b ← strncat ((Some <$> cs) ++ Some NUL :: rest) 0 url n; buf_cstr b 0)
  = if (length (take_size n url) <=? length rest)%nat then Ok (cs ++ take_size n url)
    else Crash OutOfBounds.
Proof.
  intros Hc Hu. pose proof (strncat_spec [] cs rest url n Hc) as Hs. change (Z.of_nat (length [])) with 0 in Hs.
  rewrite !app_nil_l in Hs. rewrite Hs. destruct (_ <=? _)%nat; [|done]. cbn [mbind outcome_bind].
  rewrite buf_cstr_0. apply scan_cstr_app. apply no_nul_app; [done|].
  unfold no_nul, take_size in *. intros H. apply Hu.
  apply elem_of_take in H as (i & Hi & _). by eapply list_elem_of_lookup_2.
Qed.

Lemma url_sizes :
  ∃ n, Z.of_nat n = 2047 ∧ Z.to_nat URL_MAX_SIZE = S n ∧ Z.to_nat (URL_MAX_SIZE - 1) = n.
Proof. exists (Z.to_nat 2047). unfold URL_MAX_SIZE. split_and!; lia. Qed.

(** A short base: the buffer has its terminator. *)
Lemma wp_make_full_url_short base url Q w c :
  log_ready (w_log w) → 1 ≤ Z.of_nat (strlen base) ≤ 2046 → no_nul (explode base) →
  no_nul (explode url) → last (explode base) = Some c →
  (∀ o, Q (full_url_result base url) (set_out o w)) →
  wp (make_full_url base (Some url)) Q w.
Proof.
  intros Hlog Hlen Hb Hu Hc HQ. unfold make_full_url.
  rewrite (to_int_id (Z.of_nat (strlen base))) by (unfold in_int, INT_MIN, INT_MAX; lia).
  destruct url_sizes as (n & Hn & -> & ->).
  unfold strlen in *. do 4 wp_step. wp_log. do 3 wp_step.
  rewrite strncpy_base by lia. do 3 wp_step. rewrite (buf_get_last _ c) by done.
  unfold full_url_result, ends_with_slash, strlen in HQ. rewrite Hc in HQ.
  rewrite (proj2 (Z.eqb_neq _ 0)), (proj2 (Z.leb_gt 2049 _)), (proj2 (Z.eqb_neq _ 2048)) in HQ
    by lia.
  cbn [orb] in HQ. do 2 wp_step.
  assert (Hsz : take_size (to_size (URL_MAX_SIZE - Z.of_nat (length (explode base)) - 1))
                  (explode url)
                = take (Z.to_nat (2047 - Z.of_nat (length (explode base)))) (explode url)).
  { rewrite take_size_int by (unfold URL_MAX_SIZE; lia). f_equal. unfold URL_MAX_SIZE. lia. }
  destruct (decide (c = SLASH)) as [->|Hns].
  - rewrite bool_decide_true by done. cbn [negb]. do 3 wp_step.
    apply wp_lift_lift. rewrite append_url, Hsz by done.
    rewrite bool_decide_true, (proj2 (Z.eqb_neq _ 2047)) in HQ by (done || lia).
    rewrite length_take, length_app, length_replicate. cbn [length].
    rewrite (proj2 (Nat.leb_le _ _)) by lia. apply HQ.
  - rewrite bool_decide_false by done. cbn [negb]. wp_step. wp_log. do 3 wp_step.
    destruct (append_slash (explode base)
                (replicate (n - 1 - length (explode base)) (Some NUL) ++ [None]))
      as (b & Hb1 & Hb2); [rewrite length_app; cbn [length]; lia|].
    rewrite Hb1. do 2 wp_step. rewrite Hb2. do 2 wp_step.
    apply wp_lift_lift. rewrite append_url, Hsz; [|apply no_nul_app; [done|]|done];
      [|by apply (bool_decide_unpack _)].
    rewrite bool_decide_false in HQ by congruence.
    rewrite length_take, length_drop, length_app, length_replicate. cbn [length].
    destruct (_ <=? 2047) eqn:E3 in HQ.
    + rewrite take_ge by lia. rewrite <- app_assoc.
      rewrite (proj2 (Nat.leb_le _ _)) by lia. apply HQ.
    + rewrite (proj2 (Nat.leb_gt _ _)) by lia. apply HQ.
Qed.

(** A base of 2047 characters or more has no terminator in the buffer. *)
Lemma wp_make_full_url_long base url Q w c :
  log_ready (w_log w) → 2047 ≤ Z.of_nat (strlen base) ≤ INT_MAX →
  no_nul (explode base) → last (explode base) = Some c →
  (∀ o, Q (full_url_result base url) (set_out o w)) →
  wp (make_full_url base (Some url)) Q w.
Proof.
  intros Hlog [Hlen Hint] Hb Hc HQ. unfold make_full_url.
  rewrite (to_int_id (Z.of_nat (strlen base))) by (unfold in_int, INT_MIN in *; lia).
  destruct url_sizes as (n & Hn & -> & ->).
  unfold strlen in *. do 4 wp_step. wp_log. do 3 wp_step.
  rewrite strncpy_long_base by lia. do 3 wp_step.
  unfold full_url_result, ends_with_slash, strlen in HQ. rewrite Hc in HQ.
  rewrite (proj2 (Z.eqb_neq _ 0)) in HQ by lia. cbn [orb] in HQ.
  destruct (decide (length (explode base) = n)) as [Heq|Hne].
  - rewrite take_ge by lia. rewrite (buf_get_last _ c) by done. do 2 wp_step.
    rewrite Heq, Hn in HQ |- *. cbn [Z.leb Z.eqb Z.compare Pos.compare Pos.compare_cont Pos.eqb] in HQ.
    destruct (decide (c = SLASH)) as [->|Hns].
    + rewrite bool_decide_true in HQ by done. rewrite bool_decide_true by done.
      cbn [negb]. do 3 wp_step. apply wp_lift_lift.
      unfold strncat. rewrite buf_cstr_0, scan_cstr_uninit by done. apply HQ.
    + rewrite bool_decide_false in HQ by congruence. rewrite bool_decide_false by done.
      cbn [negb]. wp_step. wp_log. do 3 wp_step.
      pose proof (buf_write_mid (Some <$> explode base) [None] [] [SLASH] eq_refl) as Hw.
      rewrite length_fmap, Heq, Hn, app_nil_r in Hw. rewrite Hw. do 2 wp_step.
      rewrite buf_write_oob; [|rewrite length_app, length_fmap, Heq; cbn; lia].
      wp_steps. rewrite (proj2 (Z.leb_gt _ _)) in HQ by lia. apply HQ.
  - rewrite buf_get_long by lia. destruct (length (explode base) =? S n)%nat eqn:E2.
    + rewrite (proj2 (Z.leb_gt _ _)), (proj2 (Z.eqb_eq _ _)) in HQ by lia. apply HQ.
    + rewrite (proj2 (Z.leb_le _ _)) in HQ by lia. apply HQ.
Qed.

Lemma wp_make_full_url base url Q w :
  log_ready (w_log w) → Z.of_nat (strlen base) ≤ INT_MAX → no_nul (explode base) →
  no_nul (explode url) →
  (∀ o, Q (full_url_result base url) (set_out o w)) →
  wp (make_full_url base (Some url)) Q w.
Proof.
  intros Hlog Hint Hb Hu HQ. destruct (last (explode base)) as [c|] eqn:Hc.
  - assert (1 ≤ strlen base)%nat.
    { unfold strlen. by destruct (explode base); [|cbn; lia]. }
    destruct (decide (Z.of_nat (strlen base) ≤ 2046)).
    + eapply wp_make_full_url_short; [done|lia|done..].
    + eapply wp_make_full_url_long; [done|lia|done..].
  - apply last_None in Hc. assert (base = "") as -> by (apply explode_inj; by rewrite Hc).
    unfold make_full_url. do 4 wp_step. wp_log. do 3 wp_step.
    destruct url_sizes as (n & Hn & -> & ->).
    rewrite strncpy_base by (cbn; lia). do 3 wp_step. apply HQ.
Qed.

(** * The request *)

(** The calls to libcurl for one message. *)
Definition curl_calls (url : list ascii) (msg : option (list ascii)) (w : World) : World :=
  let curl := answer (w_trace w) _ X_curl_easy_init in
  let w1 := called X_curl_easy_init w in
  match curl with
  | None => w1
  | Some _ =>
      called (X_curl_easy_cleanup curl) (called (X_curl_easy_perform curl)
        (called (match msg with
                 | None => X_curl_setopt_customrequest curl "POST"
                 | Some p => X_curl_setopt_postfields curl (cut_nul p)
                 end) (called (X_curl_setopt_url curl url) w1)))
  end.

Lemma wp_rest_post u base url payload Q w :
  log_ready (w_log w) → m2r_webservice_baseurl u = Some base →
  Z.of_nat (strlen base) ≤ INT_MAX → no_nul (explode base) → no_nul (explode url) →
  match full_url_result base url with
  | Ok full => ∀ o r, Q (Ok r) (set_out o (curl_calls full payload w))
  | Crash why => ∀ o, Q (Crash why) (set_out o w)
  | _ => True
  end →
  wp (rest_post u (Some url) payload) Q w.
Proof.
  intros Hlog Hbase Hint Hb Hu HQ. unfold rest_post, deref. rewrite Hbase. do 4 wp_step.
  apply wp_make_full_url; [done..|]. intros o.
  assert (Hcases : (∃ f, full_url_result base url = Ok f)
                   ∨ (∃ why, full_url_result base url = Crash why)).
  { unfold full_url_result. repeat case_match; eauto. }
  destruct Hcases as [[f Hf]|[why Hf]]; rewrite Hf in HQ |- *; [|apply HQ].
  wp_step. wp_step. wp_log. do 3 wp_step. unfold curl_calls in HQ.
  repeat change (w_trace (set_out ?o ?w)) with (w_trace w).
  destruct (answer (w_trace w) _ X_curl_easy_init) as [curl|]; [|wp_steps; apply HQ].
  do 3 wp_step.
  destruct payload as [p|]; wp_go; destruct (_ =? CURLE_OK); cbn [negb]; wp_go; apply HQ.
Qed.

(** * The message callback *)

Lemma ptr_add_suffix bt c suffix :
  ptr_add (bt +:+ String c suffix) (strlen bt + 1) = Some suffix.
Proof.
  unfold ptr_add. rewrite strlen_app, strlen_cons. rewrite (proj2 (Nat.leb_le _ _)) by lia.
  f_equal. apply explode_inj. autorewrite with strs. unfold strlen.
  rewrite drop_app_ge by lia. by replace (_ - _)%nat with 1%nat by lia.
Qed.

Lemma wp_on_mqtt_msg up u bt base url topic msg Q w :
  log_ready (w_log w) → w_heap w !! up = Some (OMqtt2Rest u) →
  m2r_mqtt_topic u = Some bt → m2r_webservice_baseurl u = Some base →
  Z.of_nat (strlen base) ≤ INT_MAX → no_nul (explode base) → no_nul (explode topic) →
  ptr_add topic (strlen bt + 1) = Some url →
  match full_url_result base url with
  | Ok full => ∀ o, Q (Ok tt) (set_out o (curl_calls full msg w))
  | Crash why => ∀ o, Q (Crash why) (set_out o w)
  | _ => True
  end →
  wp (on_mqtt_msg topic msg (Some up)) Q w.
Proof.
  intros Hlog Hup Hbt Hbase Hint Hb Ht Hptr HQ. unfold on_mqtt_msg, deref. wp_go.
  eapply wp_load_mqtt2rest; [exact Hup|]. do 2 wp_step. rewrite Hbt. do 2 wp_step. cbv zeta. rewrite Hptr. wp_step.
  assert (Hu : no_nul (explode url)).
  { unfold ptr_add in Hptr. destruct (_ <=? _)%nat; [|done]. injection Hptr as <-.
    rewrite explode_drop. unfold no_nul in *. intros H. apply Ht.
    apply list_elem_of_lookup in H as [i Hi]. rewrite lookup_drop in Hi.
    by eapply list_elem_of_lookup_2. }
  apply (wp_mono _ (λ o' w', o' = Ok tt ∧ ∃ o, w' = set_out o w)).
  { destruct msg; wp_go; split; try done; by eexists. }
  intros o1 w1 [-> [out ->]]. do 2 wp_step.
  eapply wp_rest_post; [done|exact Hbase|done..|].
  destruct (full_url_result base url) as [full| | |why|]; [|done..|exact HQ|done].
  intros o1 r. wp_steps. unfold curl_calls in *. wsimpl.
  destruct (answer (w_trace w) _ X_curl_easy_init); apply HQ.
Qed.

(** * The thread *)

(** The callbacks libmosquitto may run for a unit on base topic [bt] with base
    URL [base], if it is to survive them. *)
Definition good_cb (bt base : string) (cb : mosq_cb) : Prop :=
  match cb with
  | CB_log level _ => known_level level = true
  | CB_connect _ => True
  | CB_message topic _ => no_nul (explode topic) ∧
      ∃ url full, ptr_add topic (strlen bt + 1) = Some url
                  ∧ full_url_result base url = Ok full
  | CB_subscribe _ granted_qos => granted_qos ≠ []
  | CB_disconnect _ => True
  end.

End unit_.

(** What the thread of one unit relies on: the unit's strings are C strings of
    bounded length, and libmosquitto runs only callbacks it can survive. *)
Record GoodUnit `{EV : Env} (u : Mqtt2RestUnitConfiguration) (m : mosq_ptr)
    (bt base : string) : Prop := {
  gu_topic : m2r_mqtt_topic u = Some bt;
  gu_url : m2r_webservice_baseurl u = Some base;
  gu_topic_nul : no_nul (explode bt);
  gu_url_nul : no_nul (explode base);
  gu_topic_len : (strlen bt < 254)%nat;
  gu_url_len : Z.of_nat (strlen base) ≤ INT_MAX;
  gu_subscribe : ∀ tr t,
    forallb (λ l, known_level l.1) (fst (answer tr _ (X_mosquitto_subscribe m t 2))) = true;
  gu_read : ∀ tr, Forall (good_cb bt base) (fst (answer tr _ (X_mosquitto_loop_read m 1)));
  gu_write : ∀ tr, Forall (good_cb bt base) (fst (answer tr _ (X_mosquitto_loop_write m 1)));
  gu_misc : ∀ tr, Forall (good_cb bt base) (fst (answer tr _ (X_mosquitto_loop_misc m)));
}.

Section thread.
Context `{EV : Env} (u : Mqtt2RestUnitConfiguration) (m : mosq_ptr) (bt base : string).
Context (Hu : GoodUnit u m bt base).
Context (up : positive) (conf : Configuration).

Abbreviation client := (mqtt2rest_client_config u (Some up) conf).
Abbreviation handle b := {| mosq := m; config := client; connected := b |}.

Definition unit_ready (w : World) : Prop :=
  log_ready (w_log w) ∧ w_heap w !! up = Some (OMqtt2Rest u).

Lemma keeps_curl_calls url msg w : keeps w (curl_calls url msg w).
Proof.
  unfold curl_calls. destruct (answer (w_trace w) _ X_curl_easy_init), msg;
    eauto 10 with keeps.
Qed.

(** A good callback returns and changes nothing the program keeps. *)
Lemma wp_good_cb cb w :
  unit_ready w → good_cb bt base cb →
  wp (run_cb m client cb) (λ o w', o = Ok tt ∧ keeps w w') w.
Proof.
  intros [Hlog Hup] Hcb. destruct cb as [level str|result|topic payload|mid qs|rc].
  3: { destruct Hcb as (Ht & url & full & Hptr & Hfull).
    apply (wp_on_mqtt_msg up u bt base url);
      [done..|apply Hu|apply Hu|apply Hu|apply Hu|done|done|].
    rewrite Hfull. intros o. split; [done|]. apply keeps_out, keeps_curl_calls. }
  all: apply wp_plain_cb; [done| |intros tr t; apply Hu|exact Hcb].
  all: intros t Ht; cbn in Ht; rewrite (gu_topic _ _ _ _ Hu) in Ht; injection Ht as <-;
    split; apply Hu.
Qed.

#[local] Instance unit_user : ClientUser m client unit_ready (good_cb bt base).
Proof.
  split; [by intros w []| |apply wp_good_cb|apply Hu..].
  intros w w' [Hlog Hup] Hlg Hh. split; [by rewrite Hlg|]. by apply Hh.
Qed.

Abbreviation advances := (advances m client).
Abbreviation thread_ready := (thread_ready m client unit_ready).

(** What else a pass keeps: an invariant of the callbacks that survives the
    other calls of a pass. *)
Definition pass_call {A} (c : ext A) : bool :=
  match c with
  | X_mosquitto_socket _ | X_mosquitto_want_write _ | X_poll _ _ => true
  | _ => false
  end.

Record PassInv (J : World → Prop) : Prop := {
  pi_proper :: Proper ((≡) ==> iff) J;
  pi_call : ∀ A (c : ext A) w, pass_call c = true → J w → J (called c w);
  pi_loop : LoopInv m client unit_ready J;
}.

(** One pass, up to [poll]. *)
Lemma wp_before_poll J l w :
  PassInv J → thread_ready l w → J w →
  wp (mqtt2rest_before_poll (Some l)) (λ o w', ∃ fds,
    o = Ok (Some fds) ∧ keeps w w' ∧ J w') w.
Proof.
  intros HJ [Huw [b Hb]] HJw. pose proof (pi_proper _ HJ) as HP.
  pose proof (proj1 Huw) as Hlog. unfold mqtt2rest_before_poll.
  eapply wp_check_connection; [exact Hb|wp_go; by eauto|]. intros out.
  unfold mqtt_client_get_pollfds. wp_steps.
  eapply wp_load_handle; [exact Hb|]. wp_steps. cbn [mosq]. eexists. split_and!; [done|auto 6 with keeps|].
  do 2 (apply (pi_call _ HJ); [done|]). by rewrite set_out_equiv.
Qed.

(** And from there on: it stops exactly when [poll] failed. *)
Lemma wp_after_poll J l r w :
  PassInv J → thread_ready l w → J w →
  wp (mqtt2rest_after_poll (Some l) r) (λ o w',
    o = Ok (pr_ret r <? 0) ∧ advances l w w' ∧ J w') w.
Proof.
  intros HJ Hw HJw. pose proof (proj1 (proj1 Hw)) as Hlog. pose proof (pi_proper _ HJ) as HP.
  unfold mqtt2rest_after_poll. destruct (pr_ret r <? 0) eqn:Er.
  - destruct (negb (pr_errno r =? EINTR)); wp_go; (split_and!; [done|..]);
      first [by eapply keeps_advances; [exact Hw|]; auto with keeps|by rewrite ?set_out_equiv].
  - wp_step. eapply wp_mono.
    { apply (wp_good_client_loop m client unit_ready (good_cb bt base) J);
        [apply HJ|exact Hw|exact HJw]. }
    intros o w' (-> & Ha & HJ'). wp_steps. by split_and!.
Qed.

(** One pass: it stops exactly when [poll] fails. *)
Lemma wp_pass J l timeout w :
  PassInv J → thread_ready l w → J w →
  wp (mqtt2rest_pass (Some l) timeout) (λ o w', ∃ tr fds stop,
    o = Ok stop ∧ advances l w w' ∧ J w' ∧ (length (w_trace w) < length (w_trace w'))%nat
    ∧ (length (w_trace w) ≤ length tr)%nat
    ∧ stop = (pr_ret (answer tr _ (X_poll fds timeout)) <? 0)) w.
Proof.
  intros HJ Hw HJw. unfold mqtt2rest_pass. wp_step.
  eapply wp_mono; [by apply (wp_before_poll J)|]. intros o w1 (fds & -> & Hk & HJ1). do 2 wp_step.
  set (r := answer (w_trace w1) poll_result (X_poll fds timeout)). wp_steps.
  set (w2 := called (X_poll fds timeout) w1).
  assert (Hk2 : keeps w w2) by (etrans; [exact Hk|]; unfold w2; auto with keeps).
  pose proof (thread_ready_keeps _ _ _ Hw Hk2) as Hw2.
  eapply wp_mono; [apply (wp_after_poll J); [done|exact Hw2|by apply (pi_call _ HJ)]|].
  intros o w3 (-> & Ha & HJ3). destruct Hk as [_ _ [evs1 Ht1]].
  exists (w_trace w1), fds, (pr_ret r <? 0). split_and!.
  - done.
  - eapply advances_trans; [|exact Ha]. by eapply keeps_advances.
  - done.
  - destruct Ha as [_ _ [evs ->]]. rewrite length_app. unfold w2. cbn. rewrite Ht1, length_app. lia.
  - rewrite Ht1, length_app. lia.
  - done.
Qed.

(** The loop never fails: it goes on, or ends normally; and it has ended when
    [poll] fails from the [N]-th call on. *)
Lemma wp_loop J l timeout N fuel w :
  PassInv J → thread_ready l w → J w →
  wp (mqtt2rest_loop fuel (Some l) timeout) (λ o w',
    advances l w w' ∧ J w' ∧ (o = Ok tt ∨ o = OutOfFuel)
    ∧ ((∀ tr fds, (N ≤ length tr)%nat → pr_ret (answer tr _ (X_poll fds timeout)) < 0) →
       (N < fuel + length (w_trace w))%nat → (0 < fuel)%nat → o = Ok tt)) w.
Proof.
  intros HJ. revert w. induction fuel as [|fuel IH]; intros w Hw HJw; cbn [mqtt2rest_loop].
  { wp_steps. split_and!; [by eapply keeps_advances|done|by right|lia]. }
  wp_step. eapply wp_mono; [by apply (wp_pass J)|].
  intros o w1 (tr & fds & stop & -> & Ha & HJ1 & Hlen & Htr & Hstop). wp_step.
  destruct stop.
  - wp_steps. split_and!; [done|done|by left|done].
  - eapply wp_mono; [apply IH; [by eapply (advances_ready (good := good_cb bt base))|done]|].
    intros o w2 (Ha2 & HJ2 & Ho & Hend). split_and!; [by eapply advances_trans|done|done|].
    intros Hpoll HN _. destruct fuel as [|fuel].
    + specialize (Hpoll tr fds ltac:(lia)). lia.
    + apply Hend; [done|lia|lia].
Qed.

Lemma pass_inv_True : PassInv (λ _, True).
Proof. split; [by intros ???|done|apply loop_inv_True]. Qed.

(** * The whole thread *)

(** The start, with any invariant of setting up the client. *)
Lemma wp_unit_start I cp timeout w :
  GoodBroker m client → unit_ready w →
  m2r_common_configuration u = Some cp → w_heap w !! cp = Some (OConfiguration conf) →
  poll_timeout (mqtt_keepalive conf) = Ok timeout →
  (∀ out, I (set_out out w)) →
  preserves I (mqtt_client_init client) → (∀ h, preserves I (mqtt_client_connect h)) →
  wp (mqtt2rest_start (Some up)) (λ o w', ∃ l b,
    o = Ok (Some (Some l, timeout)) ∧ w_heap w !! l = None ∧ w_log w' = w_log w ∧ I w'
    ∧ w_heap w' = <[l := OHandle (handle b)]> (w_heap w) ∧ thread_ready l w') w.
Proof.
  intros Hbr Hw Hcp Hconf Htime HI Hinit Hcon. pose proof Hw as [Hlog Hup]. unfold mqtt2rest_start.
  wp_go. eapply wp_load_mqtt2rest; [exact Hup|]. wp_go. rewrite Hcp. wp_go.
  eapply wp_load_configuration; [exact Hconf|]. do 2 wp_step.
  eapply (wp_client_setup m client unit_ready (good_cb bt base) I);
    [done|done|apply HI|done|done|reflexivity|].
  intros l b w2 Hl Hlg2 HI2 _ Hh2 Hready. cbv beta. do 2 wp_step. rewrite Htime. wp_steps.
  exists l, b. by split_and!.
Qed.

Lemma wp_unit_end w :
  unit_ready w → wp (mqtt2rest_end (Some up)) (λ o w', o = Ok tt ∧ ∃ out, w' = set_out out w) w.
Proof.
  intros [Hlog Hup]. unfold mqtt2rest_end. wp_steps. eapply wp_load_mqtt2rest; [exact Hup|].
  wp_go. by eauto.
Qed.

Lemma wp_unit_run N fuel cp timeout w :
  GoodBroker m client → unit_ready w →
  m2r_common_configuration u = Some cp → w_heap w !! cp = Some (OConfiguration conf) →
  poll_timeout (mqtt_keepalive conf) = Ok timeout →
  wp (mqtt2rest_unit_run fuel (Some up)) (λ o w', ∃ l b,
    w_heap w !! l = None ∧ w_heap w' = <[l := OHandle (handle b)]> (w_heap w)
    ∧ w_log w' = w_log w ∧ (o = Ok tt ∨ o = OutOfFuel)
    ∧ ((∀ tr fds, (N ≤ length tr)%nat → pr_ret (answer tr _ (X_poll fds timeout)) < 0) →
       (N < fuel)%nat → o = Ok tt)) w.
Proof.
  intros Hbr Hw Hcp Hconf Htime. unfold mqtt2rest_unit_run. wp_step.
  eapply wp_mono; [by apply (wp_unit_start (λ _, True) cp timeout)|].
  intros o w2 (l & b & -> & Hl & Hlg2 & _ & Hh2 & Hready). do 2 wp_step.
  eapply wp_mono; [by apply (wp_loop (λ _, True) l timeout N fuel); [apply pass_inv_True|..]|].
  intros ret w3 (Ha & _ & Ho & Hend).
  pose proof (advances_ready _ _ _ Hready Ha) as [Hready3 _]. destruct Ha as [Hlg3 [b3 Hh3] _].
  rewrite Hh2, insert_insert_eq in Hh3.
  assert (Hlg : w_log w3 = w_log w) by (by rewrite Hlg3, Hlg2).
  destruct Ho as [-> | ->].
  - wp_step. eapply wp_mono; [by apply wp_unit_end|]. intros o w4 [-> [out ->]].
    exists l, b3. by split_and!; [..|left|].
  - wp_step. exists l, b3. split_and!; [done..|by right|].
    intros Hp HN. specialize (Hend Hp ltac:(lia) ltac:(lia)). done.
Qed.

End thread.
(** * What the callbacks leave alone

    An invariant that survives the calls the callbacks make, and does not speak
    of what is printed, survives every callback. *)
Definition callback_call {A} (c : ext A) : bool :=
  match c with
  | X_curl_easy_init | X_curl_setopt_url _ _ | X_curl_setopt_customrequest _ _
  | X_curl_setopt_postfields _ _ | X_curl_easy_perform _ | X_curl_easy_cleanup _
  | X_mosquitto_subscribe _ _ _ => true
  | _ => false
  end.

Class CallbackInv `{EV : Env} (I : World → Prop) : Prop := {
  ci_proper :: Proper ((≡) ==> iff) I;
  ci_call : ∀ A (c : ext A), callback_call c = true → preserves I (call c);
}.

Section callbacks.
Context `{EV : Env} (I : World → Prop) `{CI : !CallbackInv I}.

Hint Resolve ci_call : pres.
Hint Extern 0 (_ = true) => reflexivity : pres.

Lemma pres_make_full_url base url : preserves I (make_full_url base url).
Proof. unfold make_full_url. pres. Qed.
Hint Resolve pres_make_full_url : pres.

Lemma pres_rest_post u url payload : preserves I (rest_post u url payload).
Proof. unfold rest_post. pres. Qed.
Hint Resolve pres_rest_post : pres.

Lemma pres_on_mqtt_msg topic msg ctx : preserves I (on_mqtt_msg topic msg ctx).
Proof. unfold on_mqtt_msg. pres. Qed.
Hint Resolve pres_on_mqtt_msg : pres.

Lemma pres_run_cb m config cb : preserves I (run_cb m config cb).
Proof.
  destruct cb; cbn [run_cb];
    unfold mqtt_cb_log, mqtt_cb_connect, mqtt_cb_msg, mqtt_cb_subscribe, mqtt_cb_disconnect,
      handle_msg, mqtt2rest_handler; pres.
  all: unfold mqtt_cb_log; pres.
Qed.
Hint Resolve pres_run_cb : pres.

Lemma pres_mosq_call h c : preserves I (call c) → preserves I (mosq_call h c).
Proof. intros Hc. unfold mosq_call. pres. Qed.

End callbacks.

(** * A lost connection *)
Section lost.
Context `{EV : Env} (l : positive).

Definition is_connect {A} (c : ext A) : bool :=
  match c with X_mosquitto_connect _ _ _ _ => true | _ => false end.

(** The connections attempted so far. *)
Fixpoint connects (tr : list event) : nat :=
  match tr with
  | [] => 0%nat
  | Ev c _ :: tr' => ((if is_connect c then 1 else 0) + connects tr')%nat
  end.

(** The client at [l] is not connected, and [n] connections were attempted. *)
Definition disconnected (n : nat) (w : World) : Prop :=
  (∀ h, w_heap w !! l = Some (OHandle h) → connected h = false) ∧ connects (w_trace w) = n.

#[export] Instance disconnected_proper n : Proper ((≡) ==> iff) (disconnected n).
Proof.
  intros w1 w2 H. unfold disconnected.
  by rewrite (w_heap_proper _ _ H), (w_trace_proper _ _ H).
Qed.

Context (n : nat).

Lemma pres_other_call {A} (c : ext A) :
  is_connect c = false → preserves (disconnected n) (call c).
Proof.
  intros Hc. apply pres_call. intros w [Hh Ht]. split; [exact Hh|].
  cbn [called set_trace w_trace connects]. by rewrite Hc.
Qed.

#[export] Instance disconnected_inv : CallbackInv (disconnected n).
Proof. split; [apply _|]. intros A c Hc. apply pres_other_call. by destruct c. Qed.

Lemma pres_store_handle p h :
  connected h = false → preserves (disconnected n) (store p (OHandle h)).
Proof.
  intros Hc. destruct p as [l'|]; [|apply pres_crash]. apply pres_get_bind. intros w [Hh Ht].
  destruct (w_heap w !! l') eqn:E; [|done]. split; [|exact Ht]. cbn.
  intros h'. destruct (decide (l' = l)) as [->|].
  - rewrite lookup_insert_eq. by intros [= <-].
  - rewrite lookup_insert_ne by done. apply Hh.
Qed.

Lemma pres_mosq_other h c : is_connect c = false → preserves (disconnected n) (mosq_call h c).
Proof. intros Hc. apply pres_mosq_call; [apply _|]. by apply pres_other_call. Qed.

Hint Resolve pres_other_call pres_store_handle pres_mosq_other : pres.
Hint Extern 0 (_ = false) => reflexivity : pres.

Lemma pres_pass timeout p : preserves (disconnected n) (mqtt2rest_pass p timeout).
Proof.
  unfold mqtt2rest_pass, mqtt2rest_before_poll, mqtt2rest_after_poll, mqtt_client_connected, mqtt_client_reconnect, mqtt_client_get_pollfds,
    mqtt_client_loop, set_connected. pres.
Qed.

Lemma pres_loop fuel timeout p : preserves (disconnected n) (mqtt2rest_loop fuel p timeout).
Proof.
  induction fuel as [|fuel IH]; cbn [mqtt2rest_loop]; [apply pres_lift|].
  pose proof pres_pass. pres. all: auto.
Qed.

End lost.

(** * Properties *)
Section properties.
Context `{EV : Env}.

(** C19: Building the URL, on every input. A base of 1 to 2046 characters is
    joined with the relative URL by exactly one '/'; with a base that ends in
    '/' the URL is cut to the buffer, without one it overflows the buffer by
    up to its whole excess, since the bound given to [strncat] forgets the
    added '/'. An empty base is read at index -1, and a base of 2047 characters
    or more leaves the buffer unterminated. *)
Theorem make_full_url_spec base url w :
  log_ready (w_log w) → Z.of_nat (strlen base) ≤ INT_MAX → no_nul (explode base) →
  no_nul (explode url) →
  wp (make_full_url base (Some url)) (λ o w', o = full_url_result base url ∧ w' ≡ w) w.
Proof. intros ????. by apply wp_make_full_url. Qed.

(** C11: A message on base topic / rest (any one separating character is
    dropped) is posted to base URL / rest: its payload up to the first NUL goes
    into the POST fields, a message without payload becomes a POST without
    fields, and nothing but calls to libcurl happens. *)
Theorem on_mqtt_msg_posts up u bt c rest base full topic msg w :
  log_ready (w_log w) → w_heap w !! up = Some (OMqtt2Rest u) →
  m2r_mqtt_topic u = Some bt → m2r_webservice_baseurl u = Some base →
  Z.of_nat (strlen base) ≤ INT_MAX → no_nul (explode base) → no_nul (explode topic) →
  topic = bt +:+ String c rest → full_url_result base rest = Ok full →
  wp (on_mqtt_msg topic msg (Some up)) (λ o w', o = Ok tt ∧ w' ≡ curl_calls full msg w) w.
Proof.
  intros Hlog Hup Hbt Hbase Hint Hb Ht -> Hfull.
  eapply wp_on_mqtt_msg; [done..|apply ptr_add_suffix|]. rewrite Hfull. done.
Qed.

(** A message on the base topic itself, which the subscription "topic/#"
    includes, makes the unit read behind the topic string. *)
Lemma base_topic_out_of_bounds up u bt base msg w :
  log_ready (w_log w) → w_heap w !! up = Some (OMqtt2Rest u) →
  m2r_mqtt_topic u = Some bt → m2r_webservice_baseurl u = Some base →
  wp (on_mqtt_msg bt msg (Some up)) (λ o w', o = Crash OutOfBounds ∧ w' ≡ w) w.
Proof.
  intros Hlog Hup Hbt Hbase. unfold on_mqtt_msg, deref. wp_go.
  eapply wp_load_mqtt2rest; [exact Hup|]. do 2 wp_step. rewrite Hbt. do 2 wp_step. cbv zeta.
  unfold ptr_add. rewrite (proj2 (Nat.leb_gt _ _)) by lia. wp_step.
  apply (wp_mono _ (λ o' w', o' = Ok tt ∧ ∃ o, w' = set_out o w)).
  { destruct msg; wp_go; split; try done; by eexists. }
  intros o1 w1 [-> [out ->]]. unfold rest_post, make_full_url, deref. rewrite Hbase. by wp_go.
Qed.

(** The poll timeout, half the keepalive in milliseconds, is computed in
    [int]: it is defined exactly for a keepalive of at most 4294967 seconds
    (either sign), and then it is the number meant. *)
Lemma poll_timeout_bounds keepalive :
  poll_timeout keepalive
  = if bool_decide (-4294967 ≤ keepalive ≤ 4294967) then Ok (Z.quot keepalive 2 * 1000)
    else Crash SignedOverflow.
Proof.
  unfold poll_timeout, int_mul, in_int, INT_MIN, INT_MAX.
  repeat case_bool_decide; try done; Z.to_euclidean_division_equations; lia.
Qed.

(** C10: The loop of a unit thread never fails, whatever the broker, libcurl and
    the operating system answer, while libmosquitto runs only callbacks the
    unit can survive ([GoodUnit]); it leaves everything but the flag of its
    handle as it is; and it ends as soon as [poll] fails for good, as it does
    when the thread is signalled inside it. *)
Theorem mqtt2rest_loop_safe_and_ends u m bt base up conf l timeout N fuel w :
  GoodUnit u m bt base → thread_ready m (mqtt2rest_client_config u (Some up) conf) (unit_ready u up) l w →
  wp (mqtt2rest_loop fuel (Some l) timeout) (λ o w',
    advances m (mqtt2rest_client_config u (Some up) conf) l w w' ∧ (o = Ok tt ∨ o = OutOfFuel)
    ∧ ((∀ tr fds, (N ≤ length tr)%nat → pr_ret (answer tr _ (X_poll fds timeout)) < 0) →
       (N < fuel)%nat → o = Ok tt)) w.
Proof.
  intros Hu Hw. eapply wp_mono; [by eapply (wp_loop u m bt base Hu up conf (λ _, True) l timeout N);
    [apply pass_inv_True|..]|].
  intros o w' (Ha & _ & Ho & Hend). split_and!; [done..|]. intros Hp HN. apply Hend; [done|lia|lia].
Qed.

(** C22: A lost connection is never restored: from a state in which the client is
    not connected, whatever the libraries answer and however the loop ends, the
    client stays disconnected and no further connection is attempted. *)
Theorem lost_connection_stays_lost l fuel timeout w :
  (∀ h, w_heap w !! l = Some (OHandle h) → connected h = false) →
  let w' := snd (mqtt2rest_loop fuel (Some l) timeout w) in
  (∀ h, w_heap w' !! l = Some (OHandle h) → connected h = false)
  ∧ connects (w_trace w') = connects (w_trace w).
Proof. intros Hw. by apply (pres_loop l (connects (w_trace w)) fuel timeout (Some l) w). Qed.

(** C20: The whole thread, from its configuration to its exit after the signal:
    it sets up a client for the unit's topic and the common broker options,
    runs until [poll] fails, returns, and leaves the client's handle allocated
    ([mqtt_client_destroy] is not called, unlike in the other direction). *)
Theorem mqtt2rest_unit_run_leaks u m bt base up conf cp timeout N fuel w :
  GoodUnit u m bt base → GoodBroker m (mqtt2rest_client_config u (Some up) conf) → log_ready (w_log w) →
  w_heap w !! up = Some (OMqtt2Rest u) →
  m2r_common_configuration u = Some cp → w_heap w !! cp = Some (OConfiguration conf) →
  poll_timeout (mqtt_keepalive conf) = Ok timeout →
  (∀ tr fds, (N ≤ length tr)%nat → pr_ret (answer tr _ (X_poll fds timeout)) < 0) →
  (N < fuel)%nat →
  wp (mqtt2rest_unit_run fuel (Some up)) (λ o w', o = Ok tt ∧ ∃ l b,
    w_heap w !! l = None
    ∧ w_heap w' = <[l := OHandle {| mosq := m; connected := b;
                         config := mqtt2rest_client_config u (Some up) conf |}]> (w_heap w)) w.
Proof.
  intros Hu Hbr Hlog Hup Hcp Hconf Htime Hp HN.
  eapply wp_mono; [by eapply (wp_unit_run u m bt base Hu up conf N)|].
  intros o w' (l & b & Hl & Hh & _ & _ & Hend). split; [by apply Hend|by exists l, b].
Qed.

End properties.

(** ** Witnesses *)
Import Demo.

Definition demo_conf : Configuration := {|
  appname := None; logtarget := None; cf_logfile := None; logfacility := None;
  cf_loglevel := None; mqtt_broker_host := Some "localhost"; mqtt_broker_port := 1883;
  mqtt_keepalive := 30; mqtt_tls := false; mqtt_cafile := None; mqtt_capath := None;
  mqtt_certfile := None; mqtt_keyfile := None; mqtt_user_pw := false; mqtt_user := None;
  mqtt_pw := None |}.

Definition demo_unit : Mqtt2RestUnitConfiguration := {|
  m2r_unit_name := Some "unit1"; m2r_enabled := true;
  m2r_webservice_baseurl := Some "http://h/api"; m2r_mqtt_topic := Some "unit1";
  m2r_common_configuration := Some 3%positive |}.

Definition demo_unit_heap : gmap positive obj :=
  {[ 2%positive := OMqtt2Rest demo_unit; 3%positive := OConfiguration demo_conf ]}.

Definition unit_handle : MqttClientHandle :=
  {| mosq := 1%positive; connected := true;
     config := mqtt2rest_client_config demo_unit (Some 2%positive) demo_conf |}.

Definition demo_thread_heap : gmap positive obj :=
  <[1%positive := OHandle unit_handle]> demo_unit_heap.

(** A broker that delivers one message in every read, and a [poll] that is
    interrupted once 20 calls have been made. *)
Definition deliver : list event → ∀ A, ext A → A := λ tr A c,
  match c in ext A return A with
  | X_mosquitto_loop_read _ _ => ([CB_message "unit1/t" (Some (explode "21"))], 0)
  | X_poll _ _ => if (20 <=? length tr)%nat then poll_interrupted
                  else {| pr_ret := 1; pr_errno := 0; pr_revents := [1] |}
  | c => answer_ok _ c
  end.

Lemma demo_good_unit : GoodUnit (EV := demo_env 8 deliver) demo_unit 1%positive "unit1" "http://h/api".
Proof.
  split; try reflexivity; try (apply (bool_decide_unpack _); vm_compute; exact I);
    try (vm_compute; lia); intros tr; repeat constructor.
  - apply (bool_decide_unpack _). vm_compute. exact I.
  - exists "t", (explode "http://h/api/t"). split; vm_compute; reflexivity.
Defined.

Lemma demo_good_broker :
  GoodBroker (EV := demo_env 8 deliver) 1%positive
    (mqtt2rest_client_config demo_unit (Some 2%positive) demo_conf).
Proof. split; try discriminate; intros tr; reflexivity. Defined.

Lemma console_ready h : log_ready (w_log (world_of console_log h)).
Proof. split; [by right|cbn; lia]. Defined.

Lemma make_full_url_spec_witness :
  let EV := demo_env 8 all_ok in
  wp (make_full_url "http://h/api" (Some "t/1")) (λ o w',
    o = Ok (explode "http://h/api/t/1") ∧ w' ≡ demo_world) demo_world.
Proof.
  intros EV. eapply wp_mono.
  - apply (make_full_url_spec "http://h/api" "t/1" demo_world); [apply console_ready|vm_compute; discriminate|..];
      apply (bool_decide_unpack _); vm_compute; exact I.
  - intros o w' [-> Hw]. split; [vm_compute; reflexivity|exact Hw].
Defined.

Lemma on_mqtt_msg_posts_witness :
  let EV := demo_env 8 all_ok in
  let w := world_of console_log demo_unit_heap in
  wp (on_mqtt_msg "unit1/t" (Some (explode "21")) (Some 2%positive)) (λ o w',
    o = Ok tt ∧ w' ≡ curl_calls (explode "http://h/api/t") (Some (explode "21")) w) w.
Proof.
  intros EV w.
  apply (on_mqtt_msg_posts 2%positive demo_unit "unit1" "/"%char "t" "http://h/api");
    [apply console_ready|vm_compute; reflexivity|reflexivity|reflexivity|vm_compute; discriminate
    |apply (bool_decide_unpack _); vm_compute; exact I
    |apply (bool_decide_unpack _); vm_compute; exact I|reflexivity|vm_compute; reflexivity].
Defined.

Lemma base_topic_out_of_bounds_witness :
  let EV := demo_env 8 all_ok in
  let w := world_of console_log demo_unit_heap in
  wp (on_mqtt_msg "unit1" (Some (explode "21")) (Some 2%positive)) (λ o w',
    o = Crash OutOfBounds ∧ w' ≡ w) w.
Proof.
  intros EV w.
  apply (base_topic_out_of_bounds 2%positive demo_unit "unit1" "http://h/api");
    [apply console_ready|vm_compute; reflexivity|reflexivity|reflexivity].
Defined.

Lemma demo_poll_fails : let EV := demo_env 8 deliver in
  ∀ tr fds t, (20 ≤ length tr)%nat → pr_ret (answer tr _ (X_poll fds t)) < 0.
Proof.
  intros EV tr fds t H.
  change (pr_ret (if (20 <=? length tr)%nat then poll_interrupted
                  else {| pr_ret := 1; pr_errno := 0; pr_revents := [1] |}) < 0).
  rewrite (proj2 (Nat.leb_le _ _)) by done. reflexivity.
Defined.

Lemma mqtt2rest_loop_safe_and_ends_witness :
  let EV := demo_env 8 deliver in
  let w := world_of console_log demo_thread_heap in
  wp (mqtt2rest_loop 30 (Some 1%positive) 15000) (λ o w', o = Ok tt) w.
Proof.
  intros EV w. eapply wp_mono.
  - apply (mqtt2rest_loop_safe_and_ends demo_unit 1%positive "unit1" "http://h/api" 2%positive
             demo_conf 1%positive 15000 20); [apply demo_good_unit|].
    split; [split; [apply console_ready|vm_compute; reflexivity]|].
    exists true. vm_compute. reflexivity.
  - intros o w' (_ & _ & H). apply H; [|lia]. intros tr fds. apply demo_poll_fails.
Defined.

Lemma lost_connection_stays_lost_witness :
  let EV := demo_env 8 deliver in
  let w := world_of console_log (<[1%positive := OHandle (with_connected false unit_handle)]>
                                   demo_unit_heap) in
  let w' := snd (mqtt2rest_loop 5 (Some 1%positive) 15000 w) in
  (∀ h, w_heap w' !! 1%positive = Some (OHandle h) → connected h = false)
  ∧ connects (w_trace w') = 0%nat.
Proof.
  intros EV w w'.
  apply (lost_connection_stays_lost 1%positive 5 15000 w). intros h [= <-]. reflexivity.
Defined.

Lemma mqtt2rest_unit_run_leaks_witness :
  let EV := demo_env 8 deliver in
  let w := world_of console_log demo_unit_heap in
  wp (mqtt2rest_unit_run 30 (Some 2%positive)) (λ o w', o = Ok tt ∧ ∃ l b,
    w_heap w !! l = None
    ∧ w_heap w' = <[l := OHandle (with_connected b unit_handle)]> demo_unit_heap) w.
Proof.
  intros EV w.
  apply (mqtt2rest_unit_run_leaks demo_unit 1%positive "unit1" "http://h/api" 2%positive
           demo_conf 3%positive 15000 20);
    [apply demo_good_unit|apply demo_good_broker|apply console_ready|vm_compute; reflexivity
    |reflexivity|vm_compute; reflexivity|vm_compute; reflexivity| |lia].
  intros tr fds. apply demo_poll_fails.
Defined.

End Mqtt2Rest.
