(* ===== verification/Messages.v ===== *)
(** The messages of a whole run of [src/mqtt2rest_unit.c]: what libmosquitto
    delivers to a thread's client, and the requests the thread makes of it. *)
From Stdlib Require Import ZArith Lia ZifyBool Ascii String List.
From stdpp Require Import base numbers list strings gmap.
From S2P Require Import Prelude.
From S2P Require Import CLib.
From S2P Require Import Types.
From S2P Require Import World.
From S2P Require Import Demo.
From S2P Require Import Logging.
From S2P Require Import MqttClient.
From S2P Require Import Mqtt2Rest.
Import Logging MqttClient Mqtt2Rest.

Module Messages.

(** * Messages in, requests out *)

Abbreviation message := (string * option (list ascii))%type.
(** A POST: its URL, and the fields or none. *)
Abbreviation post := (list ascii * option (list ascii))%type.

Definition message_of (cb : mosq_cb) : option message :=
  match cb with CB_message topic payload => Some (topic, payload) | _ => None end.

(** Which clients are those of MQTT to REST units: the unit's topic and URL. *)
Abbreviation clientele := (mosq_ptr → option (string * string)).

(** What a call into libmosquitto delivers to these clients. *)
Definition incoming (home : clientele) {A} (c : ext A) : A → list (mosq_ptr * message) :=
  match c in ext A return A → list (mosq_ptr * message) with
  | X_mosquitto_connect m _ _ _ | X_mosquitto_publish m _ _ _ _ _
  | X_mosquitto_loop_write m _ | X_mosquitto_loop_read m _ | X_mosquitto_loop_misc m =>
      λ r, match home m with Some _ => pair m <$> omap message_of r.1 | None => [] end
  | _ => λ _, []
  end.

(** The messages delivered so far, latest first. *)
Fixpoint messages (home : clientele) (tr : list event) : list (mosq_ptr * message) :=
  match tr with
  | [] => []
  | Ev c r :: tr' => reverse (incoming home c r) ++ messages home tr'
  end.

(** The options last given to the handle [curl] of libcurl. *)
Fixpoint last_url (curl : ptr) (tr : list event) : list ascii :=
  match tr with
  | [] => []
  | Ev c _ :: tr' =>
      match c with
      | X_curl_setopt_url p url => if bool_decide (p = curl) then url else last_url curl tr'
      | _ => last_url curl tr'
      end
  end.

Definition new_handle {A} (c : ext A) : A → ptr :=
  match c in ext A return A → ptr with X_curl_easy_init => λ r, r | _ => λ _, None end.

Fixpoint last_fields (curl : ptr) (tr : list event) : option (list ascii) :=
  match tr with
  | [] => None
  | Ev c r :: tr' =>
      match c with
      | X_curl_setopt_postfields p fields =>
          if bool_decide (p = curl) then Some fields else last_fields curl tr'
      | _ => if bool_decide (new_handle c r = curl) then None else last_fields curl tr'
      end
  end.

(** The requests performed so far, latest first. *)
Fixpoint posts (tr : list event) : list post :=
  match tr with
  | [] => []
  | Ev c _ :: tr' =>
      match c with
      | X_curl_easy_perform curl => (last_url curl tr', last_fields curl tr') :: posts tr'
      | _ => posts tr'
      end
  end.

(** The request a message asks for: base topic / rest goes to base URL / rest of
    the unit whose client it came to, with the payload up to its first NUL. *)
Definition asks_for (home : clientele) (d : mosq_ptr * message) (p : post) : Prop :=
  ∃ bt base url full, home d.1 = Some (bt, base) ∧ ptr_add d.2.1 (strlen bt + 1) = Some url
    ∧ full_url_result base url = Ok full ∧ p = (full, cut_nul <$> d.2.2).

(** Every message has been posted, in order, and nothing else. *)
Definition posted (home : clientele) (w : World) : Prop :=
  Forall2 (asks_for home) (messages home (w_trace w)) (posts (w_trace w)).

#[export] Instance posted_proper home : Proper ((≡) ==> iff) (posted home).
Proof. intros w1 w2 H. unfold posted. by rewrite (w_trace_proper _ _ H). Qed.

(** Calls that neither deliver a message nor make a request. *)
Definition no_traffic {A} (c : ext A) : bool :=
  match c with
  | X_curl_easy_perform _ | X_mosquitto_connect _ _ _ _ | X_mosquitto_publish _ _ _ _ _ _
  | X_mosquitto_loop_write _ _ | X_mosquitto_loop_read _ _ | X_mosquitto_loop_misc _ => false
  | _ => true
  end.

(** A callback that is no message, or whose client takes none, does no more
    than print and subscribe. *)
Lemma pres_quiet_cb `{EV : Env} I `{!Proper ((≡) ==> iff) I} m config cb :
  (∀ t q, preserves I (call (X_mosquitto_subscribe m t q))) →
  message_of cb = None ∨ msg_callback_ptr config = None →
  preserves I (run_cb m config cb).
Proof.
  intros Hcall Hcb. destruct cb; cbn [run_cb].
  3: { destruct Hcb as [|Hcb]; [done|]. unfold mqtt_cb_msg. rewrite Hcb. apply pres_ret. }
  all: unfold mqtt_cb_log, mqtt_cb_connect, mqtt_cb_subscribe, mqtt_cb_disconnect; pres;
    try apply Hcall.
  all: unfold mqtt_cb_log; pres.
Qed.

Section traffic.
Context `{EV : Env} (home : clientele).

(** [w'] has seen the messages and made the requests given, after [w]. *)
Definition traffic (w : World) (ms : list (mosq_ptr * message)) (ps : list post) (w' : World) : Prop :=
  messages home (w_trace w') = reverse ms ++ messages home (w_trace w)
  ∧ posts (w_trace w') = reverse ps ++ posts (w_trace w).

#[export] Instance traffic_proper w ms ps : Proper ((≡) ==> iff) (traffic w ms ps).
Proof. intros w1 w2 H. unfold traffic. by rewrite (w_trace_proper _ _ H). Qed.

Lemma traffic_called {A} (c : ext A) w ms ps w' :
  no_traffic c = true → traffic w ms ps w' → traffic w ms ps (called c w').
Proof. intros Hc [Hm Hp]. split; destruct c; try done; cbn; by rewrite ?app_nil_l. Qed.

Lemma traffic_trans w1 w2 w3 ms1 ps1 ms2 ps2 :
  traffic w1 ms1 ps1 w2 → traffic w2 ms2 ps2 w3 → traffic w1 (ms1 ++ ms2) (ps1 ++ ps2) w3.
Proof.
  intros [Hm1 Hp1] [Hm2 Hp2]. unfold traffic.
  by rewrite Hm2, Hm1, Hp2, Hp1, !reverse_app, !app_assoc.
Qed.

Lemma posted_traffic w ms ps w' :
  posted home w → traffic w ms ps w' → Forall2 (asks_for home) ms ps →
  posted home w'.
Proof.
  intros Hw [Hm Hp] Hmp. unfold posted. rewrite Hm, Hp. apply Forall2_app; [|done].
  by apply Forall2_reverse.
Qed.

(** libcurl makes one request of a message. *)
Lemma traffic_curl full msg w :
  is_Some (answer (w_trace w) _ X_curl_easy_init) →
  traffic w [] [(full, cut_nul <$> msg)] (curl_calls full msg w).
Proof.
  intros [curl Hc]. unfold curl_calls. rewrite Hc.
  split; destruct msg; cbn; rewrite ?Hc, ?bool_decide_true by done; done.
Qed.

(** A callback other than a message makes no request. *)
Lemma pres_plain_cb w0 ms ps m config cb :
  message_of cb = None → preserves (traffic w0 ms ps) (run_cb m config cb).
Proof.
  intros Hcb. apply pres_quiet_cb; [apply _| |by left].
  intros t q. apply pres_call. intros w. by apply traffic_called.
Qed.

Lemma traffic_refl w : traffic w [] [] w.
Proof. by split. Qed.

Lemma posted_called {A} (c : ext A) w :
  no_traffic c = true → posted home w → posted home (called c w).
Proof.
  intros Hc Hp. apply (posted_traffic w [] []); [exact Hp| |constructor].
  by apply traffic_called; [|apply traffic_refl].
Qed.

Lemma pres_posted_call {A} (c : ext A) :
  no_traffic c = true → preserves (posted home) (call c).
Proof. intros Hc. apply pres_call. intros w. by apply posted_called. Qed.

Lemma pres_posted_cb m config cb :
  message_of cb = None → preserves (posted home) (run_cb m config cb).
Proof.
  intros Hcb w Hp. apply (posted_traffic w [] []); [exact Hp| |constructor].
  by apply (pres_plain_cb w [] []), traffic_refl.
Qed.

(** ** Setting up a client

    [mosquitto_connect] delivers no message: that is done by the loop
    functions. *)
Definition connects_quietly : Prop := ∀ tr m host port keepalive,
  omap message_of (fst (answer tr _ (X_mosquitto_connect m host port keepalive))) = [].

Lemma pres_plain_cbs m config cbs :
  omap message_of cbs = [] → preserves (posted home) (for_each cbs (run_cb m config)).
Proof.
  induction cbs as [|cb cbs IH]; cbn; [intros _; apply pres_ret|].
  destruct (message_of cb) eqn:E; [done|]. intros Hcbs.
  apply pres_bind; [by apply pres_posted_cb|]. intros _. by apply IH.
Qed.

Lemma pres_posted_connecting h m host port keepalive :
  connects_quietly → preserves (posted home) (mosq_call h (X_mosquitto_connect m host port keepalive)).
Proof.
  intros Hq. unfold mosq_call. apply (pres_bind_ok _ (λ r, omap message_of (fst r) = [])).
  - apply pres_call. intros w Hp. apply (posted_traffic w [] []); [exact Hp| |constructor]. split; [|done]. cbn.
    rewrite Hq. by destruct (home m).
  - intros w r [= <-]. apply Hq.
  - intros [cbs rc] Hr. apply pres_bind; [by apply pres_plain_cbs|]. intros _. apply pres_ret.
Qed.

Lemma pres_posted_store p o : preserves (posted home) (store p o).
Proof.
  destruct p as [l|]; [|apply pres_crash]. apply pres_get_bind. intros w Hw.
  by destruct (w_heap w !! l).
Qed.

Lemma pres_posted_malloc n o : preserves (posted home) (malloc n o).
Proof.
  unfold malloc. apply pres_bind; [by apply pres_posted_call|]. intros []; [|apply pres_ret].
  by apply pres_get_bind.
Qed.

Hint Resolve pres_posted_call pres_posted_connecting pres_posted_store pres_posted_malloc : pres.
Hint Extern 0 (_ = true) => reflexivity : pres.

Lemma pres_posted_init cfg : preserves (posted home) (mqtt_client_init cfg).
Proof. unfold mqtt_client_init. pres. Qed.

Lemma pres_posted_connect p : connects_quietly → preserves (posted home) (mqtt_client_connect p).
Proof.
  intros Hq. assert (Hloop : ∀ n, preserves (posted home) (connect_loop n p)).
  { induction n as [|n IH]; cbn [connect_loop]; unfold set_connected; pres; try exact IH. }
  unfold mqtt_client_connect. pres. all: apply Hloop.
Qed.

End traffic.

(** ** The other direction

    What a thread does whose client [m] takes no messages: no request is made,
    and nothing is delivered to another client. *)
Record still (m : mosq_ptr) (w0 w : World) : Prop := {
  st_posts : posts (w_trace w) = posts (w_trace w0);
  st_messages : ∀ home, home m = None →
    messages home (w_trace w) = messages home (w_trace w0);
}.

#[export] Instance still_proper m w0 : Proper ((≡) ==> iff) (still m w0).
Proof.
  assert (Himp : ∀ w1 w2 : World, w1 ≡ w2 → still m w0 w1 → still m w0 w2).
  { intros w1 w2 H []. pose proof (w_trace_proper _ _ H) as Ht. by split; rewrite <- ?Ht. }
  intros w1 w2 H. by split; apply Himp.
Qed.

#[export] Instance still_preorder m : PreOrder (still m).
Proof.
  split; [by intros w|]. intros w1 w2 w3 [E1 F1] [E2 F2]. split; [congruence|].
  intros home Hm. by rewrite F2, F1.
Qed.

Lemma posted_still m home w w' : still m w w' → home m = None → posted home w → posted home w'.
Proof. intros [Ep Em] Hm Hp. unfold posted. by rewrite Ep, Em. Qed.

Definition still_call (m : mosq_ptr) {A} (c : ext A) : bool :=
  match c with
  | X_curl_easy_perform _ => false
  | X_mosquitto_connect m' _ _ _ | X_mosquitto_publish m' _ _ _ _ _
  | X_mosquitto_loop_write m' _ | X_mosquitto_loop_read m' _ | X_mosquitto_loop_misc m' =>
      bool_decide (m' = m)
  | _ => true
  end.

Section still.
Context `{EV : Env} (m : mosq_ptr) (w0 : World).

Lemma still_called {A} (c : ext A) w :
  still_call m c = true → still m w0 w → still m w0 (called c w).
Proof.
  intros Hc [Hp Hm]. split; [by destruct c|]. intros home Hh. rewrite <- Hm by done.
  destruct c; try done; cbn in *; apply bool_decide_eq_true in Hc as ->; by rewrite Hh.
Qed.

(** The loop functions of such a client. *)
Lemma still_loop_inv cfg ready :
  msg_callback_ptr cfg = None → LoopInv m cfg ready (still m w0).
Proof.
  intros Hcfg. split; [by intros h w []|]. intros b c w Hc _. revert w.
  change (preserves (still m w0) (mosq_call {| mosq := m; config := cfg; connected := b |} c)).
  unfold mosq_call. apply pres_bind.
  - apply pres_call. intros w. apply still_called.
    destruct Hc as [->|[->| ->]]; by apply bool_decide_eq_true.
  - intros [cbs rc]. apply pres_bind; [|intros _; apply pres_ret]. apply pres_for_each.
    intros cb. apply pres_quiet_cb; [apply _| |by right].
    intros t q. apply pres_call. intros w. by apply still_called.
Qed.

End still.

Section thread.
Context `{EV : Env} (u : Mqtt2RestUnitConfiguration) (m : mosq_ptr) (bt base : string).
Context (Hu : GoodUnit u m bt base) (up : positive) (conf : Configuration).
Context (Hcurl : ∀ tr, is_Some (answer tr _ X_curl_easy_init)).
Context (home : clientele) (Hhome : home m = Some (bt, base)).

Abbreviation client := (mqtt2rest_client_config u (Some up) conf).
Abbreviation handle b := {| mosq := m; config := client; connected := b |}.
Abbreviation ready := (unit_ready u up).

#[local] Instance thread_user : ClientUser m client ready (good_cb bt base) :=
  unit_user u m bt base Hu up conf.

(** A good callback makes the requests its message asks for. *)
Lemma wp_cb_traffic cb w :
  ready w → good_cb bt base cb →
  wp (run_cb m client cb) (λ o w', (o = Ok tt ∧ keeps w w') ∧ ∃ ps,
    Forall2 (asks_for home) (pair m <$> omap message_of [cb]) ps ∧ traffic home w [] ps w') w.
Proof.
  intros Hw Hcb. pose proof (wp_good_cb u m bt base Hu up conf cb w Hw Hcb) as Hgood.
  destruct (message_of cb) eqn:Hmsg.
  - destruct cb as [| |topic payload| |]; try done. destruct Hcb as (Ht & url & full & Hptr & Hfull).
    split; [exact Hgood|]. exists [(full, cut_nul <$> payload)].
    split; [constructor; [by exists bt, base, url, full|constructor]|].
    apply (wp_on_mqtt_msg up u bt base url topic payload
      (λ _ w', traffic home w [] [(full, cut_nul <$> payload)] w'));
      [apply Hw|apply Hw|apply Hu..|done|done|].
    rewrite Hfull. intros o. rewrite set_out_equiv. by apply traffic_curl.
  - split; [exact Hgood|]. exists []. cbn. rewrite Hmsg. split; [constructor|].
    apply (pres_plain_cb home w [] [] m client cb); [done|apply traffic_refl].
Qed.

(** So do the callbacks of one call, in their order. *)
Lemma wp_cbs_traffic cbs w :
  ready w → Forall (good_cb bt base) cbs →
  wp (for_each cbs (run_cb m client)) (λ _ w', ∃ ps,
    Forall2 (asks_for home) (pair m <$> omap message_of cbs) ps ∧ traffic home w [] ps w') w.
Proof.
  intros Hw Hcbs. revert w Hw. induction Hcbs as [|cb cbs Hcb _ IH]; intros w Hw; cbn [for_each].
  { wp_steps. exists []. split; [constructor|apply traffic_refl]. }
  wp_step. eapply wp_mono; [by apply wp_cb_traffic|].
  intros o w1 [[-> Hk] (ps1 & Hps1 & Ht1)]. wp_step.
  eapply wp_mono; [apply IH; by eapply (ready_keeps (good := good_cb bt base))|].
  intros o w2 (ps2 & Hps2 & Ht2). exists (ps1 ++ ps2). split.
  - change (cb :: cbs) with ([cb] ++ cbs). rewrite omap_app, fmap_app. by apply Forall2_app.
  - by apply (traffic_trans home w w1 w2 [] ps1 [] ps2).
Qed.

(** What a call delivers has been posted once its callbacks have run. *)
Lemma pres_posted_mosq_call b c w :
  loop_call m c → ready w → posted home w →
  posted home (snd (mosq_call (handle b) c w)).
Proof.
  intros Hc Hw Hp.
  apply (wp_mono (mosq_call (handle b) c) (λ _, posted home) (λ _, posted home)); [|done].
  assert (Hgood : Forall (good_cb bt base) (fst (answer (w_trace w) _ c)))
    by (destruct Hc as [->|[->| ->]]; apply Hu).
  unfold mosq_call. do 3 wp_step.
  assert (Hin : traffic home w (pair m <$> omap message_of (fst (answer (w_trace w) _ c))) [] (called c w)).
  { destruct Hc as [->|[->| ->]]; split; cbn; by rewrite ?Hhome. }
  destruct (answer (w_trace w) _ c) as [cbs rc]. cbn [fst] in *. wp_step.
  eapply wp_mono; [apply wp_cbs_traffic; [exact Hw|exact Hgood]|].
  intros o w1 (ps & Hps & Ht).
  assert (Hp1 : posted home w1).
  { apply (posted_traffic home w (pair m <$> omap message_of cbs) ps); [exact Hp| |exact Hps].
    rewrite <- (app_nil_r (pair m <$> omap message_of cbs)).
    by apply (traffic_trans home w (called c w) w1 _ [] [] ps). }
  by destruct o; wp_steps.
Qed.

Lemma posted_pass_inv : PassInv u m up conf (posted home).
Proof.
  split; [apply _| |split].
  - intros A c w Hc. apply posted_called. by destruct c.
  - intros h w Hp. exact Hp.
  - apply pres_posted_mosq_call.
Qed.

End thread.

(** * Property *)
Section property.
Context `{EV : Env}.


End property.

(** ** Witness: the broker of [deliver] delivers messages until the signal. *)
Import Demo.


End Messages.
