(* ===== verification/Rest2Mqtt.v ===== *)
(** Model of [src/rest2mqtt_unit.c]: the thread that accepts HTTP POST requests
    and publishes their bodies through MQTT. *)
From Stdlib Require Import ZArith Lia ZifyBool Ascii String List.
From stdpp Require Import base numbers list strings gmap.
From S2P Require Import Prelude.
From S2P Require Import CLib.
From S2P Require Import Types.
From S2P Require Import World.
From S2P Require Import Demo.
From S2P Require Import Utils.
From S2P Require Import Logging.
From S2P Require Import MqttClient.
From S2P Require Import Mqtt2Rest.
Import Utils Logging MqttClient Mqtt2Rest.

Module Rest2Mqtt.

Definition MHD_NO : Z := 0.
Definition MHD_YES : Z := 1.
Definition MHD_HTTP_OK : Z := 200.
Definition sizeof_IncomingData : Z := 16.
(** The slots of [pfd] in [rest2mqtt_unit_run]. *)
Definition PFD_SLOTS : nat := 64.

Section unit_.
Context `{EV : Env}.

Definition fd_isset (fd : Z) (s : list Z) : bool := bool_decide (fd ∈ s).

(** The [events] of one descriptor, with the flags or-ed in turn. *)
Definition fd_events (r_set w_set e_set : bool) : Z :=
  let ev := 0 in
  let ev := if r_set then Z.lor ev POLLIN else ev in
  let ev := if w_set then Z.lor ev POLLOUT else ev in
  if e_set then Z.lor ev POLLPRI else ev.

(** The [for] loop from descriptor [fd] on, [todo] descriptors being left;
    [pfds] holds the entries written so far. *)
Fixpoint mhd_pollfds_loop (f : fdset_result) (count : nat) (todo : nat) (fd : Z)
    (pfds : list pollfd) : M (list pollfd) :=
  match todo with
  | O => mret pfds
  | S todo' =>
      let r_set := fd_isset fd (fs_rs f) in
      let w_set := fd_isset fd (fs_ws f) in
      let e_set := fd_isset fd (fs_es f) in
      if r_set || w_set || e_set then
        (if (count <=? length pfds)%nat then crash OutOfBounds else mret tt);;
        let pfds' := pfds ++ [{| pfd_fd := fd; pfd_events := fd_events r_set w_set e_set;
                                 pfd_revents := 0 |}] in
        if (count <=? length pfds')%nat then
          FATAL (At "rest2mqtt_unit.c" 72 "get_mhd_pollfds")
            "Not enough pollfd-s allocated for libmicrohttpd!" [];;
          mret pfds'
        else mhd_pollfds_loop f count todo' (fd + 1) pfds'
      else mhd_pollfds_loop f count todo' (fd + 1) pfds
  end.

(** The entries written to [pfds], which has [count] slots. *)
Definition get_mhd_pollfds (daemon : ptr) (count : nat) : M (list pollfd) :=
  f ← call (X_MHD_get_fdset daemon);
  if negb (fs_ret f =? MHD_YES) then
    FATAL (At "rest2mqtt_unit.c" 54 "get_mhd_pollfds") "Failed to get MHD fdset" [];;
    mret []
  else mhd_pollfds_loop f count (Z.to_nat (fs_max f + 1)) 0 [].

Definition set_con_cls_of (request : positive) (p : ptr) : M unit :=
  modify (λ w, set_con_cls (match p with
                            | Some l => <[request := l]> (w_con_cls w)
                            | None => delete request (w_con_cls w)
                            end) w).

(** A [%s] of the upload buffer. *)
Definition upload_arg (d : option (list ascii)) : parg :=
  match d with Some l => PMem l | None => PStr None end.

(** [incoming->data] written through: bytes of a heap block. *)
Definition update_bytes (p : ptr) (f : list cell → outcome (list cell)) : M unit :=
  '(n, cells) ← load_bytes p;
  cells' ← lift (f cells);
  store p (OBytes n cells').

(** The handler: its return value and what it leaves in [*upload_data_size].
    [qos0] is what the uninitialised [int qos] holds. *)
Definition answer_to_connection (cls : ptr) (qos0 : Z) (c : mhd_call) : M (Z * nat) :=
  INFO (At "rest2mqtt_unit.c" 89 "answer_to_connection")
    "CONNECT, url: %s, type: %s, version: %s "
    [PStr (Some (mh_url c)); PStr (Some (mh_method c)); PStr (Some (mh_version c))];;
  let size := mh_upload_data_size c in
  if negb (bool_decide (mh_method c = "POST")) then mret (MHD_NO, size)
  else
    w ← get_world;
    let con_cls := w_con_cls w !! mh_request c in
    match con_cls with
    | None =>
        INFO (At "rest2mqtt_unit.c" 97 "answer_to_connection")
          "GOT POST connect, data: %s %zd"
          [upload_arg (mh_upload_data c); PInt (Z.of_nat size)];;
        incoming ← safe_malloc sizeof_IncomingData
                     (OIncoming {| in_length := 0; in_data := None |}) 98;
        set_con_cls_of (mh_request c) incoming;;
        mret (MHD_YES, size)
    | Some _ =>
        if negb (size =? 0)%nat then
          INFO (At "rest2mqtt_unit.c" 105 "answer_to_connection")
            "GOT POST continuation, size %zd,  data: %s"
            [PInt (Z.of_nat size); upload_arg (mh_upload_data c)];;
          incoming ← load_incoming con_cls;
          data ← safe_realloc (in_data incoming) (in_length incoming + size) 109;
          store con_cls (OIncoming {| in_length := in_length incoming; in_data := data |});;
          update_bytes data (λ b, buf_write b (Z.of_nat (in_length incoming)) [NUL]);;
          upload ← match mh_upload_data c with
                   | Some l => mret l
                   | None => crash NullDeref
                   end;
          src ← lift (if (length upload <? size)%nat && bool_decide (no_nul upload)
                      then Crash OutOfBounds else Ok (cut_nul upload));
          update_bytes data (λ b,
            strncat b (Z.of_nat (in_length incoming)) src (Z.of_nat size));;
          store con_cls
            (OIncoming {| in_length := in_length incoming + size; in_data := data |});;
          mret (MHD_YES, 0%nat)
        else
          incoming ← load_incoming con_cls;
          qos_val ← call (X_MHD_lookup_connection_value (mh_request c) "qos");
          INFO (At "rest2mqtt_unit.c" 121 "answer_to_connection") "QOS: %s" [PStr qos_val];;
          '(_, qos) ← lift (parseInt qos_val qos0);
          mqtt_client_publish cls (mh_url c) (in_data incoming) qos;;
          response ← call (X_MHD_create_response_from_buffer 3 "OK");
          call (X_MHD_add_response_header response "Content-Type" "text/html");;
          ret ← call (X_MHD_queue_response (mh_request c) MHD_HTTP_OK response);
          call (X_MHD_destroy_response response);;
          free (in_data incoming);;
          free con_cls;;
          mret (ret, 0%nat)
    end.

(** The handler as [MHD_run] calls it. *)
Definition handle_call (cls : ptr) (qos0 : Z) (c : mhd_call) : M unit :=
  '(ret, rest) ← answer_to_connection cls qos0 c;
  call (X_MHD_answered (mh_request c) ret rest).

(** [MHD_run]: the library calls the handler, and is given back its result. *)
Definition MHD_run (daemon cls : ptr) (qos0 : Z) : M unit :=
  calls ← call (X_MHD_run daemon);
  for_each calls (handle_call cls qos0).

Definition rest2mqtt_client_config (u : Rest2MqttUnitConfiguration) (c : Configuration)
    : MqttClientConfiguration := {|
  label := r2m_unit_name u;
  topic := None;
  broker_host := mqtt_broker_host c;
  broker_port := mqtt_broker_port c;
  keepalive := mqtt_keepalive c;
  tls_enabled := mqtt_tls c;
  cafile := mqtt_cafile c;
  capath := mqtt_capath c;
  certfile := mqtt_certfile c;
  keyfile := mqtt_keyfile c;
  user_pw_auth_enabled := mqtt_user_pw c;
  user := mqtt_user c;
  pw := mqtt_pw c;
  callback_context := None;
  msg_callback_ptr := None;
|}.

(** One pass of the [while (true)] loop: up to [poll], with what it is to watch,
    or nothing when the pass starts over; and from what [poll] returned for the
    entries [pfd], [true] when it breaks out. *)
Definition rest2mqtt_before_poll (mqtt daemon : ptr) : M (option (list pollfd)) :=
  conn ← mqtt_client_connected mqtt;
  retry ← (if negb conn then
             DEBUG (At "rest2mqtt_unit.c" 180 "rest2mqtt_unit_run") "Trying to reconnect..." [];;
             ok ← mqtt_client_reconnect mqtt;
             mret (negb ok)
           else mret false);
  if retry : bool then mret None
  else
    pfd ← get_mhd_pollfds daemon PFD_SLOTS;
    mqtt_pfd ← mqtt_client_get_pollfds mqtt;
    (if (PFD_SLOTS <=? length pfd)%nat then crash OutOfBounds else mret tt);;
    mret (Some (pfd ++ [mqtt_pfd])).

Definition rest2mqtt_after_poll (mqtt daemon : ptr) (qos0 : Z) (pfd : list pollfd)
    (r : poll_result) : M bool :=
  if pr_ret r <? 0 then
    (if negb (pr_errno r =? EINTR) then
       ERROR (At "rest2mqtt_unit.c" 197 "rest2mqtt_unit_run")
         "Poll() failed with <%s>, exiting" [PStr (Some (strerror (pr_errno r)))]
     else mret tt);;
    mret true
  else
    MHD_run daemon mqtt qos0;;
    let revents := default 0 (pr_revents r !! (length pfd - 1)%nat) in
    mqtt_client_loop mqtt (flag revents POLLIN) (flag revents POLLOUT);;
    mret false.

Definition rest2mqtt_pass (mqtt daemon : ptr) (timeout qos0 : Z) : M bool :=
  pfd ← rest2mqtt_before_poll mqtt daemon;
  match pfd with
  | None => mret false
  | Some pfd =>
      r ← call (X_poll pfd timeout);
      rest2mqtt_after_poll mqtt daemon qos0 pfd r
  end.

Fixpoint rest2mqtt_loop (fuel : nat) (mqtt daemon : ptr) (timeout qos0 : Z) : M unit :=
  match fuel with
  | O => lift OutOfFuel
  | S fuel' =>
      stop ← rest2mqtt_pass mqtt daemon timeout qos0;
      if stop : bool then mret tt else rest2mqtt_loop fuel' mqtt daemon timeout qos0
  end.

(** The thread function up to its loop: the client, the server and the timeout
    of [poll]. *)
Definition rest2mqtt_start (configdata : ptr) : M (option (ptr * ptr * Z)) :=
  assert_that (bool_decide (is_Some configdata));;
  unitconfig ← load_rest2mqtt configdata;
  assert_that (bool_decide (is_Some (r2m_common_configuration unitconfig)));;
  config ← load_configuration (r2m_common_configuration unitconfig);
  INFO (At "rest2mqtt_unit.c" 146 "rest2mqtt_unit_run") "Starting REST->MQTT unit: %s"
    [PStr (r2m_unit_name unitconfig)];;
  mqtt ← mqtt_client_init (rest2mqtt_client_config unitconfig config);
  match mqtt with
  | None =>
      FATAL (At "rest2mqtt_unit.c" 167 "rest2mqtt_unit_run") "Failed to init MQTT client" [];;
      mret None
  | Some _ =>
      mqtt_client_connect mqtt;;
      timeout ← lift (poll_timeout (mqtt_keepalive config));
      daemon ← call (X_MHD_start_daemon (r2m_listen_port unitconfig) mqtt);
      mret (Some (mqtt, daemon, timeout))
  end.

(** What follows the loop. *)
Definition rest2mqtt_end (configdata mqtt daemon : ptr) : M unit :=
  call (X_MHD_stop_daemon daemon);;
  mqtt_client_destroy mqtt;;
  unitconfig ← load_rest2mqtt configdata;
  INFO (At "rest2mqtt_unit.c" 207 "rest2mqtt_unit_run") "Unit thread %s exiting..."
    [PStr (r2m_unit_name unitconfig)].

Definition rest2mqtt_unit_run (fuel : nat) (qos0 : Z) (configdata : ptr) : M unit :=
  started ← rest2mqtt_start configdata;
  match started with
  | None => mret tt
  | Some (mqtt, daemon, timeout) =>
      rest2mqtt_loop fuel mqtt daemon timeout qos0;;
      rest2mqtt_end configdata mqtt daemon
  end.

(** * The descriptors of libmicrohttpd *)

(** What [poll] should watch: the descriptors up to the maximum that are in
    one of the three sets, in ascending order. *)
Definition poll_entry (f : fdset_result) (fd : Z) : option pollfd :=
  let r := bool_decide (fd ∈ fs_rs f) in
  let w := bool_decide (fd ∈ fs_ws f) in
  let e := bool_decide (fd ∈ fs_es f) in
  if r || w || e then Some {| pfd_fd := fd; pfd_events := fd_events r w e; pfd_revents := 0 |}
  else None.

Definition poll_entries (f : fdset_result) : list pollfd :=
  omap (poll_entry f) (seqZ 0 (fs_max f + 1)).

Lemma fd_events_bits r w e :
  fd_events r w e
  = (if r then POLLIN else 0) + (if w then POLLOUT else 0) + (if e then POLLPRI else 0).
Proof. by destruct r, w, e. Qed.

Lemma wp_mhd_pollfds_loop f count todo fd pfds Q w :
  log_ready (w_log w) → (length pfds < count)%nat →
  (∀ o, let l := pfds ++ omap (poll_entry f) (seqZ fd (Z.of_nat todo)) in
        Q (if (length l <? count)%nat then Ok l else Exit 1) (set_out o w)) →
  wp (mhd_pollfds_loop f count todo fd pfds) Q w.
Proof.
  revert fd pfds w. induction todo as [|todo IH]; intros fd pfds w Hlog Hlt HQ.
  { cbn [mhd_pollfds_loop]. wp_step. specialize (HQ (w_out w)). cbn zeta in HQ.
    rewrite set_out_id, app_nil_r, (proj2 (Nat.ltb_lt _ _)) in HQ by done. exact HQ. }
  rewrite Nat2Z.inj_succ in HQ.
  assert (Hseq : seqZ fd (Z.succ (Z.of_nat todo)) = fd :: seqZ (fd + 1) (Z.of_nat todo)).
  { rewrite seqZ_cons by lia. by rewrite Z.pred_succ. }
  rewrite Hseq in HQ. cbn [omap list_omap] in HQ.
  pose proof (eq_refl (poll_entry f fd)) as He. unfold poll_entry in He at 2. rewrite He in HQ.
  cbn [mhd_pollfds_loop]. unfold fd_isset.
  destruct (_ || _).
  - rewrite (proj2 (Nat.leb_gt count (length pfds)) Hlt). wp_steps.
    rewrite length_app. cbn [length].
    set (e := {| pfd_fd := _ |}) in *.
    destruct (count <=? length pfds + 1)%nat eqn:E.
    + wp_go. specialize (HQ o). cbn zeta in HQ.
      rewrite (proj2 (Nat.ltb_ge _ _)) in HQ; [exact HQ|].
      rewrite length_app. cbn [length]. lia.
    + apply IH; [done|rewrite length_app; cbn [length]; lia|]. intros o.
      rewrite <- app_assoc. apply HQ.
  - apply IH; [done..|]. exact HQ.
Qed.

Lemma wp_get_mhd_pollfds daemon count Q w :
  log_ready (w_log w) → (0 < count)%nat →
  let f := answer (w_trace w) _ (X_MHD_get_fdset daemon) in
  (∀ o, Q (if negb (fs_ret f =? MHD_YES) then Exit 1
           else if (length (poll_entries f) <? count)%nat then Ok (poll_entries f) else Exit 1)
          (set_out o (called (X_MHD_get_fdset daemon) w))) →
  wp (get_mhd_pollfds daemon count) Q w.
Proof.
  intros Hlog Hc f HQ. unfold get_mhd_pollfds. wp_steps. fold f.
  destruct (fs_ret f =? MHD_YES); cbn [negb] in *; [|wp_go; apply HQ].
  apply wp_mhd_pollfds_loop; [done|cbn; lia|]. cbn zeta. intros o.
  unfold poll_entries in HQ. rewrite app_nil_l.
  replace (seqZ 0 (Z.of_nat (Z.to_nat (fs_max f + 1)))) with (seqZ 0 (fs_max f + 1)); [apply HQ|].
  unfold seqZ. by rewrite Nat2Z.id.
Qed.

(** * Requests *)

(** A request is under way: [body] has been received, and besides the heap is
    [h0]. *)
Inductive uploading (h0 : gmap positive obj) (req : positive) : list ascii → World → Prop :=
  | upload_started w li :
      w_con_cls w !! req = Some li → h0 !! li = None →
      w_heap w = <[li := OIncoming {| in_length := 0; in_data := None |}]> h0 →
      uploading h0 req [] w
  | upload_data w li ld body rest :
      body ≠ [] → w_con_cls w !! req = Some li → h0 !! li = None → h0 !! ld = None → ld ≠ li →
      w_heap w
      = <[ld := OBytes (length body) ((Some <$> body) ++ Some NUL :: rest)]>
          (<[li := OIncoming {| in_length := length body; in_data := Some ld |}]> h0) →
      uploading h0 req body w.

Lemma uploading_ext h0 req body w w' :
  uploading h0 req body w → w_heap w' = w_heap w →
  w_con_cls w' !! req = w_con_cls w !! req → uploading h0 req body w'.
Proof.
  intros Hup Hh Hc. destruct Hup as [w li H1 H2 H3|w li ld body rest H0 H1 H2 H3 H4 H5].
  - apply (upload_started _ _ _ li); congruence.
  - apply (upload_data _ _ _ li ld body rest); congruence.
Qed.

(** The same, as the handler sees it. *)
Lemma uploading_inv h0 req body w :
  uploading h0 req body w → ∃ li p,
    w_con_cls w !! req = Some li ∧ h0 !! li = None
    ∧ w_heap w !! li = Some (OIncoming {| in_length := length body; in_data := p |})
    ∧ bytes_at p (Some <$> body) (w_heap w)
    ∧ freed p (w_heap w) = <[li := OIncoming {| in_length := length body; in_data := p |}]> h0.
Proof.
  intros [w0 li Hc Hli Hh|w0 li ld b rest Hb Hc Hli Hld Hne Hh].
  - exists li, None. rewrite Hh, lookup_insert_eq. by split_and!.
  - exists li, (Some ld). rewrite Hh, lookup_insert_ne, lookup_insert_eq by done.
    split_and!; [done..| |].
    + cbn. exists (Some NUL :: rest). by rewrite lookup_insert_eq, length_fmap.
    + cbn. rewrite delete_insert_eq, delete_id; [done|]. by rewrite lookup_insert_ne.
Qed.

Lemma wp_update_bytes l n cells f Q w :
  w_heap w !! l = Some (OBytes n cells) →
  match f cells with
  | Ok cells' => Q (Ok tt) (set_heap (<[l := OBytes n cells']> (w_heap w)) w)
  | Crash why => Q (Crash why) w
  | _ => False
  end →
  wp (update_bytes (Some l) f) Q w.
Proof.
  intros Hl HQ. unfold update_bytes. wp_step. eapply wp_load_bytes; [exact Hl|]. do 3 wp_step.
  destruct (f cells) as [cells'| | | |]; try done. wp_step. by eapply wp_store.
Qed.

(** The upload buffer of one chunk: the characters of the chunk, and a NUL
    somewhere behind them, as the handler logs the buffer with [%s]. *)
Definition chunk_call (c : mhd_call) (chunk : list ascii) : Prop :=
  mh_method c = "POST" ∧ chunk ≠ [] ∧ no_nul chunk ∧ mh_upload_data_size c = length chunk
  ∧ ∃ tail, mh_upload_data c = Some (chunk ++ tail) ∧ NUL ∈ chunk ++ tail.

Lemma cut_nul_app l1 l2 : no_nul l1 → cut_nul (l1 ++ l2) = l1 ++ cut_nul l2.
Proof.
  unfold no_nul. induction l1 as [|a l1 IH]; intros H; [done|]. cbn.
  rewrite bool_decide_false by set_solver. by rewrite IH by set_solver.
Qed.

Lemma take_size_chunk chunk l :
  take_size (Z.of_nat (length chunk)) (chunk ++ l) = chunk.
Proof. rewrite take_size_nat by lia. rewrite Nat2Z.id. apply take_app_length. Qed.

Lemma format_upload n l :
  NUL ∈ l → ∃ body, format "GOT POST continuation, size %zd,  data: %s" [PInt n; PMem l] = Ok body.
Proof. intros H. eexists. fmt_eval. by rewrite bool_decide_true. Qed.

(** One chunk, given what is behind a heap block: one byte more than asked for
    is needed. *)
Lemma wp_chunk h0 cls qos0 c chunk body Q w :
  log_ready (w_log w) → uploading h0 (mh_request c) body w → chunk_call c chunk →
  let n := length (body ++ chunk) in
  (∀ tr, answer tr bool (X_realloc (Z.of_nat n)) = true) →
  (if (n <? usable n)%nat then
     ∀ w', uploading h0 (mh_request c) (body ++ chunk) w' → w_log w' = w_log w →
       w_con_cls w' = w_con_cls w →
       w_trace w' = Ev (X_realloc (Z.of_nat n)) true :: w_trace w →
       Q (Ok (MHD_YES, 0%nat)) w'
   else ∀ w', Q (Crash OutOfBounds) w') →
  wp (answer_to_connection cls qos0 c) Q w.
Proof.
  intros Hlog Hup (Hm & Hne & Hnul & Hsz & tail & Hd & Htail) n Hmem HQ.
  destruct (uploading_inv _ _ _ _ Hup) as (li & p & Hc & Hli & Hin & Hp & Hf).
  unfold answer_to_connection. wp_go. rewrite bool_decide_true by done. cbn [negb]. wp_steps.
  change (w_con_cls (set_out ?o ?w)) with (w_con_cls w). rewrite Hc, Hsz.
  assert (Hpos : (0 < length chunk)%nat) by (destruct chunk; [done|cbn; lia]).
  rewrite (proj2 (Nat.eqb_neq _ 0)) by lia. cbn [negb]. rewrite Hd. cbn [upload_arg].
  destruct (format_upload (Z.of_nat (length chunk)) (chunk ++ tail) Htail) as [line Hline].
  wp_step. eapply (wp_log_msg log_info); [done|reflexivity|exact Hline|discriminate|]. intros o1.
  do 2 wp_step. eapply wp_load_incoming; [exact Hin|]. do 2 wp_step. cbn [in_data in_length].
  assert (Hn : n = (length body + length chunk)%nat) by (unfold n; apply length_app).
  rewrite <- Hn. eapply wp_safe_realloc; [exact Hp|rewrite length_fmap; lia|apply Hmem|].
  intros ld Hld. wsimpl. rewrite Hf in Hld |- *. apply lookup_insert_None in Hld as [Hld Hneq].
  do 2 wp_step. eapply wp_store; [cbn [w_heap set_heap]; by rewrite lookup_insert_ne, lookup_insert_eq|].
  wsimpl. rewrite insert_insert_ne, insert_insert_eq by done. do 2 wp_step.
  assert (Hus := usable_ge n). rewrite length_fmap.
  destruct (usable n - length body)%nat as [|slack] eqn:Eslack; [lia|]. cbn [replicate].
  eapply wp_update_bytes; [cbn [w_heap set_heap]; apply lookup_insert_eq|].
  pose proof (buf_write_mid (Some <$> body) [None] (replicate slack None) [NUL] eq_refl) as Hw.
  rewrite length_fmap in Hw. cbn [app] in Hw. rewrite Hw. clear Hw. wsimpl.
  rewrite insert_insert_eq. do 2 wp_step. do 3 wp_step.
  rewrite (proj2 (Nat.ltb_ge (length (chunk ++ tail)) _)) by (rewrite length_app; lia).
  cbn [andb]. do 3 wp_step. eapply wp_update_bytes; [cbn [w_heap set_heap]; apply lookup_insert_eq|].
  pose proof (strncat_spec (Some <$> body) [] (replicate slack None) (cut_nul (chunk ++ tail))
                (Z.of_nat (length chunk)) ltac:(apply (bool_decide_unpack _); exact I)) as Hs.
  rewrite length_fmap, cut_nul_app, take_size_chunk in Hs by done. cbn [fmap list_fmap app] in Hs.
  rewrite cut_nul_app by done. change ((Some <$> [NUL]) ++ replicate slack None)
    with (Some NUL :: replicate slack None). rewrite Hs. clear Hs. rewrite length_replicate.
  destruct (n <? usable n)%nat eqn:En.
  - rewrite (proj2 (Nat.leb_le _ _)) by lia. wsimpl. rewrite insert_insert_eq.
    do 2 wp_step.
    eapply wp_store; [cbn [w_heap set_heap]; by rewrite lookup_insert_ne, lookup_insert_eq|].
    wsimpl. rewrite insert_insert_ne, insert_insert_eq by done. wp_steps. apply HQ; try done.
    + apply (upload_data _ _ _ li ld (body ++ chunk) (drop (length chunk) (replicate slack None)));
        try done; [by destruct body, chunk|]. wsimpl. rewrite fmap_app, <- app_assoc. done.
    + wsimpl. by rewrite Hmem.
  - rewrite (proj2 (Nat.leb_gt _ _)) by lia. apply HQ.
Qed.


(** The first call for a request: no data yet; the log line prints the
    buffer, which is NULL or has a NUL in it. *)
Definition first_call (c : mhd_call) : Prop :=
  mh_method c = "POST" ∧ ∀ l, mh_upload_data c = Some l → NUL ∈ l.

Lemma format_first d n :
  (∀ l, d = Some l → NUL ∈ l) →
  ∃ body, format "GOT POST connect, data: %s %zd" [upload_arg d; PInt n] = Ok body.
Proof.
  intros H. destruct d as [l|]; cbn [upload_arg]; eexists; fmt_eval; [|done].
  by rewrite bool_decide_true by auto.
Qed.

Lemma wp_first h0 cls qos0 c Q w :
  log_ready (w_log w) → first_call c → w_con_cls w !! mh_request c = None → w_heap w = h0 →
  (∀ tr, answer tr bool (X_malloc sizeof_IncomingData) = true) →
  (∀ w' li, uploading h0 (mh_request c) [] w' → w_log w' = w_log w →
     w_con_cls w' = <[mh_request c := li]> (w_con_cls w) →
     w_trace w' = Ev (X_malloc sizeof_IncomingData) true :: w_trace w →
     Q (Ok (MHD_YES, mh_upload_data_size c)) w') →
  wp (answer_to_connection cls qos0 c) Q w.
Proof.
  intros Hlog [Hm Hd] Hc Hh Hmem HQ. unfold answer_to_connection. wp_go.
  rewrite bool_decide_true by done. cbn [negb]. wp_steps.
  change (w_con_cls (set_out ?o ?w)) with (w_con_cls w). rewrite Hc.
  destruct (format_first (mh_upload_data c) (Z.of_nat (mh_upload_data_size c)) Hd) as [line Hl].
  wp_step. eapply (wp_log_msg log_info); [done|reflexivity|exact Hl|discriminate|]. intros o1.
  do 2 wp_step. eapply wp_safe_malloc; [apply Hmem|]. intros li Hli. wsimpl.
  unfold set_con_cls_of. wp_steps. apply (HQ _ li); wsimpl.
  - apply (upload_started _ _ _ li); wsimpl; [apply lookup_insert_eq|by rewrite <- Hh|by rewrite Hh].
  - done.
  - done.
  - by rewrite Hmem.
Qed.

(** The calls of the final one, from the query string to the response. *)
Definition publish_call (m : mosq_ptr) (t : string) (body : list ascii) (qos : Z)
    : ext (list mosq_cb * Z) :=
  X_mosquitto_publish m t (Z.of_nat (length body)) body qos false.

Definition ok_response : ext ptr := X_MHD_create_response_from_buffer 3 "OK".

Definition final_calls (m : mosq_ptr) (req : positive) (t : string) (body : list ascii)
    (qos : Z) (w : World) : World :=
  let w1 := called (publish_call m t body qos)
              (called (X_MHD_lookup_connection_value req "qos") w) in
  let response := answer (w_trace w1) _ ok_response in
  called (X_MHD_destroy_response response)
    (called (X_MHD_queue_response req MHD_HTTP_OK response)
      (called (X_MHD_add_response_header response "Content-Type" "text/html")
        (called ok_response w1))).

Definition final_call (c : mhd_call) : Prop :=
  mh_method c = "POST" ∧ mh_upload_data_size c = 0%nat.

Lemma wp_final h0 l h qos0 qos ok c c0 t qs body Q w :
  log_ready (w_log w) → uploading h0 (mh_request c) body w → body ≠ [] → no_nul body →
  final_call c → mh_url c = String c0 t → h0 !! l = Some (OHandle h) →
  answer (w_trace w) _ (X_MHD_lookup_connection_value (mh_request c) "qos") = Some qs →
  parseInt (Some qs) qos0 = Ok (ok, qos) →
  (∀ tr, log_only (fst (answer tr _ (publish_call (mosq h) t body qos))) = true) →
  (∀ o ret, (∃ tr tr', ret = answer tr _ (X_MHD_queue_response (mh_request c) MHD_HTTP_OK
                                            (answer tr' _ ok_response))) →
   Q (Ok (ret, 0%nat))
     (set_out o (set_heap h0 (final_calls (mosq h) (mh_request c) t body qos w)))) →
  wp (answer_to_connection (Some l) qos0 c) Q w.
Proof.
  intros Hlog Hup Hne Hnul [Hm Hsz] Hurl Hl Hqs Hq Hpub HQ.
  destruct Hup as [|w li ld body rest _ Hc Hli Hld Hneq Hh]; [done|].
  assert (Hlld : l ≠ ld) by congruence. assert (Hlli : l ≠ li) by congruence.
  unfold answer_to_connection. wp_go. rewrite bool_decide_true by done. cbn [negb]. wp_steps.
  change (w_con_cls (set_out ?o ?w)) with (w_con_cls w). rewrite Hc, Hsz. cbn [negb Nat.eqb].
  wp_step. eapply wp_load_incoming; [cbn; by rewrite Hh, lookup_insert_ne, lookup_insert_eq|].
  do 4 wp_step. change (w_trace (set_out ?o ?w)) with (w_trace w). rewrite Hqs.
  wp_step. wp_log. do 3 wp_step. rewrite Hq. do 2 wp_step. cbn [in_data]. rewrite Hurl.
  eapply wp_mqtt_client_publish;
    [done|cbn; by rewrite Hh, !lookup_insert_ne|cbn; by rewrite Hh, lookup_insert_eq
    |by apply scan_cstr_app|apply Hpub|].
  intros o2. wp_steps. eapply wp_free; [cbn; by rewrite Hh, lookup_insert_eq|]. wp_steps.
  eapply wp_free; [cbn; by rewrite Hh, delete_insert_eq, lookup_delete_ne, lookup_insert_eq|].
  wp_steps. cbn [w_heap set_heap called set_trace set_out].
  assert (Hfin : delete li (delete ld (w_heap w)) = h0).
  { rewrite Hh, delete_insert_eq, (delete_id (<[li:=_]> h0) ld) by (by rewrite lookup_insert_ne).
    by rewrite delete_insert_eq, delete_id. }
  rewrite Hfin. apply HQ. by do 2 eexists.
Qed.

(** * Whole requests *)

(** What the client [m] has published, latest first. *)
Fixpoint published (m : mosq_ptr) (tr : list event) : list (string * list ascii * Z) :=
  match tr with
  | [] => []
  | Ev c _ :: tr' =>
      match c with
      | X_mosquitto_publish m' t _ payload qos _ =>
          if bool_decide (m' = m) then (t, payload, qos) :: published m tr' else published m tr'
      | _ => published m tr'
      end
  end.

Lemma wp_for_each_app {A} (l1 l2 : list A) (f : A → M unit) Q w :
  wp (for_each l1 f) (bind_post (λ _, for_each l2 f) Q) w → wp (for_each (l1 ++ l2) f) Q w.
Proof.
  revert w. induction l1 as [|a l1 IH]; intros w; cbn [for_each app]; [done|].
  intros H. apply wp_bind. unfold wp in H at 1. unfold mbind, M_bind in H.
  apply wp_intro. intros o w' E. rewrite E in H. destruct o; cbn [bind_post] in *; try done.
  by apply IH.
Qed.

(** Enough memory, with slack behind each block. *)
Definition memory_ok : Prop :=
  (∀ tr n, answer tr bool (X_malloc n) = true) ∧ (∀ tr n, answer tr bool (X_realloc n) = true).
Definition slack : Prop := ∀ n, (n < usable n)%nat.

Lemma wp_chunks h0 cls qos0 req chunks calls body Q w :
  memory_ok → slack → log_ready (w_log w) → uploading h0 req body w →
  Forall2 (λ c chunk, mh_request c = req ∧ chunk_call c chunk) calls chunks →
  (∀ w', uploading h0 req (body ++ concat chunks) w' → w_log w' = w_log w →
     (∀ m, published m (w_trace w') = published m (w_trace w)) → Q (Ok tt) w') →
  wp (for_each calls (handle_call cls qos0)) Q w.
Proof.
  intros [Hmal Hre] Hslack Hlog Hup Hcalls. revert body w Hlog Hup.
  induction Hcalls as [|c chunk calls chunks [Hreq Hc] Hcalls IH]; intros body w Hlog Hup HQ.
  { cbn [for_each]. apply wp_ret, HQ; [by rewrite app_nil_r|done..]. }
  cbn [for_each]. wp_step. unfold handle_call at 1. wp_step. subst req.
  eapply wp_chunk; [done|exact Hup|exact Hc|by intros|].
  rewrite (proj2 (Nat.ltb_lt _ _)) by apply Hslack. intros w1 Hup1 Hlg1 Hcc1 Ht1. wp_steps.
  apply (IH (body ++ chunk)).
  - cbn. by rewrite Hlg1.
  - by eapply uploading_ext.
  - intros w' Hup' Hlg' Hp'. cbn [concat] in HQ. rewrite app_assoc in HQ. apply HQ; [done|..].
    + by rewrite Hlg'.
    + intros m. rewrite Hp'. cbn. by rewrite Ht1.
Qed.

(** * Properties *)

(** C27: The descriptors handed to [poll]: exactly those libmicrohttpd named, in
    ascending order, each with POLLIN, POLLOUT and POLLPRI according to the
    sets it is in; the array of [count] slots is never left, and when it would
    be full, or libmicrohttpd has no answer, the process exits. *)
Theorem get_mhd_pollfds_spec daemon count w :
  log_ready (w_log w) → (0 < count)%nat →
  let f := answer (w_trace w) _ (X_MHD_get_fdset daemon) in
  wp (get_mhd_pollfds daemon count) (λ o w', w' ≡ called (X_MHD_get_fdset daemon) w ∧
    if negb (fs_ret f =? MHD_YES) then o = Exit 1
    else if (length (poll_entries f) <? count)%nat then o = Ok (poll_entries f)
    else o = Exit 1) w.
Proof.
  intros Hlog Hc f. apply wp_get_mhd_pollfds; [done..|]. fold f. intros o. split; [done|].
  by destruct (negb _); [|destruct (_ <? _)%nat].
Qed.

(** Only POST is accepted: any other method is answered with MHD_NO and
    changes nothing. *)
Lemma other_methods_refused cls qos0 c w :
  log_ready (w_log w) → mh_method c ≠ "POST" →
  wp (answer_to_connection cls qos0 c) (λ o w',
    o = Ok (MHD_NO, mh_upload_data_size c) ∧ w' ≡ w) w.
Proof.
  intros Hlog Hm. unfold answer_to_connection. wp_go. rewrite bool_decide_false by done.
  cbn [negb]. by wp_steps.
Qed.


(** C30: The terminator of the body is written outside its block: with an
    allocator that gives exactly what is asked for, every chunk overflows the
    heap by one byte. *)
Theorem chunk_overflows_by_one h0 cls qos0 c chunk body w :
  log_ready (w_log w) → uploading h0 (mh_request c) body w → chunk_call c chunk →
  let n := length (body ++ chunk) in
  (∀ tr, answer tr bool (X_realloc (Z.of_nat n)) = true) → usable n = n →
  fst (answer_to_connection cls qos0 c w) = Crash OutOfBounds.
Proof.
  intros Hlog Hup Hc n Hmem Hus.
  apply (wp_chunk h0 cls qos0 c chunk body (λ o _, o = Crash OutOfBounds)); [done..|].
  fold n. by rewrite Hus, Nat.ltb_irrefl.
Qed.

(** C31: Two requests crash the process: one without a qos in its query string,
    and one without a body. *)
Theorem incomplete_post_crashes h0 l h qos0 c c0 t body qs w :
  log_ready (w_log w) → uploading h0 (mh_request c) body w → final_call c →
  mh_url c = String c0 t → h0 !! l = Some (OHandle h) →
  answer (w_trace w) _ (X_MHD_lookup_connection_value (mh_request c) "qos") = qs →
  qs = None ∨ body = [] →
  fst (answer_to_connection (Some l) qos0 c w) = Crash NullDeref.
Proof.
  intros Hlog Hup [Hm Hsz] Hurl Hl Hqs Hcase.
  change (wp (answer_to_connection (Some l) qos0 c) (λ o _, o = Crash NullDeref) w).
  destruct (uploading_inv _ _ _ _ Hup) as (li & p & Hc & Hli & Hin & Hp & Hf).
  unfold answer_to_connection. wp_go. rewrite bool_decide_true by done. cbn [negb]. wp_steps.
  change (w_con_cls (set_out ?o ?w)) with (w_con_cls w). rewrite Hc, Hsz. cbn [negb Nat.eqb].
  wp_step. eapply wp_load_incoming; [exact Hin|].
  do 4 wp_step. change (w_trace (set_out ?o ?w)) with (w_trace w). rewrite Hqs.
  wp_step. wp_log. do 3 wp_step. destruct qs as [qs|]; [|done].
  destruct Hcase as [|Hb]; [done|]. subst body.
  assert (p = None) as ->.
  { inversion Hup as [? li' Hc' _ Hh'|]; [|done]. simplify_eq. rewrite Hh' in Hin.
    rewrite lookup_insert_eq in Hin. by injection Hin. }
  destruct (parseInt (Some qs) qos0) as [[ok qos]| | | |] eqn:Hq; try (by unfold parseInt in Hq).
  do 2 wp_step. rewrite Hurl. unfold mqtt_client_publish, skip_first. wp_go.
  eapply wp_load_handle; [|done]. cbn. rewrite <- Hl.
  inversion Hup as [? li' Hc' Hli' Hh'|]; [|done]. rewrite Hh'.
  apply lookup_insert_ne. congruence.
Qed.


End unit_.
(** * What the handler leaves alone *)

Definition no_handle (o : obj) : bool := match o with OHandle _ => false | _ => true end.

Definition handler_call {A} (c : ext A) : bool :=
  match c with
  | X_mosquitto_connect _ _ _ _ | X_MHD_run _ | X_poll _ _ => false
  | _ => true
  end.

(** An invariant that survives all calls the handler may make, and all
    changes of the heap but storing a handle, survives the handler. *)
Class HandlerInv `{EV : Env} (I : World → Prop) : Prop := {
  hi_proper :: Proper ((≡) ==> iff) I;
  hi_call : ∀ A (c : ext A), handler_call c = true → preserves I (call c);
  hi_insert : ∀ l o w, no_handle o = true → I w → I (set_heap (<[l := o]> (w_heap w)) w);
  hi_delete : ∀ l w, I w → I (set_heap (delete l (w_heap w)) w);
  hi_con : ∀ cc w, I w → I (set_con_cls cc w);
}.

Section handler_inv.
Context `{EV : Env} (I : World → Prop) `{HI : !HandlerInv I}.

#[export] Instance handler_callback : CallbackInv I.
Proof. split; [apply _|]. intros A c Hc. apply hi_call. by destruct c. Qed.

Lemma pres_mosq_handler h c : handler_call c = true → preserves I (mosq_call h c).
Proof. intros Hc. apply pres_mosq_call; [apply _|]. by apply hi_call. Qed.
Hint Resolve hi_call pres_mosq_handler : pres.
Hint Extern 0 (_ = true) => reflexivity : pres.

Lemma pres_store_other p o : no_handle o = true → preserves I (store p o).
Proof.
  intros Ho. destruct p as [l'|]; [|apply pres_crash]. apply pres_get_bind. intros w Hw.
  destruct (w_heap w !! l'); [|done]. by apply hi_insert.
Qed.

Lemma pres_free p : preserves I (free p).
Proof.
  destruct p as [l'|]; [|apply pres_ret]. apply pres_get_bind. intros w Hw.
  destruct (w_heap w !! l'); [|done]. by apply hi_delete.
Qed.

Lemma pres_insert_fresh o :
  no_handle o = true →
  preserves I (w ← get_world; let l := fresh_loc (w_heap w) in
               modify (set_heap (<[l := o]> (w_heap w)));; mret (Some l)).
Proof. intros Ho. apply pres_get_bind. intros w Hw. by apply hi_insert. Qed.

Lemma pres_malloc k o : no_handle o = true → preserves I (malloc k o).
Proof.
  intros Ho. unfold malloc. apply pres_bind; [by apply hi_call|].
  intros []; [by apply pres_insert_fresh|apply pres_ret].
Qed.
Hint Resolve pres_store_other pres_free pres_malloc : pres.

Lemma pres_realloc p k : preserves I (realloc p k).
Proof.
  unfold realloc. apply pres_bind; [by apply hi_call|]. intros []; [|apply pres_ret].
  apply pres_bind; [pres|]. intros old. apply pres_bind; [apply pres_free|]. intros _.
  apply pres_get_bind. intros w Hw. by apply hi_insert.
Qed.

Lemma pres_print f args : preserves I (fprintf_stderr f args).
Proof. apply pres_fprintf_stderr, _. Qed.

Lemma pres_set_con_cls req p : preserves I (set_con_cls_of req p).
Proof. intros w Hw. by apply hi_con. Qed.

Lemma pres_update_bytes p f : preserves I (update_bytes p f).
Proof.
  unfold update_bytes. apply pres_bind; [apply pres_load_bytes|]. intros [k cells].
  apply pres_bind; [apply pres_lift|]. intros cells'. by apply pres_store_other.
Qed.
Hint Resolve pres_realloc pres_print pres_set_con_cls pres_update_bytes : pres.

Lemma pres_publish p t m qos : preserves I (mqtt_client_publish p t m qos).
Proof. unfold mqtt_client_publish. pres. Qed.
Hint Resolve pres_publish : pres.

Lemma pres_answer cls qos0 c : preserves I (answer_to_connection cls qos0 c).
Proof. unfold answer_to_connection, safe_malloc, safe_realloc, out_of_memory. pres. Qed.
Hint Resolve pres_answer : pres.

Lemma pres_handle_call cls qos0 c : preserves I (handle_call cls qos0 c).
Proof. unfold handle_call. pres. Qed.

Lemma pres_MHD_run daemon cls qos0 :
  preserves I (call (X_MHD_run daemon)) → preserves I (MHD_run daemon cls qos0).
Proof. pose proof pres_handle_call. unfold MHD_run. pres. Qed.

Lemma pres_mhd_loop f count todo fd pfds : preserves I (mhd_pollfds_loop f count todo fd pfds).
Proof.
  revert fd pfds. induction todo as [|todo IH]; intros fd pfds; cbn [mhd_pollfds_loop]; pres.
  all: apply IH.
Qed.
Hint Resolve pres_mhd_loop : pres.

Lemma pres_get_mhd_pollfds daemon count : preserves I (get_mhd_pollfds daemon count).
Proof. unfold get_mhd_pollfds. pres. Qed.

End handler_inv.

(** * A lost connection *)
Section lost.
Context `{EV : Env} (l : positive) (n : nat).
Abbreviation disc := (disconnected l n).

Hint Resolve pres_other_call pres_store_handle pres_mosq_other : pres.
Hint Extern 0 (_ = false) => reflexivity : pres.

(** The heap part of [disconnected] survives every change but storing a handle. *)
#[export] Instance disconnected_handler : HandlerInv disc.
Proof.
  split.
  - apply _.
  - intros A c Hc. apply pres_other_call. by destruct c.
  - intros l' o w Ho [Hh Ht]. split; [|exact Ht]. cbn. intros h. destruct (decide (l' = l)) as [->|].
    + rewrite lookup_insert_eq. intros [= ->]. done.
    + rewrite lookup_insert_ne by done. apply Hh.
  - intros l' w [Hh Ht]. split; [|exact Ht]. cbn. intros h Hl.
    apply lookup_delete_Some in Hl as [_ Hl]. by apply Hh.
  - by intros cc w Hw.
Qed.

Lemma pres_disc_run daemon cls qos0 : preserves disc (MHD_run daemon cls qos0).
Proof. apply pres_MHD_run; [apply _|]. by apply pres_other_call. Qed.

Lemma pres_disc_pollfds daemon count : preserves disc (get_mhd_pollfds daemon count).
Proof. apply pres_get_mhd_pollfds, _. Qed.
Hint Resolve pres_disc_run pres_disc_pollfds : pres.

Lemma pres_rest2mqtt_pass p daemon timeout qos0 :
  preserves disc (rest2mqtt_pass p daemon timeout qos0).
Proof.
  unfold rest2mqtt_pass, rest2mqtt_before_poll, rest2mqtt_after_poll, mqtt_client_connected, mqtt_client_reconnect, mqtt_client_get_pollfds,
    mqtt_client_loop, set_connected. pres.
Qed.

Lemma pres_rest2mqtt_loop fuel p daemon timeout qos0 :
  preserves disc (rest2mqtt_loop fuel p daemon timeout qos0).
Proof.
  induction fuel as [|fuel IH]; cbn [rest2mqtt_loop]; [apply pres_lift|].
  pose proof pres_rest2mqtt_pass. pres. all: auto.
Qed.

End lost.

(** C23: In this direction, too, a lost connection is never restored: from a
    state in which the client is not connected, whatever requests arrive and
    whatever the libraries answer, it stays disconnected and no connection is
    attempted. *)
Theorem rest2mqtt_lost_connection_stays_lost `{EV : Env} l daemon fuel timeout qos0 w :
  (∀ h, w_heap w !! l = Some (OHandle h) → connected h = false) →
  let w' := snd (rest2mqtt_loop fuel (Some l) daemon timeout qos0 w) in
  (∀ h, w_heap w' !! l = Some (OHandle h) → connected h = false)
  ∧ connects (w_trace w') = connects (w_trace w).
Proof.
  intros Hw. by apply (pres_rest2mqtt_loop l (connects (w_trace w)) fuel (Some l) daemon timeout qos0 w).
Qed.

(** ** Witnesses *)
Import Demo.

Definition rest_client : MqttClientConfiguration :=
  rest2mqtt_client_config {| r2m_unit_name := Some "u"; r2m_enabled := true;
    r2m_listen_port := 8888; r2m_mqtt_topic_root := Some "root";
    r2m_common_configuration := None |} demo_conf.

Definition rest_handle : MqttClientHandle :=
  {| mosq := 1%positive; config := rest_client; connected := true |}.

Definition rest_heap : gmap positive obj := {[ 1%positive := OHandle rest_handle ]}.
Definition rest_world : World := world_of console_log rest_heap.

Lemma rest_ready : log_ready (w_log rest_world).
Proof. split; [by right|cbn; lia]. Defined.

Lemma get_mhd_pollfds_spec_witness :
  let EV := demo_env 8 all_ok in
  wp (get_mhd_pollfds (Some 1%positive) 64) (λ o w',
    o = Ok [{| pfd_fd := 3; pfd_events := POLLIN; pfd_revents := 0 |}]) rest_world.
Proof.
  intros EV. eapply wp_mono.
  - apply (get_mhd_pollfds_spec (Some 1%positive) 64 rest_world rest_ready). lia.
  - intros o w' [_ H]. exact H.
Defined.

(** The call libmicrohttpd makes for a request, with its upload buffer. *)
Definition demo_call (method : string) (d : option string) (n : nat) : mhd_call := {|
  mh_request := 1%positive; mh_url := "/dev/led"; mh_method := method; mh_version := "HTTP/1.1";
  mh_upload_data := (λ s, explode s ++ [NUL]) <$> d; mh_upload_data_size := n |}.

Lemma other_methods_refused_witness :
  let EV := demo_env 8 all_ok in
  wp (answer_to_connection (Some 1%positive) 0 (demo_call "GET" None 0)) (λ o w',
    o = Ok (MHD_NO, 0%nat) ∧ w' ≡ rest_world) rest_world.
Proof.
  intros EV.
  apply (other_methods_refused (Some 1%positive) 0 (demo_call "GET" None 0) rest_world rest_ready).
  discriminate.
Defined.


(** A request whose first call has been made. *)
Definition started_world : World :=
  set_con_cls {[ 1%positive := 2%positive ]}
    (set_heap (<[2%positive := OIncoming {| in_length := 0; in_data := None |}]> rest_heap)
       rest_world).

Lemma demo_uploading : uploading rest_heap 1%positive [] started_world.
Proof. apply (upload_started _ _ _ 2%positive); vm_compute; reflexivity. Defined.

Lemma chunk_overflows_by_one_witness :
  let EV := demo_env 0 all_ok in
  fst (answer_to_connection (Some 1%positive) 0 (demo_call "POST" (Some "on") 2) started_world)
  = Crash OutOfBounds.
Proof.
  intros EV.
  apply (chunk_overflows_by_one rest_heap (Some 1%positive) 0
           (demo_call "POST" (Some "on") 2) (explode "on") [] started_world).
  - apply rest_ready.
  - apply demo_uploading.
  - repeat constructor; try discriminate;
      try (apply (bool_decide_unpack _); vm_compute; exact I).
    exists [NUL]. split; [reflexivity|]. apply (bool_decide_unpack _). vm_compute. exact I.
  - intros tr. reflexivity.
  - vm_compute. reflexivity.
Defined.

Lemma incomplete_post_crashes_witness :
  let EV := demo_env 8 all_ok in
  fst (answer_to_connection (Some 1%positive) 0 (demo_call "POST" None 0) started_world)
  = Crash NullDeref.
Proof.
  intros EV.
  apply (incomplete_post_crashes rest_heap 1%positive rest_handle 0 (demo_call "POST" None 0)
           "/"%char "dev/led" [] (Some "1") started_world).
  - apply rest_ready.
  - apply demo_uploading.
  - split; reflexivity.
  - reflexivity.
  - vm_compute. reflexivity.
  - reflexivity.
  - by right.
Defined.

Lemma rest2mqtt_lost_connection_stays_lost_witness :
  let EV := demo_env 8 all_ok in
  let w := world_of console_log {[ 1%positive := OHandle (with_connected false rest_handle) ]} in
  let w' := snd (rest2mqtt_loop 10 (Some 1%positive) (Some 1%positive) 15000 0 w) in
  (∀ h, w_heap w' !! 1%positive = Some (OHandle h) → connected h = false)
  ∧ connects (w_trace w') = 0%nat.
Proof.
  intros EV w w'.
  apply (rest2mqtt_lost_connection_stays_lost 1%positive (Some 1%positive) 10 15000 0 w). intros h [= <-]. reflexivity.
Defined.

End Rest2Mqtt.
