(* ===== verification/Uploads.v ===== *)
(** Requests that overlap, over the handler of [src/rest2mqtt_unit.c]: an
    abstract machine of the uploads in progress, the heap that represents its
    state, and the proof that the handler implements it. *)
From Stdlib Require Import ZArith Lia ZifyBool Ascii String List.
From stdpp Require Import base numbers list strings gmap.
From S2P Require Import Prelude.
From S2P Require Import CLib.
From S2P Require Import Types.
From S2P Require Import World.
From S2P Require Import Demo.
From S2P Require Import Utils.
From S2P Require Import Logging.
From S2P Require Import MqttClient.
From S2P Require Import Mqtt2Rest.
From S2P Require Import Messages.
From S2P Require Import Rest2Mqtt.
Import Utils Logging MqttClient Mqtt2Rest Messages Rest2Mqtt.

Module Uploads.

(** * The abstract machine *)

(** The requests under way with the data received so far, those that have been
    answered, and the effects, latest first: messages published, and replies
    to libmicrohttpd with the data left unread. *)
Record uploads := {
  receiving : gmap positive (list ascii);
  finished : gset positive;
  sent : list (string * list ascii * Z);
  replies : list (positive * Z * nat);
}.

Definition no_uploads : uploads :=
  {| receiving := ∅; finished := ∅; sent := []; replies := [] |}.

(** What the log needs of the upload buffer it prints. *)
Definition printable (d : option (list ascii)) : bool :=
  match d with Some l => bool_decide (NUL ∈ l) | None => true end.

(** The data of one call: [size] characters of the buffer, which must be text. *)
Definition chunk_of (c : mhd_call) : option (list ascii) :=
  l ← mh_upload_data c;
  let chunk := take (mh_upload_data_size c) l in
  if (mh_upload_data_size c <=? length l)%nat && bool_decide (no_nul chunk)
     && bool_decide (NUL ∈ l)
  then Some chunk else None.

Section spec.
(** The [qos] in the query string of each request, and the initial content of
    the handler's variable. *)
Context (qs : positive → cstr) (qos0 : Z).

Definition refuse (c : mhd_call) (s : uploads) : uploads := {|
  receiving := receiving s; finished := finished s; sent := sent s;
  replies := (mh_request c, MHD_NO, mh_upload_data_size c) :: replies s |}.

Definition open_upload (c : mhd_call) (s : uploads) : uploads := {|
  receiving := <[mh_request c := []]> (receiving s); finished := finished s; sent := sent s;
  replies := (mh_request c, MHD_YES, mh_upload_data_size c) :: replies s |}.

Definition append_chunk (c : mhd_call) (body : list ascii) (s : uploads) : uploads := {|
  receiving := <[mh_request c := body]> (receiving s); finished := finished s; sent := sent s;
  replies := (mh_request c, MHD_YES, 0%nat) :: replies s |}.

Definition publish_upload (c : mhd_call) (t : string) (body : list ascii) (qos : Z)
    (s : uploads) : uploads := {|
  receiving := delete (mh_request c) (receiving s);
  finished := {[mh_request c]} ∪ finished s;
  sent := (t, body, qos) :: sent s;
  replies := (mh_request c, MHD_YES, 0%nat) :: replies s |}.

(** One call; [None] for a call the handler does not survive: data that is not
    text, a request without data or without [qos], or one already answered. *)
Definition spec_call (c : mhd_call) (s : uploads) : option uploads :=
  if negb (bool_decide (mh_method c = "POST")) then Some (refuse c s)
  else if bool_decide (mh_request c ∈ finished s) then None
  else match receiving s !! mh_request c with
  | None => if printable (mh_upload_data c) then Some (open_upload c s) else None
  | Some body =>
      if negb (mh_upload_data_size c =? 0)%nat then
        chunk ← chunk_of c; Some (append_chunk c (body ++ chunk) s)
      else
        t ← skip_first (mh_url c);
        match qs (mh_request c), parseInt (qs (mh_request c)) qos0 with
        | Some _, Ok (_, qos) =>
            if bool_decide (body = []) then None else Some (publish_upload c t body qos s)
        | _, _ => None
        end
  end.

Fixpoint spec_calls (cs : list mhd_call) (s : uploads) : option uploads :=
  match cs with
  | [] => Some s
  | c :: cs' => s' ← spec_call c s; spec_calls cs' s'
  end.

Lemma spec_calls_app cs1 cs2 s :
  spec_calls (cs1 ++ cs2) s = (s' ← spec_calls cs1 s; spec_calls cs2 s').
Proof.
  revert s. induction cs1 as [|c cs1 IH]; intros s; [done|]. cbn.
  destruct (spec_call c s) as [s1|]; [apply IH|done].
Qed.

(** The data received is text. *)
Definition text_only (s : uploads) : Prop := map_Forall (λ _ body, no_nul body) (receiving s).

Lemma chunk_of_Some c chunk :
  chunk_of c = Some chunk → mh_upload_data_size c ≠ 0%nat → mh_method c = "POST" →
  chunk_call c chunk.
Proof.
  unfold chunk_of, chunk_call. destruct (mh_upload_data c) as [l|]; [|done]. cbn.
  destruct (_ && _) eqn:E; [|done]. intros [= <-] Hsz Hm.
  apply andb_true_iff in E as [E E3]. apply andb_true_iff in E as [E1 E2].
  apply bool_decide_eq_true in E2, E3. apply Nat.leb_le in E1.
  split_and!; [done| |done|rewrite length_take; lia|].
  - intros H. apply (f_equal length) in H. rewrite length_take in H. cbn in H. lia.
  - exists (drop (mh_upload_data_size c) l). by rewrite take_drop.
Qed.

Lemma spec_call_text c s s' : spec_call c s = Some s' → text_only s → text_only s'.
Proof.
  unfold spec_call, text_only. intros H Ht.
  destruct (bool_decide (mh_method c = "POST")) eqn:Em; cbn [negb] in H; [|by injection H as <-].
  apply bool_decide_eq_true in Em. destruct (bool_decide _); [done|].
  destruct (receiving s !! mh_request c) as [body|] eqn:Eb.
  - destruct (_ =? 0)%nat eqn:Ez; cbn [negb] in H.
    + destruct (skip_first _); [|done]. cbn in H.
      destruct (qs (mh_request c)) as [q|]; [|done].
      destruct (parseInt (Some q) qos0) as [[ok qos]| | | |]; try done.
      destruct (bool_decide _); [done|]. injection H as <-. by apply map_Forall_delete.
    + destruct (chunk_of c) as [chunk|] eqn:Ec; [|done]. injection H as <-.
      apply map_Forall_insert_2; [|done]. apply no_nul_app; [by eapply Ht|].
      apply Nat.eqb_neq in Ez. by apply chunk_of_Some in Ec as (_ & _ & Hc & _).
  - destruct (printable _); [|done]. injection H as <-.
    apply map_Forall_insert_2; [|done]. apply not_elem_of_nil.
Qed.

(** ** The order of calls of different requests

    States are compared up to the order in which messages and replies went out. *)
#[export] Instance uploads_equiv : Equiv uploads := λ s1 s2,
  receiving s1 = receiving s2 ∧ finished s1 = finished s2
  ∧ sent s1 ≡ₚ sent s2 ∧ replies s1 ≡ₚ replies s2.

#[export] Instance uploads_equivalence : Equivalence (≡@{uploads}).
Proof.
  split.
  - intros s. by split_and!.
  - intros s1 s2 (? & ? & ? & ?). by split_and!.
  - intros s1 s2 s3 (? & ? & H1 & H2) (? & ? & H3 & H4).
    split_and!; [congruence..|by rewrite H1|by rewrite H2].
Qed.

(** What a call does to its own request, and sends. *)
Record effect := {
  ef_receiving : option (list ascii);
  ef_finish : bool;
  ef_sent : list (string * list ascii * Z);
  ef_reply : Z * nat;
}.

Definition call_effect (c : mhd_call) (body : option (list ascii)) (fin : bool) : option effect :=
  if negb (bool_decide (mh_method c = "POST")) then
    Some {| ef_receiving := body; ef_finish := false; ef_sent := [];
            ef_reply := (MHD_NO, mh_upload_data_size c) |}
  else if fin then None
  else match body with
  | None => if printable (mh_upload_data c)
            then Some {| ef_receiving := Some []; ef_finish := false; ef_sent := [];
                         ef_reply := (MHD_YES, mh_upload_data_size c) |} else None
  | Some body =>
      if negb (mh_upload_data_size c =? 0)%nat then
        chunk ← chunk_of c;
        Some {| ef_receiving := Some (body ++ chunk); ef_finish := false; ef_sent := [];
                ef_reply := (MHD_YES, 0%nat) |}
      else
        t ← skip_first (mh_url c);
        match qs (mh_request c), parseInt (qs (mh_request c)) qos0 with
        | Some _, Ok (_, qos) =>
            if bool_decide (body = []) then None
            else Some {| ef_receiving := None; ef_finish := true; ef_sent := [(t, body, qos)];
                         ef_reply := (MHD_YES, 0%nat) |}
        | _, _ => None
        end
  end.

Definition apply_effect (req : positive) (e : effect) (s : uploads) : uploads := {|
  receiving := partial_alter (λ _, ef_receiving e) req (receiving s);
  finished := (if ef_finish e then {[req]} else ∅) ∪ finished s;
  sent := ef_sent e ++ sent s;
  replies := (req, (ef_reply e).1, (ef_reply e).2) :: replies s;
|}.

Lemma spec_call_effect c s :
  spec_call c s
  = (e ← call_effect c (receiving s !! mh_request c) (bool_decide (mh_request c ∈ finished s));
     Some (apply_effect (mh_request c) e s)).
Proof.
  unfold spec_call, call_effect, apply_effect.
  destruct (negb _); cbn.
  { unfold refuse. by rewrite partial_alter_self, (left_id_L ∅ (∪)). }
  destruct (bool_decide _); [done|].
  destruct (receiving s !! _) as [body|] eqn:Eb.
  - destruct (negb _).
    + destruct (chunk_of c) as [chunk|]; [|done]. cbn. unfold append_chunk.
      by rewrite (left_id_L ∅ (∪)).
    + destruct (skip_first _) as [t|]; [|done]. cbn.
      destruct (qs (mh_request c)) as [q|]; [|done].
      destruct (parseInt (Some q) qos0) as [[ok qos]| | | |]; try done.
      by destruct (bool_decide _).
  - destruct (printable _); [|done]. cbn. unfold open_upload. by rewrite (left_id_L ∅ (∪)).
Qed.

Lemma apply_effect_commute r1 r2 e1 e2 s :
  r1 ≠ r2 → apply_effect r1 e1 (apply_effect r2 e2 s) ≡ apply_effect r2 e2 (apply_effect r1 e1 s).
Proof.
  intros Hne. split_and!; cbn.
  - by apply partial_alter_partial_alter_ne.
  - by rewrite !(assoc_L (∪)), (comm_L (∪) (if ef_finish e1 then _ else _)).
  - by rewrite !(assoc_L (++)), (comm (++) (ef_sent e1)).
  - apply perm_swap.
Qed.

Lemma apply_effect_other r1 r2 e s :
  r1 ≠ r2 → receiving (apply_effect r2 e s) !! r1 = receiving s !! r1
  ∧ bool_decide (r1 ∈ finished (apply_effect r2 e s)) = bool_decide (r1 ∈ finished s).
Proof.
  intros Hne. split; cbn; [by apply lookup_partial_alter_ne|].
  apply bool_decide_ext. destruct (ef_finish e); set_solver.
Qed.

#[export] Instance apply_effect_proper r e : Proper ((≡) ==> (≡)) (apply_effect r e).
Proof.
  intros s1 s2 (H1 & H2 & H3 & H4). split_and!; cbn; [by rewrite H1|by rewrite H2|by rewrite H3|].
  by rewrite H4.
Qed.

#[export] Instance spec_call_proper c : Proper ((≡) ==> (≡)) (spec_call c).
Proof.
  intros s1 s2 Hs. rewrite !spec_call_effect. pose proof Hs as (H1 & H2 & _). rewrite H1, H2.
  destruct (call_effect _ _ _) as [e|]; cbn; constructor. by apply apply_effect_proper.
Qed.

#[export] Instance spec_calls_proper cs : Proper ((≡) ==> (≡)) (spec_calls cs).
Proof.
  induction cs as [|c cs IH]; intros s1 s2 Hs; cbn; [by constructor|].
  pose proof (spec_call_proper c _ _ Hs) as H.
  destruct H as [s1' s2' H|]; cbn; [by apply IH|constructor].
Qed.

(** Two calls of different requests can change places. *)
Lemma spec_call_swap c1 c2 s :
  mh_request c1 ≠ mh_request c2 →
  (s' ← spec_call c1 s; spec_call c2 s') ≡ (s' ← spec_call c2 s; spec_call c1 s').
Proof.
  intros Hne. rewrite !spec_call_effect.
  destruct (call_effect c1 _ _) as [e1|] eqn:E1, (call_effect c2 _ _) as [e2|] eqn:E2; cbn;
    rewrite ?spec_call_effect; [|..|constructor].
  - destruct (apply_effect_other (mh_request c2) (mh_request c1) e1 s) as [-> ->]; [done|].
    destruct (apply_effect_other (mh_request c1) (mh_request c2) e2 s) as [-> ->]; [done|].
    rewrite E1, E2. cbn. constructor. by apply apply_effect_commute.
  - destruct (apply_effect_other (mh_request c2) (mh_request c1) e1 s) as [-> ->]; [done|].
    rewrite E2. constructor.
  - destruct (apply_effect_other (mh_request c1) (mh_request c2) e2 s) as [-> ->]; [done|].
    rewrite E1. constructor.
Qed.

(** A call can be made before calls of other requests. *)
Lemma spec_calls_first l1 c l2 s :
  Forall (λ c', mh_request c' ≠ mh_request c) l1 →
  spec_calls (l1 ++ c :: l2) s ≡ spec_calls (c :: l1 ++ l2) s.
Proof.
  intros Hl. revert s. induction Hl as [|c1 l1 Hc _ IH]; intros s; [done|].
  cbn [app spec_calls].
  assert (H1 : (s' ← spec_call c1 s; spec_calls (l1 ++ c :: l2) s')
               ≡ (s' ← spec_call c1 s; spec_calls (c :: l1 ++ l2) s')).
  { destruct (spec_call c1 s); [apply IH|constructor]. }
  rewrite H1. cbn [spec_calls]. pose proof (spec_call_swap c1 c s Hc) as Hs.
  destruct (spec_call c1 s) as [s1|], (spec_call c s) as [s2|]; cbn in *.
  - destruct Hs as [sa sb Hs|]; cbn; [by apply spec_calls_proper|constructor].
  - by inversion Hs; subst; cbn.
  - by inversion Hs; subst; cbn.
  - constructor.
Qed.

(** The calls of one request. *)
Definition calls_of (req : positive) (cs : list mhd_call) : list mhd_call :=
  filter (λ c, mh_request c = req) cs.

Lemma calls_of_split req c cs l :
  calls_of req cs = c :: l → mh_request c = req →
  ∃ l1 l2, cs = l1 ++ c :: l2 ∧ Forall (λ c', mh_request c' ≠ mh_request c) l1
           ∧ ∀ r, calls_of r cs = if decide (r = req) then c :: calls_of r (l1 ++ l2)
                                  else calls_of r (l1 ++ l2).
Proof.
  intros H Hc. induction cs as [|c0 cs IH]; [done|]. unfold calls_of in H.
  rewrite filter_cons in H. destruct (decide (mh_request c0 = req)) as [E|E].
  - injection H as -> _. exists [], cs. split_and!; [done|constructor|]. intros r.
    unfold calls_of. rewrite filter_cons. cbn.
    destruct (decide (r = req)), (decide (mh_request c = r)); congruence.
  - destruct (IH H) as (l1 & l2 & -> & Hl1 & Hf). exists (c0 :: l1), l2. split_and!; [done| |].
    + constructor; [congruence|done].
    + intros r. specialize (Hf r). unfold calls_of in *. cbn [app]. rewrite !filter_cons, Hf.
      destruct (decide (r = req)), (decide (mh_request c0 = r)); congruence.
Qed.

(** What holds of every call depends on the calls of each request only. *)
Lemma calls_of_Forall (P : mhd_call → Prop) cs1 cs2 :
  (∀ req, calls_of req cs1 = calls_of req cs2) → Forall P cs1 → Forall P cs2.
Proof.
  rewrite !Forall_forall. intros H HP c Hc. apply HP.
  assert (Hin : c ∈ calls_of (mh_request c) cs1)
    by (rewrite H; by apply list_elem_of_filter).
  by apply list_elem_of_filter in Hin as [_ Hin].
Qed.

Lemma spec_calls_interleaving cs1 cs2 s :
  (∀ req, calls_of req cs1 = calls_of req cs2) → spec_calls cs1 s ≡ spec_calls cs2 s.
Proof.
  revert cs2 s. induction cs1 as [|c cs1 IH]; intros cs2 s H.
  - destruct cs2 as [|c cs2]; [done|]. specialize (H (mh_request c)). unfold calls_of in H.
    rewrite filter_cons, decide_True in H by done. done.
  - pose proof (H (mh_request c)) as Hc. unfold calls_of at 1 in Hc.
    rewrite filter_cons, decide_True in Hc by done. symmetry in Hc.
    destruct (calls_of_split _ _ _ _ Hc eq_refl) as (l1 & l2 & -> & Hl1 & Hf).
    rewrite spec_calls_first by done. cbn [spec_calls].
    destruct (spec_call c s) as [s1|]; [|constructor]. cbn. apply IH. intros r.
    specialize (H r). rewrite Hf in H. unfold calls_of at 1 in H. rewrite filter_cons in H.
    destruct (decide (r = mh_request c)) as [->|Hne].
    + rewrite decide_True in H by done. by injection H.
    + by rewrite decide_False in H by congruence.
Qed.

End spec.

(** * The heap of the uploads in progress *)

(** The blocks of one upload. *)
Inductive footprint (con : gmap positive positive) (req : positive)
    : list ascii → gmap positive obj → Prop :=
  | fp_started li :
      con !! req = Some li →
      footprint con req [] {[ li := OIncoming {| in_length := 0; in_data := None |} ]}
  | fp_data li ld body rest :
      body ≠ [] → con !! req = Some li → ld ≠ li →
      footprint con req body
        (<[ld := OBytes (length body) ((Some <$> body) ++ Some NUL :: rest)]>
           {[ li := OIncoming {| in_length := length body; in_data := Some ld |} ]}).

Lemma uploading_footprint h0 req body w :
  uploading h0 req body w ↔
  ∃ f, footprint (w_con_cls w) req body f ∧ f ##ₘ h0 ∧ w_heap w = f ∪ h0.
Proof.
  split.
  - intros [w0 li Hc Hli Hh|w0 li ld b rest Hb Hc Hli Hld Hne Hh]; eexists; split_and!.
    + by constructor.
    + by apply map_disjoint_singleton_l_2.
    + by rewrite Hh, <- insert_union_singleton_l.
    + by apply (fp_data _ _ li ld b rest).
    + apply map_disjoint_insert_l_2; [done|]. by apply map_disjoint_singleton_l_2.
    + rewrite Hh, <- insert_union_l. by rewrite <- insert_union_singleton_l.
  - intros (f & [li Hc|li ld b rest Hb Hc Hne] & Hd & Hh).
    + apply map_disjoint_singleton_l in Hd. apply (upload_started _ _ _ li); [done..|].
      by rewrite Hh, <- insert_union_singleton_l.
    + apply map_disjoint_insert_l in Hd as [Hld Hd]. apply map_disjoint_singleton_l in Hd.
      apply (upload_data _ _ _ li ld b rest); [done..|].
      rewrite Hh, <- insert_union_l. by rewrite <- insert_union_singleton_l.
Qed.

Lemma footprint_con con con' req body f :
  footprint con req body f → con' !! req = con !! req → footprint con' req body f.
Proof. intros [] Hc; econstructor; congruence. Qed.

(** The heap [h] is [base] and, apart from it and from each other, the blocks
    of the uploads [open]. *)
Inductive holding (base : gmap positive obj) (con : gmap positive positive)
    : gmap positive (list ascii) → gmap positive obj → Prop :=
  | holding_none : holding base con ∅ base
  | holding_more open req body f h :
      open !! req = None → footprint con req body f → f ##ₘ h → holding base con open h →
      holding base con (<[req := body]> open) (f ∪ h).

(** Any upload can be singled out. *)
Lemma holding_take base con open h req body :
  holding base con open h → open !! req = Some body →
  ∃ f h0, footprint con req body f ∧ f ##ₘ h0 ∧ h = f ∪ h0
          ∧ holding base con (delete req open) h0.
Proof.
  induction 1 as [|open req' body' f' h Hreq Hf Hd Hh IH]; intros Hopen.
  { by rewrite lookup_empty in Hopen. }
  destruct (decide (req' = req)) as [->|Hne].
  - rewrite lookup_insert_eq in Hopen. injection Hopen as ->. exists f', h.
    by rewrite delete_insert_id.
  - rewrite lookup_insert_ne in Hopen by done.
    destruct (IH Hopen) as (f & h0 & Hf0 & Hd0 & -> & Hh0).
    apply map_disjoint_union_r in Hd as [Hd1 Hd2]. exists f, (f' ∪ h0). split_and!.
    + done.
    + by apply map_disjoint_union_r_2.
    + rewrite !(map_union_assoc (M := gmap positive)). f_equal. by apply map_union_comm.
    + rewrite delete_insert_ne by done. apply holding_more; [|done..].
      by rewrite lookup_delete_ne.
Qed.

Lemma holding_con base con con' open h :
  holding base con open h → (∀ req, is_Some (open !! req) → con' !! req = con !! req) →
  holding base con' open h.
Proof.
  induction 1 as [|open req body f h Hreq Hf Hd Hh IH]; intros Hc; [constructor|].
  apply holding_more; [done| |done|].
  - eapply footprint_con; [exact Hf|]. apply Hc. rewrite lookup_insert_eq. by eexists.
  - apply IH. intros r Hr. apply Hc. apply lookup_insert_is_Some'. by right.
Qed.

(** A block of the base may change. *)
Lemma holding_base base con open h l o o' :
  holding base con open h → base !! l = Some o →
  h !! l = Some o ∧ holding (<[l := o']> base) con open (<[l := o']> h).
Proof.
  intros Hh Hl. induction Hh as [|open req body f h Hreq Hf Hd Hh [IHl IHh]]; [by split; [|constructor]|].
  assert (Hfl : f !! l = None) by (by eapply map_disjoint_Some_l).
  split; [by rewrite lookup_union_r|]. rewrite insert_union_r by done.
  apply holding_more; [done..| |done]. by apply map_disjoint_insert_r.
Qed.

(** The base may grow. *)
Lemma holding_base_insert base con open h l o :
  holding base con open h → h !! l = None → holding (<[l := o]> base) con open (<[l := o]> h).
Proof.
  induction 1 as [|open req body f h Hreq Hf Hd Hh IH]; intros Hl; [constructor|].
  apply lookup_union_None in Hl as [Hfl Hhl]. rewrite insert_union_r by done.
  apply holding_more; [done..| |by apply IH]. by apply map_disjoint_insert_r.
Qed.

Lemma holding_base_delete base con open h l o :
  holding base con open h → base !! l = Some o → holding (delete l base) con open (delete l h).
Proof.
  intros Hh Hl. induction Hh as [|open req body f h Hreq Hf Hd Hh IH]; [constructor|].
  assert (Hhl : h !! l = Some o) by (by eapply (holding_base _ _ _ _ _ _ o)).
  assert (Hfl : f !! l = None) by (by eapply map_disjoint_Some_l).
  rewrite delete_union, (delete_id f) by done.
  apply holding_more; [done..| |done]. by apply map_disjoint_delete_r.
Qed.

Lemma holding_base_lookup base con open h l o :
  holding base con open h → base !! l = Some o → h !! l = Some o.
Proof. intros Hh Hl. by apply (holding_base base con open h l o o). Qed.

Lemma holding_base_fresh base con open h l :
  holding base con open h → h !! l = None → base !! l = None.
Proof.
  intros Hh Hl. destruct (base !! l) as [o|] eqn:E; [|done].
  by rewrite (holding_base_lookup _ _ _ _ _ _ Hh E) in Hl.
Qed.

(** Some of the uploads can be counted to the base, and back. *)
Lemma holding_split base con o1 o2 h :
  o1 ##ₘ o2 → holding base con (o1 ∪ o2) h →
  ∃ h1, holding base con o1 h1 ∧ holding h1 con o2 h.
Proof.
  revert h. induction o2 as [|req body o2 Hreq IH] using map_ind; intros h Hd Hh.
  { rewrite (right_id_L ∅ (∪)) in Hh. exists h. split; [done|constructor]. }
  apply map_disjoint_insert_r in Hd as [H1 Hd].
  destruct (holding_take _ _ _ _ req body Hh) as (f & h0 & Hf & Hdf & -> & Hh0).
  { by rewrite lookup_union_r, lookup_insert_eq. }
  rewrite delete_union, (delete_id o1), delete_insert_id in Hh0 by done.
  destruct (IH h0 Hd Hh0) as (h1 & Hb & Hh1). exists h1. split; [done|]. by apply holding_more.
Qed.

Lemma holding_join base con o1 h1 o2 h :
  o1 ##ₘ o2 → holding base con o1 h1 → holding h1 con o2 h → holding base con (o1 ∪ o2) h.
Proof.
  intros Hd Hb. induction 1 as [|o2 req body f h Hreq Hf Hdf _ IH].
  { by rewrite (right_id_L ∅ (∪)). }
  apply map_disjoint_insert_r in Hd as [H1 Hd].
  rewrite <- insert_union_r by done. apply holding_more; [|done|done|by apply IH].
  by apply lookup_union_None.
Qed.

(** The number of blocks: one for each upload, and one more when it has data. *)
Lemma holding_size base con open h :
  holding base con open h →
  size h = (size base + size open + size (filter (λ kv, kv.2 ≠ []) open))%nat.
Proof.
  induction 1 as [|open req body f h Hreq Hf Hd Hh IH].
  { rewrite map_filter_empty, !map_size_empty. lia. }
  rewrite map_size_disj_union, IH by done. rewrite (map_size_insert_None _ _ _ Hreq).
  destruct Hf as [li Hc|li ld body rest Hb Hc Hne].
  - rewrite map_size_singleton, map_filter_insert_False, delete_id by (done || (cbn; tauto)). lia.
  - rewrite map_filter_insert_True by done.
    rewrite !map_size_insert_None, map_size_singleton;
      [lia|apply map_lookup_filter_None; by left|by apply lookup_singleton_ne].
Qed.

(** * One unit's share of the process

    Several units may run: each has its client, its server, and the requests
    its server hands it. *)
Record unit_view := {
  uv_client : mosq_ptr;
  uv_daemon : ptr;
  uv_owns : positive → bool;
}.

Definition apart (v v' : unit_view) : Prop :=
  uv_client v ≠ uv_client v' ∧ uv_daemon v ≠ uv_daemon v'
  ∧ ∀ req, uv_owns v req = true → uv_owns v' req = false.

Lemma apart_sym v v' : apart v v' → apart v' v.
Proof.
  intros (Hc & Hd & Ho). split_and!; [congruence..|]. intros req Hr.
  destruct (uv_owns v req) eqn:E; [|done]. by rewrite (Ho req E) in Hr.
Qed.

(** The replies given for its requests, latest first. *)
Fixpoint answered (owns : positive → bool) (tr : list event) : list (positive * Z * nat) :=
  match tr with
  | [] => []
  | Ev c _ :: tr' =>
      match c with
      | X_MHD_answered req ret rest =>
          if owns req then (req, ret, rest) :: answered owns tr' else answered owns tr'
      | _ => answered owns tr'
      end
  end.

(** The calls of the handler its server has made, oldest first. *)
Definition delivered (daemon : ptr) {A} (c : ext A) : A → list mhd_call :=
  match c in ext A return A → list mhd_call with
  | X_MHD_run d => λ r, if bool_decide (d = daemon) then r else []
  | _ => λ _, []
  end.

Fixpoint seen (daemon : ptr) (tr : list event) : list mhd_call :=
  match tr with
  | [] => []
  | Ev c r :: tr' => seen daemon tr' ++ delivered daemon c r
  end.

(** The unit's uploads are where [w0] has them: no message, no reply, no call. *)
Record idle (v : unit_view) (w0 w : World) : Prop := {
  id_con : ∀ req, uv_owns v req = true → w_con_cls w !! req = w_con_cls w0 !! req;
  id_sent : published (uv_client v) (w_trace w) = published (uv_client v) (w_trace w0);
  id_replies : answered (uv_owns v) (w_trace w) = answered (uv_owns v) (w_trace w0);
  id_seen : seen (uv_daemon v) (w_trace w) = seen (uv_daemon v) (w_trace w0);
}.

#[export] Instance idle_proper v w0 : Proper ((≡) ==> iff) (idle v w0).
Proof.
  assert (Himp : ∀ w1 w2 : World, w1 ≡ w2 → idle v w0 w1 → idle v w0 w2).
  { intros w1 w2 H []. pose proof (w_con_cls_proper _ _ H) as Hc.
    pose proof (w_trace_proper _ _ H) as Ht. by split; rewrite <- ?Hc, <- ?Ht. }
  intros w1 w2 H. by split; apply Himp.
Qed.

#[export] Instance idle_preorder v : PreOrder (idle v).
Proof.
  split; [by intros w|]. intros w1 w2 w3 [E1 ? ? ?] [E2 ? ? ?]. split; [|congruence..].
  intros req Hr. by rewrite E2, E1.
Qed.

(** The same for all other units, of both directions. *)
Record undisturbed (v : unit_view) (w w' : World) : Prop := {
  un_views : ∀ v', apart v v' → idle v' w w';
  un_still : still (uv_client v) w w';
}.

#[export] Instance undisturbed_proper v w : Proper ((≡) ==> iff) (undisturbed v w).
Proof.
  assert (Himp : ∀ w1 w2 : World, w1 ≡ w2 → undisturbed v w w1 → undisturbed v w w2).
  { intros w1 w2 H [Hv Hs]. split; [|by rewrite <- H]. intros v' Hv'. rewrite <- H. by apply Hv. }
  intros w1 w2 H. by split; apply Himp.
Qed.

#[export] Instance undisturbed_preorder v : PreOrder (undisturbed v).
Proof.
  split; [by split|]. intros w1 w2 w3 [Hv1 Hs1] [Hv2 Hs2]. split; [|by etrans].
  intros v' Hv. etrans; [by apply Hv1|by apply Hv2].
Qed.

Lemma idle_undisturbed v w w' : (∀ v', idle v' w w') → still (uv_client v) w w' → undisturbed v w w'.
Proof. intros Hi Hs. split; [|done]. intros v' _. apply Hi. Qed.

(** What a unit does concerns no request of another. *)
Lemma undisturbed_con v w w' req :
  undisturbed v w w' → uv_owns v req = false → w_con_cls w' !! req = w_con_cls w !! req.
Proof.
  intros Hun Hreq.
  set (v' := {| uv_client := Pos.succ (uv_client v);
                uv_daemon := match uv_daemon v with Some _ => None | None => Some 1%positive end;
                uv_owns := λ req, negb (uv_owns v req) |}).
  apply (id_con v'); [|cbn; by rewrite Hreq]. apply (un_views _ _ _ Hun). split_and!; cbn.
  - lia.
  - by destruct (uv_daemon v).
  - intros r Hr. by rewrite Hr.
Qed.

(** * The handler implements the machine *)

(** The table of requests, the trace and the data are those of the state [s]. *)
Record tracks (v : unit_view) (s : uploads) (w : World) : Prop := {
  tk_con : ∀ req, uv_owns v req = true →
    (w_con_cls w !! req = None ↔ receiving s !! req = None ∧ req ∉ finished s);
  tk_owns : ∀ req, is_Some (receiving s !! req) → uv_owns v req = true;
  tk_sent : published (uv_client v) (w_trace w) = sent s;
  tk_replies : answered (uv_owns v) (w_trace w) = replies s;
  tk_text : text_only s;
}.

(** The world [w] represents the abstract state [s], besides the heap [base]. *)
Record represents (v : unit_view) (base : gmap positive obj) (s : uploads) (w : World)
    : Prop := {
  rp_heap : holding base (w_con_cls w) (receiving s) (w_heap w);
  rp_tracks : tracks v s w;
}.

Lemma tracks_idle v s w w' : tracks v s w → idle v w w' → tracks v s w'.
Proof.
  intros [Hc Ho Hs Hr Ht] [Ec Ep Ea _]. split; [|done|congruence..|done].
  intros req Hreq. by rewrite Ec, Hc.
Qed.

Lemma holding_idle v base s w w' h :
  tracks v s w → idle v w w' → holding base (w_con_cls w) (receiving s) h →
  holding base (w_con_cls w') (receiving s) h.
Proof.
  intros Ht [Ec _ _ _] Hh. eapply holding_con; [exact Hh|]. intros req Hreq.
  by apply Ec, (tk_owns _ _ _ Ht).
Qed.

Lemma represents_idle v base s w w' :
  represents v base s w → idle v w w' → w_heap w' = w_heap w → represents v base s w'.
Proof.
  intros [Hh Ht] Hi Eh. split; [|by eapply tracks_idle]. rewrite Eh. by eapply holding_idle.
Qed.

Lemma ok_unit (u : unit) : Ok u = Ok tt.
Proof. by destruct u. Qed.

Section handler.
Context `{EV : Env} (qs : positive → cstr) (qos0 : Z).

(** What the handler relies on: memory with slack behind the blocks, the same
    query string whenever it is asked for, responses that are created and can
    be queued, and only log callbacks while publishing. *)
Record HandlerCalls (m : mosq_ptr) : Prop := {
  hc_memory : memory_ok;
  hc_slack : slack;
  hc_qos : ∀ tr req, answer tr _ (X_MHD_lookup_connection_value req "qos") = qs req;
  hc_response : ∀ tr, is_Some (answer tr _ ok_response);
  hc_queue : ∀ tr req r, answer tr _ (X_MHD_queue_response req MHD_HTTP_OK (Some r)) = MHD_YES;
  hc_publish : ∀ tr t body qos, log_only (fst (answer tr _ (publish_call m t body qos))) = true;
}.

Context (v : unit_view) (Hcalls : HandlerCalls (uv_client v)).
Context (l : positive) (h : MqttClientHandle) (Hm : mosq h = uv_client v).

(** One call of the handler is one step of the machine, to the state [s']. *)
Abbreviation steps base s' w := (λ o w',
  o = Ok tt ∧ represents v base s' w' ∧ w_log w' = w_log w ∧ undisturbed v w w').

(** Another method than POST. *)
Lemma wp_call_refused base c s w :
  uv_owns v (mh_request c) = true → log_ready (w_log w) → represents v base s w →
  mh_method c ≠ "POST" → text_only (refuse c s) →
  wp (handle_call (Some l) qos0 c) (steps base (refuse c s) w) w.
Proof.
  intros Hown Hlog [Hh [Hc Ho Hs Hr _]] Em Ht. unfold handle_call. wp_step.
  unfold answer_to_connection. wp_go. rewrite bool_decide_false by done. cbn [negb]. wp_steps.
  split_and!; [apply ok_unit| |done|].
  - split; [done|]. split; cbn; rewrite ?Hown, ?Hs, ?Hr; done.
  - split; [|by split]. intros v' (_ & _ & Hv). split; cbn; rewrite ?Hv, ?app_nil_r; done.
Qed.

(** The first call of a request. *)
Lemma wp_call_first base c s w :
  uv_owns v (mh_request c) = true → log_ready (w_log w) → represents v base s w →
  mh_method c = "POST" → mh_request c ∉ finished s → receiving s !! mh_request c = None →
  printable (mh_upload_data c) = true → text_only (open_upload c s) →
  wp (handle_call (Some l) qos0 c) (steps base (open_upload c s) w) w.
Proof.
  intros Hown Hlog [Hh [Hc Ho Hs Hr _]] Em Ef Eb Epr Ht. unfold handle_call. wp_step.
  assert (Hcon : w_con_cls w !! mh_request c = None) by (by apply Hc).
  eapply (wp_first (w_heap w)); [done| |exact Hcon|done|intros; apply (hc_memory _ Hcalls)|].
  { split; [done|]. intros d Hd. rewrite Hd in Epr. by apply bool_decide_eq_true in Epr. }
  intros w1 li Hup1 Hlg1 Hcc1 Ht1. wp_steps. split_and!; [apply ok_unit| |exact Hlg1|].
  - apply uploading_footprint in Hup1 as (f1 & Hf1 & Hd1 & Hheap1). split.
    { cbn. rewrite Hheap1. apply holding_more; [done..|]. eapply holding_con; [exact Hh|].
      intros req Hreq. rewrite Hcc1, lookup_insert_ne; [done|]. intros <-.
      rewrite Eb in Hreq. by destruct Hreq. }
    split; cbn; rewrite ?Ht1; cbn; [| |done|by rewrite Hown, Hr|exact Ht].
    + intros req Hreq. rewrite Hcc1. destruct (decide (req = mh_request c)) as [->|Hne].
      * rewrite !lookup_insert_eq. split; [done|]. by intros [? _].
      * rewrite !lookup_insert_ne by done. by apply Hc.
    + intros req Hreq. apply lookup_insert_is_Some' in Hreq as [<-|Hreq]; auto.
  - split; [|by split; cbn; rewrite Ht1].
    intros v' (_ & _ & Hv). split; cbn; rewrite ?Ht1, ?Hcc1; cbn; rewrite ?Hv, ?app_nil_r; try done.
    intros req Hreq. rewrite lookup_insert_ne; [done|]. intros <-. by rewrite Hv in Hreq.
Qed.

(** A call with data, of a request under way. *)
Lemma wp_call_chunk base c s body chunk w :
  uv_owns v (mh_request c) = true → log_ready (w_log w) → represents v base s w →
  mh_method c = "POST" → receiving s !! mh_request c = Some body →
  mh_upload_data_size c ≠ 0%nat → chunk_of c = Some chunk →
  text_only (append_chunk c (body ++ chunk) s) →
  wp (handle_call (Some l) qos0 c) (steps base (append_chunk c (body ++ chunk) s) w) w.
Proof.
  intros Hown Hlog [Hh [Hc Ho Hs Hr _]] Em Eb Ez Ec Ht. unfold handle_call. wp_step.
  destruct (holding_take _ _ _ _ _ _ Hh Eb) as (f & h0 & Hf & Hd & Hheap & Hrest).
  assert (Hup : uploading h0 (mh_request c) body w) by (apply uploading_footprint; by exists f).
  eapply wp_chunk; [done|exact Hup|by apply chunk_of_Some|intros; apply (hc_memory _ Hcalls)|].
  rewrite (proj2 (Nat.ltb_lt _ _)) by apply (hc_slack _ Hcalls).
  intros w1 Hup1 Hlg1 Hcc1 Ht1. wp_steps. split_and!; [apply ok_unit| |exact Hlg1|].
  - apply uploading_footprint in Hup1 as (f1 & Hf1 & Hd1 & Hheap1). rewrite Hcc1 in Hf1. split.
    { cbn. rewrite Hheap1, Hcc1, <- (insert_delete_eq (receiving s)).
      apply holding_more; [apply lookup_delete_eq|done..]. }
    split; cbn; rewrite ?Ht1; cbn; [| |done|by rewrite Hown, Hr|exact Ht].
    + intros req Hreq. rewrite Hcc1, Hc by done.
      destruct (decide (req = mh_request c)) as [->|Hne].
      * rewrite lookup_insert_eq, Eb. by split; intros [? _].
      * by rewrite lookup_insert_ne.
    + intros req Hreq. apply lookup_insert_is_Some' in Hreq as [<-|Hreq]; auto.
  - split; [|by split; cbn; rewrite Ht1].
    intros v' (_ & _ & Hv). split; cbn; rewrite ?Ht1, ?Hcc1; cbn; by rewrite ?Hv, ?app_nil_r.
Qed.

(** The last call of a request. *)
Lemma wp_call_final base c s body t q ok qos w :
  uv_owns v (mh_request c) = true → log_ready (w_log w) → represents v base s w →
  base !! l = Some (OHandle h) → mh_method c = "POST" →
  receiving s !! mh_request c = Some body → mh_upload_data_size c = 0%nat →
  skip_first (mh_url c) = Some t → qs (mh_request c) = Some q →
  parseInt (Some q) qos0 = Ok (ok, qos) → body ≠ [] → text_only (publish_upload c t body qos s) →
  wp (handle_call (Some l) qos0 c) (steps base (publish_upload c t body qos s) w) w.
Proof.
  intros Hown Hlog [Hh [Hc Ho Hs Hr Htext]] Hl Em Eb Ez Et Eq Ep Hne Ht. unfold handle_call. wp_step.
  destruct (holding_take _ _ _ _ _ _ Hh Eb) as (f & h0 & Hf & Hd & Hheap & Hrest).
  assert (Hup : uploading h0 (mh_request c) body w) by (apply uploading_footprint; by exists f).
  assert (∃ c0, mh_url c = String c0 t) as [c0 Hurl].
  { destruct (mh_url c) as [|c0 t']; [done|]. injection Et as ->. by exists c0. }
  assert (Hl0 : h0 !! l = Some (OHandle h)) by (by eapply holding_base_lookup).
  eapply (wp_final h0 l h qos0 qos ok c c0 t q body);
    [done|exact Hup|done|by eapply Htext|done|exact Hurl|exact Hl0| |exact Ep| |].
  { by rewrite (hc_qos _ Hcalls). }
  { intros tr. rewrite Hm. apply (hc_publish _ Hcalls). }
  intros o ret (tr & tr' & Hret). destruct (hc_response _ Hcalls tr') as [r Hresp].
  rewrite Hresp, (hc_queue _ Hcalls) in Hret. subst ret. wp_steps.
  split_and!; [apply ok_unit| |done|].
  - split; [exact Hrest|]. split; cbn; [| | |by rewrite Hown, Hr|exact Ht].
    + intros req Hreq. rewrite Hc by done.
      destruct (decide (req = mh_request c)) as [->|Hne']; [rewrite Eb; set_solver|].
      rewrite lookup_delete_ne by done. set_solver.
    + intros req [b Hb]. apply lookup_delete_Some in Hb as [_ Hb]. apply Ho. by eexists.
    + by rewrite Hm, bool_decide_true, Hs.
  - split; [|split; [done|intros home Hno; cbn; by rewrite Hm, Hno]].
    intros v' (Hv1 & _ & Hv). split; cbn; rewrite ?app_nil_r; [done| |by rewrite Hv|done].
    by rewrite Hm, bool_decide_false.
Qed.

Lemma wp_handle_call base c s s' w :
  uv_owns v (mh_request c) = true →
  log_ready (w_log w) → base !! l = Some (OHandle h) → represents v base s w →
  spec_call qs qos0 c s = Some s' →
  wp (handle_call (Some l) qos0 c) (steps base s' w) w.
Proof.
  intros Hown Hlog Hl Hrep Hspec.
  pose proof (spec_call_text qs qos0 _ _ _ Hspec (tk_text _ _ _ (rp_tracks _ _ _ _ Hrep))) as Ht.
  unfold spec_call in Hspec. destruct (decide (mh_method c = "POST")) as [Em|Em].
  2: { rewrite bool_decide_false in Hspec by done. injection Hspec as <-. by apply wp_call_refused. }
  rewrite bool_decide_true in Hspec by done. cbn [negb] in Hspec.
  destruct (bool_decide (mh_request c ∈ finished s)) eqn:Ef; [done|].
  apply bool_decide_eq_false in Ef.
  destruct (receiving s !! mh_request c) as [body|] eqn:Eb.
  2: { destruct (printable (mh_upload_data c)) eqn:Epr; [|done]. injection Hspec as <-.
       by apply wp_call_first. }
  destruct (mh_upload_data_size c =? 0)%nat eqn:Ez; cbn [negb] in Hspec.
  - apply Nat.eqb_eq in Ez. destruct (skip_first (mh_url c)) as [t|] eqn:Et; [|done].
    cbn in Hspec. destruct (qs (mh_request c)) as [q|] eqn:Eq; [|done].
    destruct (parseInt (Some q) qos0) as [[ok qos]| | | |] eqn:Ep; try done.
    destruct (decide (body = [])) as [|Hne]; [by rewrite bool_decide_true in Hspec|].
    rewrite bool_decide_false in Hspec by done. injection Hspec as <-. by eapply wp_call_final.
  - apply Nat.eqb_neq in Ez. destruct (chunk_of c) as [chunk|] eqn:Ec; [|done].
    injection Hspec as <-. by apply wp_call_chunk.
Qed.

(** Any sequence of calls. *)
Lemma wp_handle_calls base cs s s' w :
  Forall (λ c, uv_owns v (mh_request c) = true) cs →
  log_ready (w_log w) → base !! l = Some (OHandle h) → represents v base s w →
  spec_calls qs qos0 cs s = Some s' →
  wp (for_each cs (handle_call (Some l) qos0)) (λ o w',
    o = Ok tt ∧ represents v base s' w' ∧ w_log w' = w_log w ∧ undisturbed v w w') w.
Proof.
  intros Hown Hlog Hl. revert s w Hlog.
  induction Hown as [|c cs Hc Hcs IH]; intros s w Hlog Hrep Hspec.
  { injection Hspec as <-. by wp_steps. }
  cbn in Hspec. destruct (spec_call qs qos0 c s) as [s1|] eqn:E1; [|done].
  cbn [for_each]. wp_step. eapply wp_mono; [by eapply wp_handle_call|].
  intros o w1 (-> & Hrep1 & Hlg1 & Hun1). wp_step.
  eapply wp_mono; [apply (IH s1); [by rewrite Hlg1|done|exact Hspec]|].
  intros o w2 (-> & Hrep2 & Hlg2 & Hun2). split_and!; [done|done|congruence|by etrans].
Qed.

End handler.

(** * Properties *)
Section properties.
Context `{EV : Env} (qs : positive → cstr) (qos0 : Z).



End properties.

(** ** Witnesses *)
Import Demo.

Definition demo_qs : positive → cstr := λ _, Some "1".

Lemma demo_handler_calls : HandlerCalls (EV := demo_env 8 all_ok) demo_qs 1%positive.
Proof.
  split; try (intros tr; reflexivity); [split; intros; reflexivity|intros n; cbn; lia|by eexists].
Defined.

(** The calls of request [req]; two requests that overlap. *)
Definition demo_of (req : positive) (url : string) (d : option string) (n : nat) : mhd_call := {|
  mh_request := req; mh_url := url; mh_method := "POST"; mh_version := "HTTP/1.1";
  mh_upload_data := (λ s, explode s ++ [NUL]) <$> d; mh_upload_data_size := n |}.

Definition overlapping : list mhd_call :=
  [demo_of 1 "/a" None 0; demo_of 2 "/b" None 0; demo_of 2 "/b" (Some "x") 1;
   demo_of 1 "/a" (Some "on") 2; demo_of 2 "/b" (Some "yz") 2; demo_of 2 "/b" None 0;
   demo_of 1 "/a" None 0; demo_of 3 "/c" None 0].

Definition one_by_one : list mhd_call :=
  [demo_of 2 "/b" None 0; demo_of 2 "/b" (Some "x") 1; demo_of 2 "/b" (Some "yz") 2;
   demo_of 2 "/b" None 0; demo_of 3 "/c" None 0; demo_of 1 "/a" None 0;
   demo_of 1 "/a" (Some "on") 2; demo_of 1 "/a" None 0].

Definition overlapped : uploads := {|
  receiving := {[3%positive := []]}; finished := {[1%positive; 2%positive]};
  sent := [("a", explode "on", 1); ("b", explode "xyz", 1)];
  replies := [(3%positive, 1, 0%nat); (1%positive, 1, 0%nat); (2%positive, 1, 0%nat);
    (2%positive, 1, 0%nat); (1%positive, 1, 0%nat); (2%positive, 1, 0%nat);
    (2%positive, 1, 0%nat); (1%positive, 1, 0%nat)] |}.

Lemma demo_spec : spec_calls demo_qs 0 overlapping no_uploads = Some overlapped.
Proof. vm_compute. reflexivity. Defined.

(** A process with one server. *)
Definition demo_view : unit_view :=
  {| uv_client := 1; uv_daemon := Some 1%positive; uv_owns := λ _, true |}.

Lemma demo_represents : represents demo_view rest_heap no_uploads rest_world.
Proof.
  split; [constructor|]. split; [|by intros req [? []]|reflexivity|reflexivity|by apply map_Forall_empty].
  intros req _. cbn. rewrite !lookup_empty. split; [|done]. intros _. split; [done|].
  apply not_elem_of_empty.
Defined.



End Uploads.
