(* ===== verification/RestThread.v ===== *)
(** The thread of [src/rest2mqtt_unit.c] from its start to its end: the loop
    around [poll], libmicrohttpd and libmosquitto, against the abstract machine
    of [Uploads]. *)
From Stdlib Require Import ZArith Lia ZifyBool Ascii String List.
From stdpp Require Import base numbers list strings gmap.
From S2P Require Import Prelude.
From S2P Require Import CLib.
From S2P Require Import Types.
From S2P Require Import World.
From S2P Require Import Demo.
From S2P Require Import Utils.
From S2P Require Import Logging.
From S2P Require Import MqttClient.
From S2P Require Import Mqtt2Rest.
From S2P Require Import Messages.
From S2P Require Import Rest2Mqtt.
From S2P Require Import Uploads.
Import Utils Logging MqttClient Mqtt2Rest Messages Rest2Mqtt Uploads.

Module RestThread.

(** * Calls that do not concern the uploads *)

Definition silent {A} (c : ext A) : bool :=
  match c with
  | X_mosquitto_publish _ _ _ _ _ _ | X_MHD_run _ | X_MHD_answered _ _ _ => false
  | _ => true
  end.

Section idle.
Context `{EV : Env} (v : unit_view) (w0 : World).

Lemma idle_called {A} (c : ext A) w : silent c = true → idle v w0 w → idle v w0 (called c w).
Proof.
  intros Hc [Hcc Hp Ha Hs].
  split; [done|..]; destruct c; try done; cbn; by rewrite ?app_nil_r.
Qed.

Lemma idle_heap h w : idle v w0 w → idle v w0 (set_heap h w).
Proof. by intros []. Qed.

Lemma pres_silent {A} (c : ext A) : silent c = true → preserves (idle v w0) (call c).
Proof. intros Hc. apply pres_call. intros w. by apply idle_called. Qed.

#[export] Instance idle_inv : CallbackInv (idle v w0).
Proof. split; [apply _|]. intros A c Hc. apply pres_silent. by destruct c. Qed.

Lemma pres_idle_mosq h c : silent c = true → preserves (idle v w0) (mosq_call h c).
Proof. intros Hc. apply pres_mosq_call; [apply _|]. by apply pres_silent. Qed.

Lemma pres_idle_store p o : preserves (idle v w0) (store p o).
Proof.
  destruct p as [l|]; [|apply pres_crash]. apply pres_get_bind. intros w Hw.
  destruct (w_heap w !! l); [by apply idle_heap|done].
Qed.

Lemma pres_idle_malloc n o : preserves (idle v w0) (malloc n o).
Proof.
  unfold malloc. apply pres_bind; [by apply pres_silent|]. intros []; [|apply pres_ret].
  apply pres_get_bind. intros w Hw. by apply idle_heap.
Qed.

Hint Resolve pres_silent pres_idle_mosq pres_idle_store pres_idle_malloc : pres.
Hint Extern 0 (_ = true) => reflexivity : pres.

Lemma pres_idle_init cfg : preserves (idle v w0) (mqtt_client_init cfg).
Proof. unfold mqtt_client_init. pres. Qed.

Lemma pres_idle_connect p : preserves (idle v w0) (mqtt_client_connect p).
Proof.
  assert (Hloop : ∀ n, preserves (idle v w0) (connect_loop n p)).
  { induction n as [|n IH]; cbn [connect_loop]; unfold set_connected; pres; exact IH. }
  unfold mqtt_client_connect. pres. all: apply Hloop.
Qed.

Lemma pres_idle_loop p r wr : preserves (idle v w0) (mqtt_client_loop p r wr).
Proof. unfold mqtt_client_loop, set_connected. pres. Qed.

End idle.

(** [w] comes after [w0], and libmicrohttpd has not run in between. *)
Definition handling (w0 w : World) : Prop :=
  (∃ evs, w_trace w = evs ++ w_trace w0) ∧ ∀ d, seen d (w_trace w) = seen d (w_trace w0).

#[export] Instance handling_handler `{EV : Env} w0 : HandlerInv (handling w0).
Proof.
  split; [| |by intros..].
  - intros w1 w2 H. unfold handling. by rewrite (w_trace_proper _ _ H).
  - intros A c Hc. apply pres_call. intros w [[evs Ht] Hs]. split.
    + exists (Ev c (answer (w_trace w) A c) :: evs). cbn. by rewrite Ht.
    + intros d. rewrite <- Hs. destruct c; try done; cbn; by rewrite app_nil_r.
Qed.

(** * The thread *)

(** Whatever libmosquitto calls back is survived, except a log callback at a
    level the program does not know and a subscription without result. *)
Definition good_rest_cb (cb : mosq_cb) : Prop :=
  match cb with CB_message _ _ => True | _ => plain_cb cb end.

Section thread.
Context `{EV : Env} (u : Rest2MqttUnitConfiguration) (conf : Configuration) (v : unit_view).
Context (qs : positive → cstr) (qos0 : Z).

Abbreviation m := (uv_client v).
Abbreviation daemon := (uv_daemon v).
Abbreviation client := (rest2mqtt_client_config u conf).
Abbreviation handle b := {| mosq := m; config := client; connected := b |}.
Abbreviation ready := (λ w, log_ready (w_log w)).

(** A libmicrohttpd that calls the handler for the requests of this server, as
    the handler survives it given all calls made before, and whose descriptors
    fit into the array. *)
Record GoodMhd : Prop := {
  gm_run : ∀ tr s, spec_calls qs qos0 (seen daemon tr) no_uploads = Some s →
    is_Some (spec_calls qs qos0 (answer tr _ (X_MHD_run daemon)) s);
  gm_owns : ∀ tr, Forall (λ c, uv_owns v (mh_request c) = true) (answer tr _ (X_MHD_run daemon));
  gm_fdset : ∀ tr, fs_ret (answer tr _ (X_MHD_get_fdset daemon)) = MHD_YES;
  gm_slots : ∀ tr,
    (length (poll_entries (answer tr _ (X_MHD_get_fdset daemon))) < PFD_SLOTS)%nat;
}.

(** The callbacks the thread survives. *)
Record GoodCallbacks : Prop := {
  gc_subscribe : subscribe_logs m;
  gc_read : ∀ tr, Forall good_rest_cb (fst (answer tr _ (X_mosquitto_loop_read m 1)));
  gc_write : ∀ tr, Forall good_rest_cb (fst (answer tr _ (X_mosquitto_loop_write m 1)));
  gc_misc : ∀ tr, Forall good_rest_cb (fst (answer tr _ (X_mosquitto_loop_misc m)));
}.

Context (Hcb : GoodCallbacks) (Hmhd : GoodMhd) (Hcalls : HandlerCalls qs m).

#[local] Instance rest_user : ClientUser m client ready good_rest_cb.
Proof.
  split; [done|by intros w w' H -> _| |apply Hcb..].
  intros cb w Hlog Hgood. destruct cb as [| |topic payload| |].
  3: { cbn. wp_steps. split; [done|]. auto with keeps. }
  all: apply wp_plain_cb; [done|intros t Ht; done|apply Hcb|exact Hgood].
Qed.

(** The thread serves: its client is at [l], and the uploads are those of the
    machine after all the calls seen. *)
Record serving (base : gmap positive obj) (l : positive) (b : bool) (s : uploads) (w : World)
    : Prop := {
  sv_log : log_ready (w_log w);
  sv_rep : represents v (<[l := OHandle (handle b)]> base) s w;
  sv_spec : spec_calls qs qos0 (seen daemon (w_trace w)) no_uploads = Some s;
}.

Lemma serving_handle base l b s w :
  serving base l b s w → w_heap w !! l = Some (OHandle (handle b)).
Proof.
  intros [_ [Hh _] _]. eapply holding_base_lookup; [exact Hh|apply lookup_insert_eq].
Qed.

(** Idle changes of the client's flag, and of nothing else. *)
Lemma serving_idle base l b b' s w w' :
  serving base l b s w → idle v w w' → w_log w' = w_log w →
  w_heap w' = <[l := OHandle (handle b')]> (w_heap w) → serving base l b' s w'.
Proof.
  intros [Hlog [Hh Ht] Hsp] Hi Hlg Eh. split.
  - by rewrite Hlg.
  - split; [|by eapply tracks_idle]. rewrite Eh. eapply holding_idle; [exact Ht|exact Hi|].
    destruct (holding_base _ _ _ _ l _ (OHandle (handle b')) Hh (lookup_insert_eq _ _ _)) as [_ H].
    by rewrite insert_insert_eq in H.
  - by rewrite (id_seen _ _ _ Hi).
Qed.

Lemma serving_keeps base l b s w w' :
  serving base l b s w → idle v w w' → keeps w w' → serving base l b s w'.
Proof.
  intros Hw Hi [Hl Hh _]. eapply serving_idle; [exact Hw|done..|].
  rewrite Hh. symmetry. apply insert_id. by eapply serving_handle.
Qed.

(** A call of [MHD_run] is noticed by this unit only. *)
Lemma undisturbed_run w : undisturbed v w (called (X_MHD_run daemon) w).
Proof.
  split; [|by split]. intros v' (_ & Hd & _). split; cbn; [done..|].
  by rewrite bool_decide_false, app_nil_r.
Qed.

Lemma represents_run base s w :
  represents v base s w → represents v base s (called (X_MHD_run daemon) w).
Proof. intros [Hh [Hc Ho Hs Hr Ht]]. split; [done|]. by split. Qed.

(** What [MHD_run] does: the calls it makes are those of the machine. *)
Lemma wp_MHD_run base l b s w :
  serving base l b s w →
  wp (MHD_run daemon (Some l) qos0) (λ o w', o = Ok tt ∧ (∃ s', serving base l b s' w')
    ∧ w_log w' = w_log w ∧ undisturbed v w w'
    ∧ (length (w_trace w) ≤ length (w_trace w'))%nat) w.
Proof.
  intros [Hlog Hrep Hsp]. destruct (gm_run Hmhd _ _ Hsp) as [s' Hs'].
  pose proof (gm_owns Hmhd (w_trace w)) as Hown.
  unfold MHD_run. wp_steps. set (w1 := called (X_MHD_run daemon) w).
  set (cs := answer _ _ _) in *.
  eapply wp_mono; [apply (wp_preserved _ (handling w1));
    [apply pres_for_each, pres_handle_call, _|split; [by exists []|done]|]|].
  { apply (wp_handle_calls qs qos0 v Hcalls l (handle b) eq_refl
             (<[l := OHandle (handle b)]> base) cs s s' w1);
      [done|done|apply lookup_insert_eq|by apply represents_run|done]. }
  intros o w2 ((-> & Hrep2 & Hlg2 & Hun2) & [[evs Ht2] Hseen]). split_and!; [done| |done|..].
  - exists s'. split; [by rewrite Hlg2|done|]. rewrite Hseen. cbn.
    by rewrite bool_decide_true, spec_calls_app, Hsp.
  - etrans; [apply undisturbed_run|done].
  - rewrite Ht2, length_app. cbn. lia.
Qed.

(** A pass up to [poll]. *)
Lemma wp_rest_before_poll base l b s w :
  serving base l b s w →
  wp (rest2mqtt_before_poll (Some l) daemon) (λ o w', ∃ fds,
    o = Ok (Some fds) ∧ serving base l b s w' ∧ keeps w w' ∧ (∀ v', idle v' w w')
    ∧ still m w w') w.
Proof.
  intros Hw. pose proof (sv_log _ _ _ _ _ Hw) as Hlog. pose proof (serving_handle _ _ _ _ _ Hw) as Hb.
  unfold rest2mqtt_before_poll. eapply wp_check_connection; [exact Hb|wp_go; by eauto|]. intros out.
  cbn beta iota. wp_step.
  apply wp_get_mhd_pollfds; [done|unfold PFD_SLOTS; lia|]. intros o2.
  change (w_trace (set_out ?o ?w)) with (w_trace w).
  rewrite (gm_fdset Hmhd). cbn [negb Z.eqb MHD_YES Pos.eqb].
  pose proof (gm_slots Hmhd (w_trace w)) as Hslots.
  set (fds0 := poll_entries _) in *. rewrite (proj2 (Nat.ltb_lt _ _) Hslots).
  unfold mqtt_client_get_pollfds. wp_steps. eapply wp_load_handle; [exact Hb|]. wp_steps.
  cbn [mosq]. rewrite (proj2 (Nat.leb_gt _ _) Hslots). wp_steps.
  match goal with |- ∃ _, _ ∧ _ ∧ keeps w ?w' ∧ _ => set (w1 := w') end.
  assert (Hk : keeps w w1) by (unfold w1; auto 8 with keeps).
  assert (Hi : ∀ v', idle v' w w1)
    by (intros v'; unfold w1; by repeat first [apply idle_called; [done|]|rewrite set_out_equiv]).
  eexists. split_and!; [done|by eapply serving_keeps|done|done|].
  unfold w1. by repeat first [apply still_called; [done|]|rewrite set_out_equiv].
Qed.

(** And from there on: it stops exactly when [poll] failed. *)
Lemma wp_rest_after_poll base l b s fds r w :
  serving base l b s w →
  wp (rest2mqtt_after_poll (Some l) daemon qos0 fds r) (λ o w',
    o = Ok (pr_ret r <? 0) ∧ (∃ b' s', serving base l b' s' w') ∧ w_log w' = w_log w
    ∧ undisturbed v w w' ∧ (length (w_trace w) ≤ length (w_trace w'))%nat) w.
Proof.
  intros Hw. pose proof (sv_log _ _ _ _ _ Hw) as Hlog. unfold rest2mqtt_after_poll.
  destruct (pr_ret r <? 0) eqn:Er.
  - destruct (negb (pr_errno r =? EINTR)); wp_go; (split_and!; [done| |done| |done]);
      try (rewrite ?set_out_equiv; by apply idle_undisturbed);
      exists b, s; try exact Hw.
    by eapply serving_keeps; [exact Hw|rewrite set_out_equiv|]; auto with keeps.
  - wp_step. eapply wp_mono; [by eapply wp_MHD_run|].
    intros o3 w3 (-> & [s3 Hw3] & Hlg3 & Hun3 & Hlen3). do 2 wp_step.
    eapply wp_mono; [apply (wp_preserved _ (λ w4, ∀ v', idle v' w3 w4));
      [intros w4 H4 v'; by apply pres_idle_loop|done|
       apply (wp_good_client_loop m client ready good_rest_cb (still m w3))]|].
    { by apply still_loop_inv. }
    { split; [apply Hw3|]. exists b. by eapply serving_handle. }
    { done. }
    intros o4 w4 ((-> & [Hlg4 [b4 Hh4] [evs Ht4]] & Hst4) & Hi4). wp_steps. split_and!.
    + done.
    + exists b4, s3. by eapply serving_idle.
    + by rewrite Hlg4, Hlg3.
    + etrans; [exact Hun3|by apply idle_undisturbed].
    + rewrite Ht4, length_app. lia.
Qed.

(** One pass: it stops exactly when [poll] fails. *)
Lemma wp_rest2mqtt_pass base l timeout b s w :
  serving base l b s w →
  wp (rest2mqtt_pass (Some l) daemon timeout qos0) (λ o w', ∃ tr fds stop,
    o = Ok stop ∧ (∃ b' s', serving base l b' s' w') ∧ w_log w' = w_log w ∧ undisturbed v w w'
    ∧ (length (w_trace w) < length (w_trace w'))%nat ∧ (length (w_trace w) ≤ length tr)%nat
    ∧ stop = (pr_ret (answer tr _ (X_poll fds timeout)) <? 0)) w.
Proof.
  intros Hw. unfold rest2mqtt_pass. wp_step.
  eapply wp_mono; [by eapply wp_rest_before_poll|].
  intros o w1 (fds & -> & Hw1 & Hk & Hi & Hst). do 2 wp_step.
  set (r := answer (w_trace w1) poll_result (X_poll fds timeout)). wp_steps.
  set (w2 := called (X_poll fds timeout) w1).
  assert (Hi2 : ∀ v', idle v' w1 w2) by (intros v'; by apply idle_called).
  assert (Hw2 : serving base l b s w2)
    by (eapply serving_keeps; [exact Hw1|done|unfold w2; auto with keeps]).
  eapply wp_mono; [by eapply wp_rest_after_poll|].
  intros o w3 (-> & Hw3 & Hlg3 & Hun3 & Hlen3). destruct Hk as [Hlg1 _ [evs1 Ht1]].
  exists (w_trace w1), fds, (pr_ret r <? 0). split_and!; [done|done| | | | |done].
  - by rewrite Hlg3.
  - etrans; [by apply idle_undisturbed|]. etrans; [|exact Hun3].
    apply idle_undisturbed; [done|by apply still_called].
  - unfold w2 in Hlen3. cbn in Hlen3. rewrite Ht1, length_app in Hlen3. lia.
  - rewrite Ht1, length_app. lia.
Qed.

(** The loop. *)
Lemma wp_rest2mqtt_loop base l timeout N fuel b s w :
  serving base l b s w →
  wp (rest2mqtt_loop fuel (Some l) daemon timeout qos0) (λ o w',
    (∃ b' s', serving base l b' s' w') ∧ w_log w' = w_log w ∧ undisturbed v w w'
    ∧ (o = Ok tt ∨ o = OutOfFuel)
    ∧ ((∀ tr fds, (N ≤ length tr)%nat → pr_ret (answer tr _ (X_poll fds timeout)) < 0) →
       (N < fuel + length (w_trace w))%nat → (0 < fuel)%nat → o = Ok tt)) w.
Proof.
  revert b s w. induction fuel as [|fuel IH]; intros b s w Hw; cbn [rest2mqtt_loop].
  { wp_steps. split_and!; [by exists b, s|done|done|by right|lia]. }
  wp_step. eapply wp_mono; [by eapply wp_rest2mqtt_pass|].
  intros o w1 (tr & fds & stop & -> & (b1 & s1 & Hw1) & Hlg1 & Hun1 & Hlen & Htr & Hstop). wp_step.
  destruct stop.
  - wp_steps. split_and!; [by exists b1, s1|done|done|by left|done].
  - eapply wp_mono; [by eapply IH|].
    intros o w2 (Hw2 & Hlg2 & Hun2 & Ho & Hend). split_and!; [done|congruence|by etrans|done|].
    intros Hpoll HN _. destruct fuel as [|fuel].
    + specialize (Hpoll tr fds ltac:(lia)). lia.
    + apply Hend; [done|lia|lia].
Qed.

(** Nothing has been served yet. *)
Record unserved (w : World) : Prop := {
  us_con : ∀ req, uv_owns v req = true → w_con_cls w !! req = None;
  us_sent : published m (w_trace w) = [];
  us_replies : answered (uv_owns v) (w_trace w) = [];
  us_seen : seen daemon (w_trace w) = [];
}.

Lemma unserved_idle w w' : unserved w → idle v w w' → unserved w'.
Proof.
  intros [Hc Hp Ha Hs] [Ec Ep Ea Es]. split; [|congruence..]. intros req Hr. by rewrite Ec, Hc.
Qed.

Lemma unserved_tracks w : unserved w → tracks v no_uploads w.
Proof.
  intros [Hcc Hp Ha Hse].
  split; [|intros req [? H]; cbn in H; by rewrite lookup_empty in H|done|done|by apply map_Forall_empty].
  intros req Hreq. rewrite Hcc by done. cbn. rewrite lookup_empty. split; [|done].
  intros _. split; [done|]. apply not_elem_of_empty.
Qed.

Lemma serving_start l b w w' :
  unserved w → log_ready (w_log w') → idle v w w' →
  w_heap w' = <[l := OHandle (handle b)]> (w_heap w) →
  serving (w_heap w) l b no_uploads w'.
Proof.
  intros Hun Hlog Hi Hh. pose proof (unserved_tracks w Hun) as Ht.
  split; [done| |by rewrite (id_seen _ _ _ Hi), (us_seen _ Hun)].
  split; [rewrite Hh; constructor|by eapply tracks_idle].
Qed.

(** What the thread leaves: its own heap as it was, and besides the blocks of
    the uploads in progress. *)
Record served (base : gmap positive obj) (s : uploads) (w : World) : Prop := {
  se_spec : spec_calls qs qos0 (seen daemon (w_trace w)) no_uploads = Some s;
  se_sent : published m (w_trace w) = sent s;
  se_replies : answered (uv_owns v) (w_trace w) = replies s;
  se_heap : holding base (w_con_cls w) (receiving s) (w_heap w);
}.

Lemma serving_destroyed base l b s w w' :
  base !! l = None → serving base l b s w → idle v w w' →
  w_heap w' = delete l (w_heap w) → served base s w'.
Proof.
  intros Hl [_ [Hh Ht] Hsp] Hi Eh. destruct (tracks_idle _ _ _ _ Ht Hi) as [_ _ Hs Hr _].
  split; [by rewrite (id_seen _ _ _ Hi)|done|done|]. rewrite Eh.
  eapply holding_idle; [exact Ht|exact Hi|].
  rewrite <- (delete_insert_id base l (OHandle (handle b))) by done.
  by eapply holding_base_delete; [exact Hh|apply lookup_insert_eq].
Qed.

(** The start of the thread, up to the server. *)
Lemma wp_rest_start up cp timeout w :
  GoodBroker m client → log_ready (w_log w) →
  w_heap w !! up = Some (ORest2Mqtt u) →
  r2m_common_configuration u = Some cp → w_heap w !! cp = Some (OConfiguration conf) →
  poll_timeout (mqtt_keepalive conf) = Ok timeout →
  wp (rest2mqtt_start (Some up)) (λ o w', ∃ l b tr,
    o = Ok (Some (Some l, answer tr _ (X_MHD_start_daemon (r2m_listen_port u) (Some l)), timeout))
    ∧ w_heap w !! l = None ∧ w_log w' = w_log w ∧ (∀ v', idle v' w w')
    ∧ w_heap w' = <[l := OHandle (handle b)]> (w_heap w)) w.
Proof.
  intros Hbr Hlog Hup Hcp Hconf Htime. unfold rest2mqtt_start.
  wp_steps. eapply wp_load_rest2mqtt; [exact Hup|]. wp_step. rewrite Hcp. wp_steps.
  eapply wp_load_configuration; [exact Hconf|]. wp_go.
  match goal with |- wp _ _ ?w1 => set (w1' := w1) end.
  eapply (wp_client_setup m client ready good_rest_cb (λ w', ∀ v', idle v' w1' w'));
    [done|done|done| | |reflexivity|].
  { intros w' H v'. by apply pres_idle_init. }
  { intros h w' H v'. by apply pres_idle_connect. }
  intros l b w2 Hl Hlg2 Hi2 [evs Ht2] Hh2 _. cbv beta. do 2 wp_step. rewrite Htime. wp_steps.
  exists l, b, (w_trace w2). split_and!; [done|done|done| |done].
  intros v'. apply idle_called; [done|]. etrans; [|apply Hi2]. unfold w1'. by rewrite set_out_equiv.
Qed.

(** The end: the server and the client go. *)
Lemma wp_rest_end up l b w :
  log_ready (w_log w) → w_heap w !! up = Some (ORest2Mqtt u) →
  w_heap w !! l = Some (OHandle (handle b)) →
  wp (rest2mqtt_end (Some up) (Some l) daemon) (λ o w', o = Ok tt ∧ w_log w' = w_log w
    ∧ (∀ v', idle v' w w') ∧ w_heap w' = delete l (w_heap w)) w.
Proof.
  intros Hlog Hup Hl. unfold rest2mqtt_end, mqtt_client_destroy. wp_steps.
  eapply wp_load_handle; [exact Hl|]. wp_steps. eapply wp_free; [exact Hl|]. wp_steps.
  eapply wp_load_rest2mqtt.
  { cbn. rewrite lookup_delete_ne by congruence. exact Hup. }
  wp_go. split_and!; [done..| |done]. intros v'. rewrite set_out_equiv. apply idle_heap.
  by do 2 (apply idle_called; [done|]).
Qed.

Lemma wp_rest2mqtt_unit_run N fuel up cp timeout w :
  GoodBroker m client → (∀ tr p, answer tr _ (X_MHD_start_daemon (r2m_listen_port u) p) = daemon) →
  log_ready (w_log w) → unserved w →
  w_heap w !! up = Some (ORest2Mqtt u) →
  r2m_common_configuration u = Some cp → w_heap w !! cp = Some (OConfiguration conf) →
  poll_timeout (mqtt_keepalive conf) = Ok timeout →
  (∀ tr fds, (N ≤ length tr)%nat → pr_ret (answer tr _ (X_poll fds timeout)) < 0) →
  (N < fuel)%nat →
  wp (rest2mqtt_unit_run fuel qos0 (Some up)) (λ o w',
    o = Ok tt ∧ w_log w' = w_log w ∧ ∃ s, served (w_heap w) s w') w.
Proof.
  intros Hbr Hdae Hlog Hun Hup Hcp Hconf Htime Hp HN. unfold rest2mqtt_unit_run. wp_step.
  eapply wp_mono; [by apply (wp_rest_start up cp timeout)|].
  intros o w3 (l & b & tr & -> & Hl & Hlg3 & Hi3 & Hh3). rewrite Hdae. do 2 wp_step.
  assert (Hw3 : serving (w_heap w) l b no_uploads w3).
  { apply serving_start; [done|by rewrite Hlg3|apply Hi3|done]. }
  eapply wp_mono; [by apply (wp_rest2mqtt_loop _ _ _ N fuel _ _ _ Hw3)|].
  intros o4 w4 ((b4 & s4 & Hw4) & Hlg4 & _ & _ & Hend).
  assert (o4 = Ok tt) as -> by (apply Hend; [done|lia|lia]).
  pose proof (serving_handle _ _ _ _ _ Hw4) as Hb4. pose proof (sv_log _ _ _ _ _ Hw4) as Hlog4.
  wp_step. eapply wp_mono; [apply (wp_rest_end up l b4); [done| |done]|].
  { eapply holding_base_lookup; [apply (rp_heap _ _ _ _ (sv_rep _ _ _ _ _ Hw4))|].
    rewrite lookup_insert_ne; [done|congruence]. }
  intros o5 w5 (-> & Hlg5 & Hi5 & Hh5). split_and!; [done|congruence|].
  exists s4. by eapply serving_destroyed.
Qed.

(** Without a server [MHD_get_fdset] has no answer, and the process ends. *)
Lemma wp_no_daemon fuel l b timeout w :
  (∀ tr, fs_ret (answer tr _ (X_MHD_get_fdset None)) ≠ MHD_YES) → log_ready (w_log w) →
  w_heap w !! l = Some (OHandle (handle b)) →
  wp (rest2mqtt_loop (S fuel) (Some l) None timeout qos0) (λ o _, o = Exit 1) w.
Proof.
  intros Hf Hlog Hl. cbn [rest2mqtt_loop]. wp_step.
  unfold rest2mqtt_pass. wp_step. unfold rest2mqtt_before_poll.
  eapply wp_check_connection; [exact Hl|wp_go; by eauto|]. intros out.
  cbn beta iota. wp_step.
  apply wp_get_mhd_pollfds; [done|unfold PFD_SLOTS; lia|]. intros o2.
  change (w_trace (set_out ?o ?w)) with (w_trace w).
  by rewrite (proj2 (Z.eqb_neq _ _) (Hf (w_trace w))).
Qed.

End thread.

(** * Properties *)
Section properties.
Context `{EV : Env} (u : Rest2MqttUnitConfiguration) (conf : Configuration) (v : unit_view).
Context (qs : positive → cstr) (qos0 : Z).



(** C32: A REST to MQTT unit whose server cannot be started, for instance because
    its port is taken, ends the whole process at the first pass of its loop:
    the result of [MHD_start_daemon] is not looked at, and for a NULL daemon
    [MHD_get_fdset] fails, which is fatal. *)
Theorem no_server_ends_process up cp timeout fuel w :
  GoodCallbacks v → GoodBroker (uv_client v) (rest2mqtt_client_config u conf) →
  (∀ tr p, answer tr _ (X_MHD_start_daemon (r2m_listen_port u) p) = None) →
  (∀ tr, fs_ret (answer tr _ (X_MHD_get_fdset None)) ≠ MHD_YES) →
  log_ready (w_log w) → w_heap w !! up = Some (ORest2Mqtt u) →
  r2m_common_configuration u = Some cp → w_heap w !! cp = Some (OConfiguration conf) →
  poll_timeout (mqtt_keepalive conf) = Ok timeout →
  fst (rest2mqtt_unit_run (S fuel) qos0 (Some up) w) = Exit 1.
Proof.
  intros Hcb Hbr Hnone Hf Hlog Hup Hcp Hconf Htime.
  change (wp (rest2mqtt_unit_run (S fuel) qos0 (Some up)) (λ o _, o = Exit 1) w).
  unfold rest2mqtt_unit_run. wp_step.
  eapply wp_mono; [by apply (wp_rest_start u conf v Hcb up cp timeout)|].
  intros o w3 (l & b & tr & -> & Hl & Hlg3 & _ & Hh3). rewrite Hnone. do 2 wp_step.
  eapply wp_mono; [apply (wp_no_daemon u conf v qos0 fuel l b timeout);
    [done|by rewrite Hlg3|by rewrite Hh3, lookup_insert_eq]|].
  by intros o w' ->.
Qed.

End properties.

(** ** Witnesses *)
Import Demo.

Definition demo_rest_unit : Rest2MqttUnitConfiguration := {|
  r2m_unit_name := Some "u"; r2m_enabled := true; r2m_listen_port := 8888;
  r2m_mqtt_topic_root := Some "root"; r2m_common_configuration := Some 3%positive |}.

#[export] Instance mhd_call_eq_dec : EqDecision mhd_call.
Proof. solve_decision. Defined.

(** A server to which two clients connect, one of which goes away, and a [poll]
    that is interrupted once 60 calls have been made. *)
Definition calls1 : list mhd_call := [demo_of 1 "/a" None 0; demo_of 2 "/b" None 0].
Definition calls2 : list mhd_call :=
  [demo_of 2 "/b" (Some "x") 1; demo_of 1 "/a" (Some "on") 2].
Definition calls3 : list mhd_call := [demo_of 1 "/a" None 0].

Definition next_calls (before : list mhd_call) : list mhd_call :=
  if bool_decide (before = []) then calls1
  else if bool_decide (before = calls1) then calls2
  else if bool_decide (before = calls1 ++ calls2) then calls3
  else [].

Definition serve : list event → ∀ A, ext A → A := λ tr A c,
  match c in ext A return A with
  | X_poll _ _ => if (60 <=? length tr)%nat then poll_interrupted
                  else {| pr_ret := 1; pr_errno := 0; pr_revents := [0; 1] |}
  | X_MHD_run d => next_calls (seen d tr)
  | c => answer_ok _ c
  end.

Lemma next_calls_served before s :
  spec_calls demo_qs 0 before no_uploads = Some s →
  is_Some (spec_calls demo_qs 0 (next_calls before) s).
Proof.
  intros Hs. unfold next_calls. case_bool_decide as E1; [|case_bool_decide as E2;
    [|case_bool_decide as E3; [|by eexists]]].
  - rewrite E1 in Hs. vm_compute in Hs. injection Hs as <-. vm_compute. by eexists.
  - rewrite E2 in Hs. vm_compute in Hs. injection Hs as <-. vm_compute. by eexists.
  - rewrite E3 in Hs. vm_compute in Hs. injection Hs as <-. vm_compute. by eexists.
Defined.

Lemma serve_mhd : GoodMhd (EV := demo_env 8 serve) demo_view demo_qs 0.
Proof.
  split; [|intros tr; by apply Forall_true|reflexivity|intros tr; vm_compute; lia].
  intros tr s. apply next_calls_served.
Defined.

Lemma serve_handler_calls : HandlerCalls (EV := demo_env 8 serve) demo_qs 1%positive.
Proof.
  split; try (intros tr; reflexivity); [split; intros; reflexivity|intros n; cbn; lia|by eexists].
Defined.

Lemma serve_callbacks : GoodCallbacks (EV := demo_env 8 serve) demo_view.
Proof. split; intros tr; [intros t; reflexivity|constructor..]. Defined.

Lemma serve_broker :
  GoodBroker (EV := demo_env 8 serve) 1%positive (rest2mqtt_client_config demo_rest_unit demo_conf).
Proof. split; try discriminate; intros tr; reflexivity. Defined.

Lemma serve_poll_fails : let EV := demo_env 8 serve in
  ∀ tr fds t, (60 ≤ length tr)%nat → pr_ret (answer tr _ (X_poll fds t)) < 0.
Proof.
  intros EV tr fds t H.
  change (pr_ret (if (60 <=? length tr)%nat then poll_interrupted
                  else {| pr_ret := 1; pr_errno := 0; pr_revents := [0; 1] |}) < 0).
  rewrite (proj2 (Nat.leb_le _ _)) by done. reflexivity.
Defined.


Definition rest_unit_heap : gmap positive obj :=
  {[ 2%positive := ORest2Mqtt demo_rest_unit; 3%positive := OConfiguration demo_conf ]}.


(** The port is taken. *)
Definition port_taken : list event → ∀ A, ext A → A := λ tr A c,
  match c in ext A return A with
  | X_MHD_start_daemon _ _ => None
  | X_MHD_get_fdset None => {| fs_ret := 0; fs_rs := []; fs_ws := []; fs_es := []; fs_max := -1 |}
  | c => answer_ok _ c
  end.

Lemma no_server_ends_process_witness :
  let EV := demo_env 8 port_taken in
  fst (rest2mqtt_unit_run 1 0 (Some 2%positive) (world_of console_log rest_unit_heap)) = Exit 1.
Proof.
  intros EV.
  apply (no_server_ends_process demo_rest_unit demo_conf demo_view 0 2%positive 3%positive 15000 0);
    [split; intros tr; [intros t; reflexivity|constructor..]
    |split; try discriminate; intros tr; reflexivity|reflexivity|discriminate|apply rest_ready
    |vm_compute; reflexivity|reflexivity|vm_compute; reflexivity|vm_compute; reflexivity].
Defined.

End RestThread.
