(* ===== verification/Signals.v ===== *)
(** Model of [src/main.c]: the signal handler and daemonizing. *)
From Stdlib Require Import ZArith Lia ZifyBool Ascii String List.
From stdpp Require Import base numbers list strings gmap.
From S2P Require Import Prelude.
From S2P Require Import CLib.
From S2P Require Import Types.
From S2P Require Import World.
From S2P Require Import Demo.
From S2P Require Import Utils.
From S2P Require Import Logging.
From S2P Require Import Configuration.
Import Utils Logging Configuration.

Module Signals.

Definition pid_file : string := "/var/lock/" +:+ PACKAGE_NAME.
Definition SIGINT : Z := 2.
Definition SIGUSR1 : Z := 10.
Definition SIGCHLD : Z := 17.

Section signals.
Context `{EV : Env}.

(** * Signals *)

(** [while (threads[i]) pthread_kill(threads[i++], SIGUSR1);] over the array. *)
Fixpoint kill_threads (threads : list Z) : M unit :=
  match threads with
  | [] => crash OutOfBounds
  | t :: threads' =>
      if t =? 0 then mret tt
      else call (X_pthread_kill t SIGUSR1);; kill_threads threads'
  end.

Definition handle_signal (sig : Z) : M unit :=
  if sig =? SIGUSR1 then mret tt
  else if sig =? SIGINT then
    w ← get_world;
    (if negb (w_pid_fd w =? -1) then
       r ← call (X_lockf (w_pid_fd w) true);
       (if r =? 0 then fprintf_stderr ("Failed to unlock lockfile" +:+ nl) []
        else mret tt);;
       call (X_close (w_pid_fd w));;
       mret tt
     else mret tt);;
    call (X_unlink pid_file);;
    kill_threads (w_threads w)
  else mret tt.

(** * Daemonizing *)
Definition fork_and_leave_parent : M unit :=
  pid ← call X_fork;
  if pid <? 0 then exit_process EXIT_FAILURE
  else if 0 <? pid then exit_process EXIT_SUCCESS
  else mret tt.

(** [for (fd = n; fd > 0; fd--) close(fd);] *)
Fixpoint close_down (n : nat) : M unit :=
  match n with
  | O => mret tt
  | S n' => call (X_close (Z.of_nat n));; close_down n'
  end.

Definition daemonize : M unit :=
  fork_and_leave_parent;;
  sid ← call X_setsid;
  (if sid <? 0 then exit_process EXIT_FAILURE else mret tt);;
  call (X_signal SIGCHLD true);;
  fork_and_leave_parent;;
  call (X_umask 0);;
  cd ← call (X_chdir "/");
  (if negb (cd =? 0) then
     fprintf_stderr "Failed to cd to /, exiting" [];; exit_process (-1)
   else mret tt);;
  n ← call X_sysconf_open_max;
  close_down (Z.to_nat n);;
  call (X_reopen "/dev/null" "r");;
  call (X_reopen "/dev/null" "w+");;
  call (X_reopen "/dev/null" "w+");;
  fd ← call (X_open pid_file);
  modify (set_pid_fd fd);;
  (if fd <? 0 then exit_process EXIT_FAILURE else mret tt);;
  lk ← call (X_lockf fd false);
  (if lk <? 0 then exit_process EXIT_FAILURE else mret tt);;
  pid ← call X_getpid;
  str ← lift (format ("%d" +:+ nl) [PInt pid]);
  n ← call (X_write fd str);
  (if n =? 0 then
     fprintf_stderr "Failed to writen pid into lockfile, exiting..." [];; exit_process (-1)
   else mret tt).

(** * The signal handler *)

(** The world after SIGUSR1 has been sent to the threads [ts] in order. *)
Definition signalled (ts : list Z) (w : World) : World :=
  fold_left (λ w t, called (X_pthread_kill t SIGUSR1) w) ts w.

Lemma wp_kill_threads ts rest Q w :
  Forall (λ t, t ≠ 0) ts →
  (match rest with [] => Q (Crash OutOfBounds) | t :: _ => λ w', t = 0 ∧ Q (Ok tt) w' end)
    (signalled ts w) →
  wp (kill_threads (ts ++ rest)) Q w.
Proof.
  intros Hts. revert w. induction Hts as [|t ts Ht Hts IH]; intros w HQ; cbn [app kill_threads].
  - destruct rest as [|t rest]; [exact HQ|]. destruct HQ as [-> HQ]. exact HQ.
  - rewrite (proj2 (Z.eqb_neq _ _) Ht). wp_steps. by apply IH.
Qed.

(** What SIGINT does with the lock file. *)
Definition released (w : World) : World :=
  let w1 := if w_pid_fd w =? -1 then w
            else called (X_close (w_pid_fd w)) (called (X_lockf (w_pid_fd w) true) w) in
  called (X_unlink pid_file) w1.

Lemma wp_sigint Q w :
  (∀ o, wp (kill_threads (w_threads w)) Q (set_out o (released w))) →
  wp (handle_signal SIGINT) Q w.
Proof.
  intros HQ. unfold handle_signal, released in *. cbn [Z.eqb SIGINT SIGUSR1 Pos.eqb]. wp_steps.
  destruct (w_pid_fd w =? -1); cbn [negb].
  - wp_steps. specialize (HQ (w_out w)). exact HQ.
  - wp_steps. destruct (_ =? 0); wp_steps; [apply HQ|]. specialize (HQ (w_out w)). exact HQ.
Qed.

Lemma sigint_spec ts free w :
  Forall (λ t, t ≠ 0) ts → w_threads w = ts ++ replicate free 0 →
  wp (handle_signal SIGINT) (λ o w', w' ≡ signalled ts (released w)
    ∧ o = if (free =? 0)%nat then Crash OutOfBounds else Ok tt) w.
Proof.
  intros Hts Hth. apply wp_sigint. intros out. rewrite Hth. apply wp_kill_threads; [done|].
  assert (H : ∀ w1 w2, w1 ≡ w2 → signalled ts w1 ≡ signalled ts w2).
  { clear. induction ts as [|t ts IH]; intros w1 w2 H; [done|]. apply IH. by rewrite H. }
  destruct free; cbn [replicate]; [|split; [done|]]; (split; [|done]); apply H, set_out_equiv.
Qed.

(** It leaves the heap and the logger alone. *)
Lemma sigint_keeps ts w w' :
  w' ≡ signalled ts (released w) → w_log w' = w_log w ∧ w_heap w' = w_heap w.
Proof.
  intros H. rewrite (w_log_proper _ _ H), (w_heap_proper _ _ H). clear H.
  assert (Hs : ∀ w1, w_log (signalled ts w1) = w_log w1 ∧ w_heap (signalled ts w1) = w_heap w1).
  { induction ts as [|t ts IH]; intros w1; [done|]. exact (IH (called _ w1)). }
  destruct (Hs (released w)) as [-> ->]. unfold released. by destruct (w_pid_fd w =? -1).
Qed.

(** * Daemonizing *)

(** The descriptors closed, latest first. *)
Fixpoint closed (tr : list event) : list Z :=
  match tr with
  | [] => []
  | Ev c _ :: tr' => match c with X_close fd => fd :: closed tr' | _ => closed tr' end
  end.

Lemma wp_close_down n Q w :
  (∀ w', w_log w' = w_log w → w_heap w' = w_heap w → w_threads w' = w_threads w →
     closed (w_trace w') = seqZ 1 (Z.of_nat n) ++ closed (w_trace w) → Q (Ok tt) w') →
  wp (close_down n) Q w.
Proof.
  revert w. induction n as [|n IH]; intros w HQ; cbn [close_down]; [by wp_steps; apply HQ|].
  wp_steps. apply IH. intros w' Hl Hh Ht Hc. apply HQ; [done..|]. rewrite Hc. cbn [w_trace called set_trace closed].
  rewrite seqZ_S, <- app_assoc. by replace (1 + Z.of_nat n) with (Z.of_nat (S n)) by lia.
Qed.

(** The system calls of daemonizing succeed, in the second child. *)
Record daemon_calls_ok (fd open_max : Z) : Prop := {
  dc_fork : ∀ tr, answer tr _ X_fork = 0;
  dc_setsid : ∀ tr, 0 ≤ answer tr _ X_setsid;
  dc_chdir : ∀ tr, answer tr _ (X_chdir "/") = 0;
  dc_open_max : ∀ tr, answer tr _ X_sysconf_open_max = open_max;
  dc_open : ∀ tr, answer tr _ (X_open pid_file) = fd;
  dc_fd : 0 ≤ fd;
  dc_lockf : ∀ tr, 0 ≤ answer tr _ (X_lockf fd false);
  dc_write : ∀ tr s, answer tr _ (X_write fd s) ≠ 0;
}.

(** * Properties *)


(** C35: SIGINT gives up the lock file and sends SIGUSR1 to exactly the started
    threads, in their order; then it stops at the first free slot of the table,
    and with all 32 slots in use it reads behind the table. *)
Theorem sigint_signals_threads ts free w :
  Forall (λ t, t ≠ 0) ts → w_threads w = ts ++ replicate free 0 →
  wp (handle_signal SIGINT) (λ o w', w' ≡ signalled ts (released w)
    ∧ o = if (free =? 0)%nat then Crash OutOfBounds else Ok tt) w.
Proof. apply sigint_spec. Qed.

End signals.

(** ** Witnesses *)
Import Demo.


Definition signal_world : World := set_threads (7 :: 8 :: replicate 30 0) demo_world.

Lemma sigint_signals_threads_witness :
  let EV := demo_env 8 all_ok in
  wp (handle_signal SIGINT) (λ o w',
    w' ≡ called (X_pthread_kill 8 SIGUSR1) (called (X_pthread_kill 7 SIGUSR1)
           (called (X_unlink pid_file) signal_world)) ∧ o = Ok tt) signal_world
  ∧ fst (handle_signal SIGINT (set_threads (replicate 32 7) demo_world)) = Crash OutOfBounds.
Proof.
  intros EV. split.
  - apply (sigint_signals_threads [7; 8] 30 signal_world); [|reflexivity].
    repeat constructor; discriminate.
  - apply (sigint_signals_threads (replicate 32 7) 0 (set_threads (replicate 32 7) demo_world)).
    + apply Forall_replicate. discriminate.
    + reflexivity.
Defined.

End Signals.
