(* ===== verification/Threads.v ===== *)
(** The threads of the units, [mqtt2rest_unit_run] and [rest2mqtt_unit_run], as
    state machines that share the process with each other and with SIGINT: a
    turn of a thread leads up to [poll] or from there on; and what no thread
    touches. *)
From Stdlib Require Import ZArith Lia ZifyBool Ascii String List.
From stdpp Require Import base numbers list strings gmap.
From S2P Require Import Prelude.
From S2P Require Import CLib.
From S2P Require Import Types.
From S2P Require Import World.
From S2P Require Import Utils.
From S2P Require Import Logging.
From S2P Require Import MqttClient.
From S2P Require Import Mqtt2Rest.
From S2P Require Import Rest2Mqtt.
From S2P Require Import Signals.
Import Utils Logging MqttClient Mqtt2Rest Rest2Mqtt Signals.

Module Threads.

(** * The states of a thread *)

(** The loop of a unit with the variables it reads; [arg] is the pointer given to
    [pthread_create]. *)
Inductive unit_loop :=
  | Mqtt2RestLoop (arg mqtt : ptr) (timeout : Z)
  | Rest2MqttLoop (arg mqtt daemon : ptr) (timeout : Z).

(** Where a thread is: created; at the head of its loop; inside [poll] for the
    descriptors [fds], with a signal handler having run there or not; or over. *)
Inductive thread_state :=
  | Created (f : thread_main) (arg : ptr)
  | AtHead (l : unit_loop)
  | InPoll (l : unit_loop) (fds : list pollfd) (hit : bool)
  | Ended.

Definition is_ended (t : thread_state) : bool := match t with Ended => true | _ => false end.

Definition loop_timeout (l : unit_loop) : Z :=
  match l with Mqtt2RestLoop _ _ timeout | Rest2MqttLoop _ _ _ timeout => timeout end.

(** What [poll] returns when a signal handler has run in its thread. *)
Definition interrupted : poll_result := {| pr_ret := -1; pr_errno := EINTR; pr_revents := [] |}.

(** A handler runs in a thread: [handle_signal] leaves no trace there, and only
    [poll] notices. *)
Definition hit_by_signal (t : thread_state) : thread_state :=
  match t with InPoll l fds _ => InPoll l fds true | t => t end.

(** SIGUSR1 reaches the threads whose slots the handler of SIGINT looks at, up to
    the first that is zero. *)
Fixpoint hit_slots (slots : list Z) (ts : list thread_state) : list thread_state :=
  match slots, ts with
  | tid :: slots', t :: ts' =>
      if tid =? 0 then ts else hit_by_signal t :: hit_slots slots' ts'
  | _, _ => ts
  end.

(** The handler of SIGINT itself has run in thread [i], or in [main]. *)
Definition hit_one (i : option nat) (ts : list thread_state) : list thread_state :=
  match i with Some i => alter hit_by_signal i ts | None => ts end.

(** What happens next in the process: a turn of thread [i], or SIGINT, taken by
    thread [i] or by [main]. *)
Inductive action := Turn (i : nat) | Sigint (i : option nat).

(** The call [c] returned [r]. *)
Definition returned {A} (c : ext A) (r : A) (w : World) : World :=
  set_trace (Ev c r :: w_trace w) w.

Section threads.
Context `{EV : Env}.

(** The initial content of the handler's variable, per thread. *)
Context (qos0 : ptr → Z).

Definition unit_start (f : thread_main) (arg : ptr) : M (option unit_loop) :=
  match f with
  | run_mqtt2rest =>
      started ← mqtt2rest_start arg;
      mret ('(mqtt, timeout) ← started; Some (Mqtt2RestLoop arg mqtt timeout))
  | run_rest2mqtt =>
      started ← rest2mqtt_start arg;
      mret ('(mqtt, daemon, timeout) ← started; Some (Rest2MqttLoop arg mqtt daemon timeout))
  end.

Definition before_poll (l : unit_loop) : M (option (list pollfd)) :=
  match l with
  | Mqtt2RestLoop _ mqtt _ => mqtt2rest_before_poll mqtt
  | Rest2MqttLoop _ mqtt daemon _ => rest2mqtt_before_poll mqtt daemon
  end.

Definition after_poll (l : unit_loop) (fds : list pollfd) (r : poll_result) : M bool :=
  match l with
  | Mqtt2RestLoop _ mqtt _ => mqtt2rest_after_poll mqtt r
  | Rest2MqttLoop arg mqtt daemon _ => rest2mqtt_after_poll mqtt daemon (qos0 arg) fds r
  end.

Definition loop_end (l : unit_loop) : M unit :=
  match l with
  | Mqtt2RestLoop arg _ _ => mqtt2rest_end arg
  | Rest2MqttLoop arg mqtt daemon _ => rest2mqtt_end arg mqtt daemon
  end.

(** [poll] returns: as the system answers, or interrupted. *)
Definition poll_returns (fds : list pollfd) (timeout : Z) (hit : bool) : M poll_result :=
  if hit then modify (returned (X_poll fds timeout) interrupted);; mret interrupted
  else call (X_poll fds timeout).

Definition turn (t : thread_state) : M thread_state :=
  match t with
  | Created f arg =>
      started ← unit_start f arg;
      mret (match started with Some l => AtHead l | None => Ended end)
  | AtHead l =>
      fds ← before_poll l;
      mret (match fds with Some fds => InPoll l fds false | None => AtHead l end)
  | InPoll l fds hit =>
      r ← poll_returns fds (loop_timeout l) hit;
      stop ← after_poll l fds r;
      if stop : bool then loop_end l;; mret Ended else mret (AtHead l)
  | Ended => mret Ended
  end.

(** The process by a schedule of its actions. *)
Fixpoint run_turns (schedule : list action) (ts : list thread_state) : M (list thread_state) :=
  match schedule with
  | [] => mret ts
  | Turn i :: schedule' =>
      match ts !! i with
      | Some t => t' ← turn t; run_turns schedule' (<[i := t']> ts)
      | None => run_turns schedule' ts
      end
  | Sigint i :: schedule' =>
      handle_signal SIGINT;;
      w ← get_world;
      run_turns schedule' (hit_one i (hit_slots (w_threads w) ts))
  end.

Definition all_ended (ts : list thread_state) : outcome unit :=
  if forallb is_ended ts then Ok tt else OutOfFuel.

(** The thread function given to [pthread_create]. *)
Definition unit_run (f : thread_main) (fuel : nat) (arg : ptr) : M unit :=
  match f with
  | run_mqtt2rest => mqtt2rest_unit_run fuel arg
  | run_rest2mqtt => rest2mqtt_unit_run fuel (qos0 arg) arg
  end.

(** * A thread on its own *)

Lemma bind_assoc {A B C} (m : M A) (f : A → M B) (g : B → M C) w :
  ((m ≫= f) ≫= g) w = (m ≫= (λ a, f a ≫= g)) w.
Proof. unfold mbind, M_bind. by destruct (m w) as [[] ?]. Qed.

Lemma bind_ext_ok {A B} (m : M A) (f g : A → M B) w :
  (∀ a w', m w = (Ok a, w') → f a w' = g a w') → (m ≫= f) w = (m ≫= g) w.
Proof.
  intros H. unfold mbind, M_bind. destruct (m w) as [[] ?] eqn:E; [by apply H|done..].
Qed.

Lemma bind_ext {A B} (m : M A) (f g : A → M B) w :
  (∀ a w', f a w' = g a w') → (m ≫= f) w = (m ≫= g) w.
Proof. intros H. by apply bind_ext_ok. Qed.

Lemma bind_head {A B} (m m' : M A) (f : A → M B) w : m w = m' w → (m ≫= f) w = (m' ≫= f) w.
Proof. unfold mbind, M_bind. by intros ->. Qed.

(** [mqtt_client_reconnect] always succeeds, so no pass is cut short. *)
Lemma returns_retry I p (conn : bool) (log : M unit) w :
  preserves I log → I w →
  wp (if negb conn then log;; ok ← mqtt_client_reconnect p; mret (negb ok)
      else mret false : M bool) (returns (λ b w1, b = false ∧ I w1)) w.
Proof.
  intros Hlog Hw. destruct conn; cbn [negb]; [by split|].
  apply (returns_bind I); [done..|]. intros _ w1 _ Hw1.
  unfold mqtt_client_reconnect. destruct p as [l|]; [|done]. by split.
Qed.

Lemma before_poll_some l w :
  wp (before_poll l) (returns (λ fds _, is_Some fds)) w.
Proof.
  assert (Htrue : ∀ A (m : M A), preserves (λ _, True) m) by done.
  assert (Hthen : ∀ A (m : M A) (k : A → M (option (list pollfd))) w',
    (∀ a w1, wp (k a) (returns (λ fds _, is_Some fds)) w1) →
    wp (m ≫= k) (returns (λ fds _, is_Some fds)) w')
    by (intros A m k w' Hk; by apply (returns_bind (λ _, True))).
  destruct l as [arg mqtt timeout|arg mqtt daemon timeout]; cbn [before_poll];
    unfold mqtt2rest_before_poll, rest2mqtt_before_poll; apply Hthen; intros conn w1;
    (apply (returns_seq (λ b _, b = false)); [eapply returns_mono; [by apply (returns_retry (λ _, True))|by intros b w2 []]|]);
    intros b w2 ->; repeat (apply Hthen; intros); apply returns_ret; by eexists.
Qed.

(** [n] turns of a thread that must have ended after them. *)
Definition turns (n : nat) (t : thread_state) : M unit :=
  ts ← run_turns (replicate n (Turn 0)) [t]; lift (all_ended ts).

Lemma turns_S n t w : turns (S n) t w = (t' ← turn t; turns n t') w.
Proof. unfold turns. cbn [replicate run_turns lookup list_lookup]. apply bind_assoc. Qed.

Lemma turns_ended n w : turns n Ended w = (Ok tt, w).
Proof. induction n as [|n IH]; [done|]. rewrite turns_S. exact IH. Qed.

Lemma end_turns n l w : ((loop_end l;; mret Ended) ≫= turns n) w = loop_end l w.
Proof.
  rewrite bind_assoc. change ((loop_end l ≫= λ _, mret Ended ≫= turns n) w = loop_end l w).
  unfold mbind, M_bind. destruct (loop_end l w) as [[[]| | | |] w2]; try done. apply turns_ended.
Qed.

(** One pass and what follows it. *)
Definition pass (l : unit_loop) : M bool :=
  match l with
  | Mqtt2RestLoop _ mqtt timeout => mqtt2rest_pass mqtt timeout
  | Rest2MqttLoop arg mqtt daemon timeout => rest2mqtt_pass mqtt daemon timeout (qos0 arg)
  end.

Lemma pass_poll l w :
  pass l w = (fds ← before_poll l;
    match fds with
    | None => mret false
    | Some fds => r ← call (X_poll fds (loop_timeout l)); after_poll l fds r
    end) w.
Proof. by destruct l. Qed.

Lemma turns_pass n l w :
  turns (S (S n)) (AtHead l) w
  = (stop ← pass l; if stop : bool then loop_end l else turns n (AtHead l)) w.
Proof.
  rewrite turns_S. cbn [turn]. rewrite bind_assoc, (bind_head _ _ _ _ (pass_poll l w)), bind_assoc.
  apply bind_ext_ok. intros fds w1 E.
  pose proof (before_poll_some l w) as Hs. unfold wp in Hs. rewrite E in Hs. destruct Hs as [fds' ->].
  change (turns (S n) (InPoll l fds' false) w1
    = ((r ← call (X_poll fds' (loop_timeout l)); after_poll l fds' r)
        ≫= (λ stop, if stop : bool then loop_end l else turns n (AtHead l))) w1).
  rewrite turns_S. cbn [turn poll_returns]. rewrite !bind_assoc. apply bind_ext. intros r w2.
  rewrite bind_assoc. apply bind_ext. intros [] w3; [apply end_turns|done].
Qed.

(** The loop function. *)
Definition loop_run (fuel : nat) (l : unit_loop) : M unit :=
  match l with
  | Mqtt2RestLoop _ mqtt timeout => mqtt2rest_loop fuel mqtt timeout
  | Rest2MqttLoop arg mqtt daemon timeout => rest2mqtt_loop fuel mqtt daemon timeout (qos0 arg)
  end.

Lemma turns_loop n l w : turns (2 * n) (AtHead l) w = (loop_run n l;; loop_end l) w.
Proof.
  revert w. induction n as [|n IH]; intros w; [by destruct l|].
  replace (2 * S n)%nat with (S (S (2 * n))) by lia. rewrite turns_pass.
  assert (Hrun : ∀ w', (loop_run (S n) l;; loop_end l) w'
    = ((stop ← pass l; if stop : bool then mret tt else loop_run n l);; loop_end l) w')
    by (by destruct l).
  rewrite Hrun, bind_assoc. apply bind_ext. intros [] w1; [done|apply IH].
Qed.

End threads.

(** * What no thread touches

    An invariant of all calls, of the heap and of the table of requests is one
    of every thread. *)
Class ThreadInv `{EV : Env} (I : World → Prop) : Prop := {
  ti_proper :: Proper ((≡) ==> iff) I;
  ti_returned : ∀ A (c : ext A) r w, I w → I (returned c r w);
  ti_heap : ∀ h w, I w → I (set_heap h w);
  ti_con : ∀ cc w, I w → I (set_con_cls cc w);
}.

Section thread_inv.
Context `{EV : Env} (I : World → Prop) `{TI : !ThreadInv I} (qos0 : ptr → Z).

Lemma ti_call {A} (c : ext A) : preserves I (call c).
Proof. apply pres_call. intros w. apply ti_returned. Qed.

#[export] Instance thread_handler_inv : HandlerInv I.
Proof.
  split; [apply _|by intros; apply ti_call|by intros; apply ti_heap|by intros; apply ti_heap|].
  by intros; apply ti_con.
Qed.

Lemma pres_store_any p o : preserves I (store p o).
Proof.
  destruct p as [l|]; [|apply pres_crash]. apply pres_get_bind. intros w Hw.
  destruct (w_heap w !! l); [by apply ti_heap|done].
Qed.

Lemma pres_malloc_any n o : preserves I (malloc n o).
Proof.
  unfold malloc. apply pres_bind; [apply ti_call|]. intros []; [|apply pres_ret].
  apply pres_get_bind. intros w Hw. by apply ti_heap.
Qed.

Lemma pres_mosq_any h c : preserves I (mosq_call h c).
Proof. apply pres_mosq_call; [apply _|apply ti_call]. Qed.

Lemma pres_free_any p : preserves I (free p).
Proof. apply pres_free, _. Qed.

Lemma pres_MHD_run_any daemon cls q : preserves I (MHD_run daemon cls q).
Proof. apply pres_MHD_run; [apply _|apply ti_call]. Qed.

Lemma pres_pollfds_any daemon count : preserves I (get_mhd_pollfds daemon count).
Proof. apply pres_get_mhd_pollfds, _. Qed.

Hint Resolve ti_call pres_store_any pres_malloc_any pres_mosq_any pres_free_any
  pres_MHD_run_any pres_pollfds_any : pres.

Lemma pres_client_init cfg : preserves I (mqtt_client_init cfg).
Proof. unfold mqtt_client_init. pres. Qed.

Lemma pres_client_connect p : preserves I (mqtt_client_connect p).
Proof.
  assert (Hloop : ∀ n, preserves I (connect_loop n p)).
  { induction n as [|n IH]; cbn [connect_loop]; unfold set_connected; pres; exact IH. }
  unfold mqtt_client_connect. pres. all: apply Hloop.
Qed.

Lemma pres_client_loop p r wr : preserves I (mqtt_client_loop p r wr).
Proof. unfold mqtt_client_loop, set_connected. pres. Qed.
Hint Resolve pres_client_init pres_client_connect pres_client_loop : pres.

Lemma pres_unit_start f arg : preserves I (unit_start f arg).
Proof. destruct f; cbn [unit_start]; unfold mqtt2rest_start, rest2mqtt_start; pres. Qed.

Lemma pres_before_poll l : preserves I (before_poll l).
Proof.
  destruct l; cbn [before_poll]; unfold mqtt2rest_before_poll, rest2mqtt_before_poll,
    mqtt_client_connected, mqtt_client_reconnect, mqtt_client_get_pollfds; pres.
Qed.

Lemma pres_after_poll l fds r : preserves I (after_poll qos0 l fds r).
Proof.
  destruct l; cbn [after_poll]; unfold mqtt2rest_after_poll, rest2mqtt_after_poll; pres.
Qed.

Lemma pres_loop_end l : preserves I (loop_end l).
Proof. destruct l; cbn [loop_end]; unfold mqtt2rest_end, rest2mqtt_end, mqtt_client_destroy; pres. Qed.

Lemma pres_poll_returns fds timeout hit : preserves I (poll_returns fds timeout hit).
Proof. destruct hit; cbn [poll_returns]; [|apply ti_call]. intros w Hw. by apply ti_returned. Qed.
Hint Resolve pres_unit_start pres_before_poll pres_after_poll pres_loop_end pres_poll_returns : pres.

Lemma pres_turn t : preserves I (turn qos0 t).
Proof. destruct t; cbn [turn]; pres. Qed.

Lemma pres_kill_threads slots : preserves I (kill_threads slots).
Proof. induction slots as [|tid slots IH]; cbn [kill_threads]; pres; exact IH. Qed.

Lemma pres_handle_signal sig : preserves I (handle_signal sig).
Proof.
  pose proof pres_kill_threads.
  assert (Hp : ∀ g args, preserves I (fprintf_stderr g args))
    by (intros; apply pres_fprintf_stderr, _).
  unfold handle_signal. pres.
Qed.

Lemma pres_run_turns schedule ts : preserves I (run_turns qos0 schedule ts).
Proof.
  revert ts. induction schedule as [|[i|i] schedule IH]; intros ts; cbn [run_turns].
  - apply pres_ret.
  - destruct (ts !! i) as [t|]; [|apply IH]. apply pres_bind; [apply pres_turn|]. intros t'. apply IH.
  - apply pres_bind; [apply pres_handle_signal|]. intros _. apply pres_bind; [apply pres_get|].
    intros w. apply IH.
Qed.

End thread_inv.

(** The variables of static storage. *)
Record statics := {
  st_log : LogState;
  st_cfg : ptr;
  st_pid_fd : Z;
  st_threads : list Z;
}.

Definition statics_of (w : World) : statics := {|
  st_log := w_log w; st_cfg := w_cfg w; st_pid_fd := w_pid_fd w; st_threads := w_threads w |}.

#[export] Instance statics_inv `{EV : Env} g : ThreadInv (λ w, statics_of w = g).
Proof.
  split; [|by intros A c r w <-|by intros h w <-|by intros cc w <-].
  assert (H : ∀ w1 w2 : World, w1 ≡ w2 → statics_of w1 = statics_of w2).
  { intros w1 w2 E. unfold statics_of. f_equal.
    - by apply w_log_proper.
    - by apply w_cfg_proper.
    - exact (f_equal w_pid_fd E).
    - exact (f_equal w_threads E). }
  intros w1 w2 E. by rewrite (H _ _ E).
Qed.

(** The trace only grows. *)
#[export] Instance grows_inv `{EV : Env} n : ThreadInv (λ w, (n ≤ length (w_trace w))%nat).
Proof.
  split; [|intros A c r w H; cbn; lia|done|done].
  intros w1 w2 E. by rewrite (w_trace_proper _ _ E).
Qed.

(** * Where a turn leads

    Whatever the state and the libraries, a turn that returns leads a thread
    from its creation to the head of its loop, from there into [poll], and from
    [poll] back, or, exactly when it failed, to the end. *)
Section goes.
Context `{EV : Env} (qos0 : ptr → Z).

(** What [poll] returned to a thread that was inside it when [tr] had happened. *)
Definition poll_result_of (tr : list event) (fds : list pollfd) (timeout : Z) (hit : bool)
    : poll_result :=
  if hit then interrupted else answer tr _ (X_poll fds timeout).

Lemma wp_poll_returns fds timeout hit Q w :
  (let r := poll_result_of (w_trace w) fds timeout hit in
   Q (Ok r) (returned (X_poll fds timeout) r w)) →
  wp (poll_returns fds timeout hit) Q w.
Proof. by destruct hit. Qed.

Inductive goes (tr : list event) : thread_state → list event → thread_state → Prop :=
  | goes_start f arg l tr' : goes tr (Created f arg) tr' (AtHead l)
  | goes_poll l fds tr' : goes tr (AtHead l) tr' (InPoll l fds false)
  | goes_on l fds hit r tr' t' :
      r = poll_result_of tr fds (loop_timeout l) hit → (length tr < length tr')%nat →
      t' = (if pr_ret r <? 0 then Ended else AtHead l) →
      goes tr (InPoll l fds hit) tr' t'
  | goes_nowhere : goes tr Ended tr Ended.

(** Of a computation whose continuation never returns. *)
Lemma returns_never {A B} (m : M A) (k : A → M B) Q w :
  (∀ a, fst (m w) ≠ Ok a) → wp (m ≫= k) (returns Q) w.
Proof.
  intros Hm. apply wp_bind, wp_intro. intros o w1 E. specialize (Hm). rewrite E in Hm.
  destruct o as [a| | | |]; try done. by destruct (Hm a).
Qed.

Lemma returns_any {A B} (m : M A) (k : A → M B) Q w :
  (∀ a w1, wp (k a) (returns Q) w1) → wp (m ≫= k) (returns Q) w.
Proof. intros Hk. by apply (returns_bind (λ _, True)). Qed.

Lemma fatal_returns {B} at_ f args (k : unit → M B) Q w :
  wp (FATAL at_ f args ≫= k) (returns Q) w.
Proof. apply returns_never. intros []. apply fatal_never_returns. Qed.

(** A thread that could not set up its client takes the process with it. *)
Lemma unit_start_some f arg w : wp (unit_start f arg) (returns (λ l _, is_Some l)) w.
Proof.
  destruct f; cbn [unit_start]; apply (returns_seq (λ started _, is_Some started)).
  - unfold mqtt2rest_start. do 5 (apply returns_any; intros ? ?). apply returns_any.
    intros [mqtt|] ?; [|apply fatal_returns]. repeat (apply returns_any; intros). by eexists.
  - intros started w' [[mqtt timeout] ->]. apply returns_ret. by eexists.
  - unfold rest2mqtt_start. do 5 (apply returns_any; intros ? ?). apply returns_any.
    intros [mqtt|] ?; [|apply fatal_returns]. repeat (apply returns_any; intros). by eexists.
  - intros started w' [[[mqtt daemon] timeout] ->]. apply returns_ret. by eexists.
Qed.

Lemma after_poll_stops l fds r w :
  wp (after_poll qos0 l fds r) (returns (λ stop _, stop = (pr_ret r <? 0))) w.
Proof.
  destruct l; cbn [after_poll]; unfold mqtt2rest_after_poll, rest2mqtt_after_poll;
    destruct (pr_ret r <? 0); repeat (apply returns_any; intros); done.
Qed.

Lemma turn_goes t w :
  wp (turn qos0 t) (returns (λ t' w', goes (w_trace w) t (w_trace w') t')) w.
Proof.
  destruct t as [f arg|l|l fds hit|]; cbn [turn].
  - eapply returns_seq; [apply unit_start_some|]. intros started w1 [l ->]. apply goes_start.
  - eapply returns_seq; [apply before_poll_some|]. intros fds w1 [fds' ->]. apply goes_poll.
  - set (r := poll_result_of (w_trace w) fds (loop_timeout l) hit).
    apply (returns_seq (λ r' w1, r' = r ∧ (S (length (w_trace w)) ≤ length (w_trace w1))%nat)).
    { unfold r. by destruct hit. }
    intros r' w1 [-> Hlen].
    apply (returns_seq (λ stop w2, stop = (pr_ret r <? 0) ∧ (S (length (w_trace w)) ≤ length (w_trace w2))%nat)).
    { pose proof (after_poll_stops l fds r w1) as Hs.
      pose proof (pres_after_poll _ qos0 l fds r w1 Hlen) as Hg. unfold wp in *.
      destruct (fst (after_poll qos0 l fds r w1)); try done. }
    intros stop w2 [-> Hlen2]. destruct (pr_ret r <? 0) eqn:Er.
    + apply (returns_bind (λ w3, S (length (w_trace w)) ≤ length (w_trace w3))%nat);
        [apply pres_loop_end, _|exact Hlen2|]. intros _ w3 _ Hlen3.
      apply returns_ret. eapply goes_on; [reflexivity|lia|]. fold r. by rewrite Er.
    + apply returns_ret. eapply goes_on; [reflexivity|lia|]. fold r. by rewrite Er.
  - apply goes_nowhere.
Qed.

End goes.

(** * Properties *)
Section properties.
Context `{EV : Env}.


(** The threads change none of the program's variables of static storage,
    whatever they do and however they end. *)
Lemma threads_leave_statics qos0 schedule ts w :
  statics_of (snd (run_turns qos0 schedule ts w)) = statics_of w.
Proof. exact (pres_run_turns (λ w', statics_of w' = statics_of w) qos0 schedule ts w eq_refl). Qed.

End properties.

End Threads.
