(* ===== verification/Schedules.v ===== *)
(** What any schedule of turns and SIGINTs makes of the threads: how many turns
    end a thread, where it is after a number of them, and what SIGINT does to
    all of them. *)
From Stdlib Require Import ZArith Lia ZifyBool Ascii String List.
From stdpp Require Import base numbers list strings gmap.
From S2P Require Import Prelude.
From S2P Require Import CLib.
From S2P Require Import Types.
From S2P Require Import World.
From S2P Require Import Utils.
From S2P Require Import Logging.
From S2P Require Import Signals.
From S2P Require Import Threads.
Import Utils Logging Signals Threads.

Module Schedules.

(** * Counting *)

Definition is_turn (i : nat) (a : action) : bool :=
  match a with Turn j => bool_decide (j = i) | Sigint _ => false end.

(** The turns of thread [i] in a schedule. *)
Fixpoint turns_in (i : nat) (schedule : list action) : nat :=
  match schedule with
  | [] => 0
  | a :: schedule' => (if is_turn i a then 1 else 0) + turns_in i schedule'
  end.

Lemma turns_in_app i s1 s2 : turns_in i (s1 ++ s2) = (turns_in i s1 + turns_in i s2)%nat.
Proof. induction s1 as [|a s1 IH]; cbn [app turns_in]; [done|]. rewrite IH. lia. Qed.

(** SIGINT is in the schedule. *)
Definition interrupts (schedule : list action) : Prop := ∃ i, Sigint i ∈ schedule.

(** * The table of threads *)

(** [n] slots of the table are used, and there is a free one. *)
Definition slots_in_use (n : nat) (w : World) : Prop := ∃ tids free,
  length tids = n ∧ Forall (λ tid, tid ≠ 0) tids ∧ w_threads w = tids ++ replicate (S free) 0.

Lemma slots_in_use_statics n w w' :
  statics_of w' = statics_of w → slots_in_use n w → slots_in_use n w'.
Proof.
  intros E (tids & free & Hn & Hnz & Ht). exists tids, free. split_and!; [done..|].
  rewrite <- Ht. exact (f_equal st_threads E).
Qed.

Lemma hit_by_signal_idem t : hit_by_signal (hit_by_signal t) = hit_by_signal t.
Proof. by destruct t. Qed.

Lemma hit_slots_all tids rest ts :
  length tids = length ts → Forall (λ tid, tid ≠ 0) tids →
  hit_slots (tids ++ rest) ts = hit_by_signal <$> ts.
Proof.
  revert ts. induction tids as [|tid tids IH]; intros [|t ts] Hlen Hnz; try done; cbn [app].
  - by destruct rest.
  - apply Forall_cons in Hnz as [Hnz Hnzs]. cbn [hit_slots]. rewrite (proj2 (Z.eqb_neq _ _) Hnz).
    rewrite fmap_cons. f_equal. apply IH; [cbn in Hlen; lia|done].
Qed.

Lemma hit_one_all i ts : hit_one i (hit_by_signal <$> ts) = hit_by_signal <$> ts.
Proof.
  destruct i as [i|]; [|done]. cbn [hit_one]. apply list_eq. intros j.
  destruct (decide (i = j)) as [<-|Hne]; [|by rewrite list_lookup_alter_ne].
  rewrite list_lookup_alter_eq, list_lookup_fmap. destruct (ts !! i) as [t|]; [|done]. cbn.
  by rewrite hit_by_signal_idem.
Qed.

(** SIGINT reaches every thread, whoever takes it. *)
Lemma hit_all i n ts w :
  slots_in_use n w → length ts = n → hit_one i (hit_slots (w_threads w) ts) = hit_by_signal <$> ts.
Proof.
  intros (tids & free & Hn & Hnz & ->) Hlen. rewrite hit_slots_all by (congruence || done).
  apply hit_one_all.
Qed.

(** With any content of the table, a thread is as it was or hit. *)
Lemma hit_slots_lookup slots ts i :
  hit_slots slots ts !! i = ts !! i ∨ hit_slots slots ts !! i = hit_by_signal <$> ts !! i.
Proof.
  revert ts i. induction slots as [|tid slots IH]; intros [|t ts] i; cbn [hit_slots]; try by left.
  destruct (tid =? 0); [by left|]. destruct i as [|i]; [by right|]. exact (IH ts i).
Qed.

Lemma hit_one_lookup j ts i :
  hit_one j ts !! i = ts !! i ∨ hit_one j ts !! i = hit_by_signal <$> ts !! i.
Proof.
  destruct j as [j|]; [|by left]. cbn [hit_one]. destruct (decide (j = i)) as [<-|Hne].
  - right. by rewrite list_lookup_alter_eq.
  - left. by rewrite list_lookup_alter_ne.
Qed.

Lemma hit_lookup slots j ts i :
  hit_one j (hit_slots slots ts) !! i = ts !! i
  ∨ hit_one j (hit_slots slots ts) !! i = hit_by_signal <$> ts !! i.
Proof.
  destruct (hit_one_lookup j (hit_slots slots ts) i) as [->| ->], (hit_slots_lookup slots ts i) as [->| ->];
    try tauto. right. destruct (ts !! i) as [t|]; [|done]. cbn. by rewrite hit_by_signal_idem.
Qed.

(** * What each thread goes through *)
Section tally.
Context `{EV : Env} (qos0 : ptr → Z).

Lemma run_turns_app s1 s2 ts w :
  run_turns qos0 (s1 ++ s2) ts w = (ts' ← run_turns qos0 s1 ts; run_turns qos0 s2 ts') w.
Proof.
  revert ts w. induction s1 as [|[i|i] s1 IH]; intros ts w; cbn [app run_turns]; [done|..].
  - destruct (ts !! i) as [t|]; [|apply IH]. rewrite bind_assoc. apply bind_ext.
    intros t' w'. apply IH.
  - rewrite bind_assoc. apply bind_ext. intros _ w'.
    change (run_turns qos0 (s1 ++ s2) (hit_one i (hit_slots (w_threads w') ts)) w'
      = ((w1 ← get_world; run_turns qos0 s1 (hit_one i (hit_slots (w_threads w1) ts)))
          ≫= run_turns qos0 s2) w').
    by rewrite bind_assoc, IH.
Qed.

(** A property of a thread, the number of its turns so far and the calls made so
    far that its own turns, those of others and signals keep. *)
Record Tally (P : nat → thread_state → list event → Prop) : Prop := {
  ta_turn : ∀ k t tr t' tr', P k t tr → goes tr t tr' t' → (length tr ≤ length tr')%nat →
    P (S k) t' tr';
  ta_later : ∀ k t tr tr', P k t tr → (length tr ≤ length tr')%nat → P k t tr';
  ta_hit : ∀ k t tr, P k t tr → P k (hit_by_signal t) tr;
}.

Lemma turn_goes_on t w :
  wp (turn qos0 t) (returns (λ t' w', goes (w_trace w) t (w_trace w') t'
    ∧ (length (w_trace w) ≤ length (w_trace w'))%nat)) w.
Proof.
  pose proof (turn_goes qos0 t w) as Hg.
  pose proof (pres_turn _ qos0 t w (le_n (length (w_trace w)))) as Hlen.
  unfold wp in *. by destruct (fst (turn qos0 t w)).
Qed.

Lemma length_hit slots j ts : length (hit_one j (hit_slots slots ts)) = length ts.
Proof.
  assert (H : length (hit_slots slots ts) = length ts).
  { revert ts. induction slots as [|tid slots IH]; intros [|t ts]; cbn [hit_slots]; try done.
    destruct (tid =? 0); [done|]. cbn [length]. by rewrite IH. }
  destruct j as [j|]; [|done]. cbn [hit_one]. by rewrite length_alter.
Qed.

Lemma run_turns_tally P schedule ts w :
  Tally P →
  wp (run_turns qos0 schedule ts) (returns (λ ts' w', length ts' = length ts ∧
    ∀ i k t, ts !! i = Some t → P k t (w_trace w) →
      ∃ t', ts' !! i = Some t' ∧ P (turns_in i schedule + k)%nat t' (w_trace w'))) w.
Proof.
  intros HP. revert ts w. induction schedule as [|[i|i] schedule IH]; intros ts w; cbn [run_turns].
  - apply returns_ret. split; [done|]. intros i k t Hi Hp. by exists t.
  - destruct (ts !! i) as [t|] eqn:Ei.
    + eapply returns_seq; [apply turn_goes_on|].
      cbn beta. intros t' w1 [Hg Hlen]. eapply returns_mono; [apply IH|].
      intros ts' w' [Hl Hts]. rewrite length_insert in Hl. split; [done|]. intros j k tj Hj Hp.
      cbn [turns_in is_turn]. case_bool_decide as E; [subst j|].
      * assert (tj = t) as -> by congruence.
        destruct (Hts i (S k) t') as (t2 & Ht2 & Hp2);
          [apply list_lookup_insert_eq; by eapply lookup_lt_Some|by eapply (ta_turn _ HP)|].
        exists t2. split; [done|]. by replace (1 + turns_in i schedule + k)%nat
          with (turns_in i schedule + S k)%nat by lia.
      * apply (Hts j k tj); [by rewrite list_lookup_insert_ne|]. by eapply (ta_later _ HP).
    + eapply returns_mono; [apply IH|]. intros ts' w' [Hl Hts]. split; [done|].
      intros j k tj Hj Hp. cbn [turns_in is_turn]. rewrite bool_decide_false by congruence.
      by apply (Hts j k tj).
  - apply (returns_bind (λ w1, length (w_trace w) ≤ length (w_trace w1))%nat);
      [apply pres_handle_signal, _|done|]. intros _ w1 _ Hlen.
    eapply returns_mono; [apply IH|]. intros ts' w' [Hl Hts].
    split; [by rewrite Hl, length_hit|]. intros j k tj Hj Hp. cbn [turns_in is_turn].
    destruct (hit_lookup (w_threads w1) i ts j) as [E|E]; rewrite Hj in E.
    + apply (Hts j k tj E). by eapply (ta_later _ HP).
    + apply (Hts j k _ E), (ta_hit _ HP). by eapply (ta_later _ HP).
Qed.

(** ** [poll] fails in the end *)

(** From the [N]-th call on every [poll] fails. *)
Definition polls_fail (N : nat) : Prop :=
  ∀ tr fds timeout, (N ≤ length tr)%nat → pr_ret (answer tr _ (X_poll fds timeout)) < 0.

(** The turns after which a thread has ended, when [poll] fails so: each pass
    makes a call, and takes two turns. *)
Definition need (N : nat) (t : thread_state) (tr : list event) : nat :=
  match t with
  | Created _ _ => 3 + 2 * (N - length tr)
  | AtHead _ => 2 + 2 * (N - length tr)
  | InPoll _ _ _ => 1 + 2 * (N - length tr)
  | Ended => 0
  end.

Lemma need_tally N n : polls_fail N → Tally (λ k t tr, need N t tr ≤ n - k)%nat.
Proof.
  intros Hp. split.
  - intros k t tr t' tr' Hn Hg Hlen.
    destruct Hg as [f arg l tr'|l fds tr'|l fds hit r tr' t' Hr Hlt ->|]; cbn [need] in *; try lia.
    destruct (pr_ret r <? 0) eqn:Er; cbn [need]; [lia|].
    assert (¬ (N ≤ length tr)%nat); [|lia]. intros HN. subst r. destruct hit; [done|].
    specialize (Hp tr fds (loop_timeout l) HN). cbn [poll_result_of] in Er. lia.
  - intros k t tr tr' Hn Hlen. destruct t; cbn [need] in *; lia.
  - by intros k [] tr Hn.
Qed.

(** ** Where a thread is *)

(** After [k] turns. *)
Definition at_stage (k : nat) (t : thread_state) : Prop :=
  match t with
  | Created _ _ => k = 0%nat
  | AtHead _ => Nat.Odd k
  | InPoll _ _ _ => (2 ≤ k)%nat ∧ Nat.Even k
  | Ended => (3 ≤ k)%nat
  end.

Lemma stage_tally : Tally (λ k t _, at_stage k t).
Proof.
  split; [|done|by intros k [] tr Hk].
  intros k t tr t' tr' Hk Hg _.
  destruct Hg as [f arg l tr'|l fds tr'|l fds hit r tr' t' Hr Hlt ->|]; cbn [at_stage] in *.
  - subst k. by exists 0%nat.
  - destruct Hk as [j ->]. split; [lia|]. exists (S j). lia.
  - destruct Hk as [Hk [j ->]]. destruct (pr_ret r <? 0); cbn [at_stage]; [lia|]. exists j. lia.
  - lia.
Qed.

(** Inside [poll], or over. *)
Definition in_poll (k : nat) : Prop := (2 ≤ k)%nat ∧ Nat.Even k.

Definition polling (t : thread_state) : Prop :=
  match t with InPoll _ _ _ | Ended => True | _ => False end.

Lemma stage_in_poll k t : in_poll k → at_stage k t → polling t.
Proof. intros [Hk [j Hj]] Ht. destruct t; cbn in Ht; [lia|destruct Ht; lia|done..]. Qed.

(** ** After SIGINT *)

(** A thread that was inside [poll] ends at its next turn. *)
Definition stopping (k : nat) (t : thread_state) : Prop :=
  match t with Ended => True | InPoll _ _ true => k = 0%nat | _ => False end.

Lemma stopping_tally : Tally (λ k t _, stopping k t).
Proof.
  split; [|done|by intros k [| |? ? []|] tr].
  intros k t tr t' tr' Hk Hg _.
  destruct Hg as [f arg l tr'|l fds tr'|l fds hit r tr' t' Hr Hlt ->|]; cbn [stopping] in *; try done.
  destruct hit; [|done]. by subst r.
Qed.

(** ** All threads end *)

(** Schedules that end [n] threads, from their creation on: those in which each
    has turns enough, when [poll] fails in the end; and those in which SIGINT
    finds each inside [poll] and each has a turn after it. *)
Definition ends (n : nat) (schedule : list action) : Prop :=
  (∃ N, polls_fail N ∧ ∀ i, (i < n)%nat → (2 * N + 3 ≤ turns_in i schedule)%nat)
  ∨ ∃ s1 i s2, schedule = s1 ++ Sigint i :: s2
      ∧ ∀ j, (j < n)%nat → in_poll (turns_in j s1) ∧ (1 ≤ turns_in j s2)%nat.

Definition is_created (t : thread_state) : Prop := match t with Created _ _ => True | _ => False end.

Lemma ends_by_poll N schedule ts w :
  polls_fail N → (∀ i, (i < length ts)%nat → (2 * N + 3 ≤ turns_in i schedule)%nat) →
  wp (run_turns qos0 schedule ts) (returns (λ ts' _, Forall (λ t, t = Ended) ts')) w.
Proof.
  intros Hp Hturns. eapply returns_mono;
    [apply (run_turns_tally (λ k t tr, need N t tr ≤ 2 * N + 3 - k)%nat), need_tally, Hp|].
  intros ts' w' [Hlen Hts]. apply Forall_lookup. intros i t' Hi.
  assert (Hlt : (i < length ts)%nat) by (rewrite <- Hlen; by eapply lookup_lt_Some).
  destruct (lookup_lt_is_Some_2 _ _ Hlt) as [t Ht].
  destruct (Hts i 0%nat t Ht) as (t'' & Ht'' & Hn); [destruct t; cbn [need]; lia|].
  assert (t'' = t') as -> by congruence. specialize (Hturns i Hlt).
  destruct t'; cbn [need] in Hn; [lia..|done].
Qed.

Lemma ends_by_sigint i s2 ts w :
  Forall polling ts → slots_in_use (length ts) w →
  (∀ j, (j < length ts)%nat → (1 ≤ turns_in j s2)%nat) →
  wp (run_turns qos0 (Sigint i :: s2) ts) (returns (λ ts' _, Forall (λ t, t = Ended) ts')) w.
Proof.
  intros Hin Hslots Hturns. cbn [run_turns]. rewrite Forall_lookup in Hin.
  apply (returns_bind (λ w2, statics_of w2 = statics_of w)); [apply pres_handle_signal, _|done|].
  intros _ w2 _ Hst.
  change (wp (run_turns qos0 s2 (hit_one i (hit_slots (w_threads w2) ts)))
    (returns (λ ts' _, Forall (λ t, t = Ended) ts')) w2).
  rewrite (hit_all i (length ts)) by (done || by eapply slots_in_use_statics).
  eapply returns_mono; [apply run_turns_tally, stopping_tally|]. intros ts' w' [Hlen' Hts].
  rewrite length_fmap in Hlen'. apply Forall_lookup. intros j t' Hj.
  assert (Hlt : (j < length ts)%nat) by (rewrite <- Hlen'; by eapply lookup_lt_Some).
  destruct (lookup_lt_is_Some_2 _ _ Hlt) as [t1 Ht1]. pose proof (Hin _ _ Ht1) as Hin1.
  destruct (Hts j 0%nat (hit_by_signal t1)) as (t'' & Ht'' & Hs);
    [by rewrite list_lookup_fmap, Ht1|by destruct t1|].
  assert (t'' = t') as -> by congruence. specialize (Hturns j Hlt).
  destruct t' as [| |? ? []|]; cbn in Hs; [done..|lia|done|done].
Qed.

(** Where the turns of [s1] lead threads from their creation. *)
Lemma turns_lead_into_poll s1 ts w :
  Forall is_created ts → (∀ j, (j < length ts)%nat → in_poll (turns_in j s1)) →
  wp (run_turns qos0 s1 ts) (returns (λ ts1 w1, statics_of w1 = statics_of w
    ∧ length ts1 = length ts ∧ Forall polling ts1)) w.
Proof.
  intros Hcr Hturns. pose proof (run_turns_tally _ s1 ts w stage_tally) as Ht.
  pose proof (pres_run_turns (λ w', statics_of w' = statics_of w) qos0 s1 ts w eq_refl) as Hst.
  unfold wp in *. destruct (fst (run_turns qos0 s1 ts w)) as [ts1| | | |]; try done.
  destruct Ht as [Hlen Hts]. split_and!; [exact Hst|exact Hlen|]. apply Forall_lookup. intros j t1 Hj.
  assert (Hlt : (j < length ts)%nat) by (rewrite <- Hlen; by eapply lookup_lt_Some).
  destruct (lookup_lt_is_Some_2 _ _ Hlt) as [t Htj].
  rewrite Forall_lookup in Hcr. pose proof (Hcr _ _ Htj) as Hc.
  destruct (Hts j 0%nat t Htj) as (t' & Ht' & Hs); [by destruct t|].
  assert (t' = t1) as -> by congruence. rewrite Nat.add_0_r in Hs.
  by eapply stage_in_poll, Hs; apply Hturns.
Qed.

Lemma schedule_ends schedule ts w :
  ends (length ts) schedule → Forall is_created ts →
  (interrupts schedule → slots_in_use (length ts) w) →
  wp (run_turns qos0 schedule ts) (returns (λ ts' _, Forall (λ t, t = Ended) ts')) w.
Proof.
  intros [(N & Hp & Hturns)|(s1 & i & s2 & -> & Hturns)] Hcr Hslots.
  - by eapply ends_by_poll.
  - eapply wp_eq; [apply run_turns_app|].
    eapply returns_seq; [apply turns_lead_into_poll; [done|by intros j Hj; apply Hturns]|].
    intros ts1 w1 (Hst & Hlen & Hin). apply ends_by_sigint; [done| |].
    + rewrite Hlen. eapply slots_in_use_statics; [done|]. apply Hslots. exists i.
      apply elem_of_app. right. by left.
    + intros j Hj. apply Hturns. by rewrite <- Hlen.
Qed.

End tally.

End Schedules.
