(* ===== verification/Process.v ===== *)
(** The units of one process: any number of threads of both directions, each
    from its creation to its end, taking turns on the same heap and the same
    trace. *)
From Stdlib Require Import ZArith Lia ZifyBool Ascii String List.
From stdpp Require Import base numbers list strings gmap.
From S2P Require Import Prelude.
From S2P Require Import CLib.
From S2P Require Import Types.
From S2P Require Import World.
From S2P Require Import Demo.
From S2P Require Import Utils.
From S2P Require Import Logging.
From S2P Require Import MqttClient.
From S2P Require Import Mqtt2Rest.
From S2P Require Import Messages.
From S2P Require Import Rest2Mqtt.
From S2P Require Import Uploads.
From S2P Require Import RestThread.
From S2P Require Import Signals.
From S2P Require Import Threads.
From S2P Require Import Schedules.
Import Utils Logging MqttClient Mqtt2Rest Messages Rest2Mqtt Uploads RestThread Signals Threads
  Schedules.

Module Process.

(** Those of the uploads [open] that are of the requests [owns]. *)
Definition own (owns : positive → bool) (open : gmap positive (list ascii))
    : gmap positive (list ascii) := filter (λ kv, owns kv.1 = true) open.

(** ** Uploads of one unit and of the others *)
Definition not_own (owns : positive → bool) := own (λ req, negb (owns req)).

Lemma lookup_own owns open req :
  own owns open !! req = if owns req then open !! req else None.
Proof.
  unfold own. rewrite map_lookup_filter. destruct (open !! req); cbn; [|by destruct (owns req)].
  by destruct (owns req).
Qed.

Lemma own_disjoint owns open m :
  (∀ req, is_Some (m !! req) → owns req = true) → not_own owns open ##ₘ m.
Proof.
  intros Hm. apply map_disjoint_spec. intros req x y Hx Hy. unfold not_own in Hx.
  rewrite lookup_own, (Hm req) in Hx by (by eexists). done.
Qed.

Lemma own_split owns open : open = not_own owns open ∪ own owns open.
Proof.
  apply map_eq. intros req. rewrite lookup_union. unfold not_own. rewrite !lookup_own.
  destruct (owns req), (open !! req); done.
Qed.

(** When one unit's uploads become [m], its own are [m], and the others' are
    what they were. *)
Lemma own_join owns open m :
  (∀ req, is_Some (m !! req) → owns req = true) → own owns (not_own owns open ∪ m) = m.
Proof.
  intros Hm. apply map_eq. intros req. rewrite lookup_own, lookup_union. unfold not_own.
  rewrite lookup_own. destruct (m !! req) as [x|] eqn:E.
  - rewrite (Hm req) by (by eexists). done.
  - by destruct (owns req).
Qed.

Lemma own_join_other owns owns' open m :
  (∀ req, is_Some (m !! req) → owns req = true) → (∀ req, owns' req = true → owns req = false) →
  own owns' (not_own owns open ∪ m) = own owns' open.
Proof.
  intros Hm Hne. apply map_eq. intros req. rewrite !lookup_own, lookup_union. unfold not_own.
  rewrite lookup_own. destruct (owns' req) eqn:E; [|done]. rewrite (Hne req E). cbn.
  destruct (m !! req) as [x|] eqn:E2; [|by destruct (open !! req)].
  specialize (Hm req). rewrite E2 in Hm. specialize (Hm ltac:(by eexists)).
  by rewrite (Hne req E) in Hm.
Qed.

Section idle_pass.
Context `{EV : Env}.

(** A REST to MQTT pass concerns the uploads, an MQTT to REST pass does not, and
    nor does a signal. *)
Lemma pres_idle_before v w0 p : preserves (idle v w0) (mqtt2rest_before_poll p).
Proof.
  assert (∀ A (c : ext A), silent c = true → preserves (idle v w0) (call c)) as Hc
    by (intros; by apply pres_silent).
  unfold mqtt2rest_before_poll, mqtt_client_connected, mqtt_client_reconnect,
    mqtt_client_get_pollfds.
  pres. all: by apply Hc.
Qed.

Lemma pres_idle_after v w0 p r : preserves (idle v w0) (mqtt2rest_after_poll p r).
Proof. pose proof (pres_idle_loop v w0). unfold mqtt2rest_after_poll. pres. Qed.

Lemma idle_returned {A} (c : ext A) r v w : silent c = true → idle v w (returned c r w).
Proof. intros Hc. split; [done|..]; destruct c; try done; cbn; by rewrite ?app_nil_r. Qed.

Lemma pres_idle_signal v w0 sig : preserves (idle v w0) (handle_signal sig).
Proof.
  assert (∀ A (c : ext A), silent c = true → preserves (idle v w0) (call c)) as Hc
    by (intros; by apply pres_silent).
  assert (Hkill : ∀ slots, preserves (idle v w0) (kill_threads slots)).
  { induction slots as [|tid slots IH]; cbn [kill_threads]; pres.
    all: first [by apply Hc|exact IH]. }
  unfold handle_signal. pres. all: first [by apply Hc|apply pres_fprintf_stderr, _].
Qed.

Lemma idle_con w w' : (∀ v, idle v w w') → w_con_cls w' = w_con_cls w.
Proof.
  intros H. apply map_eq. intros req.
  by apply (id_con _ _ _ (H {| uv_client := 1; uv_daemon := None; uv_owns := λ _, true |})).
Qed.

End idle_pass.

(** * The units *)

(** An MQTT to REST unit as it is read, its client, and the strings of its
    topic and of its URL. *)
Record m2r_unit := {
  mt_unit : Mqtt2RestUnitConfiguration;
  mt_mosq : mosq_ptr;
  mt_topic : string;
  mt_baseurl : string;
}.

(** A REST to MQTT unit as it is read, its client, its server and the requests
    of this server. *)
Record r2m_unit := {
  rt_unit : Rest2MqttUnitConfiguration;
  rt_view : unit_view;
}.

(** A unit with the place of its struct. *)
Inductive unit_at := M2R (up : positive) (t : m2r_unit) | R2M (up : positive) (r : r2m_unit).

Section units.
Context `{EV : Env}.

(** The initial content of the handler's variable in each thread, the query
    strings of all requests, and the common configuration. *)
Context (qos0 : ptr → Z) (qs : positive → cstr).
Context (cp : positive) (conf : Configuration) (timeout : Z).

(** The structs as the threads find them: with the common configuration. *)
Definition m2r_in_use (t : m2r_unit) : Mqtt2RestUnitConfiguration := {|
  m2r_unit_name := m2r_unit_name (mt_unit t); m2r_enabled := m2r_enabled (mt_unit t);
  m2r_webservice_baseurl := m2r_webservice_baseurl (mt_unit t);
  m2r_mqtt_topic := m2r_mqtt_topic (mt_unit t); m2r_common_configuration := Some cp |}.

Definition r2m_in_use (r : r2m_unit) : Rest2MqttUnitConfiguration := {|
  r2m_unit_name := r2m_unit_name (rt_unit r); r2m_enabled := r2m_enabled (rt_unit r);
  r2m_listen_port := r2m_listen_port (rt_unit r);
  r2m_mqtt_topic_root := r2m_mqtt_topic_root (rt_unit r);
  r2m_common_configuration := Some cp |}.

Definition mt_client (up : positive) (t : m2r_unit) : MqttClientConfiguration :=
  mqtt2rest_client_config (m2r_in_use t) (Some up) conf.

Definition mt_object (up : positive) (t : m2r_unit) (b : bool) : obj :=
  OHandle {| mosq := mt_mosq t; config := mt_client up t; connected := b |}.

Definition rt_client (r : r2m_unit) : MqttClientConfiguration :=
  rest2mqtt_client_config (r2m_in_use r) conf.

Definition rt_object (r : r2m_unit) (b : bool) : obj :=
  OHandle {| mosq := uv_client (rt_view r); config := rt_client r; connected := b |}.

(** The libraries serve each unit as its own theorems ask. *)
Record good_m2r (up : positive) (t : m2r_unit) : Prop := {
  gt_unit : GoodUnit (m2r_in_use t) (mt_mosq t) (mt_topic t) (mt_baseurl t);
  gt_broker : GoodBroker (mt_mosq t) (mt_client up t);
}.

Record good_r2m (up : positive) (r : r2m_unit) : Prop := {
  gr_callbacks : GoodCallbacks (rt_view r);
  gr_mhd : GoodMhd (rt_view r) qs (qos0 (Some up));
  gr_calls : HandlerCalls qs (uv_client (rt_view r));
  gr_broker : GoodBroker (uv_client (rt_view r)) (rt_client r);
  gr_daemon : ∀ tr p,
    answer tr _ (X_MHD_start_daemon (r2m_listen_port (rt_unit r)) p) = uv_daemon (rt_view r);
}.

Definition good_unit (u : unit_at) : Prop :=
  match u with M2R up t => good_m2r up t | R2M up r => good_r2m up r end.

(** The views of the REST to MQTT units. *)
Definition view_of (u : unit_at) : option unit_view :=
  match u with M2R _ _ => None | R2M _ r => Some (rt_view r) end.

(** The units that run together: their servers and clients are different. *)
Record good_units (units : list unit_at) : Prop := {
  gu_each : Forall good_unit units;
  gu_apart : ∀ i j u u' v v', units !! i = Some u → units !! j = Some u' → i ≠ j →
    view_of u = Some v → view_of u' = Some v' → apart v v';
  gu_timeout : poll_timeout (mqtt_keepalive conf) = Ok timeout;
}.

(** The struct of a unit is in the heap, and so is the common configuration. *)
Definition placed (base : gmap positive obj) (u : unit_at) : Prop :=
  base !! cp = Some (OConfiguration conf) ∧
  match u with
  | M2R up t => base !! up = Some (OMqtt2Rest (m2r_in_use t))
  | R2M up r => base !! up = Some (ORest2Mqtt (r2m_in_use r))
  end.

(** A unit's thread: where it is, and its client while it is allocated. *)
Record thread := { th_unit : unit_at; th_state : thread_state; th_client : option positive }.

(** At the head of the loop, or inside [poll]. *)
Definition looping (l : unit_loop) (ts : thread_state) : Prop :=
  ts = AtHead l ∨ ∃ fds hit, ts = InPoll l fds hit.

Inductive thread_in (base : gmap positive obj) : thread → Prop :=
  | in_m2r_created up t :
      thread_in base {| th_unit := M2R up t; th_state := Created run_mqtt2rest (Some up);
                        th_client := None |}
  | in_r2m_created up r :
      thread_in base {| th_unit := R2M up r; th_state := Created run_rest2mqtt (Some up);
                        th_client := None |}
  | in_m2r_loop up t l b ts :
      base !! l = Some (mt_object up t b) → looping (Mqtt2RestLoop (Some up) (Some l) timeout) ts →
      thread_in base {| th_unit := M2R up t; th_client := Some l; th_state := ts |}
  | in_r2m_loop up r l b ts :
      base !! l = Some (rt_object r b) →
      looping (Rest2MqttLoop (Some up) (Some l) (uv_daemon (rt_view r)) timeout) ts →
      thread_in base {| th_unit := R2M up r; th_client := Some l; th_state := ts |}
  | in_m2r_ended up t l b :
      base !! l = Some (mt_object up t b) →
      thread_in base {| th_unit := M2R up t; th_state := Ended; th_client := Some l |}
  | in_r2m_ended up r :
      thread_in base {| th_unit := R2M up r; th_state := Ended; th_client := None |}.

Lemma at_head_looping l : looping l (AtHead l).
Proof. by left. Qed.

Lemma in_poll_looping l fds hit : looping l (InPoll l fds hit).
Proof. right. by exists fds, hit. Qed.
Hint Resolve at_head_looping in_poll_looping : core.

Lemma thread_in_client base th l :
  thread_in base th → th_client th = Some l → is_Some (base !! l).
Proof. intros [] [= <-]; by eexists. Qed.

Lemma thread_in_frame base base' th :
  thread_in base th → (∀ l, th_client th = Some l → base' !! l = base !! l) → thread_in base' th.
Proof.
  intros [up t|up r|up t l b ts Hl Hts|up r l b ts Hl Hts|up t l b Hl|up r] H; cbn in H;
    try by constructor.
  - apply (in_m2r_loop _ up t l b); [by rewrite H|done].
  - apply (in_r2m_loop _ up r l b); [by rewrite H|done].
  - apply (in_m2r_ended _ up t l b). by rewrite H.
Qed.

(** A signal handler has run in the thread. *)
Definition hit_thread (th : thread) : thread := {|
  th_unit := th_unit th; th_state := hit_by_signal (th_state th); th_client := th_client th |}.

Lemma thread_in_hit base th : thread_in base th → thread_in base (hit_thread th).
Proof.
  intros [up t|up r|up t l b ts Hl Hts|up r l b ts Hl Hts|up t l b Hl|up r]; try by econstructor.
  - apply (in_m2r_loop _ up t l b); [done|]. destruct Hts as [-> | (fds & hit & ->)]; cbn; auto.
  - apply (in_r2m_loop _ up r l b); [done|]. destruct Hts as [-> | (fds & hit & ->)]; cbn; auto.
Qed.

(** The clients allocated. *)
Definition clients (ths : list thread) : list positive := omap th_client ths.

Lemma clients_insert ths i th :
  ths !! i = Some th → ∃ rest, clients ths ≡ₚ option_list (th_client th) ++ rest
    ∧ (∀ th', clients (<[i := th']> ths) ≡ₚ option_list (th_client th') ++ rest)
    ∧ ∀ j th' l, i ≠ j → ths !! j = Some th' → th_client th' = Some l → l ∈ rest.
Proof.
  intros Hi. assert (Hlt := lookup_lt_Some _ _ _ Hi).
  exists (clients (take i ths) ++ clients (drop (S i) ths)).
  assert (H : ∀ x, clients (take i ths ++ x :: drop (S i) ths)
    ≡ₚ option_list (th_client x) ++ clients (take i ths) ++ clients (drop (S i) ths)).
  { intros x. unfold clients. rewrite omap_app. cbn [omap list_omap].
    destruct (th_client x) as [l|]; [|done].
    change (option_list (Some l)) with [l]. cbn [app]. symmetry. apply Permutation_middle. }
  split_and!; [by rewrite <- H, take_drop_middle|intros th'; by rewrite insert_take_drop|].
  intros j th' l Hne Hj Hl. apply elem_of_app. unfold clients. rewrite !list_elem_of_omap.
  destruct (decide (j < i)%nat) as [Hji|Hji]; [left|right]; exists th'; (split; [|done]).
  - apply list_elem_of_lookup. exists j. by rewrite lookup_take_lt.
  - apply list_elem_of_lookup. exists (j - S i)%nat. rewrite lookup_drop.
    by replace (S i + (j - S i))%nat with j by lia.
Qed.

(** The part of the uploads [open] that is a unit's is that of its machine for
    the calls its server has made. *)
Definition uploads_of (open : gmap positive (list ascii)) (w : World) (u : unit_at) : Prop :=
  match u with
  | M2R _ _ => True
  | R2M up r => ∃ s, receiving s = own (uv_owns (rt_view r)) open ∧ tracks (rt_view r) s w
      ∧ spec_calls qs (qos0 (Some up)) (seen (uv_daemon (rt_view r)) (w_trace w)) no_uploads = Some s
  end.

Lemma uploads_of_idle open w w' u :
  uploads_of open w u → (∀ v, view_of u = Some v → idle v w w') → uploads_of open w' u.
Proof.
  destruct u as [up t|up r]; [done|]. intros (s & Hs & Ht & Hsp) Hi.
  specialize (Hi _ eq_refl). exists s.
  split_and!; [done|by eapply tracks_idle|by rewrite (id_seen _ _ _ Hi)].
Qed.

(** * The process *)
Context (units : list unit_at) (base0 : gmap positive obj).

(** [base] is the heap apart from the uploads. *)
Definition uploads_in (base : gmap positive obj) (w : World) : Prop :=
  ∃ open, holding base (w_con_cls w) open (w_heap w) ∧ Forall (uploads_of open w) units.

(** The process with its threads; [base0] is the heap in which they were
    created, which they leave alone. *)
Record process_ok (ths : list thread) (base : gmap positive obj) (w : World) : Prop := {
  po_log : log_ready (w_log w);
  po_units : th_unit <$> ths = units;
  po_threads : Forall (thread_in base) ths;
  po_distinct : NoDup (clients ths);
  po_new : ∀ l, l ∈ clients ths → base0 !! l = None;
  po_rest : ∀ l, l ∉ clients ths → base !! l = base0 !! l;
  po_uploads : uploads_in base w;
}.

Lemma process_base0 ths base w l o :
  process_ok ths base w → base0 !! l = Some o → base !! l = Some o ∧ w_heap w !! l = Some o.
Proof.
  intros Hok Hl. assert (Hb : base !! l = Some o).
  { rewrite (po_rest _ _ _ Hok); [done|]. intros Hin. apply (po_new _ _ _ Hok) in Hin. congruence. }
  split; [done|]. destruct (po_uploads _ _ _ Hok) as (open & Hh & _).
  by eapply holding_base_lookup.
Qed.

Lemma uploads_quiet base base' w w' :
  uploads_in base w → (∀ v, idle v w w') →
  (∀ con open, holding base con open (w_heap w) → holding base' con open (w_heap w')) →
  uploads_in base' w'.
Proof.
  intros (open & Hh & Hu) Hi Hheap. exists open. rewrite (idle_con _ _ Hi). split; [by apply Hheap|].
  eapply Forall_impl; [exact Hu|]. intros u H. eapply uploads_of_idle; [exact H|]. intros v _. apply Hi.
Qed.

(** The location [l] is the thread's, or free. *)
Definition at_client (th : thread) (l : positive) (base : gmap positive obj) : Prop :=
  th_client th = Some l ∨ (th_client th = None ∧ base !! l = None).

(** A turn of one thread: only its client changes. *)
Lemma process_step ths i th th' l base base' w w' :
  process_ok ths base w → ths !! i = Some th → th_unit th' = th_unit th →
  w_log w' = w_log w → thread_in base' th' → at_client th l base → at_client th' l base' →
  (∀ l', l' ≠ l → base' !! l' = base !! l') → uploads_in base' w' →
  process_ok (<[i := th']> ths) base' w'.
Proof.
  intros [Hlog Hu Hth Hnd Hnew Hrest _] Hi Hunit Hlg Hin Hat Hat' Hb Hup.
  destruct (clients_insert ths i th Hi) as (rest & Hold & Hins & Hother).
  rewrite Hold in Hnd. setoid_rewrite Hold in Hnew. setoid_rewrite Hold in Hrest.
  assert (Hl : l ∉ rest).
  { intros Hl. destruct Hat as [E|[E Hnone]]; rewrite E in *; cbn [option_list app] in *.
    - by apply NoDup_cons in Hnd as [? _].
    - assert (Hin' : l ∈ clients ths) by (by rewrite Hold).
      apply list_elem_of_omap in Hin' as (th2 & Hth2 & Hc).
      rewrite Forall_forall in Hth. destruct (thread_in_client _ _ _ (Hth _ Hth2) Hc). congruence. }
  assert (Hl0 : base0 !! l = None).
  { destruct Hat as [E|[E Hnone]]; rewrite E in *; cbn [option_list app] in *.
    - apply Hnew. by left.
    - by rewrite <- Hrest. }
  assert (Hcl : ∀ x l', x = Some l ∨ x = None → l' ∈ option_list x ++ rest → l' = l ∨ l' ∈ rest).
  { intros x l' [->| ->]; cbn [option_list app]; [|tauto]. intros [?|?]%elem_of_cons; tauto. }
  assert (Hat1 : th_client th = Some l ∨ th_client th = None) by (destruct Hat as [|[]]; tauto).
  assert (Hat1' : th_client th' = Some l ∨ th_client th' = None) by (destruct Hat' as [|[]]; tauto).
  assert (Hnd' : NoDup rest).
  { destruct Hat1 as [E|E]; rewrite E in Hnd; [by apply NoDup_cons in Hnd as [_ ?]|done]. }
  split; [by rewrite Hlg| | | | | |done].
  - rewrite list_fmap_insert, Hunit, Hu. apply list_insert_id.
    by rewrite <- Hu, list_lookup_fmap, Hi.
  - apply Forall_lookup. intros j th2 Hj.
    apply list_lookup_insert_Some in Hj as [(-> & -> & _)|[Hne Hj]]; [done|].
    rewrite Forall_lookup in Hth. eapply thread_in_frame; [by eapply Hth|].
    intros l' Hl'. apply Hb. intros ->. by eapply Hl, Hother.
  - rewrite Hins. destruct Hat1' as [-> | ->]; [by apply NoDup_cons|done].
  - intros l'. rewrite Hins. intros [->|Hl']%(Hcl _ _ Hat1'); [done|].
    apply Hnew, elem_of_app. by right.
  - intros l'. rewrite Hins, elem_of_app. intros Hn. destruct (decide (l' = l)) as [->|Hne].
    + rewrite Hl0. destruct Hat' as [E|[E ?]]; [|done]. rewrite E in Hn. destruct Hn. left. by left.
    + rewrite Hb by done. apply Hrest. intros [->|?]%(Hcl _ _ Hat1); [done|]. apply Hn. by right.
Qed.

(** ** The turns *)

(** The outcome of a turn of thread [i]. *)
Definition turned (ths : list thread) (i : nat) (th : thread)
    (o : outcome thread_state) (w' : World) : Prop :=
  ∃ th' base', o = Ok (th_state th') ∧ process_ok (<[i := th']> ths) base' w'.

(** Calls that concern no unit's heap or uploads. *)
Lemma process_quiet ths base w w' :
  process_ok ths base w → w_log w' = w_log w → w_heap w' = w_heap w → (∀ v, idle v w w') →
  process_ok ths base w'.
Proof.
  intros [Hlog Hu Hth Hnd Hnew Hrest Hup] Hlg Hh Hi. split; try done; [by rewrite Hlg|].
  eapply uploads_quiet; [done|done|]. intros con open H. by rewrite Hh.
Qed.

Lemma process_polled ths base w fds t r :
  process_ok ths base w → process_ok ths base (returned (X_poll fds t) r w).
Proof. intros Hok. eapply process_quiet; [done..|]. intros v. by apply idle_returned. Qed.

(** A thread moves on in its loop. *)
Lemma process_moved ths i th th' l base w :
  process_ok ths base w → ths !! i = Some th → th_unit th' = th_unit th →
  th_client th = Some l → th_client th' = Some l → thread_in base th' →
  process_ok (<[i := th']> ths) base w.
Proof.
  intros Hok Hi Hu Hc Hc' Hin. eapply (process_step ths i th th' l base base w w); try done;
    [by left|by left|apply Hok].
Qed.

(** A signal reaches all of them. *)
Lemma process_hit ths base w : process_ok ths base w → process_ok (hit_thread <$> ths) base w.
Proof.
  intros [Hlog Hu Hth Hnd Hnew Hrest Hup].
  assert (Hc : clients (hit_thread <$> ths) = clients ths).
  { clear. induction ths as [|th ths IH]; [done|]. unfold clients in *. cbn. by rewrite IH. }
  split; rewrite ?Hc; try done.
  - rewrite <- Hu, <- list_fmap_compose. by apply list_fmap_ext.
  - apply Forall_fmap. eapply Forall_impl; [exact Hth|]. intros th. apply thread_in_hit.
Qed.

Context (Hgood : good_units units).

(** Thread [i] is [th], and the struct of its unit is as [main] leaves it when it
    creates the thread. *)
Record scheduled (ths : list thread) (i : nat) (th : thread) : Prop := {
  sc_at : ths !! i = Some th;
  sc_placed : placed base0 (th_unit th);
}.

Lemma process_unit ths base w i th :
  process_ok ths base w → scheduled ths i th →
  thread_in base th ∧ good_unit (th_unit th) ∧ placed base0 (th_unit th)
  ∧ units !! i = Some (th_unit th).
Proof.
  intros Hok [Hi Hpl]. pose proof (po_threads _ _ _ Hok) as Hth. rewrite Forall_lookup in Hth.
  assert (Hu : units !! i = Some (th_unit th))
    by (by rewrite <- (po_units _ _ _ Hok), list_lookup_fmap, Hi).
  pose proof (gu_each _ Hgood) as Hg. rewrite Forall_lookup in Hg.
  split_and!; eauto.
Qed.

(** A thread's start: its client is new. *)
Lemma process_started ths i th th' l o base w w' :
  process_ok ths base w → ths !! i = Some th → th_unit th' = th_unit th → th_client th = None →
  th_client th' = Some l → w_heap w !! l = None → w_log w' = w_log w → (∀ v, idle v w w') →
  w_heap w' = <[l := o]> (w_heap w) → thread_in (<[l := o]> base) th' →
  process_ok (<[i := th']> ths) (<[l := o]> base) w'.
Proof.
  intros Hok Hi Hunit Hc Hc' Hl Hlg Hidle Hh Hin.
  assert (Hb : base !! l = None).
  { destruct (po_uploads _ _ _ Hok) as (open & Hhold & _). by eapply holding_base_fresh. }
  eapply (process_step ths i th th' l base); [done|done|done|done|done|by right|by left| |].
  - intros l' Hne. by rewrite lookup_insert_ne.
  - eapply uploads_quiet; [apply Hok|done|]. intros con open Hhold. rewrite Hh.
    by apply holding_base_insert.
Qed.

(** A quiet change of its client. *)
Lemma process_flag ths i th th' l o o' base w w' :
  process_ok ths base w → ths !! i = Some th → th_unit th' = th_unit th →
  th_client th = Some l → base !! l = Some o → th_client th' = Some l →
  w_log w' = w_log w → (∀ v, idle v w w') →
  w_heap w' = <[l := o']> (w_heap w) → thread_in (<[l := o']> base) th' →
  process_ok (<[i := th']> ths) (<[l := o']> base) w'.
Proof.
  intros Hok Hi Hunit Hc Hb Hc' Hlg Hidle Hh Hin.
  eapply (process_step ths i th th' l base); [done|done|done|done|done|by left|by left| |].
  - intros l' Hne. by rewrite lookup_insert_ne.
  - eapply uploads_quiet; [apply Hok|done|]. intros con open Hhold. rewrite Hh.
    by eapply holding_base.
Qed.

(** Its client goes. *)
Lemma process_destroyed ths i th th' l o base w w' :
  process_ok ths base w → ths !! i = Some th → th_unit th' = th_unit th →
  th_client th = Some l → base !! l = Some o → th_client th' = None →
  w_log w' = w_log w → (∀ v, idle v w w') →
  w_heap w' = delete l (w_heap w) → thread_in (delete l base) th' →
  process_ok (<[i := th']> ths) (delete l base) w'.
Proof.
  intros Hok Hi Hunit Hc Hb Hc' Hlg Hidle Hh Hin.
  eapply (process_step ths i th th' l base); [done|done|done|done|done|by left| | |].
  - right. split; [done|]. apply lookup_delete_eq.
  - intros l' Hne. by rewrite lookup_delete_ne.
  - eapply uploads_quiet; [apply Hok|done|]. intros con open Hhold. rewrite Hh.
    by eapply holding_base_delete.
Qed.

Lemma wp_m2r_created ths base i up t w :
  let th := {| th_unit := M2R up t; th_state := Created run_mqtt2rest (Some up);
               th_client := None |} in
  process_ok ths base w → scheduled ths i th →
  wp (turn qos0 (th_state th)) (turned ths i th) w.
Proof.
  intros th Hok Hs. pose proof (sc_at _ _ _ Hs) as Hi. destruct (process_unit _ _ _ _ _ Hok Hs) as (_ & [Hu Hbr] & [Hcp Hup] & _).
  cbn [th th_state turn unit_start]. do 2 wp_step.
  eapply wp_mono.
  { eapply (Mqtt2Rest.wp_unit_start (m2r_in_use t) (mt_mosq t) (mt_topic t) (mt_baseurl t) Hu up conf
             (λ w', ∀ v, idle v w w') cp timeout).
    - exact Hbr.
    - split; [apply Hok|]. by eapply process_base0.
    - done.
    - by eapply process_base0.
    - apply Hgood.
    - intros out v. by rewrite set_out_equiv.
    - intros w' H v. by apply pres_idle_init.
    - intros h w' H v. by apply pres_idle_connect. }
  intros o w' (l & b & -> & Hl & Hlg & Hidle & Hh & _). wp_steps.
  exists {| th_unit := M2R up t; th_client := Some l;
            th_state := AtHead (Mqtt2RestLoop (Some up) (Some l) timeout) |},
         (<[l := mt_object up t b]> base).
  split; [done|]. eapply process_started; try done.
  apply (in_m2r_loop _ up t l b); [apply lookup_insert_eq|auto].
Qed.

Lemma wp_r2m_created ths base i up r w :
  let th := {| th_unit := R2M up r; th_state := Created run_rest2mqtt (Some up);
               th_client := None |} in
  process_ok ths base w → scheduled ths i th →
  wp (turn qos0 (th_state th)) (turned ths i th) w.
Proof.
  intros th Hok Hs. pose proof (sc_at _ _ _ Hs) as Hi.
  destruct (process_unit _ _ _ _ _ Hok Hs) as (_ & [Hcb _ _ Hbr Hd] & [Hcp Hup] & _).
  cbn [th th_state turn unit_start]. do 2 wp_step.
  eapply wp_mono.
  { eapply (wp_rest_start (r2m_in_use r) conf (rt_view r) Hcb up cp timeout).
    - exact Hbr.
    - apply Hok.
    - by eapply process_base0.
    - done.
    - by eapply process_base0.
    - apply Hgood. }
  intros o w' (l & b & tr & -> & Hl & Hlg & Hidle & Hh). wp_steps. cbn [r2m_in_use r2m_listen_port].
  rewrite Hd.
  exists {| th_unit := R2M up r; th_client := Some l;
            th_state := AtHead (Rest2MqttLoop (Some up) (Some l) (uv_daemon (rt_view r)) timeout) |},
         (<[l := rt_object r b]> base).
  split; [done|]. eapply process_started; try done.
  apply (in_r2m_loop _ up r l b); [apply lookup_insert_eq|auto].
Qed.

Lemma wp_m2r_head ths base i up t l b w :
  let th := {| th_unit := M2R up t; th_client := Some l;
               th_state := AtHead (Mqtt2RestLoop (Some up) (Some l) timeout) |} in
  process_ok ths base w → scheduled ths i th → base !! l = Some (mt_object up t b) →
  wp (turn qos0 (th_state th)) (turned ths i th) w.
Proof.
  intros th Hok Hs Hb. pose proof (sc_at _ _ _ Hs) as Hi. destruct (process_unit _ _ _ _ _ Hok Hs) as (_ & [Hu _] & [_ Hup] & _).
  destruct (process_base0 _ _ _ _ _ Hok Hup) as [_ Hup'].
  cbn [th th_state turn before_poll]. wp_step.
  eapply wp_mono; [apply (wp_preserved _ (λ w', ∀ v, idle v w w'));
    [intros w' H' v; by apply pres_idle_before|done|]|].
  { apply (wp_before_poll (m2r_in_use t) (mt_mosq t) up conf
             (λ _, True) l); [apply pass_inv_True| |done].
    split; [split; [apply Hok|done]|]. exists b.
    destruct (po_uploads _ _ _ Hok) as (open & Hhold & _). by eapply holding_base_lookup. }
  intros o w1 ((fds & -> & [Hlg Hh _] & _) & Hidle). wp_steps.
  exists {| th_unit := M2R up t; th_client := Some l;
            th_state := InPoll (Mqtt2RestLoop (Some up) (Some l) timeout) fds false |}, base.
  split; [done|]. eapply (process_moved ths i th); try done; [by eapply process_quiet|].
  apply (in_m2r_loop _ up t l b); auto.
Qed.

Lemma wp_m2r_poll ths base i up t l fds hit b w :
  let th := {| th_unit := M2R up t; th_client := Some l;
               th_state := InPoll (Mqtt2RestLoop (Some up) (Some l) timeout) fds hit |} in
  process_ok ths base w → scheduled ths i th → base !! l = Some (mt_object up t b) →
  wp (turn qos0 (th_state th)) (turned ths i th) w.
Proof.
  intros th Hok0 Hs Hb. pose proof (sc_at _ _ _ Hs) as Hi. destruct (process_unit _ _ _ _ _ Hok0 Hs) as (_ & [Hu _] & [_ Hup] & _).
  cbn [th th_state turn after_poll loop_timeout]. wp_step. apply wp_poll_returns. intros r.
  set (w0 := returned _ _ w).
  assert (Hok : process_ok ths base w0)
    by (by apply process_polled).
  destruct (process_base0 _ _ _ _ _ Hok Hup) as [_ Hup']. clearbody w0. clear Hok0. do 2 wp_step.
  assert (Hl : w_heap w0 !! l = Some (mt_object up t b))
    by (destruct (po_uploads _ _ _ Hok) as (open & Hhold & _); by eapply holding_base_lookup).
  eapply wp_mono; [apply (wp_preserved _ (λ w', ∀ v, idle v w0 w'));
    [intros w' H' v; by apply pres_idle_after|done|]|].
  { apply (wp_after_poll (m2r_in_use t) (mt_mosq t) (mt_topic t) (mt_baseurl t) Hu up conf
             (λ _, True) l); [apply pass_inv_True| |done].
    split; [split; [apply Hok|done]|]. by exists b. }
  intros o w1 ((-> & [Hlg [b' Hh'] _] & _) & Hidle). wp_step. destruct (pr_ret r <? 0).
  - wp_step. eapply wp_mono.
    { apply (Mqtt2Rest.wp_unit_end (m2r_in_use t) up). split; [rewrite Hlg; apply Hok|].
      rewrite Hh', lookup_insert_ne; [done|]. intros ->. rewrite Hup' in Hl.
      by unfold mt_object in Hl. }
    intros o w2 [-> [out ->]]. wp_steps.
    exists {| th_unit := M2R up t; th_client := Some l; th_state := Ended |},
           (<[l := mt_object up t b']> base).
    split; [done|]. eapply process_flag; try done.
    + intros v. rewrite set_out_equiv. apply Hidle.
    + apply (in_m2r_ended _ up t l b'), lookup_insert_eq.
  - wp_steps. exists {| th_unit := M2R up t; th_client := Some l;
      th_state := AtHead (Mqtt2RestLoop (Some up) (Some l) timeout) |}, (<[l := mt_object up t b']> base).
    split; [done|]. eapply process_flag; try done.
    apply (in_m2r_loop _ up t l b'); [apply lookup_insert_eq|auto].
Qed.

(** The heap and the uploads of the process, from those of one unit and the
    rest. *)
Lemma rest_rejoin base base1 open l r b s w w' :
  holding base (w_con_cls w) (not_own (uv_owns (rt_view r)) open) base1 →
  base !! l = Some (rt_object r b) →
  undisturbed (rt_view r) w w' → tracks (rt_view r) s w' →
  ∀ b', holding (<[l := rt_object r b']> base1) (w_con_cls w') (receiving s) (w_heap w') →
  holding (<[l := rt_object r b']> base) (w_con_cls w')
    (not_own (uv_owns (rt_view r)) open ∪ receiving s) (w_heap w').
Proof.
  intros Hh1 Hb Hun Ht b' Hh'. eapply holding_join; [apply own_disjoint, (tk_owns _ _ _ Ht)| |exact Hh'].
  eapply (holding_con _ (w_con_cls w)).
  - by eapply holding_base.
  - intros req [x Hx]. apply (undisturbed_con _ _ _ _ Hun). unfold not_own in Hx.
    rewrite lookup_own in Hx. by destruct (uv_owns (rt_view r) req).
Qed.

(** The uploads of all units, after the handler has run for one of them. *)
Lemma uploads_rejoin open w w' i up r s :
  units !! i = Some (R2M up r) → Forall (uploads_of open w) units →
  undisturbed (rt_view r) w w' → tracks (rt_view r) s w' →
  spec_calls qs (qos0 (Some up)) (seen (uv_daemon (rt_view r)) (w_trace w')) no_uploads = Some s →
  Forall (uploads_of (not_own (uv_owns (rt_view r)) open ∪ receiving s) w') units.
Proof.
  intros Hi Hu Hun Ht Hsp. pose proof (tk_owns _ _ _ Ht) as Hown.
  rewrite Forall_lookup in Hu. apply Forall_lookup. intros j u Hj.
  destruct (decide (i = j)) as [<-|Hne].
  - assert (u = R2M up r) as -> by congruence. exists s. split_and!; [|done|done].
    symmetry. by apply own_join.
  - destruct u as [up' t'|up' r']; [done|].
    pose proof (gu_apart _ Hgood i j _ _ _ _ Hi Hj Hne eq_refl eq_refl) as Hap.
    assert (Huj : uploads_of open w' (R2M up' r')).
    { eapply uploads_of_idle; [by apply (Hu j)|]. intros v [= <-]. by apply (un_views _ _ _ Hun). }
    destruct Huj as (s' & Hs' & Ht' & Hsp'). exists s'. split_and!; [|done|done].
    rewrite own_join_other; [done|done|]. apply (apart_sym _ _ Hap).
Qed.

(** The thread's own share of the process is that of [RestThread]. *)
Lemma process_serving ths base i th up r l b w :
  process_ok ths base w → scheduled ths i th → th_unit th = R2M up r →
  base !! l = Some (rt_object r b) →
  ∃ open base1 s, holding base (w_con_cls w) (not_own (uv_owns (rt_view r)) open) base1
    ∧ Forall (uploads_of open w) units
    ∧ serving (r2m_in_use r) conf (rt_view r) qs (qos0 (Some up)) base1 l b s w.
Proof.
  intros Hok Hsc Hth Hb. pose proof (sc_at _ _ _ Hsc) as Hi. destruct (process_unit _ _ _ _ _ Hok Hsc) as (_ & _ & _ & Hui).
  rewrite Hth in Hui. destruct (po_uploads _ _ _ Hok) as (open & Hh & Hups).
  assert (Hr : uploads_of open w (R2M up r)) by (rewrite Forall_lookup in Hups; by apply (Hups i)).
  destruct Hr as (s & Hs & Ht & Hsp).
  pose proof Hh as Hsplit. rewrite (own_split (uv_owns (rt_view r)) open) in Hsplit.
  apply holding_split in Hsplit as (base1 & Hh1 & Hh2).
  2: { apply own_disjoint. rewrite <- Hs. apply (tk_owns _ _ _ Ht). }
  rewrite <- Hs in Hh2. exists open, base1, s. split_and!; [done..|].
  split; [apply Hok| |done]. split; [|done].
  rewrite insert_id; [done|]. by eapply holding_base_lookup.
Qed.

Lemma wp_r2m_head ths base i up r l b w :
  let loop := Rest2MqttLoop (Some up) (Some l) (uv_daemon (rt_view r)) timeout in
  let th := {| th_unit := R2M up r; th_client := Some l; th_state := AtHead loop |} in
  process_ok ths base w → scheduled ths i th → base !! l = Some (rt_object r b) →
  wp (turn qos0 (th_state th)) (turned ths i th) w.
Proof.
  intros loop th Hok Hs Hb. pose proof (sc_at _ _ _ Hs) as Hi.
  destruct (process_unit _ _ _ _ _ Hok Hs) as (_ & [Hcb Hmhd Hcalls _ _] & _ & _).
  destruct (process_serving _ _ _ _ _ _ _ _ _ Hok Hs eq_refl Hb) as (open & base1 & s & _ & _ & Hsv).
  cbn [th th_state turn loop before_poll]. wp_step. eapply wp_mono.
  { by apply (wp_rest_before_poll (r2m_in_use r) conf (rt_view r) qs (qos0 (Some up)) Hmhd
               base1 l b s). }
  intros o w1 (fds & -> & _ & [Hlg Hh _] & Hidle & _). wp_steps.
  exists {| th_unit := R2M up r; th_client := Some l; th_state := InPoll loop fds false |}, base.
  split; [done|]. eapply (process_moved ths i th); try done; [by eapply process_quiet|].
  apply (in_r2m_loop _ up r l b); auto.
Qed.

Lemma wp_r2m_poll ths base i up r l fds hit b w :
  let loop := Rest2MqttLoop (Some up) (Some l) (uv_daemon (rt_view r)) timeout in
  let th := {| th_unit := R2M up r; th_client := Some l; th_state := InPoll loop fds hit |} in
  process_ok ths base w → scheduled ths i th → base !! l = Some (rt_object r b) →
  wp (turn qos0 (th_state th)) (turned ths i th) w.
Proof.
  intros loop th Hok0 Hs Hb. pose proof (sc_at _ _ _ Hs) as Hi.
  destruct (process_unit _ _ _ _ _ Hok0 Hs) as (_ & [Hcb Hmhd Hcalls _ _] & [_ Hup] & Hui).
  destruct (process_base0 _ _ _ _ _ Hok0 Hup) as [Hupb _].
  cbn [th th_state turn loop after_poll loop_timeout]. wp_step. apply wp_poll_returns. intros pr.
  set (w0 := returned _ _ w).
  assert (Hok : process_ok ths base w0)
    by (by apply process_polled).
  clearbody w0. clear Hok0.
  destruct (process_serving _ _ _ _ _ _ _ _ _ Hok Hs eq_refl Hb) as (open & base1 & s & Hh1 & Hups & Hsv).
  do 2 wp_step. eapply wp_mono.
  { by apply (wp_rest_after_poll (r2m_in_use r) conf (rt_view r) qs (qos0 (Some up)) Hcb Hmhd Hcalls
               base1 l b s). }
  intros o w1 (-> & (b' & s' & [_ [Hh' Ht'] Hsp']) & Hlg & Hun & _). wp_step.
  set (th1 := {| th_unit := R2M up r; th_client := Some l; th_state := AtHead loop |}).
  assert (Hok1 : process_ok (<[i := th1]> ths) (<[l := rt_object r b']> base) w1).
  { eapply (process_step ths i th th1 l base); [done|done|done|done| |by left|by left| |].
    - apply (in_r2m_loop _ up r l b'); [apply lookup_insert_eq|apply at_head_looping].
    - intros l' Hne. by rewrite lookup_insert_ne.
    - exists (not_own (uv_owns (rt_view r)) open ∪ receiving s'). split; [by eapply rest_rejoin|].
      eapply (uploads_rejoin open w0 w1 i up r s'); [exact Hui|done..]. }
  destruct (pr_ret pr <? 0).
  - wp_step. pose proof (process_base0 _ _ _ _ _ Hok1 Hup) as [_ Hup1].
    eapply wp_mono; [apply (wp_rest_end (r2m_in_use r) conf (rt_view r) up l b')|].
    + rewrite Hlg. apply Hok.
    + done.
    + destruct (po_uploads _ _ _ Hok1) as (open1 & Hhold & _).
      eapply holding_base_lookup; [exact Hhold|apply lookup_insert_eq].
    + intros o w2 (-> & Hlg2 & Hidle2 & Hh3). wp_steps.
      set (th2 := {| th_unit := R2M up r; th_client := None; th_state := Ended |}).
      exists th2, (delete l (<[l := rt_object r b']> base)). split; [done|].
      rewrite <- (list_insert_insert_eq ths i th2 th1).
      eapply (process_destroyed _ i th1 th2 l _ _ w1); try done.
      * apply list_lookup_insert_eq. by eapply lookup_lt_Some.
      * apply lookup_insert_eq.
      * apply in_r2m_ended.
  - wp_steps. by exists th1, (<[l := rt_object r b']> base).
Qed.

Lemma wp_turn ths base i th w :
  process_ok ths base w → scheduled ths i th →
  wp (turn qos0 (th_state th)) (turned ths i th) w.
Proof.
  intros Hok Hs. pose proof (sc_at _ _ _ Hs) as Hi. destruct (process_unit _ _ _ _ _ Hok Hs) as (Hin & _).
  destruct Hin as [up t|up r|up t l b ts Hl Hts|up r l b ts Hl Hts|up t l b Hl|up r].
  - by eapply wp_m2r_created.
  - by eapply wp_r2m_created.
  - destruct Hts as [-> | (fds & hit & ->)]; [by eapply wp_m2r_head|by eapply wp_m2r_poll].
  - destruct Hts as [-> | (fds & hit & ->)]; [by eapply wp_r2m_head|by eapply wp_r2m_poll].
  - cbn [th_state turn]. wp_steps. eexists _, base. by rewrite list_insert_id by exact Hi.
  - cbn [th_state turn]. wp_steps. eexists _, base. by rewrite list_insert_id by exact Hi.
Qed.

(** SIGINT. *)
Lemma wp_process_sigint n ths base w :
  process_ok ths base w → slots_in_use n w →
  wp (handle_signal SIGINT) (λ o w', o = Ok tt ∧ process_ok ths base w') w.
Proof.
  intros Hok (tids & free & _ & Hnz & Ht).
  eapply wp_mono; [apply (wp_preserved _ (λ w', ∀ v, idle v w w'));
    [intros w' H' v; by apply pres_idle_signal|done|]|].
  { by apply (sigint_spec tids (S free)). }
  intros o w' ([Hw ->] & Hidle). split; [done|].
  eapply process_quiet; [done|by apply (sigint_keeps tids)..|done].
Qed.

(** Any schedule, with a further invariant of its actions. *)
Record Along (J : World → Prop) : Prop := {
  al_turn : ∀ ths base i th w, process_ok ths base w → scheduled ths i th → J w →
    wp (turn qos0 (th_state th)) (λ _ w', J w') w;
  al_sigint : preserves J (handle_signal SIGINT);
}.

Lemma all_scheduled ths base w i th :
  Forall (placed base0) units → process_ok ths base w → ths !! i = Some th → scheduled ths i th.
Proof.
  intros Hpl Hok Hi. split; [done|]. rewrite Forall_lookup in Hpl. apply (Hpl i).
  by rewrite <- (po_units _ _ _ Hok), list_lookup_fmap, Hi.
Qed.

Lemma along_True : Along (λ _, True).
Proof. by split. Qed.

Lemma wp_run_turns J schedule ths base w :
  Forall (placed base0) units → Along J → process_ok ths base w → J w →
  (interrupts schedule → slots_in_use (length units) w) →
  wp (run_turns qos0 schedule (th_state <$> ths)) (λ o w', ∃ ths' base',
    o = Ok (th_state <$> ths') ∧ process_ok ths' base' w' ∧ J w') w.
Proof.
  intros Hplaced HJ. revert ths base w.
  induction schedule as [|[i|i] schedule IH]; intros ths base w Hok HJw Hslots; cbn [run_turns].
  { wp_steps. by exists ths, base. }
  - assert (Hslots' : interrupts schedule → slots_in_use (length units) w)
      by (intros [j Hj]; apply Hslots; exists j; by right).
    rewrite list_lookup_fmap. destruct (ths !! i) as [th|] eqn:Ei; cbn [fmap option_fmap option_map];
      [|by eapply IH].
    assert (Hs : scheduled ths i th) by (by apply all_scheduled with base w).
    wp_step. eapply wp_mono.
    { apply (wp_preserved _ (λ w', statics_of w' = statics_of w)); [apply pres_turn, _|done|].
      apply wp_conj; [by eapply wp_turn|by eapply (al_turn _ HJ)]. }
    intros o w1 [[(th1 & base1 & -> & Hok1) HJ1] Hst]. wp_step. rewrite <- list_fmap_insert.
    eapply IH; [done..|]. intros Hi. by eapply slots_in_use_statics, Hslots'.
  - assert (Hs : slots_in_use (length units) w) by (apply Hslots; exists i; by left).
    wp_step. eapply wp_mono.
    { apply (wp_preserved _ (λ w', statics_of w' = statics_of w)); [apply pres_handle_signal, _|done|].
      apply (wp_preserved _ J); [apply HJ|done|]. by eapply wp_process_sigint. }
    intros o w1 [[[-> Hok1] HJ1] Hst]. wp_steps.
    assert (Hs1 : slots_in_use (length units) w1) by (by eapply slots_in_use_statics).
    rewrite (hit_all i (length units)); [|done|].
    2: { by rewrite length_fmap, <- (po_units _ _ _ Hok), length_fmap. }
    rewrite <- list_fmap_compose.
    change (hit_by_signal ∘ th_state) with (th_state ∘ hit_thread). rewrite list_fmap_compose.
    eapply IH; [by apply process_hit|done..].
Qed.

(** ** From the creation to the end *)

Definition created_thread (u : unit_at) : thread := {|
  th_unit := u; th_client := None;
  th_state := match u with
              | M2R up _ => Created run_mqtt2rest (Some up)
              | R2M up _ => Created run_rest2mqtt (Some up)
              end |}.

(** No server has served a request of its unit. *)
Definition unserved_units (w : World) : Prop :=
  ∀ u v, u ∈ units → view_of u = Some v → unserved v w.

Lemma clients_created us : clients (created_thread <$> us) = [].
Proof. induction us as [|u us IH]; [done|]. exact IH. Qed.

Lemma process_created w :
  log_ready (w_log w) → base0 = w_heap w → unserved_units w →
  process_ok (created_thread <$> units) base0 w.
Proof.
  intros Hlog Hb Hun. split; rewrite ?clients_created.
  - done.
  - rewrite <- list_fmap_compose. apply list_fmap_id.
  - apply Forall_fmap, Forall_true. intros [up t|up r]; constructor.
  - constructor.
  - intros l Hl. by apply elem_of_nil in Hl.
  - done.
  - exists ∅. split; [rewrite Hb; constructor|].
    apply Forall_forall. intros [up t|up r] Hu; [done|].
    pose proof (Hun _ _ Hu eq_refl) as Hv. exists no_uploads. split_and!.
    + symmetry. apply map_filter_empty.
    + by apply unserved_tracks.
    + by rewrite (us_seen _ _ Hv).
Qed.

(** The MQTT to REST units. *)
Definition m2r_of (u : unit_at) : option (positive * m2r_unit) :=
  match u with M2R up t => Some (up, t) | R2M _ _ => None end.

(** The process after all threads have ended: besides the heap in which they
    were created, one client for each MQTT to REST unit, and the uploads in
    progress. *)
Definition all_over (w : World) : Prop := ∃ base open leaked,
  holding base (w_con_cls w) open (w_heap w) ∧ Forall (uploads_of open w) units
  ∧ Forall2 (λ p l, ∃ b, base !! l = Some (mt_object p.1 p.2 b)) (omap m2r_of units) leaked
  ∧ NoDup leaked ∧ (∀ l, l ∈ leaked → base0 !! l = None)
  ∧ (∀ l, l ∉ leaked → base !! l = base0 !! l).

Lemma process_over ths base w :
  process_ok ths base w → Forall (λ th, th_state th = Ended) ths → all_over w.
Proof.
  intros [Hlog Hu Hth Hnd Hnew Hrest (open & Hh & Hup)] He.
  exists base, open, (clients ths). split_and!; try done. rewrite <- Hu.
  clear - Hth He. induction Hth as [|th ths Hin Hth IH]; [constructor|].
  apply Forall_cons in He as [He Hes]. specialize (IH Hes).
  destruct Hin as [up t|up r|up t l b ts Hl Hts|up r l b ts Hl Hts|up t l b Hl|up r];
    cbn in He; subst; try done; try (by destruct Hts as [?|(? & ? & ?)]).
  cbn. constructor; [by exists b|exact IH].
Qed.

(** All of it, from the creation of the threads on. *)
Lemma wp_units schedule w :
  Forall (placed base0) units → base0 = w_heap w → log_ready (w_log w) → unserved_units w →
  (interrupts schedule → slots_in_use (length units) w) →
  wp (run_turns qos0 schedule (th_state <$> (created_thread <$> units))) (λ o w', ∃ ths base,
    o = Ok (th_state <$> ths) ∧ process_ok ths base w'
    ∧ (ends (length units) schedule → Forall (λ th, th_state th = Ended) ths ∧ all_over w')) w.
Proof.
  intros Hpl Hb Hlog Hun Hslots. pose proof (process_created w Hlog Hb Hun) as Hok.
  eapply wp_mono;
    [apply wp_conj; [by apply (wp_run_turns _ schedule _ _ _ Hpl along_True Hok I)|]|].
  { apply (wp_intro _ (λ o w', ends (length units) schedule →
      returns (λ ts' _, Forall (λ t, t = Ended) ts') o w')). intros o w' E He.
    assert (Hr : wp (run_turns qos0 schedule (th_state <$> (created_thread <$> units)))
      (returns (λ ts' _, Forall (λ t, t = Ended) ts')) w).
    { apply schedule_ends; rewrite ?length_fmap; [done| |done].
      rewrite <- list_fmap_compose. apply Forall_fmap, Forall_true. by intros []. }
    unfold wp in Hr. by rewrite E in Hr. }
  intros o w' [(ths & base & -> & Hok' & _) Hends]. exists ths, base. split_and!; [done..|].
  intros He. assert (Hall : Forall (λ th, th_state th = Ended) ths).
  { exact (proj1 (Forall_fmap _ _ _) (Hends He)). }
  split; [done|]. by eapply process_over.
Qed.

End units.

(** * Properties *)
Section properties.
Context `{EV : Env}.


End properties.

(** ** Witnesses *)
Import Demo.

(** A third request, for a second server. *)
Definition third_calls (before : list mhd_call) : list mhd_call :=
  if bool_decide (before = []) then
    [demo_of 3 "/c" None 0; demo_of 3 "/c" (Some "z") 1; demo_of 3 "/c" None 0]
  else [].

(** The messages the broker has for the clients of MQTT to REST units. *)
Definition broker_has (m : mosq_ptr) : list mosq_cb :=
  if bool_decide (m = 1%positive) then [CB_message "unit1/t" (Some (explode "21"))]
  else if bool_decide (m = 4%positive) then [CB_message "unit2/lamp" None] else [].

(** Messages for these clients, requests for the two servers, and a [poll]
    that is interrupted once 200 calls have been made. *)
Definition all_units : list event → ∀ A, ext A → A := λ tr A c,
  match c in ext A return A with
  | X_mosquitto_new id _ cfg =>
      match msg_callback_ptr cfg with
      | Some _ => if bool_decide (id = Some "unit2") then Some 4%positive else Some 1%positive
      | None => if bool_decide (id = Some "s2") then Some 3%positive else Some 2%positive
      end
  | X_mosquitto_loop_read m _ => (broker_has m, 0)
  | X_poll _ _ => if (200 <=? length tr)%nat then poll_interrupted
                  else {| pr_ret := 1; pr_errno := 0; pr_revents := [1; 1] |}
  | X_MHD_start_daemon port _ => if port =? 8082 then Some 2%positive else Some 1%positive
  | X_MHD_run d => if bool_decide (d = Some 1%positive) then next_calls (seen d tr)
                   else third_calls (seen d tr)
  | c => answer_ok _ c
  end.

Definition demo_m2r : m2r_unit := {|
  mt_unit := demo_unit; mt_mosq := 1; mt_topic := "unit1"; mt_baseurl := "http://h/api" |}.

Definition demo_r2m (name : string) (port : Z) (client daemon : positive) (owns : positive → bool)
    : r2m_unit := {|
  rt_unit := {| r2m_unit_name := Some name; r2m_enabled := true; r2m_listen_port := port;
                r2m_mqtt_topic_root := Some "root"; r2m_common_configuration := None |};
  rt_view := {| uv_client := client; uv_daemon := Some daemon; uv_owns := owns |} |}.

Definition server1 : r2m_unit :=
  demo_r2m "s1" 8081 2 1 (λ req, negb (bool_decide (req = 3%positive))).
Definition server2 : r2m_unit := demo_r2m "s2" 8082 3 2 (λ req, bool_decide (req = 3%positive)).

Definition demo_units : list unit_at := [M2R 2 demo_m2r; R2M 4 server1; R2M 5 server2].

Definition all_heap : gmap positive obj :=
  {[ 2%positive := OMqtt2Rest (m2r_in_use 3 demo_m2r); 3%positive := OConfiguration demo_conf;
     4%positive := ORest2Mqtt (r2m_in_use 3 server1);
     5%positive := ORest2Mqtt (r2m_in_use 3 server2) ]}.

Lemma all_units_polls_fail : polls_fail (EV := demo_env 8 all_units) 200.
Proof.
  intros tr fds t H.
  change (pr_ret (if (200 <=? length tr)%nat then poll_interrupted
                  else {| pr_ret := 1; pr_errno := 0; pr_revents := [1; 1] |}) < 0).
  by rewrite (proj2 (Nat.leb_le _ _)) by done.
Defined.

Lemma demo_good_m2r : good_m2r (EV := demo_env 8 all_units) 3 demo_conf 2 demo_m2r.
Proof.
  split; [|split; try discriminate; intros tr; reflexivity].
  split; try reflexivity; try (apply (bool_decide_unpack _); vm_compute; exact I);
    try (vm_compute; lia); intros tr; repeat constructor.
  - apply (bool_decide_unpack _). vm_compute. exact I.
  - exists "t", (explode "http://h/api/t"). split; vm_compute; reflexivity.
Defined.

Lemma demo_callbacks v :
  GoodCallbacks (EV := demo_env 8 all_units) v.
Proof.
  split; intros tr; [intros t; reflexivity| |constructor..].
  change (Forall good_rest_cb (broker_has (uv_client v))).
  unfold broker_has. repeat case_bool_decide; by repeat constructor.
Defined.

Lemma demo_process_handler_calls m : HandlerCalls (EV := demo_env 8 all_units) demo_qs m.
Proof.
  split; try (intros tr; reflexivity);
    [split; intros; reflexivity|intros n; cbn; lia|by eexists].
Defined.

Lemma server1_good : good_r2m (EV := demo_env 8 all_units) (λ _, 0) demo_qs 3 demo_conf 4 server1.
Proof.
  split; [apply demo_callbacks| |apply demo_process_handler_calls
         |split; try discriminate; intros tr; reflexivity|reflexivity].
  split; [| |reflexivity|intros; vm_compute; lia].
  - intros tr s. apply next_calls_served.
  - intros tr. change (Forall (λ c, uv_owns (rt_view server1) (mh_request c) = true)
      (next_calls (seen (Some 1%positive) tr))).
    unfold next_calls. repeat case_bool_decide; by repeat constructor.
Defined.

Lemma server2_good : good_r2m (EV := demo_env 8 all_units) (λ _, 0) demo_qs 3 demo_conf 5 server2.
Proof.
  split; [apply demo_callbacks| |apply demo_process_handler_calls
         |split; try discriminate; intros tr; reflexivity|reflexivity].
  split; [| |reflexivity|intros; vm_compute; lia].
  - intros tr s. change (spec_calls demo_qs 0 (seen (Some 2%positive) tr) no_uploads = Some s →
      is_Some (spec_calls demo_qs 0 (third_calls (seen (Some 2%positive) tr)) s)).
    unfold third_calls. case_bool_decide as E; [|by eexists]. rewrite E. intros [= <-].
    vm_compute. by eexists.
  - intros tr. change (Forall (λ c, uv_owns (rt_view server2) (mh_request c) = true)
      (third_calls (seen (Some 2%positive) tr))).
    unfold third_calls. case_bool_decide; by repeat constructor.
Defined.

Lemma servers_apart : apart (rt_view server1) (rt_view server2).
Proof. split_and!; [discriminate..|]. intros req. cbn. by destruct (bool_decide _). Defined.

Lemma demo_good_units :
  good_units (EV := demo_env 8 all_units) (λ _, 0) demo_qs 3 demo_conf 15000 demo_units.
Proof.
  split; [|intros i j u u' v v' Hi Hj Hne Hv Hv'|reflexivity].
  - repeat apply Forall_cons_2; [apply demo_good_m2r|apply server1_good|apply server2_good|constructor].
  - destruct i as [|[|[|i]]], j as [|[|[|j]]]; try done; injection Hi as <-; injection Hj as <-;
      try discriminate; injection Hv as <-; injection Hv' as <-;
      apply servers_apart || apply apart_sym, servers_apart.
Defined.

(** [n] turns of each of the three threads. *)
Definition rounds (n : nat) : list action := concat (replicate n [Turn 0; Turn 1; Turn 2]).

(** A SIGINT in [main] that finds no thread inside [poll], five passes of each,
    and one in the second thread that finds all of them there. *)
Definition demo_schedule : list action :=
  rounds 1 ++ [Sigint None] ++ rounds 11 ++ Sigint (Some 1%nat) :: rounds 1.

Definition demo_table : World :=
  set_threads (7 :: 8 :: 9 :: replicate 29 0) (world_of console_log all_heap).

Lemma rounds_turns n i : turns_in i (rounds n) = if decide (i < 3)%nat then n else 0%nat.
Proof.
  induction n as [|n IH]; [by destruct (decide _)|].
  change (rounds (S n)) with ([Turn 0; Turn 1; Turn 2] ++ rounds n).
  rewrite turns_in_app, IH. by destruct i as [|[|[|i]]].
Qed.

Lemma demo_ends n : (n ≤ 3)%nat → ends (EV := demo_env 8 all_units) n demo_schedule.
Proof.
  intros Hn. right. exists (rounds 1 ++ [Sigint None] ++ rounds 11), (Some 1%nat), (rounds 1).
  split; [reflexivity|]. intros j Hj.
  rewrite !turns_in_app, !rounds_turns, !decide_True by lia. cbn. split; [|lia].
  split; [lia|]. by exists 6%nat.
Qed.

(** Without SIGINT, 403 turns are enough. *)
Lemma rounds_end : ends (EV := demo_env 8 all_units) 3 (rounds 403).
Proof.
  left. exists 200%nat. split; [apply all_units_polls_fail|]. intros i Hi.
  rewrite rounds_turns, decide_True by lia. lia.
Qed.

Lemma rounds_uninterrupted n : ¬ interrupts (rounds n).
Proof.
  intros [i Hi]. induction n as [|n IH]; [by apply elem_of_nil in Hi|].
  change (rounds (S n)) with ([Turn 0; Turn 1; Turn 2] ++ rounds n) in Hi.
  apply elem_of_app in Hi as [Hi|Hi]; [|by apply IH].
  by repeat (apply elem_of_cons in Hi as [Hi|Hi]); try apply elem_of_nil in Hi.
Qed.


End Process.
