(* ===== verification/Delivery.v ===== *)
(** The messages of a whole process: with several MQTT to REST units and the
    units of the other direction taking turns, every message delivered to any
    of them becomes one request, in the order of the messages. *)
From Stdlib Require Import ZArith Lia ZifyBool Ascii String List.
From stdpp Require Import base numbers list strings gmap.
From S2P Require Import Prelude.
From S2P Require Import CLib.
From S2P Require Import Types.
From S2P Require Import World.
From S2P Require Import Demo.
From S2P Require Import Utils.
From S2P Require Import Logging.
From S2P Require Import MqttClient.
From S2P Require Import Mqtt2Rest.
From S2P Require Import Messages.
From S2P Require Import Rest2Mqtt.
From S2P Require Import Uploads.
From S2P Require Import RestThread.
From S2P Require Import Signals.
From S2P Require Import Threads.
From S2P Require Import Schedules.
From S2P Require Import Process.
Import Utils Logging MqttClient Mqtt2Rest Messages Rest2Mqtt Uploads RestThread Signals Threads
  Schedules Process.

Module Delivery.

(** * The clients of the units *)

Definition client_of (u : unit_at) : mosq_ptr :=
  match u with M2R _ t => mt_mosq t | R2M _ r => uv_client (rt_view r) end.

(** The unit a client belongs to, for the MQTT to REST units. *)
Fixpoint home_of (ts : list m2r_unit) (m : mosq_ptr) : option (string * string) :=
  match ts with
  | [] => None
  | t :: ts' =>
      if bool_decide (mt_mosq t = m) then Some (mt_topic t, mt_baseurl t) else home_of ts' m
  end.

Definition unit_m2r (u : unit_at) : option m2r_unit :=
  match u with M2R _ t => Some t | R2M _ _ => None end.

Definition home (units : list unit_at) : mosq_ptr → option (string * string) :=
  home_of (omap unit_m2r units).

Lemma home_other units m : m ∉ client_of <$> units → home units m = None.
Proof.
  unfold home. induction units as [|[up t|up r] units IH]; [done|..];
    rewrite fmap_cons, not_elem_of_cons; cbn; intros [Hm Hms];
    [rewrite bool_decide_false by congruence|]; by apply IH.
Qed.

Lemma home_unit units u :
  NoDup (client_of <$> units) → u ∈ units →
  home units (client_of u) = (λ t, (mt_topic t, mt_baseurl t)) <$> unit_m2r u.
Proof.
  intros Hnd. induction units as [|u' units IH]; intros Hu; [by apply elem_of_nil in Hu|].
  rewrite fmap_cons in Hnd. apply NoDup_cons in Hnd as [Hnew Hnd].
  apply elem_of_cons in Hu as [->|Hu].
  - destruct u' as [up t|up r]; [|by apply (home_other units)]. unfold home. cbn.
    by rewrite bool_decide_true.
  - assert (Hne : client_of u' ≠ client_of u).
    { intros E. apply Hnew. rewrite E. by apply list_elem_of_fmap_2. }
    specialize (IH Hnd Hu). unfold home in *. destruct u' as [up t|up r]; cbn in *; [|done].
    by rewrite bool_decide_false.
Qed.

(** What the delivery of messages needs besides: different units have different
    clients, libcurl has a handle for every request, and [mosquitto_connect]
    delivers no messages. *)
Record Brokers `{EV : Env} (clients : list mosq_ptr) : Prop := {
  br_clients : NoDup clients;
  br_curl : ∀ tr, is_Some (answer tr _ X_curl_easy_init);
  br_quiet : connects_quietly;
}.

(** * The turns *)
Section units.
Context `{EV : Env} (qos0 : ptr → Z) (qs : positive → cstr).
Context (cp : positive) (conf : Configuration) (timeout : Z).
Context (units : list unit_at) (base0 : gmap positive obj).
Context (Hgood : good_units qos0 qs cp conf timeout units).

Context (Hbrokers : Brokers (client_of <$> units)).

Abbreviation process := (process_ok qos0 qs cp conf timeout units base0).
Abbreviation all_posted := (posted (home units)).

(** ** The starts and the ends of the threads *)
Lemma pres_posted_connect_here p : preserves all_posted (mqtt_client_connect p).
Proof. apply pres_posted_connect, (br_quiet _ Hbrokers). Qed.

Hint Resolve pres_posted_call pres_posted_init pres_posted_connect_here : pres.
Hint Extern 0 (_ = true) => reflexivity : pres.

Lemma pres_posted_free p : preserves all_posted (free p).
Proof.
  destruct p as [l|]; [|apply pres_ret]. apply pres_get_bind. intros w Hw.
  by destruct (w_heap w !! l).
Qed.
Hint Resolve pres_posted_free : pres.

Lemma pres_posted_start f arg : preserves all_posted (unit_start f arg).
Proof. destruct f; cbn [unit_start]; unfold mqtt2rest_start, rest2mqtt_start; pres. Qed.

Lemma pres_posted_end l : preserves all_posted (loop_end l).
Proof.
  destruct l; cbn [loop_end]; unfold mqtt2rest_end, rest2mqtt_end, mqtt_client_destroy; pres.
Qed.

(** ** The passes *)

(** What a thread of an MQTT to REST unit works with. *)
Lemma m2r_passes base up t l b ths i th w :
  process ths base w → scheduled cp conf base0 ths i th → th_unit th = M2R up t →
  base !! l = Some (mt_object cp conf up t b) →
  GoodUnit (m2r_in_use cp t) (mt_mosq t) (mt_topic t) (mt_baseurl t)
  ∧ PassInv (m2r_in_use cp t) (mt_mosq t) up conf all_posted
  ∧ thread_ready (mt_mosq t) (mt_client cp conf up t) (unit_ready (m2r_in_use cp t) up) l w.
Proof.
  intros Hok Hsc Hth Hl.
  destruct (process_unit _ _ _ _ _ _ _ Hgood _ _ _ _ _ Hok Hsc) as (_ & Hu & [_ Hup] & Hui).
  pose proof (home_unit units (th_unit th) (br_clients _ Hbrokers) (list_elem_of_lookup_2 _ _ _ Hui)) as Hhome.
  rewrite Hth in *. destruct Hu as [Hu _].
  destruct (process_base0 _ _ _ _ _ _ _ _ _ _ _ _ Hok Hup) as [_ Hup'].
  destruct (po_uploads _ _ _ _ _ _ _ _ _ _ Hok) as (open & Hhold & _).
  split_and!; [done| |split; [split; [apply Hok|exact Hup']|exists b; by eapply holding_base_lookup]].
  apply (posted_pass_inv (m2r_in_use cp t) (mt_mosq t) (mt_topic t) (mt_baseurl t));
    [exact Hu|apply (br_curl _ Hbrokers)|exact Hhome].
Qed.

Lemma m2r_before_posted base up t l b ths i th w :
  process ths base w → scheduled cp conf base0 ths i th → th_unit th = M2R up t →
  base !! l = Some (mt_object cp conf up t b) → all_posted w →
  wp (mqtt2rest_before_poll (Some l)) (λ _ w', all_posted w') w.
Proof.
  intros Hok Hsc Hth Hl Hp. destruct (m2r_passes _ _ _ _ _ _ _ _ _ Hok Hsc Hth Hl) as (Hu & HJ & Hr).
  eapply wp_mono; [by eapply (wp_before_poll (m2r_in_use cp t) (mt_mosq t) up conf all_posted)|].
  by intros o w' (fds & _ & _ & Hp').
Qed.

Lemma m2r_after_posted base up t l b ths i th r w :
  process ths base w → scheduled cp conf base0 ths i th → th_unit th = M2R up t →
  base !! l = Some (mt_object cp conf up t b) → all_posted w →
  wp (mqtt2rest_after_poll (Some l) r) (λ _ w', all_posted w') w.
Proof.
  intros Hok Hsc Hth Hl Hp. destruct (m2r_passes _ _ _ _ _ _ _ _ _ Hok Hsc Hth Hl) as (Hu & HJ & Hr).
  eapply wp_mono; [by eapply (wp_after_poll (m2r_in_use cp t) (mt_mosq t) (mt_topic t)
    (mt_baseurl t) Hu up conf all_posted)|].
  by intros o w' (_ & _ & Hp').
Qed.

(** A thread of the other direction makes no requests of libcurl. *)
Lemma r2m_home base up r ths i th w :
  process ths base w → scheduled cp conf base0 ths i th → th_unit th = R2M up r →
  home units (uv_client (rt_view r)) = None ∧ good_r2m qos0 qs cp conf up r.
Proof.
  intros Hok Hsc Hth.
  destruct (process_unit _ _ _ _ _ _ _ Hgood _ _ _ _ _ Hok Hsc) as (_ & Hu & _ & Hui).
  pose proof (home_unit units (th_unit th) (br_clients _ Hbrokers) (list_elem_of_lookup_2 _ _ _ Hui)) as Hhome.
  rewrite Hth in *. by split.
Qed.

Lemma r2m_before_posted base up r l b ths i th w :
  process ths base w → scheduled cp conf base0 ths i th → th_unit th = R2M up r →
  base !! l = Some (rt_object cp conf r b) → all_posted w →
  wp (rest2mqtt_before_poll (Some l) (uv_daemon (rt_view r))) (λ _ w', all_posted w') w.
Proof.
  intros Hok Hsc Hth Hl Hp. destruct (r2m_home _ _ _ _ _ _ _ Hok Hsc Hth) as [Hhome [Hcb Hmhd Hcalls _ _]].
  destruct (process_serving _ _ _ _ _ _ _ Hgood _ _ _ _ _ _ _ _ _ Hok Hsc Hth Hl)
    as (open & base1 & s & _ & _ & Hsv).
  eapply wp_mono; [by apply (wp_rest_before_poll (r2m_in_use cp r) conf (rt_view r) qs
    (qos0 (Some up)) Hmhd base1 l b s)|].
  intros o w' (fds & _ & _ & _ & _ & Hst). by eapply posted_still.
Qed.

Lemma r2m_after_posted base up r l b ths i th fds pr w :
  process ths base w → scheduled cp conf base0 ths i th → th_unit th = R2M up r →
  base !! l = Some (rt_object cp conf r b) → all_posted w →
  wp (rest2mqtt_after_poll (Some l) (uv_daemon (rt_view r)) (qos0 (Some up)) fds pr)
    (λ _ w', all_posted w') w.
Proof.
  intros Hok Hsc Hth Hl Hp. destruct (r2m_home _ _ _ _ _ _ _ Hok Hsc Hth) as [Hhome [Hcb Hmhd Hcalls _ _]].
  destruct (process_serving _ _ _ _ _ _ _ Hgood _ _ _ _ _ _ _ _ _ Hok Hsc Hth Hl)
    as (open & base1 & s & _ & _ & Hsv).
  eapply wp_mono; [by apply (wp_rest_after_poll (r2m_in_use cp r) conf (rt_view r) qs
    (qos0 (Some up)) Hcb Hmhd Hcalls base1 l b s)|].
  intros o w' (_ & _ & _ & [_ Hst] & _). by eapply posted_still.
Qed.

(** A turn of any thread. *)
Lemma wp_then_posted {A B} (m : M A) (k : A → M B) w :
  (∀ a, preserves all_posted (k a)) → wp m (λ _ w', all_posted w') w →
  wp (m ≫= k) (λ _ w', all_posted w') w.
Proof.
  intros Hk Hm. wp_step. eapply wp_mono; [exact Hm|]. intros [a| | | |] w' Hp; try done.
  by apply (Hk a).
Qed.

Lemma turn_posted ths base i th w :
  process ths base w → scheduled cp conf base0 ths i th → all_posted w →
  wp (turn qos0 (th_state th)) (λ _ w', all_posted w') w.
Proof.
  intros Hok Hsc Hp.
  destruct (process_unit _ _ _ _ _ _ _ Hgood _ _ _ _ _ Hok Hsc) as (Hin & _).
  assert (Hend : ∀ l (stop : bool), preserves all_posted
      (if stop then loop_end l;; mret Ended else mret (AtHead l))).
  { intros l []; [|apply pres_ret]. apply pres_bind; [apply pres_posted_end|intros _; apply pres_ret]. }
  destruct Hin as [up t|up r|up t l b ts Hl Hts|up r l b ts Hl Hts|up t l b Hl|up r];
    cbn [th_state]; try (destruct Hts as [-> | (fds & hit & ->)]); cbn [turn].
  - apply wp_then_posted; [intros; apply pres_ret|by apply pres_posted_start].
  - apply wp_then_posted; [intros; apply pres_ret|by apply pres_posted_start].
  - apply wp_then_posted; [intros; apply pres_ret|by eapply m2r_before_posted].
  - wp_step. apply wp_poll_returns. intros r. wp_step. apply wp_then_posted; [by apply Hend|].
    eapply m2r_after_posted; [by apply process_polled|done..].
  - apply wp_then_posted; [intros; apply pres_ret|by eapply r2m_before_posted].
  - wp_step. apply wp_poll_returns. intros pr. wp_step. apply wp_then_posted; [by apply Hend|].
    eapply r2m_after_posted; [by apply process_polled|done..].
  - by wp_steps.
  - by wp_steps.
Qed.

Lemma pres_posted_signal sig : preserves all_posted (handle_signal sig).
Proof.
  assert (Hkill : ∀ slots, preserves all_posted (kill_threads slots)).
  { induction slots as [|tid slots IH]; cbn [kill_threads]; pres. all: exact IH. }
  unfold handle_signal. pres. all: first [apply Hkill|apply pres_fprintf_stderr, _].
Qed.

Lemma posted_along : Along qos0 qs cp conf timeout units base0 all_posted.
Proof. split; [by apply turn_posted|apply pres_posted_signal]. Qed.

End units.
(** * Property *)
Section property.
Context `{EV : Env}.


End property.

(** ** Witness: two MQTT to REST units and a server *)
Import Demo.

Definition demo_m2r2 : m2r_unit := {|
  mt_unit := {| m2r_unit_name := Some "unit2"; m2r_enabled := true;
                m2r_webservice_baseurl := Some "http://h/b/"; m2r_mqtt_topic := Some "unit2";
                m2r_common_configuration := None |};
  mt_mosq := 4; mt_topic := "unit2"; mt_baseurl := "http://h/b/" |}.

Definition two_brokers : list unit_at := [M2R 2 demo_m2r; M2R 6 demo_m2r2; R2M 4 server1].

Definition two_brokers_heap : gmap positive obj :=
  <[6%positive := OMqtt2Rest (m2r_in_use 3 demo_m2r2)]> all_heap.

Lemma demo_good_m2r2 : good_m2r (EV := demo_env 8 all_units) 3 demo_conf 6 demo_m2r2.
Proof.
  split; [|split; try discriminate; intros tr; reflexivity].
  split; try reflexivity; try (apply (bool_decide_unpack _); vm_compute; exact I);
    try (vm_compute; lia); intros tr; repeat constructor.
  - apply (bool_decide_unpack _). vm_compute. exact I.
  - exists "lamp", (explode "http://h/b/lamp"). split; vm_compute; reflexivity.
Defined.

Lemma two_brokers_good :
  good_units (EV := demo_env 8 all_units) (λ _, 0) demo_qs 3 demo_conf 15000 two_brokers.
Proof.
  split; [|intros i j u u' v v' Hi Hj Hne Hv Hv'|reflexivity].
  - repeat apply Forall_cons_2; [apply demo_good_m2r|apply demo_good_m2r2|apply server1_good|constructor].
  - destruct i as [|[|[|i]]], j as [|[|[|j]]]; try done; injection Hi as <-; injection Hj as <-;
      discriminate.
Defined.

(** SIGINT comes after a pass of each of the first two threads, when the second and
    the third are inside [poll]; both have further turns. *)
Definition uneven_schedule : list action :=
  [Turn 0; Turn 1; Turn 2; Turn 2; Turn 1; Turn 1; Turn 0; Turn 0; Turn 1;
   Sigint (Some 0%nat); Turn 2; Turn 1; Turn 1; Turn 1]%nat.

Definition two_brokers_table : World :=
  set_threads (7 :: 8 :: 9 :: replicate 29 0) (world_of console_log two_brokers_heap).


End Delivery.
