(* ===== verification/Options.v ===== *)
(** Model of [src/main.c]: the command line, the help and the version. *)
From Stdlib Require Import ZArith Lia ZifyBool Ascii String List.
From stdpp Require Import base numbers list strings gmap.
From S2P Require Import Prelude.
From S2P Require Import CLib.
From S2P Require Import Getopt.
From S2P Require Import Types.
From S2P Require Import World.
From S2P Require Import Demo.
From S2P Require Import Utils.
From S2P Require Import Logging.
From S2P Require Import Configuration.
Import Getopt Utils Logging Configuration.

Module Options.

Definition PACKAGE_VERSION : string := "0.2~".

Section options.
Context `{EV : Env}.

(** * Help and version *)
Definition print_help (app_name : cstr) : M unit :=
  fprintf_stderr (nl +:+ "Usage: %s [OPTIONS]" +:+ nl +:+ nl) [PStr app_name];;
  fprintf_stderr ("Options:" +:+ nl) [];;
  fprintf_stderr ("   -h --help                 Print this help" +:+ nl) [];;
  fprintf_stderr ("   -v --version              Print version info" +:+ nl) [];;
  fprintf_stderr ("   -c --configfile filename  Read configuration from the file" +:+ nl) [];;
  fprintf_stderr ("   -d --daemon               Daemonize this application" +:+ nl) [];;
  fprintf_stderr ("   -p --dump                 Dump the parsed config to stderr and continue running" +:+ nl) [];;
  fprintf_stderr nl [].

Definition print_version : M unit :=
  fprintf_stderr (PACKAGE_NAME +:+ " version: %s" +:+ nl) [PStr (Some PACKAGE_VERSION)];;
  let '(major, minor, revision, ver) := mosquitto_lib_version in
  fprintf_stderr ("Libmosquitto version: %d.%d-%d (%d)" +:+ nl)
    [PInt major; PInt minor; PInt revision; PInt ver];;
  fprintf_stderr ("Libcurl version: %s" +:+ nl) [PStr (Some curl_version)];;
  fprintf_stderr ("Libmicrohttpd version: %s" +:+ nl) [PStr (Some MHD_get_version)];;
  fprintf_stderr ("Libconfuse version: %s" +:+ nl) [PStr (Some confuse_version)].

(** * Options *)

Definition long_options : list long_option := [
  {| lo_name := "configfile"; lo_arg := true; lo_val := "c" |};
  {| lo_name := "help"; lo_arg := false; lo_val := "h" |};
  {| lo_name := "version"; lo_arg := false; lo_val := "v" |};
  {| lo_name := "daemon"; lo_arg := false; lo_val := "d" |};
  {| lo_name := "dump"; lo_arg := false; lo_val := "p" |}].

Definition short_options : list ascii := explode "c:dhvp".

Record settings := {
  conf_file_name : string;
  start_daemonized : bool;
  dump_config : bool;
}.

(** The option loop, over what [getopt_long] returns: the settings, or the
    value [main] returns at once. *)
Fixpoint parse_options (app_name : cstr) (s : settings) (l : list option_found)
    : M (settings + Z) :=
  match l with
  | [] => mret (inl s)
  | Found value optarg :: l' =>
      if bool_decide (value = "c"%char) then
        file ← deref optarg;
        parse_options app_name {| conf_file_name := file;
          start_daemonized := start_daemonized s; dump_config := dump_config s |} l'
      else if bool_decide (value = "d"%char) then
        parse_options app_name {| conf_file_name := conf_file_name s;
          start_daemonized := true; dump_config := dump_config s |} l'
      else if bool_decide (value = "p"%char) then
        parse_options app_name {| conf_file_name := conf_file_name s;
          start_daemonized := start_daemonized s; dump_config := true |} l'
      else if bool_decide (value = "h"%char) then
        print_help app_name;; mret (inr EXIT_SUCCESS)
      else if bool_decide (value = "v"%char) then
        print_version;; mret (inr EXIT_SUCCESS)
      else if bool_decide (value = QUESTION) then
        print_help app_name;; mret (inr EXIT_FAILURE)
      else parse_options app_name s l'
  end.

(** * The tables *)

Lemma main_tables_ok : tables_ok short_options long_options.
Proof.
  split; [| |reflexivity..].
  - assert (H : Forall (λ o, Forall (λ o', String.prefix (lo_name o) (lo_name o') = true
                                    ∨ lo_val o = lo_val o' → o = o') long_options) long_options)
      by (apply (bool_decide_unpack _); vm_compute; exact I).
    intros o o' Ho Ho'. rewrite Forall_forall in H. specialize (H o Ho).
    rewrite Forall_forall in H. by apply H.
  - assert (H : Forall (λ o, lo_val o ≠ QUESTION) long_options)
      by (apply (bool_decide_unpack _); vm_compute; exact I).
    intros o Ho. rewrite Forall_forall in H. by apply H.
Qed.

(** The options of a command line. *)
Definition options (argv : list string) : list option_found :=
  getopt_long short_options long_options (tail argv).

(** The option -c comes with its argument. *)
Definition has_file (o : option_found) : Prop :=
  of_value o = "c"%char → is_Some (of_optarg o).

Lemma options_have_files argv : Forall has_file (options argv).
Proof.
  eapply Forall_impl; [apply getopt_well_formed|]. intros o Ho Hc.
  destruct Ho as [->|[Ho|(lo & Hlo & Hv & Ha)]]; [done| |].
  - rewrite Hc in Ho. case_bool_decide; [done|]. discriminate.
  - rewrite Hc in Hv. case_bool_decide; [done|].
    assert (Hall : Forall (λ o, lo_val o = "c"%char → lo_arg o ≠ false) long_options)
      by (apply (bool_decide_unpack _); vm_compute; exact I).
    rewrite Forall_forall in Hall. by destruct (Hall lo Hlo Hv).
Qed.

(** The value an option makes [main] return at once. *)
Definition stop_code (o : option_found) : option Z :=
  if bool_decide (of_value o = "h"%char) || bool_decide (of_value o = "v"%char)
  then Some EXIT_SUCCESS
  else if bool_decide (of_value o = QUESTION) then Some EXIT_FAILURE
  else None.

Definition is_opt (c : ascii) (o : option_found) : bool := bool_decide (of_value o = c).
Definition file_of (o : option_found) : option string :=
  if is_opt "c" o then of_optarg o else None.

(** The settings of options none of which stops: the last file counts. *)
Definition settings_of (s : settings) (l : list option_found) : settings := {|
  conf_file_name := default (conf_file_name s) (last (omap file_of l));
  start_daemonized := start_daemonized s || existsb (is_opt "d") l;
  dump_config := dump_config s || existsb (is_opt "p") l;
|}.

Lemma settings_of_nil s : settings_of s [] = s.
Proof. destruct s. unfold settings_of. cbn. by rewrite !orb_false_r. Qed.

Lemma last_cons_default {A} (x y : A) l : default x (last (y :: l)) = default y (last l).
Proof. rewrite last_cons. by destruct (last l). Qed.

Lemma settings_of_cons s o l :
  settings_of s (o :: l) = settings_of (settings_of s [o]) l.
Proof.
  unfold settings_of. cbn [omap list_omap existsb conf_file_name start_daemonized dump_config].
  rewrite !orb_false_r, !orb_assoc. f_equal. destruct (file_of o); [|done].
  by rewrite last_cons_default.
Qed.

Lemma wp_parse_options name s l1 rest Q w :
  Forall has_file l1 → Forall (λ o, stop_code o = None) l1 →
  match rest with
  | [] => ∀ out, Q (Ok (inl (settings_of s l1))) (set_out out w)
  | o :: _ => ∃ code, stop_code o = Some code ∧ ∀ out, Q (Ok (inr code)) (set_out out w)
  end →
  wp (parse_options name s (l1 ++ rest)) Q w.
Proof.
  intros Hf Hl1. revert s Hf. induction Hl1 as [|o l1 Ho Hl1 IH]; intros s Hf HQ.
  - cbn [app]. destruct rest as [|o rest]; cbn [parse_options].
    + wp_step. specialize (HQ (w_out w)). by rewrite set_out_id, settings_of_nil in HQ.
    + destruct HQ as (code & Hc & HQ). destruct o as [v a]. unfold stop_code in Hc. cbn [of_value] in Hc.
      repeat (case_bool_decide; [subst v|]); try discriminate; injection Hc as <-;
        unfold print_help, print_version;
        try destruct mosquitto_lib_version as [[[? ?] ?] ?]; wp_steps; apply HQ.
  - apply Forall_cons in Hf as [Hfo Hf]. cbn [app]. destruct o as [v a].
    assert (HI : ∀ s', s' = settings_of s [Found v a] →
                 wp (parse_options name s' (l1 ++ rest)) Q w).
    { intros s' ->. apply IH; [done|]. destruct rest; [|done].
      by rewrite <- settings_of_cons. }
    clear IH HQ. cbn [parse_options]. unfold stop_code in Ho. unfold has_file in Hfo.
    unfold settings_of, file_of, is_opt in HI. cbn in Ho, Hfo, HI. revert Ho Hfo HI.
    rewrite !orb_false_r. repeat case_bool_decide; subst; try discriminate; cbn; intros Ho Hfo HI;
      rewrite ?orb_true_r, ?orb_false_r in HI.
    + destruct Hfo as [file ->]; [done|]. wp_steps. by apply HI.
    + by apply HI.
    + by apply HI.
    + apply HI. by destruct s.
Qed.

(** * Properties *)

Lemma short_options_spec c :
  short_option short_options c
  = if bool_decide (c = "c"%char) then Some true
    else if bool_decide (c ∈ explode "dhvp") then Some false else None.
Proof.
  unfold short_option, short_options. cbn.
  repeat case_bool_decide; subst; try done; exfalso; set_solver.
Qed.


End options.

End Options.
