(* ===== verification/Main.v ===== *)
(** Model of [src/main.c]: start-up, the threads of the units, and [main]. *)
From Stdlib Require Import ZArith Lia ZifyBool Ascii String List.
From stdpp Require Import base numbers list strings gmap.
From S2P Require Import Prelude.
From S2P Require Import CLib.
From S2P Require Import Getopt.
From S2P Require Import Types.
From S2P Require Import World.
From S2P Require Import Demo.
From S2P Require Import Utils.
From S2P Require Import Logging.
From S2P Require Import Configuration.
From S2P Require Import Options.
From S2P Require Import Signals.
Import Getopt Utils Logging Configuration Options Signals.

Module Main.

Definition MAX_UNIT_NUM : Z := 32.

Section main.
Context `{EV : Env}.

(** * The threads *)

(** [pthread_create(&threads[threadcounter++], ...)]. *)
Definition create_thread (threadcounter : nat) (f : thread_main) (arg : ptr) : M nat :=
  w ← get_world;
  (if (length (w_threads w) <=? threadcounter)%nat then crash OutOfBounds else mret tt);;
  '(ret, tid) ← call (X_pthread_create f arg);
  if negb (ret =? 0) then
    fprintf_stderr ("Error - pthread_create() return code: %d" +:+ nl) [PInt ret];;
    exit_process EXIT_FAILURE
  else
    modify (λ w, set_threads (<[threadcounter := tid]> (w_threads w)) w);;
    mret (S threadcounter).

(** The loops over [unit_configs[0..count)], which differ in the struct and the
    thread function: [with_common u] is the struct of [u] with the common
    configuration set. *)
Fixpoint start_loop {U} (load_unit : ptr → M U) (enabled : U → bool) (with_common : U → obj)
    (f : thread_main) (units : list ptr) (threadcounter : nat) : M nat :=
  match units with
  | [] => mret threadcounter
  | p :: units' =>
      u ← load_unit p;
      if negb (enabled u) then start_loop load_unit enabled with_common f units' threadcounter
      else
        store p (with_common u);;
        n ← create_thread threadcounter f p;
        start_loop load_unit enabled with_common f units' n
  end.

Definition mqtt2rest_with_common (config : ptr) (u : Mqtt2RestUnitConfiguration) : obj :=
  OMqtt2Rest {| m2r_unit_name := m2r_unit_name u; m2r_enabled := m2r_enabled u;
    m2r_webservice_baseurl := m2r_webservice_baseurl u; m2r_mqtt_topic := m2r_mqtt_topic u;
    m2r_common_configuration := config |}.

Definition rest2mqtt_with_common (config : ptr) (u : Rest2MqttUnitConfiguration) : obj :=
  ORest2Mqtt {| r2m_unit_name := r2m_unit_name u; r2m_enabled := r2m_enabled u;
    r2m_listen_port := r2m_listen_port u; r2m_mqtt_topic_root := r2m_mqtt_topic_root u;
    r2m_common_configuration := config |}.

Definition start_mqtt2rest (config : ptr) : list ptr → nat → M nat :=
  start_loop load_mqtt2rest m2r_enabled (mqtt2rest_with_common config) run_mqtt2rest.

Definition start_rest2mqtt (config : ptr) : list ptr → nat → M nat :=
  start_loop load_rest2mqtt r2m_enabled (rest2mqtt_with_common config) run_rest2mqtt.

(** The threads created, latest first. *)
Fixpoint created (tr : list event) : list (thread_main * ptr) :=
  match tr with
  | [] => []
  | Ev c _ :: tr' =>
      match c with
      | X_pthread_create f arg => (f, arg) :: created tr'
      | _ => created tr'
      end
  end.

(** What the threads do, from their functions and arguments in the order of
    their creation, while [main] waits for them. *)
Class Scheduler : Type := run_threads : list (thread_main * ptr) → M unit.

(** [for (...) pthread_join(threads[i], NULL);]: the threads run, and the calls
    return. *)
Definition join_threads `{SC : Scheduler} (n : nat) : M unit :=
  w ← get_world;
  run_threads (reverse (created (w_trace w)));;
  w ← get_world;
  for_each (take n (w_threads w)) (λ t, call (X_pthread_join t);; mret tt).

(** From the unit counts to the last thread started: the thread count, or the
    value [main] returns. *)
Definition start_units (conf_file : string) (config : ptr)
    (m2r_count r2m_count : Z) (m2r r2m : list ptr) : M (nat + Z) :=
  if (m2r_count <? 0) || (r2m_count <? 0) then
    FATAL (At "main.c" 290 "main") "Failed to init unit configs, check config file:"
      [PStr (Some conf_file)];;
    mret (inr EXIT_FAILURE)
  else if m2r_count + r2m_count =? 0 then
    ERROR (At "main.c" 295 "main") "No units found. Please check configuration file %s"
      [PStr (Some conf_file)];;
    mret (inr EXIT_FAILURE)
  else if MAX_UNIT_NUM <? m2r_count + r2m_count then
    ERROR (At "main.c" 299 "main") "Max number of units/threads (%d) exceeded"
      [PInt MAX_UNIT_NUM];;
    mret (inr EXIT_FAILURE)
  else
    n ← start_mqtt2rest config (take (Z.to_nat m2r_count) m2r) 0;
    n ← start_rest2mqtt config (take (Z.to_nat r2m_count) r2m) n;
    DEBUG (At "main.c" 333 "main") "Started %d units" [PInt (Z.of_nat n)];;
    mret (inl n).

(** What [main] does after the joins. *)
Definition clean_up (m2r r2m : list ptr) : M Z :=
  for_each m2r free;;
  for_each r2m free;;
  free_config;;
  call X_mosquitto_lib_cleanup;;
  log_finalize;;
  INFO (At "main.c" 351 "main") "bye" [];;
  mret EXIT_SUCCESS.

(** From the initialised logging to the end of [main]. *)
Definition run_units `{SC : Scheduler} (conf_file : string) (config : ptr) : M Z :=
  call X_mosquitto_lib_init;;
  '(m2r_count, m2r) ←
    get_mqtt2rest_unitconfigs (replicate (Z.to_nat MAX_UNIT_NUM) None) MAX_UNIT_NUM;
  '(r2m_count, r2m) ←
    get_rest2mqtt_unitconfigs (replicate (Z.to_nat MAX_UNIT_NUM) None) MAX_UNIT_NUM;
  started ← start_units conf_file config m2r_count r2m_count m2r r2m;
  match started with
  | inr code => mret code
  | inl n =>
      join_threads n;;
      clean_up (take (Z.to_nat m2r_count) m2r) (take (Z.to_nat r2m_count) r2m)
  end.

(** From the end of the option loop to the initialised logging. *)
Definition start_up `{SC : Scheduler} (st : settings) : M Z :=
  call (X_signal SIGINT false);;
  call (X_signal SIGUSR1 false);;
  (if start_daemonized st then daemonize else mret tt);;
  config ← init_config (conf_file_name st) (dump_config st);
  match config with
  | None =>
      fprintf_stderr ("CONFIG ERROR in %s, EXITING!" +:+ nl)
        [PStr (Some (conf_file_name st))];;
      exit_process EXIT_FAILURE
  | Some _ =>
      conf ← load_configuration config;
      r ← log_init (cf_loglevel conf) (logtarget conf) (cf_logfile conf)
            (logfacility conf) 0;
      if negb (r =? 0) then
        fprintf_stderr ("Failed to init logging from config file: %s, exiting" +:+ nl)
          [PStr (Some (conf_file_name st))];;
        mret EXIT_FAILURE
      else
        pid ← call X_getpid;
        INFO (At "main.c" 272 "main") (PACKAGE_NAME +:+ " started, pid: %d, config file: %s")
          [PInt pid; PStr (Some (conf_file_name st))];;
        run_units (conf_file_name st) config
  end.

(** [main]: what it returns; [app_name] is [argv[0]]. *)
Definition main `{SC : Scheduler} (argv : list string) : M Z :=
  let app_name := head argv in
  s ← call (X_getenv "MQRESTT_CONFIG");
  conf_file ← match s with
              | Some path =>
                  fprintf_stderr ("Getting config path from env, %s" +:+ nl) [PStr (Some path)];;
                  mret path
              | None => mret (PACKAGE_NAME +:+ ".conf")
              end;
  o ← parse_options app_name {| conf_file_name := conf_file; start_daemonized := false;
                                dump_config := false |}
        (getopt_long short_options long_options (tail argv));
  match o with
  | inr code => mret code
  | inl st => start_up st
  end.

(** * Invariants of [main]

    What survives the changes [main] makes to the state and its calls, those
    that create threads apart, survives [main] up to the threads and after
    them. *)
Definition main_call {A} (c : ext A) : bool :=
  match c with
  | X_pthread_create _ _ | X_mosquitto_publish _ _ _ _ _ _ | X_MHD_run _
  | X_MHD_answered _ _ _ | X_mosquitto_connect _ _ _ _ | X_mosquitto_loop_write _ _
  | X_mosquitto_loop_read _ _ | X_mosquitto_loop_misc _ | X_curl_easy_perform _ => false
  | _ => true
  end.

Class MainInv (I : World → Prop) : Prop := {
  mi_proper :: Proper ((≡) ==> iff) I;
  mi_call : ∀ A (c : ext A), main_call c = true → preserves I (call c);
  mi_heap : ∀ h w, I w → I (set_heap h w);
  mi_cfg : ∀ c w, I w → I (set_cfg c w);
  mi_pid_fd : ∀ fd w, I w → I (set_pid_fd fd w);
  mi_log_init : ∀ level target path facility size,
    preserves I (log_init level target path facility size);
  mi_log_finalize : preserves I log_finalize;
}.

Section main_inv.
Context (I : World → Prop) `{MI : !MainInv I}.

Hint Resolve mi_call mi_log_init mi_log_finalize : pres.
Hint Extern 0 (_ = true) => reflexivity : pres.
Hint Extern 0 (preserves _ (fprintf_stderr _ _)) => apply pres_fprintf_stderr, _ : pres.

Lemma pres_main_malloc n o : preserves I (malloc n o).
Proof.
  unfold malloc. apply pres_bind; [by apply mi_call|]. intros []; [|apply pres_ret].
  apply pres_get_bind. intros w Hw. by apply mi_heap.
Qed.

Lemma pres_main_store p o : preserves I (store p o).
Proof.
  destruct p as [l|]; [|apply pres_crash]. apply pres_get_bind. intros w Hw.
  destruct (w_heap w !! l); [by apply mi_heap|done].
Qed.

Lemma pres_main_free p : preserves I (free p).
Proof.
  destruct p as [l|]; [|apply pres_ret]. apply pres_get_bind. intros w Hw.
  destruct (w_heap w !! l); [by apply mi_heap|done].
Qed.

Lemma pres_main_set_pid_fd fd : preserves I (modify (set_pid_fd fd)).
Proof. intros w Hw. by apply mi_pid_fd. Qed.
Lemma pres_main_set_cfg c : preserves I (modify (set_cfg c)).
Proof. intros w Hw. by apply mi_cfg. Qed.
Hint Resolve pres_main_malloc pres_main_store pres_main_free pres_main_set_pid_fd
  pres_main_set_cfg : pres.

Lemma pres_daemonize : preserves I daemonize.
Proof.
  assert (Hclose : ∀ n, preserves I (close_down n)).
  { induction n as [|n IH]; cbn [close_down]; pres. }
  unfold daemonize, fork_and_leave_parent. pres. all: try apply Hclose.
Qed.

Lemma pres_free_config : preserves I free_config.
Proof. unfold free_config. pres. Qed.
Hint Resolve pres_daemonize pres_free_config : pres.

Lemma pres_init_config path dump : preserves I (init_config path dump).
Proof. unfold init_config. pres. Qed.

Lemma pres_unitconfigs_loop size fill n todo i arr :
  (∀ i p, preserves I (fill i p)) → preserves I (unitconfigs_loop size fill n todo i arr).
Proof.
  intros Hf. revert i arr. induction todo as [|todo IH]; intros i arr;
    cbn [unitconfigs_loop]; pres; apply Hf || apply IH.
Qed.

Lemma pres_get_mqtt2rest arr n : preserves I (get_mqtt2rest_unitconfigs arr n).
Proof.
  assert (∀ c i p, preserves I (fill_mqtt2rest c i p)) by (unfold fill_mqtt2rest; pres).
  pose proof pres_unitconfigs_loop. unfold get_mqtt2rest_unitconfigs. pres; auto.
Qed.

Lemma pres_get_rest2mqtt arr n : preserves I (get_rest2mqtt_unitconfigs arr n).
Proof.
  assert (∀ c i p, preserves I (fill_rest2mqtt c i p)) by (unfold fill_rest2mqtt; pres).
  pose proof pres_unitconfigs_loop. unfold get_rest2mqtt_unitconfigs. pres; auto.
Qed.
Hint Resolve pres_init_config pres_get_mqtt2rest pres_get_rest2mqtt : pres.

Lemma pres_clean_up m2r r2m : preserves I (clean_up m2r r2m).
Proof. unfold clean_up. pres. Qed.
Hint Resolve pres_clean_up : pres.

Lemma pres_parse_options name st l : preserves I (parse_options name st l).
Proof.
  revert st. induction l as [|[v a] l IH]; intros st; cbn [parse_options]; [pres|].
  unfold print_help, print_version. pres. all: apply IH.
Qed.

Context (Hcreate : ∀ n f arg, preserves I (create_thread n f arg)).

Lemma pres_start_loop {U} (load_unit : ptr → M U) enabled with_common f units n :
  (∀ p, preserves I (load_unit p)) →
  preserves I (start_loop load_unit enabled with_common f units n).
Proof.
  intros Hl. revert n. induction units as [|p units IH]; intros n; cbn [start_loop]; pres;
    apply Hl || apply Hcreate || apply IH.
Qed.

Lemma pres_start_units path config n1 n2 m2r r2m :
  preserves I (start_units path config n1 n2 m2r r2m).
Proof.
  unfold start_units, start_mqtt2rest, start_rest2mqtt. pres.
  all: apply pres_start_loop; intros; pres.
Qed.

(** And [main] itself, when the threads keep it. *)
Context `{SC : Scheduler} (Hrun : ∀ ths, preserves I (run_threads ths)).

Lemma pres_run_units path config : preserves I (run_units path config).
Proof. pose proof pres_start_units. unfold run_units, join_threads. pres. Qed.

Lemma pres_main argv : preserves I (main argv).
Proof.
  pose proof pres_run_units. pose proof pres_parse_options.
  assert (∀ st, preserves I (start_up st)) by (intros st; unfold start_up; pres).
  unfold main. pres.
Qed.

End main_inv.

#[export] Instance main_inv_and I1 I2 :
  MainInv I1 → MainInv I2 → MainInv (λ w, I1 w ∧ I2 w).
Proof.
  intros M1 M2. split.
  - intros w1 w2 E. by rewrite E.
  - intros A c Hc w [H1 H2]. split; by apply mi_call.
  - intros h w [H1 H2]. split; by apply mi_heap.
  - intros c w [H1 H2]. split; by apply mi_cfg.
  - intros fd w [H1 H2]. split; by apply mi_pid_fd.
  - intros level target path facility size w [H1 H2]. split; by apply mi_log_init.
  - intros w [H1 H2]. split; by apply mi_log_finalize.
Qed.

(** An invariant of the trace and of the table of requests. *)
Lemma trace_inv I :
  (∀ A (c : ext A), main_call c = true → preserves I (call c)) →
  (∀ w w', w_trace w' = w_trace w → w_con_cls w' = w_con_cls w → I w → I w') → MainInv I.
Proof.
  intros Hc Hs.
  assert (HP : Proper ((≡) ==> iff) I).
  { intros w1 w2 E. pose proof (w_trace_proper _ _ E) as Et. pose proof (w_con_cls_proper _ _ E) as Ec.
    split; apply Hs; congruence. }
  assert (Hlog : ∀ f, preserves I (set_log_fields f)) by (intros f w Hw; by apply (Hs w)).
  assert (Hemit : ∀ o, preserves I (emit o)) by (intros o w Hw; by apply (Hs w)).
  assert (Hprint : ∀ f args, preserves I (fprintf_stderr f args))
    by (intros; apply pres_fprintf_stderr, _).
  assert (Htable : ∀ name table, preserves I (facility_loop name table)).
  { intros name table. induction table as [|[n v] table IH]; cbn [facility_loop]; pres. }
  assert (Hopen : ∀ path m, preserves I (call (X_fopen path m))) by (intros; by apply Hc).
  assert (Hclose : ∀ path, preserves I (call (X_fclose path))) by (intros; by apply Hc).
  assert (Hsys : ∀ a b d, preserves I (call (X_openlog a b d))) by (intros; by apply Hc).
  split; [done|done|by intros h w Hw; apply (Hs w)|by intros c w Hw; apply (Hs w)
         |by intros fd w Hw; apply (Hs w)| |].
  - intros level target path facility size.
    unfold log_init, log_lookup_loglevel, log_lookup_syslog_facility. pres.
  - unfold log_finalize. pres.
Qed.

Lemma true_inv : MainInv (λ _, True).
Proof. by apply trace_inv. Qed.

#[export] Instance created_inv x : MainInv (λ w, created (w_trace w) = x).
Proof.
  apply trace_inv; [|by intros w w' ->]. intros A c Hc w Hw. cbn. by destruct c.
Qed.

(** * Threads *)

(** [w'] is [w] after threads were created: they fill the slots from [n] on. *)
Lemma wp_create_thread n f arg Q w :
  (n < length (w_threads w))%nat →
  let r := answer (w_trace w) _ (X_pthread_create f arg) in
  let w1 := called (X_pthread_create f arg) w in
  (if fst r =? 0 then Q (Ok (S n)) (set_threads (<[n := snd r]> (w_threads w)) w1)
   else ∀ o, Q (Exit 1) (set_out o w1)) →
  wp (create_thread n f arg) Q w.
Proof.
  intros Hn r w1 HQ. unfold create_thread. wp_steps.
  rewrite (proj2 (Nat.leb_gt _ _)) by done. wp_steps. fold r w1.
  destruct r as [ret tid]. cbn [fst snd] in HQ.
  destruct (ret =? 0); cbn [negb]; wp_steps; apply HQ.
Qed.

(** Every creation of a thread succeeds, and no thread has the identifier 0. *)
Definition threads_ok : Prop :=
  ∀ tr f arg, fst (answer tr _ (X_pthread_create f arg)) = 0
              ∧ snd (answer tr _ (X_pthread_create f arg)) ≠ 0.

Section start_loop.
Context {U : Type} (load_unit : ptr → M U) (enabled : U → bool) (with_common : U → obj).
Context (mk : U → obj) (f : thread_main).
Context (Hload : ∀ l u Q w, w_heap w !! l = Some (mk u) → Q (Ok u) w → wp (load_unit (Some l)) Q w).

Definition running (units : list (positive * U)) : list (positive * U) :=
  filter (λ p, enabled p.2 = true) units.

(** What the loop does from slot [n] on: one thread per enabled unit, in their
    order, each with its common configuration set. *)
Record loop_started (units : list (positive * U)) (n : nat) (w w' : World) : Prop := {
  ls_log : w_log w' = w_log w;
  ls_cfg : w_cfg w' = w_cfg w;
  ls_created : created (w_trace w')
               = reverse ((λ p, (f, Some p.1)) <$> running units) ++ created (w_trace w);
  ls_units : ∀ l u, (l, u) ∈ units →
             w_heap w' !! l = Some (if enabled u then with_common u else mk u);
  ls_rest : ∀ l, l ∉ units.*1 → w_heap w' !! l = w_heap w !! l;
  ls_threads : ∃ ts, length ts = length (running units) ∧ Forall (λ t, t ≠ 0) ts
    ∧ w_threads w' = take n (w_threads w) ++ ts ++ drop (n + length ts) (w_threads w);
}.

Lemma take_insert_snoc {A} (l : list A) n x :
  (n < length l)%nat → take (S n) (<[n:=x]> l) = take n l ++ [x].
Proof.
  intros H. rewrite insert_take_drop by done.
  rewrite take_app_ge by (rewrite length_take; lia). rewrite length_take, Nat.min_l by lia.
  by replace (S n - n)%nat with 1%nat by lia.
Qed.

Lemma wp_start_loop units n w :
  threads_ok → NoDup units.*1 → (∀ l u, (l, u) ∈ units → w_heap w !! l = Some (mk u)) →
  (n + length (running units) ≤ length (w_threads w))%nat →
  wp (start_loop load_unit enabled with_common f (Some <$> units.*1) n) (λ o w',
    o = Ok (n + length (running units))%nat ∧ loop_started units n w w') w.
Proof.
  intros Hok. revert n w. induction units as [|[l u] units IH]; intros n w Hnd Hh Hlen.
  { cbn. wp_steps. rewrite Nat.add_0_r. split; [done|]. split; [done|done|done|set_solver|done|].
    exists []. split_and!; [done|constructor|]. by rewrite Nat.add_0_r, app_nil_l, take_drop. }
  cbn [fmap list_fmap fst] in Hnd. apply NoDup_cons in Hnd as [Hl Hnd].
  change (Some <$> ((l, u) :: units).*1) with (Some l :: (Some <$> units.*1)).
  cbn [start_loop]. wp_step. apply (Hload l u); [apply Hh; by left|]. wp_step.
  unfold running in *. rewrite filter_cons in Hlen |- *. cbn [snd] in *.
  destruct (enabled u) eqn:Eu; cbn [negb].
  - rewrite decide_True in Hlen |- * by done. cbn [length] in Hlen.
    wp_step. eapply wp_store; [apply Hh; by left|]. do 2 wp_step.
    apply wp_create_thread; [cbn; lia|]. cbn [w_trace set_heap].
    destruct (Hok (w_trace w) f (Some l)) as [Hz Hnz]. rewrite Hz. cbn [Z.eqb]. wp_step.
    eapply wp_mono; [apply IH|].
    + done.
    + intros l' u' Hin. cbn. rewrite lookup_insert_ne; [apply Hh; by right|].
      intros ->. apply Hl. apply list_elem_of_fmap. by exists (l', u').
    + cbn. rewrite length_insert. lia.
    + intros o w' [-> [Hlg Hcf Hcr Hun Hre (ts & Hts & Hnz' & Hth)]]. wsimpl. split.
      { f_equal. cbn [length]. lia. }
      split; unfold running; rewrite ?filter_cons, ?(decide_True _ _ (Eu : enabled (l, u).2 = true)).
      * done.
      * done.
      * rewrite Hcr. cbn [created fmap list_fmap]. rewrite reverse_cons, <- app_assoc. done.
      * intros l' u' Hin. apply elem_of_cons in Hin as [[= -> ->]|Hin]; [|by apply Hun].
        rewrite Hre by done. rewrite lookup_insert_eq, Eu. done.
      * intros l' Hl'. cbn [fmap list_fmap fst] in Hl'. apply not_elem_of_cons in Hl' as [Hne Hl'].
        rewrite Hre by done. by rewrite lookup_insert_ne.
      * exists (snd (answer (w_trace w) _ (X_pthread_create f (Some l))) :: ts). split_and!.
        -- cbn [length]. by rewrite Hts.
        -- by constructor.
        -- rewrite Hth, take_insert_snoc, drop_insert_lt by lia. rewrite <- app_assoc.
           cbn [length app]. by rewrite Nat.add_succ_r.
  - rewrite decide_False in Hlen |- * by done.
    eapply wp_mono; [apply IH; [done| |done]|].
    { intros l' u' Hin. apply Hh. by right. }
    intros o w' [-> [Hlg Hcf Hcr Hun Hre Hth]]. split; [done|]. unfold running in *.
    split; unfold running; rewrite ?filter_cons, ?(decide_False (P := enabled (l, u).2 = true)) by (cbn; congruence); try done.
    + intros l' u' Hin. apply elem_of_cons in Hin as [[= -> ->]|Hin]; [|by apply Hun].
      rewrite Hre, Eu by done. apply Hh. by left.
    + intros l' Hl'. apply Hre. cbn [fmap list_fmap] in Hl'. set_solver.
Qed.

End start_loop.

Definition m2r_started (config : ptr) :=
  loop_started m2r_enabled (mqtt2rest_with_common config) OMqtt2Rest run_mqtt2rest.
Definition r2m_started (config : ptr) :=
  loop_started r2m_enabled (rest2mqtt_with_common config) ORest2Mqtt run_rest2mqtt.

(** [units] are structs of the heap. *)
Definition units_at {U} (mk : U → obj) (units : list (positive * U)) (w : World) : Prop :=
  NoDup units.*1 ∧ ∀ l u, (l, u) ∈ units → w_heap w !! l = Some (mk u).

(** The counts [main] accepts. *)
Definition counts_ok (n1 n2 : Z) : Prop := 0 ≤ n1 ∧ 0 ≤ n2 ∧ 1 ≤ n1 + n2 ≤ MAX_UNIT_NUM.

Lemma length_running {U} (enabled : U → bool) units :
  (length (running enabled units) ≤ length units)%nat.
Proof. apply length_filter. Qed.

Lemma wp_start_units path config n1 n2 m2r r2m rest1 rest2 w :
  log_ready (w_log w) → threads_ok → length (w_threads w) = Z.to_nat MAX_UNIT_NUM →
  units_at OMqtt2Rest m2r w → units_at ORest2Mqtt r2m w →
  n1 = Z.of_nat (length m2r) → n2 = Z.of_nat (length r2m) → counts_ok n1 n2 →
  wp (start_units path config n1 n2 ((Some <$> m2r.*1) ++ rest1) ((Some <$> r2m.*1) ++ rest2))
     (λ o w', ∃ w1 w2 out,
    o = Ok (inl (length (running m2r_enabled m2r) + length (running r2m_enabled r2m))%nat)
    ∧ m2r_started config m2r 0 w w1
    ∧ r2m_started config r2m (length (running m2r_enabled m2r)) w1 w2
    ∧ w' = set_out out w2) w.
Proof.
  intros Hlog Hok Hth [Hnd1 Hu1] [Hnd2 Hu2] Hn1 Hn2 (H1 & H2 & H3). unfold start_units.
  pose proof (length_running m2r_enabled m2r). pose proof (length_running r2m_enabled r2m).
  rewrite (proj2 (Z.ltb_ge n1 0)), (proj2 (Z.ltb_ge n2 0)) by lia. cbn [orb].
  rewrite (proj2 (Z.eqb_neq (n1 + n2) 0)), (proj2 (Z.ltb_ge MAX_UNIT_NUM _)) by lia.
  rewrite !take_app_length' by (rewrite !length_fmap; lia). wp_step.
  assert (Hdis : ∀ l, l ∈ r2m.*1 → l ∉ m2r.*1).
  { intros l Hl2 Hl1. apply list_elem_of_fmap in Hl1 as ([l1 u1] & -> & Hin1).
    apply list_elem_of_fmap in Hl2 as ([l2 u2] & Heq & Hin2). cbn in Heq. subst l2.
    apply Hu1 in Hin1. apply Hu2 in Hin2. congruence. }
  eapply wp_mono.
  { eapply (wp_start_loop load_mqtt2rest m2r_enabled (mqtt2rest_with_common config) OMqtt2Rest
             run_mqtt2rest); [intros; by eapply wp_load_mqtt2rest|done..|]. lia. }
  intros o1 w1 [-> Hs1]. do 2 wp_step. rewrite Nat.add_0_l.
  pose proof Hs1 as [Hlg1 _ _ _ Hre1 (ts & Hts & _ & Hth1)].
  eapply wp_mono.
  { eapply (wp_start_loop load_rest2mqtt r2m_enabled (rest2mqtt_with_common config) ORest2Mqtt
             run_rest2mqtt); [intros; by eapply wp_load_rest2mqtt|done..| |].
    - intros l u Hin. rewrite Hre1; [by apply Hu2|]. apply Hdis.
      apply list_elem_of_fmap. by exists (l, u).
    - rewrite Hth1, !length_app, length_take, length_drop. lia. }
  intros o2 w2 [-> Hs2]. wp_step. pose proof (ls_log _ _ _ _ _ _ _ _ Hs2) as Hlg2.
  assert (log_ready (w_log w2)) by (by rewrite Hlg2, Hlg1).
  wp_go. by exists w1, w2, o.
Qed.

(** The table after both loops. *)
Lemma started_table config m2r r2m w w1 w2 :
  m2r_started config m2r 0 w w1 →
  r2m_started config r2m (length (running m2r_enabled m2r)) w1 w2 →
  ∃ ts, length ts = (length (running m2r_enabled m2r) + length (running r2m_enabled r2m))%nat
    ∧ Forall (λ t, t ≠ 0) ts ∧ w_threads w2 = ts ++ drop (length ts) (w_threads w).
Proof.
  intros [_ _ _ _ _ (t1 & Ht1 & Hz1 & Hth1)] [_ _ _ _ _ (t2 & Ht2 & Hz2 & Hth2)].
  exists (t1 ++ t2). split_and!; [by rewrite length_app, Ht1, Ht2|by apply Forall_app|].
  rewrite take_0, app_nil_l, Nat.add_0_l in Hth1. rewrite Hth2, Hth1, <- Ht1.
  rewrite take_app_length, drop_app_ge by lia. rewrite drop_drop, length_app, <- app_assoc.
  do 3 f_equal. lia.
Qed.

(** Freeing a list of blocks. *)
Lemma wp_free_all ls w :
  NoDup ls → (∀ l, l ∈ ls → is_Some (w_heap w !! l)) →
  wp (for_each (Some <$> ls) free) (λ o w', ∃ h,
    o = Ok tt ∧ w' = set_heap h w ∧ ∀ l, h !! l = if decide (l ∈ ls) then None else w_heap w !! l) w.
Proof.
  revert w. induction ls as [|l ls IH]; intros w Hnd Hin.
  { cbn. wp_steps. exists (w_heap w). split_and!; [done|by destruct w|]. intros l.
    by rewrite decide_False by set_solver. }
  apply NoDup_cons in Hnd as [Hl Hnd]. cbn [fmap list_fmap for_each]. wp_step.
  destruct (Hin l) as [o Ho]; [by left|]. eapply wp_free; [exact Ho|]. wp_step.
  eapply wp_mono; [apply IH; [done|]|].
  - intros l' Hl'. cbn. rewrite lookup_delete_ne by set_solver. apply Hin. by right.
  - intros o' w' (h & -> & -> & Hh). exists h. split_and!; [done..|]. intros l'. rewrite Hh. cbn.
    destruct (decide (l' = l)) as [->|Hne].
    + rewrite (decide_False _ _ Hl), decide_True by (by left).
      apply lookup_delete_eq.
    + rewrite lookup_delete_ne by done. by destruct (decide (l' ∈ ls)), (decide (l' ∈ l :: ls)); set_solver.
Qed.

(** The world after the threads [ts] have been joined. *)
Definition joined (ts : list Z) (w : World) : World :=
  fold_left (λ w t, called (X_pthread_join t) w) ts w.

(** The threads all return, leave the log, the configuration and what is on the
    heap as they are, and the process in a state with [P]. *)
Definition threads_return `{SC : Scheduler} (P : World → Prop) (w : World) : Prop :=
  wp (run_threads (reverse (created (w_trace w)))) (λ o w', o = Ok tt ∧ w_log w' = w_log w
    ∧ w_cfg w' = w_cfg w ∧ (∀ l o, w_heap w !! l = Some o → w_heap w' !! l = Some o) ∧ P w') w.

Lemma wp_join_threads `{SC : Scheduler} n P Q w :
  threads_return P w →
  (∀ w1, w_log w1 = w_log w → w_cfg w1 = w_cfg w →
     (∀ l o, w_heap w !! l = Some o → w_heap w1 !! l = Some o) → P w1 →
     Q (Ok tt) (joined (take n (w_threads w1)) w1)) →
  wp (join_threads n) Q w.
Proof.
  unfold join_threads, threads_return. intros Hret HQ. wp_steps. eapply wp_mono; [exact Hret|].
  intros o w1 (-> & Hlg & Hcf & Hh & HP). wp_steps. specialize (HQ w1 Hlg Hcf Hh HP).
  revert HQ. generalize (take n (w_threads w1)).
  clear. intros ts. revert w1. induction ts as [|t ts IH]; intros w HQ; cbn [for_each].
  - by wp_steps.
  - wp_steps. by apply IH.
Qed.

Lemma joined_keeps ts w : keeps w (joined ts w) ∧ w_cfg (joined ts w) = w_cfg w.
Proof.
  revert w. induction ts as [|t ts IH]; intros w; cbn [joined fold_left]; [done|].
  destruct (IH (called (X_pthread_join t) w)) as [Hk Hc]. split; [|exact Hc].
  transitivity (called (X_pthread_join t) w); [|exact Hk]. by apply keeps_called.
Qed.

(** The structs a reader of units adds, as a list of units. *)
Lemma units_added_pairs {U} (mk : U → obj) (rd : nat → U) h h' ls :
  units_added (λ i, mk (rd i)) 0 h h' ls →
  ∃ units, units.*1 = ls ∧ NoDup units.*1
    ∧ (∀ l u, (l, u) ∈ units → h' !! l = Some (mk u)) ∧ length units = length ls
    ∧ units.*2 = rd <$> seq 0 (length ls).
Proof.
  intros [Hu Hn Hd Hr]. exists (zip ls (rd <$> seq 0 (length ls))).
  assert (Hlen : length ls = length (rd <$> seq 0 (length ls)))
    by (by rewrite length_fmap, length_seq).
  assert (Hfst : (zip ls (rd <$> seq 0 (length ls))).*1 = ls) by (apply fst_zip; lia).
  rewrite Hfst. split_and!; [done|done| |rewrite length_zip; lia|apply snd_zip; lia].
  intros l u Hin. apply list_elem_of_lookup in Hin as [k Hk].
  apply lookup_zip_Some in Hk as [Hl Hk2].
  apply list_lookup_fmap_Some in Hk2 as (j & -> & Hj). apply lookup_seq in Hj as [-> _].
  by apply Hu in Hl.
Qed.

(** Memory is never exhausted. *)
Definition malloc_ok : Prop := ∀ tr n, answer tr bool (X_malloc n) = true.

(** Reading the units of one kind, when memory suffices. *)
Lemma loop_result_ok {U} (mk : U → obj) (rd : nat → U) n arr w o w' :
  malloc_ok → 0 ≤ n ≤ Z.of_nat (length arr) →
  loop_result (λ i, mk (rd i)) n (Z.to_nat n) 0 arr w o w' →
  ∃ units, o = Ok (n, (Some <$> units.*1) ++ drop (Z.to_nat n) arr)
    ∧ Z.of_nat (length units) = n ∧ units_at mk units w'
    ∧ units.*2 = rd <$> seq 0 (Z.to_nat n)
    ∧ (∀ l, l ∈ units.*1 → w_heap w !! l = None)
    ∧ (∀ l, l ∉ units.*1 → w_heap w' !! l = w_heap w !! l)
    ∧ w_log w' = w_log w ∧ w_cfg w' = w_cfg w ∧ w_threads w' = w_threads w.
Proof.
  intros Hmem Hn (ls & Hu & Hlg & Hcf & Hth & [[Hlen ->]|(_ & (tr & k & Hm) & _)]);
    [|by rewrite Hmem in Hm].
  destruct (units_added_pairs mk rd _ _ _ Hu) as (units & Hfst & Hnd & Hh & Hl & Hsnd).
  destruct Hu as [_ Hnew _ Hrest]. exists units. rewrite Hfst. split_and!; try done.
  - lia.
  - by rewrite <- Hlen.
Qed.

Lemma joined_inv I `{!MainInv I} ts w : I w → I (joined ts w).
Proof.
  revert w. induction ts as [|t ts IH]; intros w Hw; cbn [joined fold_left]; [done|].
  apply IH. by apply (mi_call (I := I) _ (X_pthread_join t)).
Qed.

(** Cleaning up gives back the units' structs and closes the log. *)
Lemma wp_clean_up ls1 ls2 c w :
  log_ready (w_log w) → w_cfg w = Some c → NoDup (ls1 ++ ls2) →
  (∀ l, l ∈ ls1 ++ ls2 → is_Some (w_heap w !! l)) →
  wp (clean_up (Some <$> ls1) (Some <$> ls2)) (λ o w', o = Ok EXIT_SUCCESS
    ∧ logfile (w_log w') = None
    ∧ ∀ l, w_heap w' !! l = if decide (l ∈ ls1 ++ ls2) then None else w_heap w !! l) w.
Proof.
  intros Hlog Hcfg Hnd Hin. apply NoDup_app in Hnd as (Hnd1 & Hdis & Hnd2).
  unfold clean_up. wp_step.
  eapply wp_mono; [apply wp_free_all; [exact Hnd1|]|].
  { intros l Hl. apply Hin, elem_of_app. by left. }
  intros o4 w4 (h4 & -> & -> & Hh4). wp_step. wp_step.
  eapply wp_mono; [apply wp_free_all; [exact Hnd2|]|].
  { intros l Hl. cbn. rewrite Hh4, decide_False; [apply Hin, elem_of_app; by right|].
    intros Hl'. by apply (Hdis l). }
  intros o5 w5 (h5 & -> & -> & Hh5). wsimpl.
  assert (Hheap : ∀ l, h5 !! l = if decide (l ∈ ls1 ++ ls2) then None else w_heap w !! l).
  { intros l. rewrite Hh5, Hh4.
    destruct (decide (l ∈ ls2)), (decide (l ∈ ls1)), (decide (l ∈ ls1 ++ ls2)) as [H|H]; try done;
      rewrite elem_of_app in H; tauto. }
  do 2 wp_step. eapply wp_free_config; [exact Hcfg|]. wp_steps.
  unfold log_finalize, set_log_fields. wp_steps.
  destruct (logfile _); wp_steps; (eapply (wp_log_msg log_info);
    [exact Hlog|reflexivity|fmt_eval; reflexivity|discriminate|]);
    intros o6; wp_steps; by split_and!.
Qed.

(** When [main] waits for the threads of the units [u1] and [u2], which were
    read in the state [w]. *)
Record units_running (config : ptr) (c : cfg_ptr) (w : World)
    (u1 : list (positive * Mqtt2RestUnitConfiguration))
    (u2 : list (positive * Rest2MqttUnitConfiguration)) (w' : World) : Prop := {
  ur_created : reverse (created (w_trace w'))
    = reverse (created (w_trace w)) ++ ((λ p, (run_mqtt2rest, Some p.1)) <$> running m2r_enabled u1)
      ++ ((λ p, (run_rest2mqtt, Some p.1)) <$> running r2m_enabled u2);
  ur_m2r_read : u1.*2 = (λ i, read_mqtt2rest (cfg_getnsec c "mqtt2rest_unit" (Z.of_nat i)))
    <$> seq 0 (Z.to_nat (to_int (cfg_size c "mqtt2rest_unit")));
  ur_r2m_read : u2.*2 = (λ i, read_rest2mqtt (cfg_getnsec c "rest2mqtt_unit" (Z.of_nat i)))
    <$> seq 0 (Z.to_nat (to_int (cfg_size c "rest2mqtt_unit")));
  ur_m2r : ∀ l u, (l, u) ∈ u1 →
    w_heap w' !! l = Some (if m2r_enabled u then mqtt2rest_with_common config u else OMqtt2Rest u);
  ur_r2m : ∀ l u, (l, u) ∈ u2 →
    w_heap w' !! l = Some (if r2m_enabled u then rest2mqtt_with_common config u else ORest2Mqtt u);
  ur_distinct : NoDup (u1.*1 ++ u2.*1);
  ur_new : ∀ l, l ∈ u1.*1 ++ u2.*1 → w_heap w !! l = None;
  ur_rest : ∀ l, l ∉ u1.*1 ++ u2.*1 → w_heap w' !! l = w_heap w !! l;
  ur_log : w_log w' = w_log w;
  ur_cfg : w_cfg w' = w_cfg w;
  ur_threads : ∃ ts, length ts = (length (running m2r_enabled u1) + length (running r2m_enabled u2))%nat
    ∧ Forall (λ t, t ≠ 0) ts ∧ w_threads w' = ts ++ drop (length ts) (w_threads w);
}.

(** Up to the threads. *)
Lemma wp_units_running `{SC : Scheduler} J path config c Q w :
  MainInv J → (∀ n f arg, preserves J (create_thread n f arg)) → J w →
  log_ready (w_log w) → malloc_ok → threads_ok →
  length (w_threads w) = Z.to_nat MAX_UNIT_NUM → w_cfg w = Some c →
  counts_ok (to_int (cfg_size c "mqtt2rest_unit")) (to_int (cfg_size c "rest2mqtt_unit")) →
  (∀ u1 u2 w1, units_running config c w u1 u2 w1 → J w1 →
     wp (join_threads (length (running m2r_enabled u1) + length (running r2m_enabled u2))%nat)
        (bind_post (λ _, clean_up (Some <$> u1.*1) (Some <$> u2.*1)) Q) w1) →
  wp (run_units path config) Q w.
Proof.
  intros HJ Hcreate HJw Hlog Hmem Hok Hth Hcfg Hcnt HQ. pose proof Hcnt as (H1 & H2 & H3).
  unfold run_units.
  assert (Harr : length (replicate (Z.to_nat MAX_UNIT_NUM) (None : ptr)) = Z.to_nat MAX_UNIT_NUM)
    by apply length_replicate.
  set (J' := λ w', J w' ∧ created (w_trace w') = created (w_trace w)).
  wp_steps. eapply wp_mono.
  { apply (wp_preserved _ J'); [apply pres_get_mqtt2rest, _| |by apply wp_get_mqtt2rest_unitconfigs;
      [..|rewrite Harr]]. split; [|done]. by apply (mi_call (I := J) _ X_mosquitto_lib_init). }
  cbn zeta. intros o1 w1 [Hr1 HJ1]. revert Hr1. rewrite (proj2 (Z.ltb_ge MAX_UNIT_NUM _)) by lia.
  intros Hr1.
  apply (loop_result_ok OMqtt2Rest) in Hr1 as (u1 & -> & Hl1 & Ha1 & Hs1 & Hn1 & Hr1 & Hlg1 & Hc1 & Ht1);
    [|done|lia]. wsimpl.
  wp_steps. eapply wp_mono.
  { apply (wp_preserved _ J'); [apply pres_get_rest2mqtt, _|done|].
    apply (wp_get_rest2mqtt_unitconfigs _ _ _ c); [by rewrite Hlg1|by rewrite Hc1|rewrite Harr; lia]. }
  cbn zeta. intros o2 w2 [Hr2 HJ2]. revert Hr2. rewrite (proj2 (Z.ltb_ge MAX_UNIT_NUM _)) by lia.
  intros Hr2.
  apply (loop_result_ok ORest2Mqtt) in Hr2 as (u2 & -> & Hl2 & Ha2 & Hs2 & Hn2 & Hr2 & Hlg2 & Hc2 & Ht2);
    [|done|lia].
  destruct HJ2 as [HJ2 Hcr2].
  assert (Hdis : ∀ l, l ∈ u1.*1 → l ∉ u2.*1).
  { intros l Hin Hin2. apply Hn2 in Hin2. apply list_elem_of_fmap in Hin as ([l' u] & -> & Hin).
    cbn in Hin2. destruct Ha1 as [_ Ha1]. apply Ha1 in Hin. congruence. }
  assert (Ha12 : units_at OMqtt2Rest u1 w2).
  { destruct Ha1 as [Hnd Ha1]. split; [done|]. intros l u Hin. rewrite Hr2; [by apply Ha1|].
    apply Hdis. apply list_elem_of_fmap. by exists (l, u). }
  wp_steps. eapply wp_mono.
  { apply (wp_preserved _ J); [by apply pres_start_units; [apply _|]|exact HJ2|].
    apply (wp_start_units path config _ _ u1 u2);
      [by rewrite Hlg2, Hlg1|done|by rewrite Ht2, Ht1|done|done|done|done|done]. }
  intros o3 w3 ((w3a & w3b & out & -> & Hs3a & Hs3b & ->) & HJ3).
  pose proof (started_table _ _ _ _ _ _ Hs3a Hs3b) as (ts & Hts & Hnz & Htab).
  destruct Hs3a as [Hlg3a Hc3a Hcr3a Hu3a Hr3a _]. destruct Hs3b as [Hlg3b Hc3b Hcr3b Hu3b Hr3b _].
  wp_step. wp_step. rewrite !take_app_length' by (rewrite !length_fmap; lia).
  apply HQ; [|exact HJ3]. split; wsimpl; try done.
  - by rewrite Hcr3b, Hcr3a, Hcr2, !reverse_app, !reverse_involutive, <- app_assoc.
  - intros l u Hin. rewrite Hr3b; [by apply Hu3a|].
    apply Hdis. apply list_elem_of_fmap. by exists (l, u).
  - apply NoDup_app. split_and!; [apply Ha1|exact Hdis|apply Ha2].
  - intros l [Hl|Hl]%elem_of_app; [by apply Hn1|]. rewrite <- Hr1; [by apply Hn2|].
    intros Hl'. by apply (Hdis l).
  - intros l [Hl Hl']%not_elem_of_app. by rewrite Hr3b, Hr3a, Hr2, Hr1.
  - by rewrite Hlg3b, Hlg3a, Hlg2, Hlg1.
  - by rewrite Hc3b, Hc3a, Hc2, Hc1.
  - exists ts. by rewrite Htab, Ht2, Ht1.
Qed.

Lemma wp_run_units `{SC : Scheduler} J K P path config w c :
  MainInv J → (∀ n f arg, preserves J (create_thread n f arg)) → J w →
  log_ready (w_log w) → malloc_ok → threads_ok →
  length (w_threads w) = Z.to_nat MAX_UNIT_NUM → w_cfg w = Some c →
  counts_ok (to_int (cfg_size c "mqtt2rest_unit")) (to_int (cfg_size c "rest2mqtt_unit")) →
  (∀ w1, MainInv (K w1)) → (∀ w1, K w1 w1) →
  (∀ u1 u2 w1, units_running config c w u1 u2 w1 → J w1 → threads_return (P u1 u2 w1) w1) →
  wp (run_units path config) (λ o w', o = Ok EXIT_SUCCESS ∧ logfile (w_log w') = None
    ∧ ∃ u1 u2 w1 w2, units_running config c w u1 u2 w1 ∧ P u1 u2 w1 w2 ∧ K w2 w'
        ∧ (∀ l o, w_heap w1 !! l = Some o → w_heap w2 !! l = Some o)
        ∧ ∀ l, w_heap w' !! l = if decide (l ∈ u1.*1 ++ u2.*1) then None else w_heap w2 !! l) w.
Proof.
  intros HJ Hcreate HJw Hlog Hmem Hok Hth Hcfg Hcnt HK HK0 Hrun.
  eapply (wp_units_running J); [done..|]. intros u1 u2 w1 Hur HJ1.
  eapply wp_join_threads; [by apply Hrun|]. intros w2 Hlg2 Hcf2 Hh2 HP.
  set (ts := take _ _). destruct (joined_keeps ts w2) as [[Hlgj Hhj _] Hcj].
  eapply wp_mono.
  { apply (wp_preserved _ (K w2)); [apply pres_clean_up, _|by apply joined_inv|].
    apply (wp_clean_up _ _ c); [|by rewrite Hcj, Hcf2, (ur_cfg _ _ _ _ _ _ Hur)|apply Hur|].
    - by rewrite Hlgj, Hlg2, (ur_log _ _ _ _ _ _ Hur).
    - intros l Hl. rewrite Hhj. destruct (elem_of_app u1.*1 u2.*1 l) as [Happ _].
      destruct (Happ Hl) as [Hl'|Hl']; apply list_elem_of_fmap in Hl' as ([l' u] & -> & Hin);
        cbn [fst]; eexists; apply Hh2; [by apply (ur_m2r _ _ _ _ _ _ Hur)|by apply (ur_r2m _ _ _ _ _ _ Hur)]. }
  intros o w' ((-> & Hf & Hh') & HKw'). split_and!; [done..|]. exists u1, u2, w1, w2.
  split_and!; [done..|]. intros l. by rewrite Hh', Hhj.
Qed.

(** * The run of [main] *)
Context `{SC : Scheduler}.

(** The configuration file: the last -c, else the environment, else the
    default name. *)
Definition main_settings (argv : list string) (w : World) : settings :=
  settings_of {| conf_file_name := default (PACKAGE_NAME +:+ ".conf")
                   (answer (w_trace w) _ (X_getenv "MQRESTT_CONFIG"));
                 start_daemonized := false; dump_config := false |} (options argv).

(** [main] up to the end of its option loop. *)
Lemma wp_main argv Q w :
  match list_find (λ o, is_Some (stop_code o)) (options argv) with
  | Some (_, stop) => ∀ code out, stop_code stop = Some code →
                      Q (Ok code) (set_out out (called (X_getenv "MQRESTT_CONFIG") w))
  | None => ∀ out, wp (start_up (main_settings argv w)) Q
                     (set_out out (called (X_getenv "MQRESTT_CONFIG") w))
  end →
  wp (main argv) Q w.
Proof.
  intros HQ. unfold main, main_settings in *. wp_step. wp_step. wp_step.
  apply wp_bind, (wp_mono _ (λ o w', o = Ok (default (PACKAGE_NAME +:+ ".conf")
    (answer (w_trace w) _ (X_getenv "MQRESTT_CONFIG")))
    ∧ ∃ out, w' = set_out out (called (X_getenv "MQRESTT_CONFIG") w))).
  { destruct (answer _ _ _); wp_steps; [by eauto|]. split; [done|].
    exists (w_out w). by destruct w. }
  intros o w' [-> [out ->]]. do 2 wp_step. fold (options argv).
  pose proof (options_have_files argv) as Hf.
  destruct (list_find _ (options argv)) as [[i stop]|] eqn:E.
  - apply list_find_Some in E as (Hi & [code Hc] & Hbefore).
    rewrite <- (take_drop_middle _ i stop Hi). apply wp_parse_options.
    + by apply Forall_take.
    + apply Forall_forall. intros o Ho. apply list_elem_of_lookup in Ho as [j Hj].
      apply lookup_take_Some in Hj as [Hj Hlt]. apply eq_None_not_Some. by apply (Hbefore j).
    + exists code. split; [done|]. intros out'. wp_steps. by apply HQ.
  - apply list_find_None in E. rewrite <- (app_nil_r (options argv)) at 1. apply wp_parse_options.
    + done.
    + eapply Forall_impl; [exact E|]. intros o. apply eq_None_not_Some.
    + intros out'. wp_step. apply HQ.
Qed.

(** A configuration [init_config] accepts. *)
Definition config_accepted (c : cfg_ptr) : Prop :=
  malloc_ok ∧ (∀ tr, answer tr _ (X_cfg_init opts) = Some c)
  ∧ ∃ ca, mqtt_cafile (read_configuration c) = Some ca.

(** Starting up in the foreground, up to [log_init]. *)
Lemma wp_start_up J st c Q w :
  MainInv J → J w → start_daemonized st = false → config_accepted c →
  (∀ l w1, J w1 → w_log w1 = w_log w → w_threads w1 = w_threads w → w_cfg w1 = Some c →
     w_heap w1 = <[l := OConfiguration (read_configuration c)]> (w_heap w) →
     w_heap w !! l = None →
     let conf := read_configuration c in
     wp (log_init (cf_loglevel conf) (logtarget conf) (cf_logfile conf) (logfacility conf) 0)
       (λ o w2, match o with
          | Ok r => r = 0 ∧
              ∀ pid, wp (INFO (At "main.c" 272 "main")
                    (PACKAGE_NAME +:+ " started, pid: %d, config file: %s")
                    [PInt pid; PStr (Some (conf_file_name st))])
                  (bind_post (λ _, run_units (conf_file_name st) (Some l)) Q)
                  (called X_getpid w2)
          | _ => False
          end) w1) →
  wp (start_up st) Q w.
Proof.
  intros HJ HJw Hd (Hmem & Hinit & ca & Hca) HQ. unfold start_up. rewrite Hd. wp_steps.
  assert (HJ2 : J (called (X_signal SIGUSR1 false) (called (X_signal SIGINT false) w))).
  { apply (mi_call (I := J) _ (X_signal SIGUSR1 false)); [done|].
    by apply (mi_call (I := J) _ (X_signal SIGINT false)). }
  eapply wp_mono; [by apply (wp_preserved _ J), wp_init_config; [apply pres_init_config, _|]|].
  intros o w1. cbv zeta.
  rewrite Hinit, Hmem, Hca, bool_decide_false, andb_false_r, andb_false_l by done.
  intros [(l & Hl & Hh & Hcfg & Hlg & Hth & ->) HJ1]. wp_steps.
  eapply wp_load_configuration; [rewrite Hh; apply lookup_insert_eq|]. do 2 wp_step.
  eapply wp_mono; [by apply (HQ l w1)|]. intros o w2 H. destruct o as [r| | | |]; try done.
  destruct H as [-> H]. cbn [negb Z.eqb]. wp_step. cbn [negb Z.eqb]. wp_steps. apply H.
Qed.

(** * Properties *)

(** C37: The option loop of [main]: the first of -h, -v and an unknown option
    ends the program with its status, whatever follows and before anything but
    the environment is looked at; without one, the program is its start-up with
    the last -c as the configuration file, and -d and -p count wherever they are. *)
Theorem main_options argv w :
  let w1 := called (X_getenv "MQRESTT_CONFIG") w in
  match list_find (λ o, is_Some (stop_code o)) (options argv) with
  | Some (_, stop) => ∃ code out, stop_code stop = Some code ∧ main argv w = (Ok code, set_out out w1)
  | None => ∃ out, main argv w = start_up (main_settings argv w) (set_out out w1)
  end.
Proof.
  intros w1.
  assert (H : wp (main argv) (λ o w',
    match list_find (λ o, is_Some (stop_code o)) (options argv) with
    | Some (_, stop) => ∃ code out, stop_code stop = Some code ∧ (o, w') = (Ok code, set_out out w1)
    | None => ∃ out, (o, w') = start_up (main_settings argv w) (set_out out w1)
    end) w).
  { apply wp_main. destruct (list_find _ _) as [[i stop]|]; [by eauto|].
    intros out. exists out. by rewrite <- surjective_pairing. }
  unfold wp in H. by rewrite <- surjective_pairing in H.
Qed.

(** Unit counts that are refused, with no thread started: a negative count,
    which a failed reader of units returns, exits; no units at all, or more than
    32 in both directions together, make [main] return a failure. *)
Lemma unit_limits path config n1 n2 m2r r2m w :
  log_ready (w_log w) → ¬ counts_ok n1 n2 →
  wp (start_units path config n1 n2 m2r r2m) (λ o w', w' ≡ w ∧
    o = if (n1 <? 0) || (n2 <? 0) then Exit 1 else Ok (inr EXIT_FAILURE)) w.
Proof.
  intros Hlog Hn. unfold start_units, counts_ok in *.
  destruct (_ || _) eqn:E1.
  - wp_step. eapply (wp_fatal); [done|reflexivity| |intros o; split; done].
    fmt_eval. reflexivity.
  - destruct (_ =? 0) eqn:E2; [by wp_go|].
    rewrite (proj2 (Z.ltb_lt MAX_UNIT_NUM _)) by lia. by wp_go.
Qed.

(** C15: Starting the units within the limits: one thread per enabled unit, the
    MQTT to REST units first and each kind in the order of the file, disabled
    units skipped; every started unit has the common configuration set first;
    the table of 32 threads suffices and holds the identifiers in that order. *)
Theorem start_units_threads path config n1 n2 m2r r2m rest1 rest2 w :
  log_ready (w_log w) → threads_ok → length (w_threads w) = Z.to_nat MAX_UNIT_NUM →
  units_at OMqtt2Rest m2r w → units_at ORest2Mqtt r2m w →
  n1 = Z.of_nat (length m2r) → n2 = Z.of_nat (length r2m) → counts_ok n1 n2 →
  let on1 := running m2r_enabled m2r in
  let on2 := running r2m_enabled r2m in
  wp (start_units path config n1 n2 ((Some <$> m2r.*1) ++ rest1) ((Some <$> r2m.*1) ++ rest2))
     (λ o w', o = Ok (inl (length on1 + length on2)%nat)
       ∧ reverse (created (w_trace w'))
         = reverse (created (w_trace w)) ++ ((λ p, (run_mqtt2rest, Some p.1)) <$> on1)
           ++ ((λ p, (run_rest2mqtt, Some p.1)) <$> on2)
       ∧ (∀ l u, (l, u) ∈ on1 → w_heap w' !! l = Some (mqtt2rest_with_common config u))
       ∧ (∀ l u, (l, u) ∈ on2 → w_heap w' !! l = Some (rest2mqtt_with_common config u))
       ∧ ∃ ts, length ts = (length on1 + length on2)%nat ∧ Forall (λ t, t ≠ 0) ts
           ∧ w_threads w' = ts ++ drop (length ts) (w_threads w)) w.
Proof.
  intros Hlog Hok Hth Ha1 Ha2 Hn1 Hn2 Hcnt on1 on2.
  eapply wp_mono; [by apply wp_start_units|].
  intros o w' (w1 & w2 & out & -> & Hs1 & Hs2 & ->). wsimpl.
  pose proof (started_table _ _ _ _ _ _ Hs1 Hs2) as Htab.
  destruct Hs1 as [_ _ Hc1 Hu1 Hr1 _], Hs2 as [_ _ Hc2 Hu2 Hr2 _].
  split_and!; [done| | | |].
  - rewrite Hc2, Hc1, !reverse_app, !reverse_involutive. by rewrite <- app_assoc.
  - intros l u Hin. apply list_elem_of_filter in Hin as [He Hin].
    cbn in He. rewrite Hr2; [by rewrite (Hu1 _ _ Hin), He|].
    intros Hin2. apply list_elem_of_fmap in Hin2 as ([l' u'] & Heq & Hin2). cbn in Heq. subst l'.
    destruct Ha1 as [_ Ha1], Ha2 as [_ Ha2]. apply Ha1 in Hin. apply Ha2 in Hin2. congruence.
  - intros l u Hin. apply list_elem_of_filter in Hin as [He Hin].
    rewrite (Hu2 _ _ Hin). cbn in He. by rewrite He.
  - exact Htab.
Qed.

(** Options that neither stop the program nor send it to the background. *)
Definition foreground (argv : list string) : Prop :=
  Forall (λ o, stop_code o = None) (options argv) ∧ existsb (is_opt "d") (options argv) = false.

Lemma wp_main_foreground J argv c Q w :
  MainInv J → J w → foreground argv → config_accepted c →
  (∀ lc w1, J w1 → w_log w1 = w_log w → w_threads w1 = w_threads w → w_cfg w1 = Some c →
     w_heap w1 = <[lc := OConfiguration (read_configuration c)]> (w_heap w) →
     w_heap w !! lc = None →
     let conf := read_configuration c in
     wp (log_init (cf_loglevel conf) (logtarget conf) (cf_logfile conf) (logfacility conf) 0)
       (λ o w2, o = Ok 0 ∧ ∀ path pid,
          wp (INFO (At "main.c" 272 "main")
                (PACKAGE_NAME +:+ " started, pid: %d, config file: %s")
                [PInt pid; PStr (Some path)])
             (bind_post (λ _, run_units path (Some lc)) Q) (called X_getpid w2)) w1) →
  wp (main argv) Q w.
Proof.
  intros HJ HJw [Hl Hd] Hc HQ. apply wp_main.
  rewrite (proj2 (list_find_None _ _)).
  2:{ eapply Forall_impl; [exact Hl|]. intros o Ho [code Hcode]. congruence. }
  intros out. eapply (wp_start_up J); [done| | |exact Hc|].
  - rewrite set_out_equiv. by apply (mi_call (I := J) _ (X_getenv _)).
  - unfold main_settings, settings_of. cbn. by rewrite Hd.
  - intros lc w1 HJ1 Hlg Hth Hcf Hh Hn. cbn zeta. eapply wp_mono; [by apply (HQ lc w1)|].
    intros o w2 [-> H]. split; [done|]. intros pid. apply H.
Qed.

(** C39: A logtarget other than stdout, syslog and file is not reported: the
    program goes on and crashes at its first message, through the null function
    pointer, whatever else the configuration says. *)
Theorem unknown_logtarget_crashes argv c level target path facility w :
  foreground argv → config_accepted c → log_print_ptr (w_log w) = None →
  cfg_getstr c "loglevel" = Some level → cfg_getstr c "logtarget" = Some target →
  cfg_getstr c "logfile" = Some path → cfg_getstr c "logfacility" = Some facility →
  target ∉ ["stdout"; "syslog"; "file"] →
  fst (main argv w) = Crash NullDeref.
Proof.
  intros Hl Hc Hp Hlevel Htarget Hpath Hfac Ht.
  change (wp (main argv) (λ o _, o = Crash NullDeref) w).
  eapply (wp_main_foreground (λ _, True)); [apply true_inv|done|done|exact Hc|].
  intros lc w1 _ Hlg _ _ _ _. cbn zeta. cbn [read_configuration
    cf_loglevel logtarget cf_logfile logfacility]. rewrite Hlevel, Htarget, Hpath, Hfac.
  eapply wp_mono; [apply log_init_unknown_target; [done|by rewrite Hlg]|].
  intros o w2 [-> Hnull]. split; [done|]. intros p pid. unfold wp, INFO.
  by rewrite log_print_null.
Qed.

(** With the log target syslog and the log level info or debug the
    first message of the program is undefined behaviour: the printer hands its
    [va_list] to [syslog] as if it were the arguments of the format. *)
Lemma syslog_target_crashes argv c level path facility w :
  foreground argv → config_accepted c →
  cfg_getstr c "loglevel" = Some level → cfg_getstr c "logtarget" = Some "syslog" →
  cfg_getstr c "logfile" = Some path → cfg_getstr c "logfacility" = Some facility →
  level = "info" ∨ level = "debug" →
  fst (main argv w) = Crash BadVarargs.
Proof.
  intros Hl Hc Hlevel Htarget Hpath Hfac Hlv.
  change (wp (main argv) (λ o _, o = Crash BadVarargs) w).
  eapply (wp_main_foreground (λ _, True)); [apply true_inv|done|done|exact Hc|].
  intros lc w1 _ Hlg _ _ _ _. cbn zeta. cbn [read_configuration
    cf_loglevel logtarget cf_logfile logfacility]. rewrite Hlevel, Htarget, Hpath, Hfac.
  eapply wp_mono; [apply wp_log_init|]. intros o w2 (-> & Hw & _). split; [done|].
  intros p pid. unfold log_after_init in Hw. rewrite bool_decide_false in Hw by done.
  rewrite bool_decide_true in Hw by done. cbn [snd] in Hw.
  unfold wp, INFO. rewrite syslog_needs_plain_format; [done|..].
  - cbn. by rewrite Hw.
  - cbn. rewrite Hw. by destruct Hlv as [-> | ->].
  - cbn. rewrite Hw. by destruct Hlv as [-> | ->].
  - exists Conv_d. split; [|discriminate]. apply (bool_decide_unpack _). vm_compute. exact I.
Qed.

End main.

(** ** Witnesses *)
Import Demo.

Lemma main_ready h : log_ready (w_log (world_of console_log h)).
Proof. split; [by right|cbn; lia]. Defined.

Lemma demo_threads_ok : threads_ok (EV := demo_env 8 all_ok).
Proof. split; [reflexivity|discriminate]. Defined.

Lemma unit_limits_witness :
  let EV := demo_env 8 all_ok in
  wp (start_units "f" None 20 13 [] []) (λ o w', w' ≡ demo_world ∧ o = Ok (inr EXIT_FAILURE))
    demo_world.
Proof.
  intros EV. apply (unit_limits "f" None 20 13 [] [] demo_world (main_ready ∅)).
  unfold counts_ok, MAX_UNIT_NUM. lia.
Defined.

Definition on_unit : Mqtt2RestUnitConfiguration := {|
  m2r_unit_name := Some "a"; m2r_enabled := true; m2r_webservice_baseurl := Some "http://h";
  m2r_mqtt_topic := Some "t"; m2r_common_configuration := None |}.
Definition off_unit : Mqtt2RestUnitConfiguration := {|
  m2r_unit_name := Some "b"; m2r_enabled := false; m2r_webservice_baseurl := Some "http://h";
  m2r_mqtt_topic := Some "t"; m2r_common_configuration := None |}.
Definition rest_unit : Rest2MqttUnitConfiguration := {|
  r2m_unit_name := Some "c"; r2m_enabled := true; r2m_listen_port := 8888;
  r2m_mqtt_topic_root := Some "t"; r2m_common_configuration := None |}.
Definition units_heap : gmap positive obj :=
  {[ 1%positive := OMqtt2Rest on_unit; 2%positive := OMqtt2Rest off_unit;
     3%positive := ORest2Mqtt rest_unit ]}.

Lemma start_units_threads_witness :
  let EV := demo_env 8 all_ok in
  let w := world_of console_log units_heap in
  wp (start_units "f" (Some 9%positive) 2 1 [Some 1%positive; Some 2%positive] [Some 3%positive])
     (λ o w', o = Ok (inl 2%nat)
       ∧ reverse (created (w_trace w'))
         = [(run_mqtt2rest, Some 1%positive); (run_rest2mqtt, Some 3%positive)]) w.
Proof.
  intros EV w. eapply wp_mono.
  - apply (start_units_threads "f" (Some 9%positive) 2 1
             [(1%positive, on_unit); (2%positive, off_unit)] [(3%positive, rest_unit)] [] [] w).
    + apply main_ready.
    + apply demo_threads_ok.
    + reflexivity.
    + split; [apply (bool_decide_unpack _); vm_compute; exact I|].
      intros l u [[= -> ->]|[[= -> ->]|H]%elem_of_cons]%elem_of_cons;
        [vm_compute; reflexivity..|by apply not_elem_of_nil in H].
    + split; [apply (bool_decide_unpack _); vm_compute; exact I|].
      intros l u [[= -> ->]|H]%elem_of_cons; [vm_compute; reflexivity|by apply not_elem_of_nil in H].
    + reflexivity.
    + reflexivity.
    + unfold counts_ok, MAX_UNIT_NUM. lia.
  - intros o w' (Ho & Hc & _). split; [exact Ho|exact Hc].
Defined.

(** Threads that do nothing. *)
Definition no_turns : Scheduler := λ _, mret tt.

(** Environments with other configuration files. *)
Definition target_env (target : string) : Env :=
  mk_env all_ok 8 (λ c n, if bool_decide (n = "logtarget") then Some target else demo_getstr c n)
    (λ _ _, 30) (λ _ _, true) (λ _ _, 1).

Lemma target_accepted t : config_accepted (EV := target_env t) 1%positive.
Proof. split_and!; [intros tr n; reflexivity|intros tr; reflexivity|]. eexists. vm_compute. reflexivity. Defined.

Definition demo_argv : list string := ["mqrestt"; "-pcf"].

Lemma demo_foreground : foreground demo_argv.
Proof. split; [apply (bool_decide_unpack _); vm_compute; exact I|reflexivity]. Defined.

Lemma unknown_logtarget_crashes_witness :
  let EV := target_env "stderr" in
  let SC := no_turns in
  fst (main demo_argv (world_of no_log ∅)) = Crash NullDeref.
Proof.
  intros EV SC.
  apply (unknown_logtarget_crashes demo_argv 1%positive "debug" "stderr"
           "-----" "-----" (world_of no_log ∅));
    [apply demo_foreground|apply target_accepted|reflexivity..|].
  apply (bool_decide_unpack _). vm_compute. exact I.
Defined.

Lemma syslog_target_crashes_witness :
  let EV := target_env "syslog" in
  let SC := no_turns in
  fst (main demo_argv (world_of no_log ∅)) = Crash BadVarargs.
Proof.
  intros EV SC.
  apply (syslog_target_crashes demo_argv 1%positive "debug" "-----" "-----"
           (world_of no_log ∅));
    [apply demo_foreground|apply target_accepted|reflexivity..|by right].
Defined.

End Main.
