(* ===== verification/Startup.v ===== *)
(** Start-up and threads at the same time: [main] creates the threads one by one,
    and those created take turns, and SIGINTs come, before it has created the
    rest. *)
From Stdlib Require Import ZArith Lia ZifyBool Ascii String List.
From stdpp Require Import base numbers list strings gmap.
From S2P Require Import Prelude.
From S2P Require Import CLib.
From S2P Require Import Types.
From S2P Require Import World.
From S2P Require Import Demo.
From S2P Require Import Utils.
From S2P Require Import Logging.
From S2P Require Import MqttClient.
From S2P Require Import Mqtt2Rest.
From S2P Require Import Messages.
From S2P Require Import Rest2Mqtt.
From S2P Require Import Uploads.
From S2P Require Import RestThread.
From S2P Require Import Signals.
From S2P Require Import Threads.
From S2P Require Import Schedules.
From S2P Require Import Process.
From S2P Require Import Delivery.
From S2P Require Import Main.
Import Utils Logging MqttClient Mqtt2Rest Messages Rest2Mqtt Uploads RestThread Signals Threads
  Schedules Process Delivery Main.

Module Startup.

(** What the loops of [main] have still to look at: the units of the first and of
    the second array. *)
Inductive start_item := StartM2R (p : ptr) | StartR2M (p : ptr).

(** What happens next: [main] looks at the next unit, or an action of the threads
    created so far. *)
Inductive start_action := Next | Act (a : action).

Section startup.
Context `{EV : Env} (qos0 : ptr → Z) (config : ptr).

(** One pass of [start_loop]: the next thread counter, if a thread was created. *)
Definition start_step {U} (load_unit : ptr → M U) (enabled : U → bool) (with_common : U → obj)
    (f : thread_main) (p : ptr) (threadcounter : nat) : M (option nat) :=
  u ← load_unit p;
  if negb (enabled u) then mret None
  else
    store p (with_common u);;
    n ← create_thread threadcounter f p;
    mret (Some n).

(** The thread it has created. *)
Definition start_one (it : start_item) (threadcounter : nat) : M (option thread_state) :=
  match it with
  | StartM2R p =>
      r ← start_step load_mqtt2rest m2r_enabled (mqtt2rest_with_common config) run_mqtt2rest p
            threadcounter;
      mret ((λ _, Created run_mqtt2rest p) <$> r)
  | StartR2M p =>
      r ← start_step load_rest2mqtt r2m_enabled (rest2mqtt_with_common config) run_rest2mqtt p
            threadcounter;
      mret ((λ _, Created run_rest2mqtt p) <$> r)
  end.

(** The process by a schedule, with the units [todo] to look at and the threads
    [ts]: what is left of both. The thread counter is the number of threads. *)
Fixpoint run_start (schedule : list start_action) (todo : list start_item)
    (ts : list thread_state) : M (list start_item * list thread_state) :=
  match schedule with
  | [] => mret (todo, ts)
  | Next :: schedule' =>
      match todo with
      | [] => run_start schedule' [] ts
      | it :: todo' =>
          t ← start_one it (length ts);
          run_start schedule' todo' (ts ++ option_list t)
      end
  | Act a :: schedule' =>
      ts' ← run_turns qos0 [a] ts;
      run_start schedule' todo ts'
  end.

(** * [main] on its own *)

Lemma start_loop_cons {U} (load_unit : ptr → M U) enabled with_common f p units n w :
  start_loop load_unit enabled with_common f (p :: units) n w
  = (r ← start_step load_unit enabled with_common f p n;
     start_loop load_unit enabled with_common f units (default n r)) w.
Proof.
  unfold start_step. cbn [start_loop]. rewrite bind_assoc. apply bind_ext. intros u w1.
  destruct (negb (enabled u)); [done|]. rewrite bind_assoc. apply bind_ext. intros _ w2.
  by rewrite bind_assoc.
Qed.

Lemma create_thread_next n f p w :
  wp (create_thread n f p) (returns (λ n' _, n' = S n)) w.
Proof.
  unfold create_thread. do 2 (apply returns_any; intros ? ?). apply returns_any. intros [ret tid] w'.
  destruct (negb (ret =? 0)); [|by repeat (apply returns_any; intros)].
  by apply returns_any.
Qed.

Lemma start_step_next {U} (load_unit : ptr → M U) enabled with_common f p n w :
  wp (start_step load_unit enabled with_common f p n) (returns (λ r _, r = None ∨ r = Some (S n))) w.
Proof.
  unfold start_step. apply returns_any. intros u w1. destruct (negb (enabled u)); [by left|].
  apply returns_any. intros _ w2. eapply returns_seq; [apply create_thread_next|].
  intros n' w3 ->. apply returns_ret. by right.
Qed.

(** The number of threads after the loop. *)
Definition threads_after (schedule : list start_action) (todo : list start_item)
    (ts : list thread_state) : M nat :=
  r ← run_start schedule todo ts; mret (length r.2).

Lemma threads_after_next n it todo ts w :
  threads_after (replicate (S n) Next) (it :: todo) ts w
  = (t ← start_one it (length ts); threads_after (replicate n Next) todo (ts ++ option_list t)) w.
Proof. unfold threads_after. cbn [replicate run_start]. apply bind_assoc. Qed.

(** One unit of either array. *)
Lemma threads_after_one {U} (load_unit : ptr → M U) enabled with_common f p n todo ts
    (k : nat → M nat) w :
  (∀ ts' w', threads_after (replicate n Next) todo ts' w' = k (length ts') w') →
  ((t ← (r ← start_step load_unit enabled with_common f p (length ts);
         mret ((λ _, Created f p) <$> r));
    threads_after (replicate n Next) todo (ts ++ option_list t)) w)
  = (r ← start_step load_unit enabled with_common f p (length ts); k (default (length ts) r)) w.
Proof.
  intros Hk. rewrite bind_assoc. apply bind_ext_ok. intros r w' E.
  assert (Hr : r = None ∨ r = Some (S (length ts)))
    by exact (wp_elim _ _ _ _ _ (start_step_next load_unit enabled with_common f p (length ts) w) E).
  change (threads_after (replicate n Next) todo (ts ++ option_list ((λ _, Created f p) <$> r)) w'
    = k (default (length ts) r) w').
  rewrite Hk. f_equal. destruct Hr as [-> | ->]; cbn; [by rewrite app_nil_r|].
  rewrite length_app. cbn. lia.
Qed.

Lemma threads_after_r2m l2 ts w :
  threads_after (replicate (length l2) Next) (StartR2M <$> l2) ts w
  = start_rest2mqtt config l2 (length ts) w.
Proof.
  revert ts w. induction l2 as [|p l2 IH]; intros ts w; [done|].
  cbn [length fmap list_fmap]. rewrite threads_after_next. unfold start_rest2mqtt.
  rewrite start_loop_cons. by apply threads_after_one.
Qed.

Lemma threads_after_m2r l1 l2 ts w :
  threads_after (replicate (length l1 + length l2) Next) ((StartM2R <$> l1) ++ (StartR2M <$> l2)) ts w
  = (n ← start_mqtt2rest config l1 (length ts); start_rest2mqtt config l2 n) w.
Proof.
  revert ts w. induction l1 as [|p l1 IH]; intros ts w; [apply threads_after_r2m|].
  cbn [length fmap list_fmap app Nat.add]. rewrite threads_after_next. unfold start_mqtt2rest.
  rewrite (bind_head _ _ _ _ (start_loop_cons _ _ _ _ _ _ _ _)), bind_assoc.
  by apply (threads_after_one _ _ _ _ _ _ _ _
    (λ n, m ← start_mqtt2rest config l1 n; start_rest2mqtt config l2 m)).
Qed.

End startup.

(** * Units that are not yet started *)

(** An element of the arrays: a unit that is enabled, or one that is not. *)
Inductive entry :=
  | On (u : unit_at)
  | OffM2R (up : positive) (u : Mqtt2RestUnitConfiguration)
  | OffR2M (up : positive) (u : Rest2MqttUnitConfiguration).

Definition place (u : unit_at) : positive := match u with M2R up _ | R2M up _ => up end.
Definition place_of (e : entry) : positive :=
  match e with On u => place u | OffM2R up _ | OffR2M up _ => up end.
Definition unit_of (e : entry) : option unit_at := match e with On u => Some u | _ => None end.
Definition item_of (e : entry) : start_item :=
  match e with
  | On (M2R up _) | OffM2R up _ => StartM2R (Some up)
  | On (R2M up _) | OffR2M up _ => StartR2M (Some up)
  end.

(** Its struct as it was read. *)
Definition waiting_in (base : gmap positive obj) (e : entry) : Prop :=
  match e with
  | On (M2R up t) => base !! up = Some (OMqtt2Rest (mt_unit t)) ∧ m2r_enabled (mt_unit t) = true
  | On (R2M up r) => base !! up = Some (ORest2Mqtt (rt_unit r)) ∧ r2m_enabled (rt_unit r) = true
  | OffM2R up u => base !! up = Some (OMqtt2Rest u) ∧ m2r_enabled u = false
  | OffR2M up u => base !! up = Some (ORest2Mqtt u) ∧ r2m_enabled u = false
  end.

(** Its struct once it is started. *)
Definition in_use (cp : positive) (u : unit_at) : obj :=
  match u with
  | M2R _ t => OMqtt2Rest (m2r_in_use cp t)
  | R2M _ r => ORest2Mqtt (r2m_in_use cp r)
  end.

Definition thread_of (u : unit_at) : thread_main :=
  match u with M2R _ _ => run_mqtt2rest | R2M _ _ => run_rest2mqtt end.

(** [n] slots of the table are used, and [room] more are free. *)
Definition table (n room : nat) (w : World) : Prop := ∃ tids free,
  length tids = n ∧ Forall (λ tid, tid ≠ 0) tids ∧ w_threads w = tids ++ replicate free 0
  ∧ (room ≤ free)%nat.

Lemma table_slots n room w : table n (S room) w → slots_in_use n w.
Proof. intros (tids & [|free] & Hn & Hz & Ht & Hr); [lia|]. by exists tids, free. Qed.

Lemma table_statics n room w w' : statics_of w' = statics_of w → table n room w → table n room w'.
Proof.
  intros E (tids & free & Hn & Hz & Ht & Hr). exists tids, free. split_and!; [done..| |done].
  rewrite <- Ht. exact (f_equal st_threads E).
Qed.

Lemma table_less n room room' w : (room' ≤ room)%nat → table n room w → table n room' w.
Proof. intros Hle (tids & free & Hn & Hz & Ht & Hr). exists tids, free. split_and!; [done..|lia]. Qed.

Lemma table_next n room w : table n (S room) w → (n < length (w_threads w))%nat.
Proof. intros (tids & free & <- & _ & -> & Hr). rewrite length_app, length_replicate. lia. Qed.

(** The world after the thread [tid] of the unit [u] has been created in slot
    [n]. *)
Definition after_create `{EV : Env} (cp : positive) (n : nat) (u : unit_at) (w : World) : World :=
  let w1 := set_heap (<[place u := in_use cp u]> (w_heap w)) w in
  let tid := snd (answer (w_trace w) _ (X_pthread_create (thread_of u) (Some (place u)))) in
  set_threads (<[n := tid]> (w_threads w))
    (called (X_pthread_create (thread_of u) (Some (place u))) w1).

Section steps.
Context `{EV : Env} (cp : positive).

Lemma table_create n room u w :
  threads_ok → table n (S room) w → table (S n) room (after_create cp n u w).
Proof.
  intros Hok (tids & [|free] & <- & Hz & Ht & Hr); [lia|].
  destruct (Hok (w_trace w) (thread_of u) (Some (place u))) as [_ Hnz].
  eexists (tids ++ [_]), free. split_and!; [rewrite length_app; cbn; lia| | |lia].
  - apply Forall_app. split; [done|]. by apply Forall_singleton.
  - cbn. rewrite Ht. replace (length tids) with (length tids + 0)%nat at 1 by lia.
    rewrite insert_app_r, <- app_assoc. reflexivity.
Qed.

(** [main] looks at an entry. *)
Lemma wp_start_one e n w Q :
  threads_ok → waiting_in (w_heap w) e →
  (∀ u, e = On u → (n < length (w_threads w))%nat) →
  match e with
  | On u => Q (Ok (Some (Created (thread_of u) (Some (place u))))) (after_create cp n u w)
  | _ => Q (Ok None) w
  end →
  wp (start_one (Some cp) (item_of e) n) Q w.
Proof.
  intros Hok He Hlen HQ.
  destruct e as [[up t|up r]|up u|up u]; destruct He as [Hh Hen];
    cbn [item_of start_one]; unfold start_step; do 2 wp_step.
  all: first [eapply wp_load_mqtt2rest; [exact Hh|]|eapply wp_load_rest2mqtt; [exact Hh|]].
  all: wp_step; rewrite Hen; cbn [negb].
  3, 4: by wp_steps.
  all: wp_step; eapply wp_store; [exact Hh|]; do 2 wp_step; apply wp_create_thread; [by eapply Hlen|];
    cbn [w_trace set_heap].
  - destruct (Hok (w_trace w) run_mqtt2rest (Some up)) as [Hz _]. rewrite Hz. cbn [Z.eqb].
    wp_steps. exact HQ.
  - destruct (Hok (w_trace w) run_rest2mqtt (Some up)) as [Hz _]. rewrite Hz. cbn [Z.eqb].
    wp_steps. exact HQ.
Qed.

End steps.

(** * The process while it is started *)
Section process.
Context `{EV : Env} (qos0 : ptr → Z) (qs : positive → cstr).
Context (cp : positive) (conf : Configuration) (timeout : Z).
Context (entries : list entry) (h0 : gmap positive obj) (spare : nat).

Abbreviation units := (omap unit_of entries).
Abbreviation process := (process_ok qos0 qs cp conf timeout units).

(** [started] have their threads, and [todo] are the entries to look at. The
    threads of [process_ok] are those of all units: the last ones have not been
    created, and are given no turns. *)
Record starting_ok (started : list unit_at) (todo : list entry) (base0 : gmap positive obj)
    (ths : list thread) (base : gmap positive obj) (w : World) : Prop := {
  so_units : units = started ++ omap unit_of todo;
  so_process : process base0 ths base w;
  so_started : Forall (placed cp conf base0) started;
  so_waiting : Forall (waiting_in base0) todo;
  so_common : base0 !! cp = Some (OConfiguration conf);
  so_places : NoDup ((place <$> started) ++ (place_of <$> todo));
  so_created : drop (length started) ths = created_thread <$> omap unit_of todo;
  so_frame : ∀ l, l ∉ place_of <$> entries → base0 !! l = h0 !! l;
  so_entries : ∀ e, e ∈ todo → e ∈ entries;
  so_table : table (length started) (length (omap unit_of todo) + spare) w;
}.

(** The threads that exist. *)
Definition existing (started : list unit_at) (ths : list thread) : list thread_state :=
  th_state <$> take (length started) ths.

Lemma starting_lengths started todo base0 ths base w :
  starting_ok started todo base0 ths base w →
  length ths = length units ∧ (length started ≤ length ths)%nat
  ∧ length (existing started ths) = length started.
Proof.
  intros Hs. pose proof (f_equal length (po_units _ _ _ _ _ _ _ _ _ _ (so_process _ _ _ _ _ _ Hs))) as E.
  rewrite length_fmap in E. pose proof (f_equal length (so_units _ _ _ _ _ _ Hs)) as E2.
  rewrite length_app in E2. split_and!; [exact E|lia|].
  unfold existing. rewrite length_fmap, length_take. lia.
Qed.

Lemma existing_scheduled started todo base0 ths base w i th :
  starting_ok started todo base0 ths base w → (i < length started)%nat → ths !! i = Some th →
  scheduled cp conf base0 ths i th.
Proof.
  intros Hs Hlt Hi. split; [done|].
  assert (Hu : units !! i = Some (th_unit th)).
  { by rewrite <- (po_units _ _ _ _ _ _ _ _ _ _ (so_process _ _ _ _ _ _ Hs)), list_lookup_fmap, Hi. }
  rewrite (so_units _ _ _ _ _ _ Hs), lookup_app_l in Hu by done.
  pose proof (so_started _ _ _ _ _ _ Hs) as Hp. rewrite Forall_lookup in Hp. by eapply Hp.
Qed.

(** The threads, the table and the heap of the others change. *)
Lemma starting_threads started todo base0 ths ths' base base' w w' :
  starting_ok started todo base0 ths base w → process base0 ths' base' w' →
  drop (length started) ths' = drop (length started) ths → statics_of w' = statics_of w →
  starting_ok started todo base0 ths' base' w'.
Proof.
  intros [Hu _ Hst Hwt Hc Hpl Hcr Hf He Ht] Hok Hd Hs. split; try done.
  - by rewrite Hd.
  - by eapply table_statics.
Qed.

Context (Hgood : good_units qos0 qs cp conf timeout units) (Hthreads : threads_ok).

(** ** A turn, and SIGINT *)
Lemma wp_start_act J a started todo base0 ths base w :
  Along qos0 qs cp conf timeout units base0 J →
  starting_ok started todo base0 ths base w → J w →
  (∀ i, a = Sigint i → (1 ≤ spare)%nat) →
  wp (run_turns qos0 [a] (existing started ths)) (λ o w', ∃ ths' base',
    o = Ok (existing started ths') ∧ starting_ok started todo base0 ths' base' w' ∧ J w') w.
Proof.
  intros HJ Hs HJw Hspare. destruct (starting_lengths _ _ _ _ _ _ Hs) as (_ & Hlen & Hex).
  pose proof (so_process _ _ _ _ _ _ Hs) as Hok. destruct a as [i|i]; cbn [run_turns].
  - unfold existing. rewrite list_lookup_fmap.
    destruct (take (length started) ths !! i) as [th|] eqn:Ei; cbn [fmap option_fmap option_map].
    2: { wp_steps. by exists ths, base. }
    apply lookup_take_Some in Ei as [Ei Hlt].
    pose proof (existing_scheduled _ _ _ _ _ _ _ _ Hs Hlt Ei) as Hsc.
    wp_step. eapply wp_mono.
    { apply (wp_preserved _ (λ w', statics_of w' = statics_of w)); [apply pres_turn, _|done|].
      apply wp_conj; [by eapply wp_turn|by eapply (al_turn _ _ _ _ _ _ _ _ HJ)]. }
    intros o w1 [[(th1 & base1 & -> & Hok1) HJ1] Hst]. wp_steps.
    exists (<[i:=th1]> ths), base1. split_and!; [|by eapply starting_threads; [..|apply drop_insert_lt|]|done].
    f_equal. by rewrite <- list_fmap_insert, take_insert_lt.
  - pose proof (Hspare i eq_refl) as Hsp. pose proof (so_table _ _ _ _ _ _ Hs) as Ht.
    assert (Hslots : ∀ w', statics_of w' = statics_of w → slots_in_use (length started) w').
    { intros w' E. eapply (table_slots _ 0), table_less; [|by eapply table_statics]. lia. }
    wp_step. eapply wp_mono.
    { apply (wp_preserved _ (λ w', statics_of w' = statics_of w)); [apply pres_handle_signal, _|done|].
      apply (wp_preserved _ J); [apply HJ|done|]. eapply wp_process_sigint; [exact Hok|by apply Hslots]. }
    intros o w1 [[[-> Hok1] HJ1] Hst]. wp_steps.
    rewrite (hit_all i (length started)); [|by apply Hslots|exact Hex].
    exists (hit_thread <$> ths), base. split_and!; [|eapply starting_threads; [done|by apply process_hit| |done]|done].
    + unfold existing. rewrite <- fmap_take, <- !list_fmap_compose. reflexivity.
    + rewrite <- fmap_drop, (so_created _ _ _ _ _ _ Hs), <- list_fmap_compose.
      apply list_fmap_ext. by intros j [] _.
Qed.

(** ** The next unit *)

(** A struct that is no client changes. *)
Lemma process_struct base0 ths base up o o' w w' :
  process base0 ths base w → base0 !! up = Some o →
  w_heap w' = <[up := o']> (w_heap w) → w_log w' = w_log w → (∀ v, idle v w w') →
  process (<[up := o']> base0) ths (<[up := o']> base) w'.
Proof.
  intros [Hlog Hu Hth Hnd Hnew Hrest (open & Hh & Hups)] Ho Hheap Hlg Hi.
  assert (Hne : ∀ l, l ∈ clients ths → l ≠ up) by (intros l Hl ->; rewrite Hnew in Ho; done).
  assert (Hup : base !! up = Some o) by (rewrite Hrest; [done|]; intros Hl; by destruct (Hne up Hl)).
  split; try done; [by rewrite Hlg|..].
  - apply Forall_lookup. intros i th Hth'. rewrite Forall_lookup in Hth.
    eapply thread_in_frame; [by eapply Hth|]. intros l Hl. apply lookup_insert_ne, not_eq_sym, Hne.
    apply list_elem_of_omap. exists th. split; [by eapply list_elem_of_lookup_2|done].
  - intros l Hl. rewrite lookup_insert_ne; [by apply Hnew|]. by apply not_eq_sym, Hne.
  - intros l Hl. destruct (decide (l = up)) as [->|Hl']; [by rewrite !lookup_insert_eq|].
    rewrite !lookup_insert_ne by done. by apply Hrest.
  - exists open. rewrite (idle_con _ _ Hi), Hheap. split; [by eapply holding_base|].
    eapply Forall_impl; [exact Hups|]. intros u H. eapply uploads_of_idle; [exact H|]. intros v _. apply Hi.
Qed.

Lemma waiting_lookup base0 e :
  waiting_in base0 e → ∃ o, base0 !! place_of e = Some o ∧ ∀ c, o ≠ OConfiguration c.
Proof. destruct e as [[up t|up r]|up u|up u]; intros [H _]; by eexists. Qed.

Lemma waiting_insert base0 e l o :
  place_of e ≠ l → waiting_in base0 e → waiting_in (<[l := o]> base0) e.
Proof.
  destruct e as [[up t|up r]|up u|up u]; cbn; intros Hne [H He]; by rewrite lookup_insert_ne.
Qed.

Lemma placed_insert base0 u l o :
  place u ≠ l → l ≠ cp → placed cp conf base0 u → placed cp conf (<[l := o]> base0) u.
Proof. destruct u as [up t|up r]; intros Hne Hc [H He]; (split; by rewrite lookup_insert_ne). Qed.

Lemma placed_in_use base0 u :
  base0 !! cp = Some (OConfiguration conf) → place u ≠ cp →
  placed cp conf (<[place u := in_use cp u]> base0) u.
Proof.
  intros Hc Hne. split; [by rewrite lookup_insert_ne|]. destruct u; apply lookup_insert_eq.
Qed.

(** A unit that is not enabled is passed over. *)
Lemma starting_off e started todo base0 ths base w :
  unit_of e = None → starting_ok started (e :: todo) base0 ths base w →
  starting_ok started todo base0 ths base w.
Proof.
  intros He [Hu Hok Hst Hwt Hc Hpl Hcr Hf Hen Ht].
  assert (E : omap unit_of (e :: todo) = omap unit_of todo) by (cbn; by rewrite He).
  rewrite E in *. split; try done.
  - by apply Forall_cons in Hwt as [_ Hwt].
  - rewrite fmap_cons in Hpl. apply NoDup_app in Hpl as (H1 & H2 & H3).
    apply NoDup_cons in H3 as [_ H3]. apply NoDup_app. split_and!; [done| |done].
    intros l Hl Hl'. apply (H2 l Hl). by right.
  - intros e' He'. apply Hen. by right.
Qed.

(** A unit that is enabled has its thread. *)
Lemma starting_on u started todo base0 ths base w :
  starting_ok started (On u :: todo) base0 ths base w →
  let up := place u in
  starting_ok (started ++ [u]) todo (<[up := in_use cp u]> base0) ths (<[up := in_use cp u]> base)
    (after_create cp (length started) u w)
  ∧ existing (started ++ [u]) ths = existing started ths ++ [Created (thread_of u) (Some (place u))].
Proof.
  intros Hs up. destruct (starting_lengths _ _ _ _ _ _ Hs) as (_ & _ & Hex).
  destruct Hs as [Hu Hok Hst Hwt Hc Hpl Hcr Hf Hen Ht].
  apply Forall_cons in Hwt as [Hwu Hwt]. destruct (waiting_lookup _ _ Hwu) as (o & Ho & Hno).
  assert (Hcp : up ≠ cp) by (intros E; cbn in Ho; unfold up in E; rewrite E, Hc in Ho; by injection Ho as <-; destruct (Hno conf)).
  rewrite fmap_cons in Hpl. apply NoDup_app in Hpl as (H1 & H2 & H3).
  apply NoDup_cons in H3 as [H3 H4]. cbn [omap list_omap unit_of] in Hu, Hcr, Ht.
  assert (Hth : ths !! length started = Some (created_thread u)).
  { replace (length started) with (length started + 0)%nat by lia. by rewrite <- lookup_drop, Hcr. }
  split; [split|].
  - by rewrite <- app_assoc.
  - eapply process_struct; [exact Hok|exact Ho|done|done|]. intros v. split; [done|..]; cbn; by rewrite ?app_nil_r.
  - apply Forall_app. split; [|apply Forall_singleton; by apply placed_in_use].
    apply Forall_forall. intros u' Hu'. rewrite Forall_forall in Hst.
    apply placed_insert; [|done|by apply Hst]. intros E. apply (H2 (place u')).
    + by apply list_elem_of_fmap_2.
    + cbn. rewrite E. by left.
  - apply Forall_forall. intros e He. rewrite Forall_forall in Hwt.
    apply waiting_insert; [|by apply Hwt]. intros E. apply H3. cbn. fold up. rewrite <- E.
    by apply list_elem_of_fmap_2.
  - by rewrite lookup_insert_ne.
  - rewrite fmap_app, <- app_assoc. apply NoDup_app. split_and!; [done|exact H2|by apply NoDup_cons].
  - rewrite length_app, Nat.add_1_r. rewrite (drop_S _ _ _ Hth) in Hcr. by injection Hcr.
  - intros l Hl. rewrite lookup_insert_ne; [by apply Hf|]. intros <-. apply Hl.
    apply (list_elem_of_fmap_2 place_of _ (On u)), Hen. by left.
  - intros e He. apply Hen. by right.
  - rewrite length_app, Nat.add_1_r. by apply table_create.
  - unfold existing. by rewrite length_app, Nat.add_1_r, (take_S_r _ _ _ Hth), fmap_app; destruct u.
Qed.

(** ** Any schedule *)

(** What the creation of a thread has to keep. *)
Record AlongStart (J : World → Prop) : Prop := {
  as_threads : ∀ base0, Along qos0 qs cp conf timeout units base0 J;
  as_start : ∀ n u w, J w → J (after_create cp n u w);
}.

Fixpoint nexts (schedule : list start_action) : nat :=
  match schedule with
  | [] => 0
  | Next :: schedule' => S (nexts schedule')
  | Act _ :: schedule' => nexts schedule'
  end.

(** SIGINT in the schedule asks for a slot to spare. *)
Definition spares (schedule : list start_action) : Prop :=
  ∀ i, Act (Sigint i) ∈ schedule → (1 ≤ spare)%nat.

Lemma starting_waits started todo base0 ths base w e :
  starting_ok started todo base0 ths base w → e ∈ todo → waiting_in (w_heap w) e.
Proof.
  intros Hs He. pose proof (so_waiting _ _ _ _ _ _ Hs) as Hw. rewrite Forall_forall in Hw.
  specialize (Hw e He). pose proof (so_process _ _ _ _ _ _ Hs) as Hok.
  destruct e as [[up t|up r]|up u|up u]; destruct Hw as [H Hen]; (split; [|exact Hen]);
    by eapply process_base0.
Qed.

Lemma wp_run_start J schedule started todo base0 ths base w :
  AlongStart J → starting_ok started todo base0 ths base w → J w → spares schedule →
  wp (run_start qos0 (Some cp) schedule (item_of <$> todo) (existing started ths)) (λ o w',
    ∃ started' base0' ths' base',
      o = Ok (item_of <$> drop (nexts schedule) todo, existing started' ths')
      ∧ starting_ok started' (drop (nexts schedule) todo) base0' ths' base' w' ∧ J w') w.
Proof.
  intros HJ. revert started todo base0 ths base w.
  induction schedule as [|[|a] schedule IH]; intros started todo base0 ths base w Hs HJw Hsp;
    cbn [run_start nexts].
  - wp_steps. rewrite drop_0. by exists started, base0, ths, base.
  - assert (Hsp' : spares schedule) by (intros i Hi; apply (Hsp i); by right).
    destruct todo as [|e todo]; cbn [fmap list_fmap drop].
    { pose proof (IH started [] base0 ths base w Hs HJw Hsp') as H. by rewrite drop_nil in H. }
    destruct (starting_lengths _ _ _ _ _ _ Hs) as (_ & _ & ->). wp_step.
    apply wp_start_one; [done|eapply starting_waits; [exact Hs|by left]| |].
    { intros u ->. pose proof (so_table _ _ _ _ _ _ Hs) as Ht. eapply table_next. exact Ht. }
    destruct e as [u|up u|up u]; wp_step.
    + destruct (starting_on _ _ _ _ _ _ _ Hs) as [Hs' E].
      change (option_list (Some ?t)) with [t]. rewrite <- E. apply (IH _ _ _ _ _ _ Hs'); [|done].
      by apply (as_start _ HJ).
    + change (option_list None) with (@nil thread_state). rewrite app_nil_r. apply (IH _ _ base0 _ base); [|done..].
      by refine (starting_off _ _ _ _ _ _ _ _ Hs).
    + change (option_list None) with (@nil thread_state). rewrite app_nil_r. apply (IH _ _ base0 _ base); [|done..].
      by refine (starting_off _ _ _ _ _ _ _ _ Hs).
  - assert (Hsp' : spares schedule) by (intros i Hi; apply (Hsp i); by right).
    wp_step. eapply wp_mono.
    { eapply (wp_start_act J); [apply (as_threads _ HJ)|exact Hs|exact HJw|].
      intros i ->. apply (Hsp i). by left. }
    intros o w1 (ths1 & base1 & -> & Hs1 & HJ1). wp_step. by eapply IH.
Qed.

(** ** From the first unit on *)

(** When [main] begins: the structs as they were read. *)
Record ready (w : World) : Prop := {
  rd_log : log_ready (w_log w);
  rd_waiting : Forall (waiting_in (w_heap w)) entries;
  rd_places : NoDup (place_of <$> entries);
  rd_common : w_heap w !! cp = Some (OConfiguration conf);
  rd_unserved : unserved_units units w;
  rd_table : w_threads w = replicate (Z.to_nat MAX_UNIT_NUM) 0;
  rd_room : Z.of_nat (length units + spare) ≤ MAX_UNIT_NUM;
}.

Lemma starting_begin w :
  ready w → h0 = w_heap w →
  starting_ok [] entries (w_heap w) (created_thread <$> units) (w_heap w) w.
Proof.
  intros [Hlog Hwt Hpl Hc Hun Htab Hroom] Hh. split; try done.
  - by apply process_created.
  - by intros l _; rewrite Hh.
  - exists [], (Z.to_nat MAX_UNIT_NUM). split_and!; [done|constructor|exact Htab|]. unfold MAX_UNIT_NUM in *. lia.
Qed.

(** When all units have their threads, [process_ok] is about them. *)
Lemma starting_done started base0 ths base w :
  starting_ok started [] base0 ths base w →
  started = units ∧ Forall (placed cp conf base0) units ∧ existing started ths = th_state <$> ths
  ∧ (1 ≤ spare → slots_in_use (length units) w)%nat.
Proof.
  intros Hs. destruct (starting_lengths _ _ _ _ _ _ Hs) as (Hl & Hle & _).
  destruct Hs as [Hu _ Hst _ _ _ _ _ _ Ht]. cbn in Hu, Ht. rewrite app_nil_r in Hu.
  split_and!; [done|by rewrite Hu| |].
  - unfold existing. rewrite take_ge; [done|]. rewrite Hl, Hu. lia.
  - intros Hsp. rewrite Hu. eapply (table_slots _ 0), table_less; [|exact Ht]. exact Hsp.
Qed.

Lemma run_start_app s1 s2 todo ts w :
  run_start qos0 (Some cp) (s1 ++ s2) todo ts w
  = ('(todo', ts') ← run_start qos0 (Some cp) s1 todo ts; run_start qos0 (Some cp) s2 todo' ts') w.
Proof.
  revert todo ts w. induction s1 as [|[|a] s1 IH]; intros todo ts w; cbn [app run_start]; [done|..].
  - destruct todo as [|it todo]; [apply IH|]. rewrite bind_assoc. apply bind_ext. intros t w'. apply IH.
  - rewrite bind_assoc. apply bind_ext. intros ts' w'. apply IH.
Qed.

Lemma run_start_acts s todo ts w :
  run_start qos0 (Some cp) (Act <$> s) todo ts w
  = (ts' ← run_turns qos0 s ts; mret (todo, ts')) w.
Proof.
  revert ts w. induction s as [|a s IH]; intros ts w; [done|].
  change (a :: s) with ([a] ++ s) at 2. rewrite (bind_head _ _ _ _ (run_turns_app qos0 [a] s ts w)).
  rewrite bind_assoc. cbn [fmap list_fmap run_start]. apply bind_ext. intros ts' w'. apply IH.
Qed.

(** The threads end when [main] has looked at all units, and then [poll] fails
    from some call on and each has turns enough, or a SIGINT finds each inside
    [poll] and each has a turn after it. *)
Definition ends_in (s2 : list action) (ts : list thread_state) : Prop :=
  (∃ N, polls_fail N ∧ ∀ i, (i < length units)%nat → (2 * N + 3 ≤ turns_in i s2)%nat)
  ∨ ∃ i s3, s2 = Sigint i :: s3 ∧ Forall polling ts
      ∧ ∀ j, (j < length units)%nat → (1 ≤ turns_in j s3)%nat.

Lemma ends_in_ends s2 ts w :
  ends_in s2 ts → length ts = length units →
  (interrupts s2 → slots_in_use (length units) w) →
  wp (run_turns qos0 s2 ts) (returns (λ ts' _, Forall (λ t, t = Ended) ts')) w.
Proof.
  intros [(N & Hp & Hturns)|(i & s3 & -> & Hin & Hturns)] Hlen Hslots.
  - eapply ends_by_poll; [done|]. by rewrite Hlen.
  - apply ends_by_sigint; [done| |by rewrite Hlen]. rewrite Hlen. apply Hslots. exists i. by left.
Qed.

Lemma wp_after_start J s2 started base0 ths base w :
  AlongStart J → starting_ok started [] base0 ths base w → J w →
  (interrupts s2 → 1 ≤ spare)%nat →
  wp (run_turns qos0 s2 (existing started ths)) (λ o w', ∃ ths' base',
    o = Ok (th_state <$> ths') ∧ process base0 ths' base' w' ∧ J w'
    ∧ (ends_in s2 (existing started ths) → Forall (λ th, th_state th = Ended) ths'
         ∧ all_over qos0 qs cp conf units base0 w')) w.
Proof.
  intros HJ Hs HJw Hsp. destruct (starting_done _ _ _ _ _ Hs) as (Hst & Hpl & Hex & Hslots).
  destruct (starting_lengths _ _ _ _ _ _ Hs) as (_ & _ & Hlen). rewrite Hst in Hlen.
  eapply wp_mono; [apply wp_conj|].
  - rewrite Hex. apply (wp_run_turns qos0 qs cp conf timeout units base0 Hgood J s2 _ base);
      [done|apply (as_threads _ HJ)|apply Hs|done|]. intros Hi. by apply Hslots, Hsp.
  - apply (wp_intro _ (λ o w', ends_in s2 (existing started ths) →
      returns (λ ts' _, Forall (λ t, t = Ended) ts') o w')). intros o w' E He.
    assert (Hr : wp (run_turns qos0 s2 (existing started ths))
      (returns (λ ts' _, Forall (λ t, t = Ended) ts')) w).
    { apply ends_in_ends; [done|by rewrite <- Hst in *|]. intros Hi. by apply Hslots, Hsp. }
    unfold wp in Hr. by rewrite E in Hr.
  - intros o w' [(ths' & base' & -> & Hok' & HJ') Hends]. exists ths', base'.
    split_and!; [done..|]. intros He.
    assert (Hall : Forall (λ th, th_state th = Ended) ths')
      by exact (proj1 (Forall_fmap _ _ _) (Hends He)).
    split; [done|]. by eapply process_over.
Qed.

Lemma along_start_True : AlongStart (λ _, True).
Proof. split; [|done]. intros base0. apply along_True. Qed.

Lemma along_start_posted :
  Brokers (client_of <$> units) → AlongStart (posted (home units)).
Proof.
  intros Hbr. split; [intros base0; by apply posted_along|].
  intros n u w Hp. by apply (posted_called (home units) (X_pthread_create (thread_of u) (Some (place u)))).
Qed.

Abbreviation items := (item_of <$> entries).

Lemma wp_from_start J schedule w :
  AlongStart J → ready w → h0 = w_heap w → J w → spares schedule →
  wp (run_start qos0 (Some cp) schedule items []) (λ o w', ∃ started base0 ths base,
    o = Ok (item_of <$> drop (nexts schedule) entries, existing started ths)
    ∧ starting_ok started (drop (nexts schedule) entries) base0 ths base w' ∧ J w') w.
Proof.
  intros HJ Hr Hh HJw Hsp.
  exact (wp_run_start J schedule [] entries _ _ _ w HJ (starting_begin w Hr Hh) HJw Hsp).
Qed.

(** The end of a schedule in which [main] has looked at all units. *)
Lemma wp_start_ends s1 s2 w :
  ready w → h0 = w_heap w → spares (s1 ++ (Act <$> s2)) → (length entries ≤ nexts s1)%nat →
  wp (run_start qos0 (Some cp) s1 items []) (λ o _, ∀ ts, o = Ok ([], ts) → ends_in s2 ts) w →
  wp (run_start qos0 (Some cp) (s1 ++ (Act <$> s2)) items []) (λ o w', ∃ ts base0,
    o = Ok ([], ts) ∧ Forall (λ t, t = Ended) ts ∧ all_over qos0 qs cp conf units base0 w'
    ∧ Forall (placed cp conf base0) units
    ∧ ∀ l, l ∉ place_of <$> entries → base0 !! l = h0 !! l) w.
Proof.
  intros Hr Hh Hsp Hn Hends.
  assert (Hsp1 : spares s1) by (intros i Hi; apply (Hsp i), elem_of_app; by left).
  assert (Hsp2 : interrupts s2 → (1 ≤ spare)%nat).
  { intros [i Hi]. apply (Hsp i), elem_of_app. right. by apply list_elem_of_fmap_2. }
  eapply wp_eq; [apply run_start_app|].
  wp_step. eapply wp_mono; [apply wp_conj; [exact Hends|by apply (wp_from_start _ s1 w along_start_True)]|].
  intros o w1 (He & started & base0 & ths & base & -> & Hs & _).
  rewrite drop_ge in He, Hs |- * by done. specialize (He _ eq_refl). wp_step.
  eapply wp_eq; [apply run_start_acts|].
  wp_step. eapply wp_mono; [by eapply (wp_after_start _ s2 _ _ _ _ _ along_start_True Hs)|].
  intros o w2 (ths' & base' & -> & _ & _ & Hend). destruct (Hend He) as [Hall Hover]. wp_steps.
  destruct (starting_done _ _ _ _ _ Hs) as (_ & Hpl & _). exists (th_state <$> ths'), base0.
  split_and!; [done|by apply Forall_fmap|done|done|]. apply Hs.
Qed.

End process.

(** * Properties *)
Section properties.
Context `{EV : Env}.



End properties.

(** ** Witness *)
Import Demo.

(** A unit that is not enabled comes second. *)
Definition idle_unit : Mqtt2RestUnitConfiguration := {|
  m2r_unit_name := Some "off"; m2r_enabled := false; m2r_webservice_baseurl := Some "http://h";
  m2r_mqtt_topic := Some "off"; m2r_common_configuration := None |}.

Definition demo_entries : list entry :=
  [On (M2R 2 demo_m2r); OffM2R 6 idle_unit; On (R2M 4 server1); On (R2M 5 server2)].

Definition demo_start_heap : gmap positive obj :=
  {[ 2%positive := OMqtt2Rest (mt_unit demo_m2r); 3%positive := OConfiguration demo_conf;
     4%positive := ORest2Mqtt (rt_unit server1); 5%positive := ORest2Mqtt (rt_unit server2);
     6%positive := OMqtt2Rest idle_unit ]}.

Definition demo_start_world : World :=
  set_threads (replicate 32 0) (world_of console_log demo_start_heap).

(** The first thread is inside [poll] when SIGINT comes, the second is not, and
    the third is created afterwards. *)
Definition starting_schedule : list start_action :=
  [Next; Act (Turn 0); Act (Turn 0); Next; Next; Act (Turn 1); Act (Sigint (Some 0));
   Act (Turn 0); Act (Turn 1); Act (Turn 1); Act (Turn 1); Next; Act (Turn 2); Act (Turn 2)]%nat.

Definition started_schedule : list action := [Sigint None; Turn 0; Turn 1; Turn 2].

Lemma demo_ready : ready 3 demo_conf demo_entries 1 demo_start_world.
Proof.
  split; try reflexivity; [apply rest_ready| | |intros u v Hu Hv; by split|vm_compute; discriminate].
  - repeat apply Forall_cons_2; [split; reflexivity..|constructor].
  - apply (bool_decide_unpack _). vm_compute. exact I.
Defined.

Definition is_polling (t : thread_state) : bool :=
  match t with InPoll _ _ _ | Ended => true | _ => false end.

Lemma demo_all_poll ts :
  fst (run_start (EV := demo_env 8 all_units) (λ _, 0) (Some 3%positive) starting_schedule
         (item_of <$> demo_entries) [] demo_start_world) = Ok ([], ts) → Forall polling ts.
Proof.
  assert (B : match fst (run_start (EV := demo_env 8 all_units) (λ _, 0) (Some 3%positive)
      starting_schedule (item_of <$> demo_entries) [] demo_start_world) with
    | Ok (_, ts) => forallb is_polling ts | _ => true end = true) by (vm_compute; reflexivity).
  intros E. rewrite E in B. apply Forall_forall. intros t Ht. rewrite forallb_forall in B.
  apply list_elem_of_In, B in Ht. by destruct t.
Defined.


End Startup.
