(* ===== verification/Program.v ===== *)
(** The program as a whole, over [src/main.c]: what holds of every run, and the
    run from the command line to the exit status. *)
From Stdlib Require Import ZArith Lia ZifyBool Ascii String List.
From stdpp Require Import base numbers list strings gmap.
From S2P Require Import Prelude.
From S2P Require Import CLib.
From S2P Require Import Getopt.
From S2P Require Import Types.
From S2P Require Import World.
From S2P Require Import Demo.
From S2P Require Import Utils.
From S2P Require Import Logging.
From S2P Require Import Configuration.
From S2P Require Import MqttClient.
From S2P Require Import Mqtt2Rest.
From S2P Require Import Messages.
From S2P Require Import Rest2Mqtt.
From S2P Require Import Uploads.
From S2P Require Import RestThread.
From S2P Require Import Signals.
From S2P Require Import Threads.
From S2P Require Import Schedules.
From S2P Require Import Process.
From S2P Require Import Delivery.
From S2P Require Import Options.
From S2P Require Import Main.
Import Getopt Utils Logging Configuration MqttClient Mqtt2Rest Messages Rest2Mqtt Uploads RestThread.
Import Signals Threads Schedules Process Delivery Options Main.

Module Program.

(** * Every run *)

(** The types of the program's global variables: the thread table has its 32
    slots, the log level is a value of its enum, and the file printer is
    installed only with the name of a file. *)
Record well_typed (w : World) : Prop := {
  wt_threads : length (w_threads w) = Z.to_nat MAX_UNIT_NUM;
  wt_loglevel : 0 ≤ loglevel (w_log w) ≤ 4;
  wt_printer : log_print_ptr (w_log w) = Some log_to_file → is_Some (logfilename (w_log w));
}.

(** The process before [main]: the variables of static storage. *)
Definition start_of_process : World := {|
  w_trace := []; w_out := [];
  w_log := {| loglevel := 0; logfile := None; logfilename := None; log_print_ptr := None |};
  w_heap := ∅; w_cfg := None; w_con_cls := ∅; w_pid_fd := -1;
  w_threads := replicate (Z.to_nat MAX_UNIT_NUM) 0 |}.

Lemma start_well_typed : well_typed start_of_process.
Proof. split; [reflexivity|cbn; lia|discriminate]. Qed.

#[export] Instance well_typed_proper : Proper ((≡) ==> iff) well_typed.
Proof.
  assert (H : ∀ w1 w2, w1 ≡ w2 → well_typed w1 → well_typed w2).
  { intros w1 w2 Heq [H1 H2 H3]. pose proof (w_log_proper _ _ Heq) as El.
    assert (Et : w_threads w1 = w_threads w2) by exact (f_equal w_threads Heq).
    rewrite El, Et in *. by split. }
  intros w1 w2 Heq. split; apply H; [done|by symmetry].
Qed.

Section typing.
Context `{EV : Env}.

Lemma wt_call {A} (c : ext A) : preserves well_typed (call c).
Proof. apply pres_call. by intros w []. Qed.

Lemma wt_print f args : preserves well_typed (fprintf_stderr f args).
Proof. apply pres_fprintf_stderr, _. Qed.

Lemma wt_emit o : preserves well_typed (emit o).
Proof. by intros w []. Qed.

Hint Resolve wt_call wt_print wt_emit : pres.

(** Changing the logging state within its type. *)
Lemma wt_set_log f :
  (∀ l, 0 ≤ loglevel l ≤ 4 → 0 ≤ loglevel (f l) ≤ 4) →
  (∀ l, (log_print_ptr l = Some log_to_file → is_Some (logfilename l)) →
        log_print_ptr (f l) = Some log_to_file → is_Some (logfilename (f l))) →
  preserves well_typed (set_log_fields f).
Proof. intros H1 H2 w [Ht Hl Hp]. split; [done|by apply H1|by apply H2]. Qed.

Lemma loglevel_range name w a :
  fst (log_lookup_loglevel name w) = Ok a → 0 ≤ a ≤ 4.
Proof.
  unfold log_lookup_loglevel, deref. destruct name as [s|]; [|done]. unfold mbind, M_bind. cbn.
  repeat case_bool_decide; cbn; intros [= <-]; lia.
Qed.

Lemma wt_facility name table : preserves well_typed (facility_loop name table).
Proof. induction table as [|[n v] table IH]; cbn [facility_loop]; pres; exact IH. Qed.
Hint Resolve wt_facility : pres.

(** Once the name of the log file is set, any printer may be. *)
Definition named (w : World) : Prop := well_typed w ∧ is_Some (logfilename (w_log w)).

Lemma named_set_log f :
  (∀ l, loglevel (f l) = loglevel l) → (∀ l, logfilename (f l) = logfilename l) →
  preserves named (set_log_fields f).
Proof.
  intros H1 H2 w [[Ht Hl Hp] Hn]. unfold named. cbn. rewrite H2.
  split; [|done]. split; cbn; [done|by rewrite H1|by rewrite H2].
Qed.

#[local] Instance named_proper : Proper ((≡) ==> iff) named.
Proof.
  intros w1 w2 Heq. unfold named. by rewrite (w_log_proper _ _ Heq), Heq.
Qed.

Lemma named_call {A} (c : ext A) : preserves named (call c).
Proof. apply pres_call. intros w [[] ?]. by split. Qed.

Lemma named_print f args : preserves named (fprintf_stderr f args).
Proof. apply pres_fprintf_stderr, _. Qed.

Lemma named_facility facility : preserves named (log_lookup_syslog_facility facility).
Proof.
  assert (H : ∀ name table, preserves named (facility_loop name table)).
  { intros name table. induction table as [|[n v] table IH]; cbn [facility_loop]; [apply pres_ret|].
    case_bool_decide; [|exact IH]. apply pres_bind; [apply pres_lift|]. intros s.
    apply pres_bind; [|intros _; apply pres_ret]. intros w [[] ?]. by split. }
  unfold log_lookup_syslog_facility. pres. all: apply H.
Qed.

Lemma wt_then {B} (f : World → World) (k : M B) :
  (∀ w, well_typed w → named (f w)) → preserves named k → preserves well_typed (modify f;; k).
Proof. intros Hf Hk w Hw. exact (proj1 (Hk _ (Hf _ Hw))). Qed.

Lemma wt_log_init level target path facility size :
  preserves well_typed (log_init level target path facility size).
Proof.
  unfold log_init. apply (pres_bind_ok well_typed (λ a, 0 ≤ a ≤ 4)).
  { unfold log_lookup_loglevel. pres. }
  { intros w a. apply loglevel_range. }
  intros a Ha. apply pres_bind; [by apply wt_set_log|]. intros _.
  apply pres_bind; [apply pres_deref|]. intros p.
  apply wt_then; [intros w []; split; [split; cbn; [done..|by eexists]|by eexists]|].
  pose proof @named_call. pose proof named_print. pose proof named_facility.
  pres. all: by apply named_set_log.
Qed.

#[export] Instance well_typed_main : MainInv well_typed.
Proof.
  split; [apply _|by intros; apply wt_call|by intros h w []|by intros c w []|by intros fd w []
         |apply wt_log_init|].
  unfold log_finalize. pres. by apply wt_set_log.
Qed.

#[export] Instance well_typed_threads : ThreadInv well_typed.
Proof. split; [apply _|by intros A c r w []|by intros h w []|by intros cc w []]. Qed.

Lemma wt_create_thread n f arg : preserves well_typed (create_thread n f arg).
Proof.
  unfold create_thread. pres. intros w [Ht Hl Hp]. split; [|done..]. cbn. by rewrite length_insert.
Qed.

(** * The threads while [main] waits *)

(** They take turns, and SIGINTs come, in the order of [schedule], which must end
    them all. *)
Definition by_turns (qos0 : ptr → Z) (schedule : list action) : Scheduler := λ ths,
  states ← run_turns qos0 schedule ((λ p, Created p.1 p.2) <$> ths);
  lift (all_ended states).

Lemma pres_by_turns I `{!ThreadInv I} qos0 schedule ths :
  preserves I (by_turns qos0 schedule ths).
Proof. apply pres_bind; [apply pres_run_turns, _|intros; apply pres_lift]. Qed.

(** Initialising the logging leaves the threads and the configuration alone. *)
Definition elsewhere (ts : list Z) (c : ptr) (w : World) : Prop :=
  w_threads w = ts ∧ w_cfg w = c.

#[local] Instance elsewhere_proper ts c : Proper ((≡) ==> iff) (elsewhere ts c).
Proof.
  intros w1 w2 Heq. unfold elsewhere. rewrite (w_cfg_proper _ _ Heq).
  by rewrite (f_equal w_threads Heq : w_threads w1 = w_threads w2).
Qed.

Lemma elsewhere_log_init ts c level target path facility size :
  preserves (elsewhere ts c) (log_init level target path facility size).
Proof.
  assert (H1 : ∀ A (x : ext A), preserves (elsewhere ts c) (call x)) by (by intros A x w).
  assert (H2 : ∀ f, preserves (elsewhere ts c) (set_log_fields f)) by (by intros f w).
  assert (H3 : ∀ o, preserves (elsewhere ts c) (emit o)) by (by intros o w).
  assert (H4 : ∀ f args, preserves (elsewhere ts c) (fprintf_stderr f args))
    by (intros; apply pres_fprintf_stderr, _).
  assert (H5 : ∀ name table, preserves (elsewhere ts c) (facility_loop name table)).
  { intros name table. induction table as [|[n v] table IH]; cbn [facility_loop]; pres. }
  unfold log_init, log_lookup_loglevel, log_lookup_syslog_facility. pres.
Qed.

(** The log can be opened. *)
Definition log_works (target path : string) : Prop :=
  target = "stdout"
  ∨ (target = "file" ∧ ∀ tr, fst (answer tr _ (X_fopen path "a+")) = true).

End typing.

(** * A whole run *)
Section run.
Context `{EV : Env} (qos0 : ptr → Z) (qs : positive → cstr) (timeout : Z) (schedule : list action).

(** The configuration file, and what the libraries do for the units it enables. *)
Context (c : cfg_ptr) (ts : list m2r_unit) (rs : list r2m_unit).

Abbreviation conf := (read_configuration c).

(** The units with the places of their structs. *)
Definition units_with (ups1 ups2 : list positive) : list unit_at :=
  zip_with M2R ups1 ts ++ zip_with R2M ups2 rs.

(** The units [ts] and [rs] are the enabled ones of the file, in its order. *)
Definition m2r_sections : list Mqtt2RestUnitConfiguration :=
  (λ i, read_mqtt2rest (cfg_getnsec c "mqtt2rest_unit" (Z.of_nat i)))
  <$> seq 0 (Z.to_nat (to_int (cfg_size c "mqtt2rest_unit"))).
Definition r2m_sections : list Rest2MqttUnitConfiguration :=
  (λ i, read_rest2mqtt (cfg_getnsec c "rest2mqtt_unit" (Z.of_nat i)))
  <$> seq 0 (Z.to_nat (to_int (cfg_size c "rest2mqtt_unit"))).

Record enabled_units : Prop := {
  eu_m2r : mt_unit <$> ts = filter (λ u, m2r_enabled u = true) m2r_sections;
  eu_r2m : rt_unit <$> rs = filter (λ u, r2m_enabled u = true) r2m_sections;
}.

(** Nothing has been served before. *)
Definition none_served (w : World) : Prop := Forall (λ r, unserved (rt_view r) w) rs.

Lemma main_call_silent {A} (x : ext A) : main_call x = true → silent x = true.
Proof. by destruct x. Qed.

Lemma none_served_idle w w' :
  none_served w → (∀ v, idle v w w') → none_served w'.
Proof.
  intros H Hi. eapply Forall_impl; [exact H|]. intros r Hr. eapply unserved_idle; [exact Hr|apply Hi].
Qed.

Lemma idle_same v w w1 w2 :
  w_trace w2 = w_trace w1 → w_con_cls w2 = w_con_cls w1 → idle v w w1 → idle v w w2.
Proof. intros Et Ec [H1 H2 H3 H4]. by split; rewrite ?Et, ?Ec. Qed.

#[local] Instance idle_main w : MainInv (λ w', ∀ v, idle v w w').
Proof.
  apply trace_inv.
  - intros A x Hx w' Hw' v. apply pres_silent; [by apply main_call_silent|done].
  - intros w1 w2 Et Ec H v. by eapply idle_same.
Qed.

#[local] Instance none_served_main : MainInv none_served.
Proof.
  apply trace_inv.
  - intros A x Hx w Hw. eapply none_served_idle; [exact Hw|]. intros v.
    apply pres_silent; [by apply main_call_silent|done].
  - intros w w' Et Ec H. eapply none_served_idle; [exact H|]. intros v. by eapply idle_same.
Qed.

(** What the creation of a thread leaves alone. *)
Lemma pres_create_thread I `{!Proper ((≡) ==> iff) I} n f arg :
  (∀ ws w, I w → I (set_threads ws w)) → preserves I (call (X_pthread_create f arg)) →
  preserves I (create_thread n f arg).
Proof.
  intros Hs Hc.
  assert (Hp : ∀ g args, preserves I (fprintf_stderr g args))
    by (intros; apply pres_fprintf_stderr, _).
  unfold create_thread. apply pres_get_bind. intros w Hw.
  refine ((_ : preserves I (_ ;; _)) w Hw).
  apply pres_bind; [pres|]. intros _. apply pres_bind; [exact Hc|]. intros [ret tid]. pres.
  intros w' Hw'. by apply Hs.
Qed.

Lemma none_served_create n f arg : preserves none_served (create_thread n f arg).
Proof.
  apply pres_create_thread; [apply _| |].
  - intros ws w H. eapply none_served_idle; [exact H|]. intros v. by eapply idle_same.
  - intros w Hw. eapply none_served_idle; [exact Hw|]. intros v. by apply pres_silent.
Qed.

(** Every message delivered to the units has been posted, if it had been in
    [w], and the libraries do what that needs. *)
Definition run_clients : list mosq_ptr :=
  (mt_mosq <$> ts) ++ ((λ r, uv_client (rt_view r)) <$> rs).

Definition delivers (w w' : World) : Prop :=
  Brokers run_clients → posted (home_of ts) w → posted (home_of ts) w'.

Lemma main_call_no_traffic {A} (x : ext A) : main_call x = true → no_traffic x = true.
Proof. by destruct x. Qed.

Lemma delivers_call {A} (x : ext A) w : no_traffic x = true → preserves (delivers w) (call x).
Proof. intros Hx w' Hw' Hbr Hp. apply posted_called; [done|]. by apply Hw'. Qed.

Lemma delivers_same w w1 w2 : w_trace w2 = w_trace w1 → delivers w w1 → delivers w w2.
Proof. intros Et H Hbr Hp. unfold posted. rewrite Et. by apply H. Qed.

#[local] Instance delivers_main w : MainInv (delivers w).
Proof.
  apply trace_inv.
  - intros A x Hx. by apply delivers_call, main_call_no_traffic.
  - intros w1 w2 Et _. by apply delivers_same.
Qed.

Lemma delivers_create w n f arg : preserves (delivers w) (create_thread n f arg).
Proof.
  apply pres_create_thread; [apply _| |by apply delivers_call].
  intros ws w'. by apply delivers_same.
Qed.

(** ** The units of [main] and those of the process *)
Lemma filter_snd {U} (en : U → bool) (us : list (positive * U)) :
  (running en us).*2 = filter (λ u, en u = true) us.*2.
Proof.
  unfold running. induction us as [|[l u] us IH]; [done|]. cbn [fmap list_fmap snd].
  rewrite !filter_cons. cbn [snd]. by destruct (decide _); cbn [fmap list_fmap snd]; rewrite IH.
Qed.

(** The threads main has created are those of the units. *)
Lemma created_states_m2r ups :
  length ups = length ts →
  th_state ∘ created_thread <$> zip_with M2R ups ts
  = (λ up, Created run_mqtt2rest (Some up)) <$> ups.
Proof.
  revert ups. generalize ts as ts'. induction ts' as [|t ts' IH]; intros [|up ups] H; try done.
  injection H as H. cbn. f_equal. by apply IH.
Qed.

Lemma created_states_r2m ups :
  length ups = length rs →
  th_state ∘ created_thread <$> zip_with R2M ups rs
  = (λ up, Created run_rest2mqtt (Some up)) <$> ups.
Proof.
  revert ups. generalize rs as rs'. induction rs' as [|r rs' IH]; intros [|up ups] H; try done.
  injection H as H. cbn. f_equal. by apply IH.
Qed.

(** Their structs are placed. *)
Lemma placed_m2r lc h us ts' :
  h !! lc = Some (OConfiguration conf) → mt_unit <$> ts' = us.*2 →
  Forall (λ p, h !! p.1 = Some (mqtt2rest_with_common (Some lc) p.2)) us →
  Forall (placed lc conf h) (zip_with M2R us.*1 ts').
Proof.
  intros Hlc. revert us. induction ts' as [|t ts' IH]; intros [|[up u] us] Hu Hh; try discriminate; [constructor|].
  injection Hu as <- Hu. apply Forall_cons in Hh as [Hh Hhs]. cbn. constructor; [|by apply IH].
  by split.
Qed.

Lemma placed_r2m lc h us rs' :
  h !! lc = Some (OConfiguration conf) → rt_unit <$> rs' = us.*2 →
  Forall (λ p, h !! p.1 = Some (rest2mqtt_with_common (Some lc) p.2)) us →
  Forall (placed lc conf h) (zip_with R2M us.*1 rs').
Proof.
  intros Hlc. revert us. induction rs' as [|r rs' IH]; intros [|[up u] us] Hu Hh; try discriminate; [constructor|].
  injection Hu as <- Hu. apply Forall_cons in Hh as [Hh Hhs]. cbn. constructor; [|by apply IH].
  by split.
Qed.

Lemma length_units_with ups1 ups2 :
  length ups1 = length ts → length ups2 = length rs →
  length (units_with ups1 ups2) = (length ts + length rs)%nat.
Proof. intros H1 H2. unfold units_with. rewrite length_app, !length_zip_with. lia. Qed.

Lemma clients_units_with ups1 ups2 :
  length ups1 = length ts → length ups2 = length rs →
  client_of <$> units_with ups1 ups2 = run_clients.
Proof.
  intros H1 H2. unfold units_with, run_clients. rewrite fmap_app. f_equal.
  - revert ups1 H1. generalize ts as ts'. induction ts' as [|t ts' IH]; intros [|up ups] H; try done.
    injection H as H. cbn. f_equal. by apply IH.
  - revert ups2 H2. generalize rs as rs'. induction rs' as [|r rs' IH]; intros [|up ups] H; try done.
    injection H as H. cbn. f_equal. by apply IH.
Qed.

Lemma home_units_with ups1 ups2 :
  length ups1 = length ts → home (units_with ups1 ups2) = home_of ts.
Proof.
  intros H1. unfold home, units_with. f_equal. rewrite omap_app.
  assert (omap unit_m2r (zip_with R2M ups2 rs) = []) as ->.
  { revert ups2. generalize rs as rs'. induction rs' as [|r rs' IH]; intros [|up ups]; try done.
    apply IH. }
  rewrite app_nil_r. revert ups1 H1. generalize ts as ts'.
  induction ts' as [|t ts' IH]; intros [|up ups] H; try done.
  injection H as H. cbn. f_equal. by apply IH.
Qed.

(** ** The threads *)

(** The libraries serve the units, wherever their structs are. *)
Definition well_served : Prop := ∀ lc ups1 ups2,
  length ups1 = length ts → length ups2 = length rs →
  good_units qos0 qs lc conf timeout (units_with ups1 ups2).

(** A SIGINT needs a table that was empty at first, and not all its slots for the
    units. *)
Definition table_ready (w : World) : Prop :=
  interrupts schedule → w_threads w = replicate (Z.to_nat MAX_UNIT_NUM) 0
    ∧ Z.of_nat (length ts + length rs) < MAX_UNIT_NUM.

Context (Hunits : enabled_units) (Hserved : well_served).
Context (Hends : ends (length ts + length rs) schedule).

#[local] Instance turns : Scheduler := by_turns qos0 schedule.

Lemma running_m2r u1 :
  u1.*2 = m2r_sections → mt_unit <$> ts = (running m2r_enabled u1).*2.
Proof. intros H. by rewrite filter_snd, H, (eu_m2r Hunits). Qed.

Lemma running_r2m u2 :
  u2.*2 = r2m_sections → rt_unit <$> rs = (running r2m_enabled u2).*2.
Proof. intros H. by rewrite filter_snd, H, (eu_r2m Hunits). Qed.

Lemma length_ups {A U} (f : A → U) (l : list A) (us : list (positive * U)) :
  f <$> l = us.*2 → length us.*1 = length l.
Proof. intros H. apply (f_equal length) in H. rewrite !length_fmap in *. done. Qed.

(** The units whose threads have been created. *)
Definition created_units (u1 : list (positive * Mqtt2RestUnitConfiguration))
    (u2 : list (positive * Rest2MqttUnitConfiguration)) : list unit_at :=
  units_with (running m2r_enabled u1).*1 (running r2m_enabled u2).*1.

Lemma created_units_lengths config u1 u2 w w1 :
  units_running config c w u1 u2 w1 →
  length (running m2r_enabled u1).*1 = length ts ∧ length (running r2m_enabled u2).*1 = length rs.
Proof.
  intros Hur. split; eapply length_ups.
  - by eapply running_m2r, ur_m2r_read.
  - by eapply running_r2m, ur_r2m_read.
Qed.

Lemma created_units_placed lc u1 u2 w w1 :
  units_running (Some lc) c w u1 u2 w1 → w_heap w !! lc = Some (OConfiguration conf) →
  Forall (placed lc conf (w_heap w1)) (created_units u1 u2).
Proof.
  intros Hur Hlc.
  assert (Hlc1 : w_heap w1 !! lc = Some (OConfiguration conf)).
  { rewrite (ur_rest _ _ _ _ _ _ Hur); [done|]. intros Hin.
    by rewrite (ur_new _ _ _ _ _ _ Hur lc Hin) in Hlc. }
  apply Forall_app. split; [apply placed_m2r|apply placed_r2m]; try done;
    [by eapply running_m2r, ur_m2r_read| |by eapply running_r2m, ur_r2m_read|];
    apply Forall_forall; intros [l u] Hin; apply list_elem_of_filter in Hin as [He Hin]; cbn in *;
    [rewrite (ur_m2r _ _ _ _ _ _ Hur _ _ Hin)|rewrite (ur_r2m _ _ _ _ _ _ Hur _ _ Hin)];
    by rewrite He.
Qed.

Lemma created_units_states config u1 u2 w w1 :
  units_running config c w u1 u2 w1 → created (w_trace w) = [] →
  (λ p, Created p.1 p.2) <$> reverse (created (w_trace w1))
  = th_state <$> (created_thread <$> created_units u1 u2).
Proof.
  intros Hur Hcr. destruct (created_units_lengths _ _ _ _ _ Hur) as [Hl1 Hl2].
  rewrite (ur_created _ _ _ _ _ _ Hur), Hcr. cbn [reverse rev_append app].
  unfold created_units, units_with. rewrite <- list_fmap_compose, !fmap_app.
  rewrite created_states_m2r, created_states_r2m by done. by rewrite <- !list_fmap_compose.
Qed.

Lemma created_units_unserved u1 u2 w :
  none_served w → unserved_units (created_units u1 u2) w.
Proof.
  intros Hns u v Hu Hv. apply elem_of_app in Hu as [Hu|Hu]; apply elem_of_lookup_zip_with in Hu
    as (j & l & x & -> & Hj & Hx); [done|]. injection Hv as <-.
  unfold none_served in Hns. rewrite Forall_lookup in Hns. by eapply Hns.
Qed.

Lemma forallb_ended ths :
  Forall (λ th, th_state th = Ended) ths → forallb is_ended (th_state <$> ths) = true.
Proof. induction 1 as [|th ths He _ IH]; [done|]. cbn. by rewrite He. Qed.

(** The slots of the table in use are those of the units. *)
Lemma created_slots config u1 u2 w w1 :
  units_running config c w u1 u2 w1 → table_ready w → interrupts schedule →
  slots_in_use (length (created_units u1 u2)) w1.
Proof.
  intros Hur Hready Hi. destruct (Hready Hi) as [Hzero Hlt]. unfold MAX_UNIT_NUM in Hlt.
  destruct (created_units_lengths _ _ _ _ _ Hur) as [Hl1 Hl2].
  destruct (ur_threads _ _ _ _ _ _ Hur) as (tids & Hlen & Hnz & Htab).
  pose proof Hl1 as Hn1. pose proof Hl2 as Hn2. rewrite length_fmap in Hn1. rewrite length_fmap in Hn2.
  rewrite Hn1, Hn2 in Hlen.
  exists tids, (31 - length tids)%nat. split_and!; [|done|].
  - unfold created_units. by rewrite length_units_with.
  - rewrite Htab, Hzero, drop_replicate. do 2 f_equal. unfold MAX_UNIT_NUM. lia.
Qed.

Lemma threads_over lc u1 u2 w w1 :
  units_running (Some lc) c w u1 u2 w1 → created (w_trace w) = [] → table_ready w →
  w_heap w !! lc = Some (OConfiguration conf) → log_ready (w_log w) → none_served w1 →
  threads_return (λ w2, all_over qos0 qs lc conf (created_units u1 u2) (w_heap w1) w2
    ∧ delivers w1 w2) w1.
Proof.
  intros Hur Hcr Hready Hlc Hlog Hns. pose proof (created_slots _ _ _ _ _ Hur Hready) as Hslots.
  destruct (created_units_lengths _ _ _ _ _ Hur) as [Hl1 Hl2].
  pose proof (created_units_placed _ _ _ _ _ Hur Hlc) as Hplaced.
  pose proof (created_units_unserved u1 u2 w1 Hns) as Hun.
  pose proof (Hserved lc _ _ Hl1 Hl2 : good_units _ _ _ _ _ (created_units u1 u2)) as Hgood.
  assert (Hlog1 : log_ready (w_log w1)) by (by rewrite (ur_log _ _ _ _ _ _ Hur)).
  unfold threads_return, run_threads, turns, by_turns.
  rewrite (created_units_states _ _ _ _ _ Hur Hcr). set (units := created_units u1 u2) in *.
  wp_step. eapply wp_mono.
  { apply (wp_preserved _ (λ w2, statics_of w2 = statics_of w1));
      [apply pres_run_turns, _|done|].
    eapply (wp_conj _ _ (λ _, delivers w1)).
    - by apply (wp_units qos0 qs lc conf timeout units (w_heap w1)).
    - intros Hbr. rewrite <- (home_units_with _ (running r2m_enabled u2).*1 Hl1).
      rewrite <- (clients_units_with _ _ Hl1 Hl2) in Hbr. intros Hp.
      destruct (wp_run_turns qos0 qs lc conf timeout units (w_heap w1) Hgood _ schedule
        _ _ w1 Hplaced (posted_along _ _ _ _ _ _ _ Hgood Hbr)
        (process_created qos0 qs lc conf timeout units (w_heap w1) w1 Hlog1 eq_refl Hun) Hp Hslots)
        as (_ & _ & _ & _ & Hp'). exact Hp'. }
  intros o w2 (((ths & base & -> & Hok & Hend) & Hd) & Hst).
  destruct Hend as [He Hover]; [unfold units, created_units; by rewrite length_units_with|].
  wp_step. unfold all_ended. rewrite (forallb_ended ths He).
  wp_steps. split_and!; [done|exact (f_equal st_log Hst)|exact (f_equal st_cfg Hst)| |done|exact Hd].
  intros l x Hl. by eapply process_base0.
Qed.

(** ** Giving back the units *)

(** Freeing blocks of the base. *)
Lemma holding_delete_all base con open h h' ls :
  NoDup ls → (∀ l, l ∈ ls → is_Some (base !! l)) → holding base con open h →
  (∀ l, h' !! l = if decide (l ∈ ls) then None else h !! l) →
  ∃ base', holding base' con open h'
    ∧ ∀ l, base' !! l = if decide (l ∈ ls) then None else base !! l.
Proof.
  revert base h. induction ls as [|x ls IH]; intros base h Hnd Hin Hh Hh'.
  { exists base. assert (h' = h) as ->; [|split; [done|]].
    - apply map_eq. intros l. rewrite Hh'. by rewrite decide_False by apply not_elem_of_nil.
    - intros l. by rewrite decide_False by apply not_elem_of_nil. }
  apply NoDup_cons in Hnd as [Hx Hnd]. destruct (Hin x) as [o Ho]; [by left|].
  assert (Hcons : ∀ (m m' : gmap positive obj),
    (∀ l, m' !! l = if decide (l ∈ ls) then None else delete x m !! l) →
    ∀ l, m' !! l = if decide (l ∈ x :: ls) then None else m !! l).
  { intros m m' Hm l. rewrite Hm. destruct (decide (l = x)) as [->|Hne].
    - rewrite lookup_delete_eq, (decide_True (P := x ∈ x :: ls)) by (by left).
      by destruct (decide (x ∈ ls)).
    - rewrite lookup_delete_ne by done. destruct (decide (l ∈ ls)) as [Hl|Hl].
      + by rewrite decide_True by (by right).
      + rewrite decide_False; [done|]. by intros [?|?]%elem_of_cons. }
  destruct (IH (delete x base) (delete x h)) as (base' & Hb & Hr); [done| | | |].
  - intros l Hl. rewrite lookup_delete_ne by (intros ->; done). apply Hin. by right.
  - by eapply holding_base_delete.
  - intros l. rewrite Hh'. destruct (decide (l = x)) as [->|Hne].
    + rewrite decide_True by (by left). rewrite lookup_delete_eq. by destruct (decide (x ∈ ls)).
    + rewrite lookup_delete_ne by done. destruct (decide (l ∈ ls)) as [Hl|Hl].
      * by rewrite decide_True by (by right).
      * rewrite decide_False; [done|]. by intros [?|?]%elem_of_cons.
  - exists base'. split; [done|]. by apply Hcons.
Qed.

(** What the threads leave is what the process leaves. *)
Lemma over_freed lc units u1 u2 w w1 w2 w' :
  units_running (Some lc) c w u1 u2 w1 →
  all_over qos0 qs lc conf units (w_heap w1) w2 → (∀ v, idle v w2 w') →
  (∀ l, w_heap w' !! l = if decide (l ∈ u1.*1 ++ u2.*1) then None else w_heap w2 !! l) →
  all_over qos0 qs lc conf units (w_heap w) w'.
Proof.
  intros Hur (base & open & leaked & Hh & Hup & Hl & Hnd & Hnew & Hrest) Hi Hfree.
  set (ls := u1.*1 ++ u2.*1) in *.
  assert (Hls : ∀ l, l ∈ ls → is_Some (w_heap w1 !! l)).
  { intros l [Hin|Hin]%elem_of_app; apply list_elem_of_fmap in Hin as ([l' u] & -> & Hin); cbn [fst];
      [rewrite (ur_m2r _ _ _ _ _ _ Hur _ _ Hin)|rewrite (ur_r2m _ _ _ _ _ _ Hur _ _ Hin)]; by eexists. }
  assert (Hdis : ∀ l, l ∈ ls → l ∉ leaked).
  { intros l Hin Hin'. apply Hnew in Hin'. destruct (Hls l Hin). congruence. }
  destruct (holding_delete_all base (w_con_cls w2) open (w_heap w2) (w_heap w') ls)
    as (base' & Hh' & Hb'); [apply Hur| |done|done|].
  { intros l Hin. rewrite Hrest by (by apply Hdis). by apply Hls. }
  exists base', open, leaked. rewrite (idle_con _ _ Hi). split_and!; [done| | |done| |].
  - eapply Forall_impl; [exact Hup|]. intros u Hu.
    eapply uploads_of_idle; [exact Hu|]. intros v _. apply Hi.
  - eapply Forall2_impl; [exact Hl|]. intros p l [b Hb]. exists b.
    assert (is_Some (base !! l)) as Hsome by (by eexists).
    rewrite Hb', decide_False; [done|]. intros Hin.
    pose proof (Hrest l (Hdis l Hin)) as E. destruct (Hls l Hin) as [o Ho].
    rewrite E in Hb. rewrite Ho in Hb. injection Hb as ->.
    clear - Hur Hin Ho. apply elem_of_app in Hin as [Hin|Hin];
      apply list_elem_of_fmap in Hin as ([l' u] & -> & Hin); cbn [fst] in Ho.
    + rewrite (ur_m2r _ _ _ _ _ _ Hur _ _ Hin) in Ho. by destruct (m2r_enabled u).
    + rewrite (ur_r2m _ _ _ _ _ _ Hur _ _ Hin) in Ho. by destruct (r2m_enabled u).
  - intros l Hin. pose proof (Hnew l Hin) as Hl1. destruct (decide (l ∈ ls)) as [Hin'|Hin'].
    + by apply (ur_new _ _ _ _ _ _ Hur).
    + by rewrite <- (ur_rest _ _ _ _ _ _ Hur).
  - intros l Hin. rewrite Hb'. destruct (decide (l ∈ ls)) as [Hin'|Hin'].
    + symmetry. by apply (ur_new _ _ _ _ _ _ Hur).
    + rewrite Hrest by done. by apply (ur_rest _ _ _ _ _ _ Hur).
Qed.

(** The log is ready then. *)
Lemma log_works_ready level target path w1 :
  log_works target path →
  let r := log_after_init level target path (fst (answer (w_trace w1) _ (X_fopen path "a+")))
             (w_log w1) in
  log_ready (snd r) ∧ fst r = 0.
Proof.
  unfold log_after_init, log_ready. intros [-> |[-> ->]]; cbn;
    (split; [split; [|apply level_of_range]|done]); [by right|by left].
Qed.

(** The run. *)
Lemma wp_main_runs argv level target path facility w :
  foreground argv → config_accepted c → threads_ok →
  length (w_threads w) = Z.to_nat MAX_UNIT_NUM → table_ready w →
  created (w_trace w) = [] → none_served w →
  cfg_getstr c "loglevel" = Some level → cfg_getstr c "logtarget" = Some target →
  cfg_getstr c "logfile" = Some path → cfg_getstr c "logfacility" = Some facility →
  log_works target path →
  counts_ok (to_int (cfg_size c "mqtt2rest_unit")) (to_int (cfg_size c "rest2mqtt_unit")) →
  wp (main argv) (λ o w', o = Ok EXIT_SUCCESS ∧ logfile (w_log w') = None ∧ ∃ lc ups1 ups2,
    w_heap w !! lc = None ∧ length ups1 = length ts ∧ length ups2 = length rs
    ∧ all_over qos0 qs lc conf (units_with ups1 ups2)
        (<[lc := OConfiguration conf]> (w_heap w)) w' ∧ delivers w w') w.
Proof.
  intros Hl Hc Hok Hth Htab Hcr Hns Hlevel Htarget Hpath Hfac Hlog Hcnt. pose proof Hc as (Hmem & _).
  set (J := λ w', (none_served w' ∧ delivers w w') ∧ created (w_trace w') = []).
  eapply (wp_main_foreground J); [apply _|split_and!; [done|by intros _ Hp|done]|done|exact Hc|].
  intros lc w1 HJ1 Hlg1 Hth1 Hcf1 Hh1 Hn.
  cbn zeta. cbn [read_configuration cf_loglevel logtarget cf_logfile logfacility].
  rewrite Hlevel, Htarget, Hpath, Hfac.
  eapply wp_mono; [apply (wp_preserved _ J); [apply mi_log_init|done|];
    apply (wp_preserved _ (elsewhere (w_threads w1) (w_cfg w1)));
    [apply elsewhere_log_init|done|apply wp_log_init]|].
  intros o w2 (((-> & Hlg2 & Hh2) & Hth2 & Hcf2) & HJ2).
  destruct (log_works_ready level target path w1 Hlog) as [Hready ->].
  rewrite <- Hlg2 in Hready. split; [done|]. intros p pid.
  eapply (wp_log_msg log_info); [done|reflexivity|fmt_eval; reflexivity|discriminate|].
  intros out. wp_step.
  assert (HJ3 : J (set_out out (called X_getpid w2))).
  { rewrite set_out_equiv. by apply (mi_call (I := J) _ X_getpid). }
  eapply wp_mono.
  { apply (wp_run_units (λ w', none_served w' ∧ delivers w w')
      (λ w3 w', (∀ v, idle v w3 w') ∧ delivers w3 w')
      (λ u1 u2 w3 w4, all_over qos0 qs lc conf
         (units_with (running m2r_enabled u1).*1 (running r2m_enabled u2).*1) (w_heap w3) w4
         ∧ delivers w w4)
      p (Some lc) _ c).
    - apply _.
    - intros n f arg w' [H1 H2]. split; [by apply none_served_create|by apply delivers_create].
    - apply HJ3.
    - exact Hready.
    - exact Hmem.
    - exact Hok.
    - cbn. by rewrite Hth2, Hth1.
    - cbn. by rewrite Hcf2, Hcf1.
    - exact Hcnt.
    - intros w3. apply main_inv_and; [apply idle_main|apply delivers_main].
    - intros w3. split; [by intros v|by intros _ Hp].
    - intros u1 u2 w3 Hur [Hns3 Hd3]. eapply wp_mono.
      { eapply threads_over; [exact Hur|apply HJ3| | |exact Hready|exact Hns3].
        - intros Hi. cbn. rewrite Hth2, Hth1. by apply Htab.
        - cbn. rewrite Hh2, Hh1. apply lookup_insert_eq. }
      intros o w4 (-> & H1 & H2 & H3 & H4 & Hd4). split_and!; [done..|].
      intros Hbr Hp. by apply Hd4, Hd3. }
  intros o w' (-> & Hf & u1 & u2 & w3 & w4 & Hur & [Hover Hd4] & [Hidle Hd] & _ & Hfree).
  split_and!; [done..|]. exists lc, (running m2r_enabled u1).*1, (running r2m_enabled u2).*1.
  split_and!; [done| | | |by intros Hbr Hp; apply Hd, Hd4].
  - eapply length_ups, running_m2r, (ur_m2r_read _ _ _ _ _ _ Hur).
  - eapply length_ups, running_r2m, (ur_r2m_read _ _ _ _ _ _ Hur).
  - assert (Hh : <[lc := OConfiguration conf]> (w_heap w) = w_heap (set_out out (called X_getpid w2)))
      by (cbn; by rewrite Hh2, Hh1).
    rewrite Hh. by eapply over_freed.
Qed.

End run.

(** * Properties *)
Section properties.
Context `{EV : Env}.

(** C25: The types of the program's state, whatever the command line, the
    environment and the outcome: the thread table keeps its 32 slots, the log
    level stays a value of its enum (an unknown name gives "fatal"), so that
    the unsigned comparison with it is the one meant, and the file printer is
    never installed without the name of a file. *)
Theorem main_keeps_types qos0 schedule argv w :
  well_typed w → well_typed (snd (main (SC := by_turns qos0 schedule) argv w)).
Proof.
  apply (pres_main well_typed wt_create_thread (SC := by_turns qos0 schedule)).
  apply pres_by_turns, _.
Qed.


End properties.

(** ** Witnesses *)
Import Demo.

Lemma main_keeps_types_witness :
  let EV := demo_env 8 all_ok in
  well_typed (snd (main (SC := by_turns (λ _, 0) [Turn 0; Sigint None; Turn 1]) ["mqrestt"; "--conf"; "f"; "--daemon"] start_of_process)).
Proof.
  intros EV. apply (main_keeps_types (λ _, 0) [Turn 0; Sigint None; Turn 1] ["mqrestt"; "--conf"; "f"; "--daemon"] _ start_well_typed).
Defined.

(** One unit of each direction, read from the file, in the environment of the
    threads of Process.v. *)
Definition read_m2r : m2r_unit := {|
  mt_unit := read_mqtt2rest (EV := demo_env 8 all_units) 2; mt_mosq := 1; mt_topic := "unit1";
  mt_baseurl := "http://h/api" |}.

Definition read_r2m : r2m_unit := {|
  rt_unit := read_rest2mqtt (EV := demo_env 8 all_units) 2;
  rt_view := {| uv_client := 2; uv_daemon := Some 1%positive; uv_owns := λ _, true |} |}.

Lemma read_units_served :
  well_served (EV := demo_env 8 all_units) (λ _, 0) demo_qs 15000 1 [read_m2r] [read_r2m].
Proof.
  intros lc [|up1 [|? ?]] [|up2 [|? ?]] H1 H2; try discriminate. split; [| |reflexivity].
  - apply Forall_cons_2; [|apply Forall_singleton].
    + split; [|split; [intros tr|intros tr|intros _ tr|intros _ tr|intros tr]; reflexivity].
      split; try reflexivity; try (apply (bool_decide_unpack _); vm_compute; exact I);
        try (vm_compute; lia); intros tr; repeat constructor.
      * apply (bool_decide_unpack _). vm_compute. exact I.
      * exists "t", (explode "http://h/api/t"). split; vm_compute; reflexivity.
    + split; [apply demo_callbacks| |apply demo_process_handler_calls
             |split; [intros tr|intros tr|intros _ tr|intros _ tr|intros tr]; reflexivity|reflexivity].
      split; [|intros tr; by apply Forall_true|reflexivity|intros; vm_compute; lia].
      intros tr s. apply next_calls_served.
  - intros [|[|i]] [|[|j]] u u' v v' Hi Hj Hne Hv Hv'; try done;
      injection Hi as <-; injection Hj as <-; discriminate.
Defined.

(** Five passes of each thread, and a SIGINT that [main] takes while it waits for
    them. *)
Definition run_schedule : list action :=
  concat (replicate 12 [Turn 0; Turn 1]) ++ Sigint None :: [Turn 1; Turn 0].

Lemma run_schedule_ends : ends (EV := demo_env 8 all_units) 2 run_schedule.
Proof.
  right. exists (concat (replicate 12 [Turn 0; Turn 1])), None, [Turn 1; Turn 0].
  split; [reflexivity|]. intros [|[|j]] Hj; [..|lia];
    (split; [split; [|by exists 6%nat]|]; vm_compute; lia).
Defined.


End Program.
