(* ===== verification/Shutdown.v ===== *)
(** The shutdown protocol between the threads, as a step relation: the
    [SIGINT] handler of [src/main.c], the unit threads' loops around [poll] in
    [src/mqtt2rest_unit.c] and [src/rest2mqtt_unit.c], and the joins of [main]. *)
From Stdlib Require Import ZArith Lia ZifyBool Ascii String List.
From stdpp Require Import base numbers list strings gmap relations.
From S2P Require Import Prelude.
From S2P Require Import CLib.
From S2P Require Import Types.
From S2P Require Import World.
From S2P Require Import Demo.
From S2P Require Import Logging.
From S2P Require Import MqttClient.
From S2P Require Import Mqtt2Rest.
From S2P Require Import Rest2Mqtt.
From S2P Require Import Signals.
From S2P Require Import Threads.
From S2P Require Import Schedules.
From S2P Require Import Process.
From S2P Require Import Main.
From S2P Require Import Startup.
Import Logging MqttClient Mqtt2Rest Rest2Mqtt Signals Threads Schedules Startup.

Module Shutdown.

(** Where a unit thread is: in [poll], elsewhere in its loop or before it, or
    past the loop. *)
Inductive phase := Running | Polling | Stopped.

#[global] Instance phase_eq_dec : EqDecision phase.
Proof. solve_decision. Defined.

(** The test both loops make of what [poll] returned. *)
Definition phase_after (r : poll_result) : phase :=
  if pr_ret r <? 0 then Stopped else Running.

(** A thread in which a handler has run: [handle_signal] returns, leaving no
    trace, and only a [poll] notices. *)
Definition on_signal (p : phase) : phase :=
  match p with Polling => phase_after interrupted | p => p end.

Record proc := {
  threads : list (phase * bool);  (* those created, with SIGUSR1 pending or not *)
  to_start : nat;                 (* those main has still to create *)
  handler : option (option nat * nat);
     (* the SIGINT handler: the thread it interrupted ([None] for main), and the
        slot of the thread table it looks at next *)
  main_done : bool;               (* the joins of [main] have returned *)
}.

Definition upd_threads (ts : list (phase * bool)) (s : proc) : proc :=
  {| threads := ts; to_start := to_start s; handler := handler s; main_done := main_done s |}.
Definition upd_handler (h : option (option nat * nat)) (s : proc) : proc :=
  {| threads := threads s; to_start := to_start s; handler := h; main_done := main_done s |}.
Definition set_thread (i : nat) (t : phase * bool) (s : proc) : proc :=
  upd_threads (<[i := t]> (threads s)) s.

(** The thread is not inside the SIGINT handler. *)
Definition free_thread (i : option nat) (s : proc) : Prop :=
  ∀ k, handler s ≠ Some (i, k).

(** A thread that comes back from the handler has its [poll] interrupted. *)
Definition resume (i : option nat) (ts : list (phase * bool)) : list (phase * bool) :=
  match i with
  | None => ts
  | Some i => alter (λ t, (on_signal t.1, t.2)) i ts
  end.

(** The handler's own steps and the delivery of SIGUSR1: all that happens when
    no [poll] returns by itself, no thread calls it, and main stands still. *)
Inductive quiet : proc → proc → Prop :=
  | st_kill s t k p b :     (* pthread_kill(threads[k], SIGUSR1) *)
      handler s = Some (t, k) → threads s !! k = Some (p, b) →
      quiet s (upd_handler (Some (t, S k)) (set_thread k (p, true) s))
  | st_return s t k :       (* threads[k] is zero: the handler returns *)
      handler s = Some (t, k) → k = length (threads s) →
      quiet s (upd_handler None (upd_threads (resume t (threads s)) s))
  | st_deliver s i p :      (* SIGUSR1 reaches its thread *)
      threads s !! i = Some (p, true) → free_thread (Some i) s →
      quiet s (set_thread i (on_signal p, false) s)
  | st_nested s i k p :     (* the same inside the SIGINT handler *)
      threads s !! i = Some (p, true) → handler s = Some (Some i, k) →
      quiet s (set_thread i (p, false) s).

Inductive step : proc → proc → Prop :=
  | st_quiet s s' : quiet s s' → step s s'
  | st_create s n :         (* main creates the next thread *)
      to_start s = S n → free_thread None s →
      step s {| threads := threads s ++ [(Running, false)]; to_start := n;
                handler := handler s; main_done := main_done s |}
  | st_enter s i b :        (* a thread calls poll *)
      threads s !! i = Some (Running, b) → free_thread (Some i) s →
      step s (set_thread i (Polling, b) s)
  | st_poll s i b r :       (* poll returns by itself *)
      threads s !! i = Some (Polling, b) → free_thread (Some i) s →
      step s (set_thread i (phase_after r, b) s)
  | st_sigint s t :         (* SIGINT reaches main or a thread *)
      handler s = None → (∀ i, t = Some i → (i < length (threads s))%nat) →
      step s (upd_handler (Some (t, 0%nat)) s)
  | st_join s :             (* the last pthread_join returns *)
      to_start s = 0%nat → Forall (λ t, t.1 = Stopped) (threads s) → free_thread None s →
      step s {| threads := threads s; to_start := 0; handler := handler s; main_done := true |}.

(** The process when [main] begins to create its [n] threads. *)
Definition starting (n : nat) : proc :=
  {| threads := []; to_start := n; handler := None; main_done := false |}.

(** * After the joins *)

Definition joined_stopped (s : proc) : Prop :=
  main_done s = true → to_start s = 0%nat ∧ Forall (λ t, t.1 = Stopped) (threads s).

(** A stopped thread stays stopped. *)
Lemma stopped_insert ts i (t t0 : phase * bool) :
  ts !! i = Some t0 → (t0.1 = Stopped → t.1 = Stopped) →
  Forall (λ t, t.1 = Stopped) ts → Forall (λ t, t.1 = Stopped) (<[i := t]> ts).
Proof.
  intros Hi Ht Hs. apply Forall_insert; [done|]. rewrite Forall_lookup in Hs.
  by eapply Ht, Hs.
Qed.

Lemma stopped_resume t ts :
  Forall (λ t, t.1 = Stopped) ts → Forall (λ t, t.1 = Stopped) (resume t ts).
Proof.
  intros Hs. destruct t as [i|]; [|done]. cbn. apply Forall_alter; [done|].
  intros [p b] _ Hp. cbn in *. by rewrite Hp.
Qed.

Lemma joined_stopped_quiet s s' : quiet s s' → joined_stopped s → joined_stopped s'.
Proof.
  intros Hst Hs Hd.
  destruct Hst as [s t k p b Hh Hk|s t k Hh Hk|s i p Hi Hf|s i k p Hi Hh];
    destruct (Hs Hd) as [Hn Hall]; (split; [exact Hn|]); cbn.
  - by eapply stopped_insert.
  - by apply stopped_resume.
  - eapply stopped_insert; [exact Hi| |done]. cbn. by intros ->.
  - by eapply stopped_insert.
Qed.

Lemma joined_stopped_step s s' : step s s' → joined_stopped s → joined_stopped s'.
Proof.
  intros Hst Hs.
  destruct Hst as [s s' Hq|s n Hn Hf|s i b Hi Hf|s i b r Hi Hf|s t Hh Ht|s Hn Ha Hf].
  - by eapply joined_stopped_quiet.
  - intros Hd. destruct (Hs Hd) as [H0 _]. congruence.
  - intros Hd. destruct (Hs Hd) as [H0 Hall]. split; [done|]. by eapply stopped_insert.
  - intros Hd. destruct (Hs Hd) as [H0 Hall]. split; [done|]. by eapply stopped_insert.
  - exact Hs.
  - done.
Qed.

Lemma joined_stopped_reachable n s : rtc step (starting n) s → joined_stopped s.
Proof.
  intros Hr. assert (Hs : joined_stopped (starting n)) by done. revert Hs.
  induction Hr as [|s1 s2 s3 Hst _ IH]; intros Hs; [done|]. by eapply IH, joined_stopped_step.
Qed.

(** * Shutting down threads that poll *)

(** The thread [i] will still be signalled: it has the signal pending, or the
    handler has not come to its slot, or interrupts it. *)
Definition targeted (s : proc) (i : nat) (b : bool) : Prop :=
  b = true ∨ ∃ t k, handler s = Some (t, k) ∧ ((k ≤ i)%nat ∨ t = Some i).

(** The handler will still stop every thread created so far. *)
Record doomed (s : proc) : Prop := {
  dm_thread : ∀ i p b, threads s !! i = Some (p, b) →
    p = Stopped ∨ (p = Polling ∧ targeted s i b);
  dm_slot : ∀ t k, handler s = Some (t, k) → (k ≤ length (threads s))%nat;
}.

(** What is left to do: for the handler two steps for a signal to send and one
    to return, and one for a signal to deliver. *)
Fixpoint pending_count (l : list (phase * bool)) : nat :=
  match l with
  | [] => 0%nat
  | (_, b) :: l' => ((if b then 1 else 0) + pending_count l')%nat
  end.
Definition remaining (s : proc) : nat :=
  (match handler s with
   | None => 0
   | Some (_, k) => 1 + 2 * (length (threads s) - k)
   end + pending_count (threads s))%nat.

Lemma pending_count_insert (l : list (phase * bool)) i p (b : bool) p' (b' : bool) :
  l !! i = Some (p, b) →
  (pending_count (<[i := (p', b')]> l) + (if b then 1 else 0)
   = pending_count l + (if b' then 1 else 0))%nat.
Proof.
  revert i. induction l as [|[p0 b0] l IH]; intros [|i] Hi; try done.
  - injection Hi as -> ->. cbn. lia.
  - specialize (IH i Hi).
    change (<[S i := (p', b')]> ((p0, b0) :: l)) with ((p0, b0) :: <[i := (p', b')]> l).
    cbn [pending_count]. lia.
Qed.

Lemma pending_count_resume t l : pending_count (resume t l) = pending_count l.
Proof.
  destruct t as [i|]; [|done]. cbn. revert i. induction l as [|[p b] l IH]; intros [|i]; try done.
  cbn. by rewrite <- (IH i).
Qed.

Lemma pending_count_0 (l : list (phase * bool)) i p b :
  pending_count l = 0%nat → l !! i = Some (p, b) → b = false.
Proof.
  revert i. induction l as [|[p0 b0] l IH]; intros [|i] Hc Hi; cbn in *; try done.
  - injection Hi as -> ->. by destruct b.
  - apply (IH i); [lia|done].
Qed.

Lemma pending_count_pos l :
  pending_count l ≠ 0%nat → ∃ i p, l !! i = Some (p, true).
Proof.
  induction l as [|[p b] l IH]; cbn; [done|]. destruct b; [by exists 0%nat, p|].
  intros H. destruct IH as (i & q & Hi); [lia|]. by exists (S i), q.
Qed.

Lemma lookup_insert_thread (ts : list (phase * bool)) i j t q c :
  <[i := t]> ts !! j = Some (q, c) → (i = j ∧ t = (q, c)) ∨ (i ≠ j ∧ ts !! j = Some (q, c)).
Proof.
  intros H. apply list_lookup_insert_Some in H as [(-> & -> & _)|[? ?]]; [by left|by right].
Qed.

(** Every quiet step leaves less to do. *)
Lemma quiet_remaining s s' :
  quiet s s' → (∀ t k, handler s = Some (t, k) → (k ≤ length (threads s))%nat) →
  (remaining s' < remaining s)%nat
  ∧ (∀ t k, handler s' = Some (t, k) → (k ≤ length (threads s'))%nat)
  ∧ to_start s' = to_start s ∧ length (threads s') = length (threads s)
  ∧ main_done s' = main_done s.
Proof.
  intros Hq Hsl. unfold remaining.
  destruct Hq as [s t k p b Hh Hk|s t k Hh Hk|s i p Hi Hf|s i k p Hi Hh]; cbn;
    rewrite ?length_insert.
  - pose proof (lookup_lt_Some _ _ _ Hk). rewrite Hh.
    pose proof (pending_count_insert _ _ _ _ p true Hk). destruct b;
      (split_and!; [lia| |done..]); intros t' k' [= <- <-]; lia.
  - rewrite Hh, pending_count_resume. split_and!; [lia|done|done| |done].
    destruct t; [apply length_alter|done].
  - pose proof (pending_count_insert _ _ _ _ (on_signal p) false Hi) as H. cbn in H.
    split_and!; [destruct (handler s) as [[]|]; lia|exact Hsl|done..].
  - pose proof (pending_count_insert _ _ _ _ p false Hi) as H. cbn in H.
    split_and!; [destruct (handler s) as [[]|]; lia|exact Hsl|done..].
Qed.

Lemma doomed_quiet s s' : doomed s → quiet s s' → doomed s'.
Proof.
  intros [Ht Hk] Hq. pose proof (quiet_remaining _ _ Hq Hk) as (_ & Hsl & _). split; [|exact Hsl].
  destruct Hq as [s t k p b Hh Hi|s t k Hh Hl|s i p Hi Hf|s i k p Hi Hh];
    intros j q c Hj; cbn in Hj.
  - apply lookup_insert_thread in Hj as [[<- [= -> <-]]|[Hne Hj]].
    + destruct (Ht _ _ _ Hi) as [->|[-> _]]; [by left|right]. split; [done|by left].
    + destruct (Ht _ _ _ Hj) as [->|[-> [->|(t' & k' & Hh' & H)]]]; [by left|right..].
      * split; [done|by left].
      * split; [done|]. right. exists t, (S k). split; [done|].
        rewrite Hh in Hh'. injection Hh' as <- <-. destruct H as [H|H]; [left; lia|by right].
  - destruct t as [i|].
    + cbn in Hj. destruct (decide (i = j)) as [<-|Hne].
      * rewrite list_lookup_alter_eq in Hj. apply fmap_Some in Hj as ([p b] & Hj & [= -> ->]).
        left. by destruct (Ht _ _ _ Hj) as [->|[-> _]].
      * rewrite list_lookup_alter_ne in Hj by done.
        destruct (Ht _ _ _ Hj) as [->|[-> [->|(t' & k' & Hh' & H)]]]; [by left|right..].
        -- split; [done|by left].
        -- rewrite Hh in Hh'. injection Hh' as <- <-. apply lookup_lt_Some in Hj.
           destruct H as [H|[= H]]; [lia|done].
    + cbn in Hj. destruct (Ht _ _ _ Hj) as [->|[-> [->|(t' & k' & Hh' & H)]]]; [by left|right..].
      * split; [done|by left].
      * rewrite Hh in Hh'. injection Hh' as <- <-. apply lookup_lt_Some in Hj.
        destruct H as [H|H]; [lia|done].
  - apply lookup_insert_thread in Hj as [[<- [= <- <-]]|[Hne Hj]].
    + left. by destruct (Ht _ _ _ Hi) as [->|[-> _]].
    + apply Ht in Hj. exact Hj.
  - apply lookup_insert_thread in Hj as [[<- [= -> <-]]|[Hne Hj]].
    + destruct (Ht _ _ _ Hi) as [->|[-> _]]; [by left|right]. split; [done|]. right.
      exists (Some i), k. split; [done|by right].
    + apply Ht in Hj. exact Hj.
Qed.

(** Until nothing remains, some quiet step is possible. *)
Lemma quiet_progress s :
  (∀ t k, handler s = Some (t, k) → (k ≤ length (threads s))%nat) →
  remaining s ≠ 0%nat → ∃ s', quiet s s'.
Proof.
  intros Hk Hr. destruct (handler s) as [[t k]|] eqn:Eh.
  - destruct (decide (k = length (threads s))) as [->|Hne].
    + eexists. by eapply st_return.
    + assert (Hlt : (k < length (threads s))%nat) by (specialize (Hk _ _ eq_refl); lia).
      apply lookup_lt_is_Some in Hlt as [[p b] Hi]. eexists. by eapply st_kill.
  - destruct (pending_count_pos (threads s)) as (i & p & Hi).
    { unfold remaining in Hr. by rewrite Eh in Hr. }
    eexists. eapply st_deliver; [exact Hi|]. intros k. by rewrite Eh.
Qed.

Lemma remaining_0 s :
  remaining s = 0%nat → handler s = None ∧ pending_count (threads s) = 0%nat.
Proof. unfold remaining. destruct (handler s) as [[]|]; [lia|]. intros H. by split. Qed.

Lemma doomed_end s :
  doomed s → remaining s = 0%nat →
  Forall (λ t, t = (Stopped, false)) (threads s) ∧ handler s = None.
Proof.
  intros [Ht Hk] Hr. destruct (remaining_0 s Hr) as [Hh Hpc]. split; [|done].
  apply Forall_lookup. intros i [p b] Hi.
  pose proof (pending_count_0 _ _ _ _ Hpc Hi) as ->.
  destruct (Ht _ _ _ Hi) as [->|[_ [?|(t & k & H & _)]]]; [done|done|congruence].
Qed.

(** The state right after SIGINT has reached main or a thread. *)
Definition sigint_taken (t : option nat) (s : proc) : proc := upd_handler (Some (t, 0%nat)) s.

Lemma doomed_sigint t s :
  Forall (λ t, t.1 = Stopped ∨ t.1 = Polling) (threads s) → doomed (sigint_taken t s).
Proof.
  intros H. split; [|intros t' k [= <- <-]; lia].
  intros i p b Hi. rewrite Forall_lookup in H. destruct (H _ _ Hi) as [Hp|Hp]; cbn in Hp;
    [by left|right]. split; [done|]. right. exists t, 0%nat. split; [done|left; lia].
Qed.

(** Any sequence of quiet steps from a doomed state. *)
Lemma doomed_run k s s' :
  nsteps quiet k s s' → doomed s →
  doomed s' ∧ (k + remaining s' ≤ remaining s)%nat ∧ to_start s' = to_start s
  ∧ length (threads s') = length (threads s) ∧ main_done s' = main_done s.
Proof.
  intros Hn. induction Hn as [s|k s s2 s3 Hq _ IH]; intros Hd; [by split_and!|].
  pose proof (quiet_remaining _ _ Hq (dm_slot _ Hd)) as (Hlt & _ & E1 & E2 & E3).
  destruct (IH (doomed_quiet _ _ Hd Hq)) as (Hd3 & Hle & F1 & F2 & F3).
  split_and!; [done|lia|congruence..].
Qed.

(** * The loops of the threads

    What [poll] returned to a thread, in order, decides its phases. *)
Definition polled {A} (c : ext A) : A → list poll_result :=
  match c in ext A return A → list poll_result with
  | X_poll _ _ => λ r, [r]
  | _ => λ _, []
  end.

Fixpoint polls (tr : list event) : list poll_result :=
  match tr with
  | [] => []
  | Ev c r :: tr' => polls tr' ++ polled c r
  end.

Section loops.
Context `{EV : Env}.

Definition polls_are (rs : list poll_result) (w : World) : Prop := polls (w_trace w) = rs.

#[export] Instance polls_are_handler rs : HandlerInv (polls_are rs).
Proof.
  split; [| |by intros..].
  - intros w1 w2 H. unfold polls_are. by rewrite (w_trace_proper _ _ H).
  - intros A c Hc. apply pres_call. intros w Hw. unfold polls_are in *. rewrite <- Hw.
    destruct c; try done; cbn; by rewrite app_nil_r.
Qed.

(** A pass of either loop, once the client's state has been looked at. *)
Definition pass_polls (rs : list poll_result) (stop : bool) (w : World) : Prop :=
  ∃ r, polls_are (rs ++ [r]) w ∧ stop = (pr_ret r <? 0).


Hint Extern 0 (_ = true) => reflexivity : pres.

Lemma pres_polls_call {A} rs (c : ext A) : handler_call c = true → preserves (polls_are rs) (call c).
Proof. apply hi_call. Qed.

Lemma pres_polls_run rs daemon cls qos0 : preserves (polls_are rs) (MHD_run daemon cls qos0).
Proof.
  apply pres_MHD_run; [apply _|]. apply pres_call. intros w Hw. unfold polls_are in *.
  cbn. by rewrite app_nil_r.
Qed.

Lemma pres_polls_mosq rs h c : handler_call c = true → preserves (polls_are rs) (mosq_call h c).
Proof. apply pres_mosq_handler, _. Qed.

Lemma pres_polls_store rs p o : preserves (polls_are rs) (store p o).
Proof.
  destruct p as [l|]; [|apply pres_crash]. apply pres_get_bind. intros w Hw.
  by destruct (w_heap w !! l).
Qed.

Lemma pres_polls_pollfds rs daemon count : preserves (polls_are rs) (get_mhd_pollfds daemon count).
Proof. apply pres_get_mhd_pollfds, _. Qed.

Hint Resolve pres_polls_call pres_polls_run pres_polls_mosq pres_polls_store
  pres_polls_pollfds : pres.

Lemma pres_polls_client_loop rs p r wr : preserves (polls_are rs) (mqtt_client_loop p r wr).
Proof. unfold mqtt_client_loop, set_connected. pres. Qed.
Hint Resolve pres_polls_client_loop : pres.

Lemma pres_polls_before rs l : preserves (polls_are rs) (before_poll l).
Proof.
  destruct l; cbn [before_poll]; unfold mqtt2rest_before_poll, rest2mqtt_before_poll,
    mqtt_client_connected, mqtt_client_reconnect, mqtt_client_get_pollfds; pres.
Qed.

Lemma pres_polls_after rs qos0 l fds r : preserves (polls_are rs) (Threads.after_poll qos0 l fds r).
Proof.
  destruct l; cbn [Threads.after_poll]; unfold mqtt2rest_after_poll, rest2mqtt_after_poll; pres.
Qed.

Lemma pass_polls_once rs qos0 l w :
  polls_are rs w → wp (pass qos0 l) (returns (pass_polls rs)) w.
Proof.
  intros Hw. eapply wp_eq; [apply pass_poll|].
  apply (returns_seq (λ fds w1, is_Some fds ∧ polls_are rs w1)).
  { pose proof (before_poll_some l w) as Hs. pose proof (pres_polls_before rs l w Hw) as Hp.
    unfold wp in *. by destruct (fst (before_poll l w)). }
  intros fds w1 [[fds' ->] Hw1]. do 3 wp_step.
  set (r := answer (w_trace w1) poll_result _). set (w2 := called _ _).
  assert (Hw2 : polls_are (rs ++ [r]) w2) by (unfold polls_are; cbn; by rewrite Hw1).
  pose proof (after_poll_stops qos0 l fds' r w2) as Hs.
  pose proof (pres_polls_after _ qos0 l fds' r w2 Hw2) as Hp. unfold wp in *.
  destruct (fst (Threads.after_poll qos0 l fds' r w2)); try done. cbn in *. by exists r.
Qed.

(** A loop over passes, as both threads have one. *)
Definition loop_polls (rs : list poll_result) (_ : unit) (w : World) : Prop :=
  ∃ rs' r, polls_are (rs ++ rs' ++ [r]) w ∧ Forall (λ r, phase_after r = Running) rs'
           ∧ phase_after r = Stopped.

Lemma returns_loop (pass : M bool) (loop : nat → M unit) :
  (∀ rs w, polls_are rs w → wp pass (returns (pass_polls rs)) w) →
  loop 0%nat = lift OutOfFuel →
  (∀ n, loop (S n) = stop ← pass; if stop : bool then mret tt else loop n) →
  ∀ fuel rs w, polls_are rs w → wp (loop fuel) (returns (loop_polls rs)) w.
Proof.
  intros Hpass H0 HS fuel. induction fuel as [|fuel IH]; intros rs w Hw; [by rewrite H0|].
  rewrite HS. apply (returns_seq (pass_polls rs)); [by apply Hpass|].
  intros stop w1 (r & Hw1 & ->). destruct (pr_ret r <? 0) eqn:E.
  - apply returns_ret. exists [], r. unfold phase_after. rewrite E. by split_and!.
  - eapply returns_mono; [by apply (IH (rs ++ [r]))|]. intros [] w2 (rs' & r' & Hw2 & Hall & Hlast).
    exists (r :: rs'), r'. rewrite <- app_assoc in Hw2. split_and!; [exact Hw2| |done].
    constructor; [|done]. unfold phase_after. by rewrite E.
Qed.

End loops.

(** * The threads as states of the protocol *)

(** Between its turns a thread is in one of the phases; one that a handler has
    interrupted inside [poll] is past its loop. *)
Definition phase_of (t : thread_state) : phase :=
  match t with
  | Created _ _ | AtHead _ => Running
  | InPoll _ _ hit => if hit then Stopped else Polling
  | Ended => Stopped
  end.

(** The process before the joins return, with [m] threads to create. *)
Definition waiting (m : nat) (ths : list (phase * bool)) (h : option (option nat * nat)) : proc :=
  {| threads := ths; to_start := m; handler := h; main_done := false |}.

Definition sent (b : bool) (ps : list phase) : list (phase * bool) := (λ p, (p, b)) <$> ps.

(** No signal is on its way, and there will be [n] threads. *)
Definition proc_of (n : nat) (ts : list thread_state) : proc :=
  waiting (n - length ts) (sent false (phase_of <$> ts)) None.

Lemma sent_middle b c ps1 p ps2 : (sent b ps1 ++ sent c (p :: ps2)) !! length ps1 = Some (p, c).
Proof. apply list_lookup_middle. unfold sent. by rewrite length_fmap. Qed.

Lemma insert_sent b c ps1 p q ps2 :
  <[length ps1 := (q, b)]> (sent b ps1 ++ sent c (p :: ps2)) = sent b (ps1 ++ [q]) ++ sent c ps2.
Proof.
  unfold sent. rewrite fmap_app, <- app_assoc.
  replace (length ps1) with (length ((λ p, (p, b)) <$> ps1) + 0)%nat
    by (rewrite length_fmap; lia).
  by rewrite insert_app_r.
Qed.

(** The handler signals all threads. *)
Lemma kills m t ps1 ps2 :
  rtc quiet (waiting m (sent true ps1 ++ sent false ps2) (Some (t, length ps1)))
    (waiting m (sent true (ps1 ++ ps2)) (Some (t, length (ps1 ++ ps2)))).
Proof.
  revert ps1. induction ps2 as [|p ps2 IH]; intros ps1; [by rewrite app_nil_r, app_nil_r|].
  eapply rtc_l; [by eapply (st_kill _ t (length ps1)), sent_middle|].
  unfold set_thread, upd_threads, upd_handler, waiting. cbn [threads to_start handler main_done].
  rewrite insert_sent.
  specialize (IH (ps1 ++ [p])). rewrite <- app_assoc in IH.
  replace (S (length ps1)) with (length (ps1 ++ [p])) by (rewrite length_app; cbn; lia).
  exact IH.
Qed.

(** All signals are delivered. *)
Lemma deliveries m ps1 ps2 :
  rtc quiet (waiting m (sent false (on_signal <$> ps1) ++ sent true ps2) None)
    (waiting m (sent false (on_signal <$> (ps1 ++ ps2))) None).
Proof.
  revert ps1. induction ps2 as [|p ps2 IH]; intros ps1; [by rewrite !app_nil_r|].
  eapply rtc_l.
  { eapply (st_deliver _ (length (on_signal <$> ps1)) p); [apply sent_middle|done]. }
  unfold set_thread, upd_threads, waiting. cbn [threads to_start handler main_done].
  rewrite insert_sent. specialize (IH (ps1 ++ [p])).
  rewrite fmap_app, <- app_assoc in IH. exact IH.
Qed.

Lemma resume_sent t ps :
  ∃ ps', resume t (sent true ps) = sent true ps' ∧ length ps' = length ps
    ∧ on_signal <$> ps' = on_signal <$> ps.
Proof.
  destruct t as [i|]; [|by exists ps]. exists (alter on_signal i ps).
  split_and!; [|apply length_alter|].
  - unfold sent. cbn [resume]. symmetry. apply list_fmap_alter, Forall_forall. by intros p _.
  - apply list_eq. intros j. rewrite !list_lookup_fmap. destruct (decide (i = j)) as [<-|Hne].
    + rewrite list_lookup_alter_eq. destruct (ps !! i) as [[]|]; done.
    + by rewrite list_lookup_alter_ne.
Qed.

(** Nothing is left to send or to deliver. *)
Definition settled (s : proc) : Prop := ∀ s', ¬ quiet s s'.

Lemma proc_of_settled n ts : settled (proc_of n ts).
Proof.
  assert (Hno : ∀ i p, threads (proc_of n ts) !! i ≠ Some (p, true)).
  { intros i p Hi. cbn in Hi. unfold sent in Hi. rewrite list_lookup_fmap in Hi.
    by destruct ((phase_of <$> ts) !! i). }
  intros s' Hq. inversion Hq; subst; try done; by eapply Hno.
Qed.

(** SIGINT in the process is one run of the handler and the delivery of all it
    sent. *)
Lemma sigint_refines n t ts :
  rtc quiet (sigint_taken t (proc_of n ts)) (proc_of n (hit_by_signal <$> ts)).
Proof.
  unfold proc_of. rewrite length_fmap. set (ps := phase_of <$> ts).
  etrans; [apply (kills _ t [] ps)|]. cbn [app].
  eapply rtc_l.
  { eapply (st_return _ t (length ps)); [done|]. cbn. unfold sent. by rewrite length_fmap. }
  destruct (resume_sent t ps) as (ps' & E & _ & Hsig).
  unfold upd_handler, upd_threads. cbn. rewrite E.
  assert (Hps : phase_of <$> (hit_by_signal <$> ts) = on_signal <$> ps').
  { rewrite Hsig. unfold ps. rewrite <- !list_fmap_compose. apply list_fmap_ext.
    by intros j [| |? ? []|] _. }
  rewrite Hps. apply (deliveries _ [] ps').
Qed.

(** ** The runs of the protocol along a schedule *)
Section runs.
Context `{EV : Env}.

(** What a turn of thread [i] is in the protocol: a thread that is inside [poll]
    comes back from it as the system lets it, and to its loop or past it; one
    that is elsewhere in its loop may call it; one past it stays there. *)
Inductive thread_step (i : nat) (s : proc) : proc → Prop :=
  | ts_none : (∀ b, threads s !! i ≠ Some (Polling, b)) → thread_step i s s
  | ts_enter b : threads s !! i = Some (Running, b) → handler s = None →
      thread_step i s (set_thread i (Polling, b) s)
  | ts_poll b tr fds timeout : threads s !! i = Some (Polling, b) → handler s = None →
      thread_step i s (set_thread i (phase_after (answer tr _ (X_poll fds timeout)), b) s).

(** Who takes a SIGINT: a number that is no thread's stands for [main]. *)
Definition taker (s : proc) (t : option nat) : option nat :=
  match t with
  | Some i => if decide (i < length (threads s))%nat then Some i else None
  | None => None
  end.

(** A pass of [main]'s loops creates a thread or passes a unit over; a turn is a
    step of its thread; and a SIGINT is the whole run of the handler, until all
    its signals are delivered. *)
Inductive runs : list start_action → proc → proc → Prop :=
  | run_done s : runs [] s s
  | run_skip schedule s1 s2 : runs schedule s1 s2 → runs (Next :: schedule) s1 s2
  | run_create schedule n s1 s2 :
      to_start s1 = S n → handler s1 = None →
      runs schedule {| threads := threads s1 ++ [(Running, false)]; to_start := n;
                       handler := None; main_done := main_done s1 |} s2 →
      runs (Next :: schedule) s1 s2
  | run_turn i schedule s1 s2 s3 :
      thread_step i s1 s2 → runs schedule s2 s3 → runs (Act (Turn i) :: schedule) s1 s3
  | run_sigint t schedule s1 s2 s3 :
      handler s1 = None → rtc quiet (sigint_taken (taker s1 t) s1) s2 → settled s2 →
      runs schedule s2 s3 → runs (Act (Sigint t) :: schedule) s1 s3.

Lemma thread_step_steps i s s' : thread_step i s s' → rtc step s s'.
Proof.
  assert (Hfree : handler s = None → free_thread (Some i) s) by (intros Hh k; by rewrite Hh).
  intros [Hn|b Hi Hh|b tr fds timeout Hi Hh]; [done|..]; apply rtc_once.
  - by apply st_enter; [|apply Hfree].
  - by apply st_poll; [|apply Hfree].
Qed.

Lemma taker_exists s t i : taker s t = Some i → (i < length (threads s))%nat.
Proof. destruct t as [j|]; [|done]. cbn. destruct (decide _); [|done]. by intros [= <-]. Qed.

Lemma runs_steps schedule s s' : runs schedule s s' → rtc step s s'.
Proof.
  induction 1 as [s|schedule s1 s2 _ IH|schedule n s1 s2 Hn Hh _ IH|i schedule s1 s2 s3 Ht _ IH
                 |t schedule s1 s2 s3 Hh Hq _ _ IH]; [done|done|..].
  - eapply rtc_l; [|exact IH]. assert (Hf : free_thread None s1) by (intros k; by rewrite Hh).
    pose proof (st_create s1 n Hn Hf) as H. by rewrite Hh in H.
  - etrans; [by eapply thread_step_steps|done].
  - eapply rtc_l; [apply (st_sigint _ (taker s1 t) Hh); intros i; apply taker_exists|].
    etrans; [|exact IH]. eapply rtc_subrel; [|exact Hq]. intros ? ?. apply st_quiet.
Qed.

(** A turn is a step of its thread. *)
Lemma turn_refines n tr t tr' t' (i : nat) ts :
  goes tr t tr' t' → ts !! i = Some t → thread_step i (proc_of n ts) (proc_of n (<[i := t']> ts)).
Proof.
  intros Hg Hi.
  assert (Hat : threads (proc_of n ts) !! i = Some (phase_of t, false)).
  { cbn. unfold sent. by rewrite !list_lookup_fmap, Hi. }
  assert (Hset : proc_of n (<[i := t']> ts) = set_thread i (phase_of t', false) (proc_of n ts)).
  { unfold proc_of, set_thread, upd_threads, sent. cbn. by rewrite length_insert, !list_fmap_insert. }
  assert (Hsame : phase_of t' = phase_of t → phase_of t ≠ Polling →
    thread_step i (proc_of n ts) (proc_of n (<[i := t']> ts))).
  { intros E Hne. assert (proc_of n (<[i := t']> ts) = proc_of n ts) as ->.
    - rewrite Hset, E. unfold set_thread, upd_threads. rewrite (list_insert_id _ _ _ Hat).
      by destruct (proc_of n ts).
    - apply ts_none. intros b. rewrite Hat. by intros [= ?]. }
  destruct Hg as [f arg l tr'|l fds tr'|l fds hit r tr' t' Hr _ Ht'|]; try by apply Hsame.
  - rewrite Hset. by apply ts_enter.
  - destruct hit; cbn [phase_of poll_result_of] in *; [apply Hsame; by subst|].
    assert (phase_of t' = phase_after r) as E
      by (rewrite Ht'; unfold phase_after; by destruct (pr_ret r <? 0)).
    rewrite Hset, E, Hr. by apply ts_poll.
Qed.

(** The table holds the identifiers of the threads, in their slots. *)
Definition in_slots (n : nat) (w : World) : Prop := ∃ tids free,
  length tids = n ∧ Forall (λ tid, tid ≠ 0) tids ∧ w_threads w = tids ++ replicate free 0.

Lemma in_slots_statics n w w' : statics_of w' = statics_of w → in_slots n w → in_slots n w'.
Proof.
  intros E (tids & free & Hn & Hz & Ht). exists tids, free. split_and!; [done..|].
  rewrite <- Ht. exact (f_equal st_threads E).
Qed.

(** A SIGINT that returns has found a free slot behind those of the threads. *)
Lemma sigint_in_slots n w :
  in_slots n w →
  wp (handle_signal SIGINT) (returns (λ _ w', statics_of w' = statics_of w ∧ slots_in_use n w')) w.
Proof.
  intros (tids & free & Hn & Hz & Ht).
  eapply wp_mono; [apply (wp_preserved _ (λ w', statics_of w' = statics_of w));
    [apply pres_handle_signal, _|done|by apply (sigint_spec tids free)]|].
  intros o w' [[_ ->] Hst]. destruct free as [|free]; [done|]. split; [exact Hst|].
  eapply slots_in_use_statics; [exact Hst|]. by exists tids, free.
Qed.

(** An action of the threads. *)
Lemma act_refines qos0 a ts w :
  in_slots (length ts) w →
  wp (run_turns qos0 [a] ts) (returns (λ ts' w', length ts' = length ts ∧ in_slots (length ts) w'
    ∧ ∀ n schedule s, runs schedule (proc_of n ts') s → runs (Act a :: schedule) (proc_of n ts) s)) w.
Proof.
  intros Hw. destruct a as [i|t]; cbn [run_turns].
  - destruct (ts !! i) as [t|] eqn:Ei.
    + apply (returns_seq (λ t' w1, statics_of w1 = statics_of w ∧ ∃ tr tr', goes tr t tr' t')).
      { pose proof (turn_goes qos0 t w) as Hg.
        pose proof (pres_turn (λ w', statics_of w' = statics_of w) qos0 t w eq_refl) as Hst.
        unfold wp in *. destruct (fst (turn qos0 t w)); try done. split; [exact Hst|by eauto]. }
      intros t' w1 (Hst & tr & tr' & Hg). apply returns_ret. rewrite length_insert.
      split_and!; [done|by eapply in_slots_statics|]. intros n schedule s Hr.
      eapply run_turn; [by eapply turn_refines|done].
    + apply returns_ret. split_and!; [done..|]. intros n schedule s Hr.
      eapply run_turn; [apply ts_none|done]. intros b. cbn. unfold sent.
      by rewrite !list_lookup_fmap, Ei.
  - eapply returns_seq; [by apply sigint_in_slots|]. intros _ w1 [Hst Hslots].
    change (wp (mret (hit_one t (hit_slots (w_threads w1) ts)) : M _)
      (returns (λ ts' w', length ts' = length ts ∧ in_slots (length ts) w'
        ∧ ∀ n schedule s, runs schedule (proc_of n ts') s →
            runs (Act (Sigint t) :: schedule) (proc_of n ts) s)) w1).
    rewrite (hit_all t (length ts)) by done. apply returns_ret. rewrite length_fmap.
    split_and!; [done|by eapply in_slots_statics|]. intros n schedule s Hr.
    eapply run_sigint; [done|apply sigint_refines|apply proc_of_settled|done].
Qed.

(** A pass of [main]'s loops. *)
Context (config : ptr).
Context (Hids : ∀ tr f arg, snd (answer tr _ (X_pthread_create f arg)) ≠ 0).

Lemma create_in_slots k f p w :
  in_slots k w →
  wp (Main.create_thread k f p) (returns (λ k' w', k' = S k ∧ in_slots (S k) w')) w.
Proof.
  intros (tids & free & Hk & Hz & Ht). unfold Main.create_thread. apply wp_bind, wp_get.
  cbn [bind_post]. destruct (length (w_threads w) <=? k)%nat eqn:El; [done|]. do 3 wp_step.
  apply (returns_seq (λ r w1, snd r ≠ 0 ∧ w_threads w1 = w_threads w)); [by split|].
  intros [ret tid] w1 [Hid Hw1]. destruct (negb (ret =? 0)); [by apply returns_any|].
  wp_steps. split; [done|].
  rewrite Ht, length_app, length_replicate in El. destruct free as [|free]; [lia|].
  exists (tids ++ [tid]), free. split_and!; [rewrite length_app; cbn; lia| |].
  - apply Forall_app. split; [done|]. by apply Forall_singleton.
  - cbn. rewrite Hw1, Ht, <- Hk. replace (length tids) with (length tids + 0)%nat at 1 by lia.
    rewrite insert_app_r, <- app_assoc. reflexivity.
Qed.

Lemma step_in_slots {U} (load_unit : ptr → M U) enabled with_common f p k w :
  (∀ I, preserves I (load_unit p)) → in_slots k w →
  wp (start_step load_unit enabled with_common f p k) (returns (λ r w',
    (r = None ∧ in_slots k w') ∨ (r = Some (S k) ∧ in_slots (S k) w'))) w.
Proof.
  intros Hload Hw. unfold start_step.
  apply (returns_bind (in_slots k)); [apply Hload|done|].
  intros u w1 _ Hw1. destruct (negb (enabled u)); [by left|].
  apply (returns_bind (in_slots k)); [|done|].
  { intros w' Hw'. eapply in_slots_statics; [|exact Hw'].
    exact (pres_store_any (λ w1, statics_of w1 = statics_of w') p (with_common u) w' eq_refl). }
  intros _ w2 _ Hw2. eapply returns_seq; [by apply create_in_slots|].
  intros k' w3 [-> Hw3]. apply returns_ret. by right.
Qed.

Lemma start_one_in_slots it k w :
  in_slots k w →
  wp (start_one config it k) (returns (λ r w',
    (r = None ∧ in_slots k w') ∨ (∃ f p, r = Some (Created f p) ∧ in_slots (S k) w'))) w.
Proof.
  intros Hw. destruct it as [p|p]; cbn [start_one]; (eapply returns_seq;
    [apply step_in_slots; [intros I; first [apply pres_load_mqtt2rest|apply pres_load_rest2mqtt]|exact Hw]|]);
    intros r w' [[-> Hw']|[-> Hw']]; apply returns_ret; [by left|right; by eauto|by left|right; by eauto].
Qed.

(** A whole schedule. *)
Lemma run_start_refines qos0 schedule todo ts w :
  in_slots (length ts) w →
  wp (run_start qos0 config schedule todo ts) (returns (λ r _, (length ts ≤ length r.2)%nat
    ∧ ∀ n, (length r.2 ≤ n)%nat → runs schedule (proc_of n ts) (proc_of n r.2))) w.
Proof.
  revert todo ts w. induction schedule as [|[|a] schedule IH]; intros todo ts w Hw;
    cbn [run_start].
  - apply returns_ret. split; [done|]. intros n _. apply run_done.
  - destruct todo as [|it todo].
    + eapply returns_mono; [by apply IH|]. intros r w' [Hlen Hr]. split; [done|].
      intros n Hn. by apply run_skip, Hr.
    + eapply returns_seq; [by apply start_one_in_slots|].
      intros t w1 [[-> Hw1]|(f & p & -> & Hw1)].
      * change (option_list None) with (@nil thread_state). rewrite app_nil_r.
        eapply returns_mono; [by apply IH|]. intros r w' [Hlen Hr]. split; [done|].
        intros n Hn. by apply run_skip, Hr.
      * change (option_list (Some (Created f p))) with [Created f p].
        eapply returns_mono; [apply IH; rewrite length_app; cbn; by rewrite Nat.add_1_r|].
        intros r w' [Hlen Hr]. rewrite length_app in Hlen. cbn in Hlen. split; [lia|].
        intros n Hn. eapply (run_create _ (n - S (length ts))); [cbn; lia|done|].
        replace {| threads := _; to_start := _; handler := _; main_done := _ |}
          with (proc_of n (ts ++ [Created f p])); [by apply Hr|].
        unfold proc_of, waiting, sent. rewrite length_app, !fmap_app. cbn. by rewrite Nat.add_1_r.
  - eapply returns_seq; [by apply act_refines|]. intros ts' w1 (Hlen & Hw1 & Hr).
    eapply returns_mono; [apply IH; by rewrite Hlen|]. intros r w' [Hlen' Hr'].
    split; [lia|]. intros n Hn. by apply Hr, Hr'.
Qed.

End runs.

(** * Properties *)

(** C8: The process refines the protocol: whatever the libraries answer, and
    however the passes of the loops in which [main] creates the threads, the
    turns of those it has created, and SIGINTs are interleaved, as long as it
    returns, the process makes a run of the protocol along the same schedule: a
    pass creates a thread or none, a turn is a step of its thread, which comes out
    of [poll] with a result of the system's, and a SIGINT taken by [main] or by a
    thread is one whole run of the handler, from [pthread_kill] of the first slot
    to the delivery of the last signal. The state of the protocol it reaches is
    one that can be reached from that in which [main] begins, and when all [n]
    threads have been created and have ended, [main] can end its joins. All that
    is needed is that the table is empty at first and no thread has the
    identifier 0. *)
Theorem process_refines_shutdown `{EV : Env} qos0 config schedule todo w todo' ts' w' slots n :
  (∀ tr f arg, snd (answer tr _ (X_pthread_create f arg)) ≠ 0) →
  w_threads w = replicate slots 0 →
  run_start qos0 config schedule todo [] w = (Ok (todo', ts'), w') → (length ts' ≤ n)%nat →
  runs schedule (starting n) (proc_of n ts') ∧ rtc step (starting n) (proc_of n ts')
  ∧ (length ts' = n → all_ended ts' = Ok tt →
     ∃ s, step (proc_of n ts') s ∧ main_done s = true).
Proof.
  intros Hids Htab E Hn.
  assert (Hr : runs schedule (starting n) (proc_of n ts')).
  { assert (Hw : in_slots (length (@nil thread_state)) w) by (by exists [], slots).
    destruct (wp_elim _ _ _ _ _ (run_start_refines config Hids qos0 schedule todo [] w Hw) E)
      as [_ Hr]. specialize (Hr n Hn). unfold proc_of at 1 in Hr. cbn in Hr.
    by rewrite Nat.sub_0_r in Hr. }
  split_and!; [done|by eapply runs_steps|].
  intros Hlen He. eexists. split; [apply st_join; [cbn; lia| |done]|done].
  unfold all_ended in He. destruct (forallb is_ended ts') eqn:Hall; [|done].
  rewrite forallb_forall in Hall. apply Forall_fmap, Forall_fmap, Forall_forall.
  intros t Ht. apply list_elem_of_In, Hall in Ht. by destruct t.
Qed.

(** Both loops go through the phases of the protocol: when a loop returns,
    whatever the libraries answered, the last [poll] is one after which a
    thread is stopped, and all before it, one for each other pass, are ones
    after which it goes on running. *)
Lemma loops_follow_phases `{EV : Env} fuel p daemon timeout qos0 w w' :
  mqtt2rest_loop fuel p timeout w = (Ok tt, w')
  ∨ rest2mqtt_loop fuel p daemon timeout qos0 w = (Ok tt, w') →
  ∃ rs r, polls (w_trace w') = polls (w_trace w) ++ rs ++ [r]
          ∧ Forall (λ r, phase_after r = Running) rs ∧ phase_after r = Stopped.
Proof.
  intros H. assert (∃ m : M unit, wp m (returns (loop_polls (polls (w_trace w)))) w
                                  ∧ m w = (Ok tt, w')) as (m & Hm & E).
  { destruct H as [H|H]; eexists; (split; [|exact H]).
    - by apply (returns_loop (mqtt2rest_pass p timeout) (λ n, mqtt2rest_loop n p timeout));
        [intros; by apply (pass_polls_once _ (λ _, qos0) (Mqtt2RestLoop None p timeout))|..].
    - by apply (returns_loop (rest2mqtt_pass p daemon timeout qos0)
                  (λ n, rest2mqtt_loop n p daemon timeout qos0));
        [intros; by apply (pass_polls_once _ (λ _, qos0) (Rest2MqttLoop None p daemon timeout))|..]. }
  exact (wp_elim _ _ _ _ _ Hm E).
Qed.


(** C14: SIGINT shuts the process down when every thread that has not stopped is
    inside [poll], whichever thread the signal interrupts: while no [poll]
    returns by itself, every order of the handler's steps and of delivering the
    signals is finite, never gets stuck, and ends with all threads stopped, and
    then [main] can end its joins. *)
Theorem shutdown_of_polling_threads t s :
  Forall (λ t, t.1 = Stopped ∨ t.1 = Polling) (threads s) → to_start s = 0%nat →
  handler s = None → (∀ i, t = Some i → (i < length (threads s))%nat) →
  step s (sigint_taken t s) ∧
  (∀ k s', nsteps quiet k (sigint_taken t s) s' →
     (k ≤ remaining (sigint_taken t s))%nat
     ∧ ((∃ s'', quiet s' s'') ∨ (Forall (λ t, t.1 = Stopped) (threads s')
          ∧ ∃ s'', step s' s'' ∧ main_done s'' = true))).
Proof.
  intros Hs Hn Hh Ht. split; [by apply st_sigint|].
  intros k s' Hk. destruct (doomed_run _ _ _ Hk (doomed_sigint t s Hs)) as (Hd & Hle & E1 & _ & _).
  split; [lia|].
  destruct (decide (remaining s' = 0%nat)) as [H0|H0];
    [right|left; by apply quiet_progress; [apply Hd|]].
  destruct (doomed_end s' Hd H0) as [Ha Hkill].
  assert (Hst : Forall (λ t, t.1 = Stopped) (threads s')).
  { eapply Forall_impl; [exact Ha|]. by intros ? ->. }
  split; [done|]. eexists. split; [apply st_join; [|done|]|done].
  - rewrite E1. exact Hn.
  - intros k'. by rewrite Hkill.
Qed.

(** A thread that runs for ever with nothing left to stop it. *)
Definition runs_on (i : nat) (s : proc) : Prop :=
  threads s !! i = Some (Running, false) ∧ handler s = None
  ∧ Forall (λ t, t.2 = false) (threads s).

Lemma runs_on_for_ever i s : runs_on i s → (∀ s', ¬ quiet s s') ∧ tc step s s.
Proof.
  intros (Hat & Hh & Hno). rewrite Forall_lookup in Hno. split.
  - intros s' Hq. destruct Hq as [s t k p b Hk|s t k Hk|s j p Hj|s j k p Hj Hk]; try congruence.
    by apply Hno in Hj.
  - eapply tc_l; [apply (st_enter s i false Hat); intros k; by rewrite Hh|]. apply tc_once.
    assert (Hback : set_thread i (phase_after {| pr_ret := 0; pr_errno := 0; pr_revents := [] |}, false)
                      (set_thread i (Polling, false) s) = s).
    { unfold set_thread, upd_threads. cbn. rewrite list_insert_insert_eq. unfold phase_after. cbn.
      rewrite list_insert_id by exact Hat. by destruct s. }
    rewrite <- Hback at 2. apply st_poll; [|intros k; cbn; by rewrite Hh].
    cbn. apply list_lookup_insert_eq. by apply lookup_lt_Some in Hat.
Qed.

Lemma runs_on_not_done i s s' : runs_on i s → step s s' → main_done s' = main_done s.
Proof.
  intros (Hat & Hh & _) Hst. destruct Hst as [s s' []|s n|s j b|s j b r|s t|s Hn Ha]; try done.
  rewrite Forall_lookup in Ha. by apply Ha in Hat.
Qed.

(** C24: The signal is lost on a thread that is not inside [poll]: once it has
    been delivered there, the thread goes back to [poll] and round its loop for
    ever, with no signal left to send or to deliver, so that without a second
    SIGINT the process never ends. *)
Theorem signal_outside_poll_is_lost n i s :
  (i < n)%nat → threads s = <[i := (Running, true)]> (replicate n (Stopped, false)) →
  handler s = None →
  let lost := set_thread i (Running, false) s in
  step s lost
  ∧ (∀ s', ¬ quiet lost s')
  ∧ tc step lost lost
  ∧ ∀ s', step lost s' → main_done s' = main_done s.
Proof.
  intros Hi Ht Hh lost.
  assert (Hlost : threads lost = <[i := (Running, false)]> (replicate n (Stopped, false))).
  { unfold lost. cbn. rewrite Ht. apply list_insert_insert_eq. }
  assert (Hon : runs_on i lost).
  { split_and!; [|done|].
    - rewrite Hlost. apply list_lookup_insert_eq. by rewrite length_replicate.
    - rewrite Hlost. apply Forall_insert; [|done]. by apply Forall_replicate. }
  destruct (runs_on_for_ever _ _ Hon) as [Hq Htc]. split_and!; [|done|done|].
  - apply st_quiet, (st_deliver s i Running); [|intros k; by rewrite Hh].
    rewrite Ht. apply list_lookup_insert_eq. by rewrite length_replicate.
  - intros s' Hst. by rewrite (runs_on_not_done _ _ _ Hon Hst).
Qed.


(** ** Witnesses *)
Import Demo.

Definition two_polling : proc :=
  {| threads := [(Polling, false); (Polling, false)]; to_start := 0; handler := None;
     main_done := false |}.

Lemma shutdown_of_polling_threads_witness :
  step two_polling (sigint_taken (Some 1%nat) two_polling)
  ∧ ∀ k s', nsteps quiet k (sigint_taken (Some 1%nat) two_polling) s' →
     (k ≤ 5)%nat
     ∧ ((∃ s'', quiet s' s'') ∨ (Forall (λ t, t.1 = Stopped) (threads s')
          ∧ ∃ s'', step s' s'' ∧ main_done s'' = true)).
Proof.
  apply (shutdown_of_polling_threads (Some 1%nat) two_polling); [|reflexivity|reflexivity|].
  - repeat constructor; by right.
  - intros i [= <-]. cbn. lia.
Defined.

Definition none_left : proc :=
  {| threads := []; to_start := 0; handler := None; main_done := true |}.


Definition one_running : proc :=
  {| threads := [(Stopped, false); (Running, true)]; to_start := 0; handler := None;
     main_done := false |}.

Lemma signal_outside_poll_is_lost_witness :
  let lost := set_thread 1 (Running, false) one_running in
  step one_running lost ∧ (∀ s', ¬ quiet lost s') ∧ tc step lost lost
  ∧ ∀ s', step lost s' → main_done s' = false.
Proof.
  intros lost. apply (signal_outside_poll_is_lost 2 1 one_running); [lia|reflexivity|reflexivity].
Defined.

Definition half_started : proc :=
  {| threads := [(Polling, false)]; to_start := 1; handler := None; main_done := false |}.

Definition half_stopped : proc :=
  {| threads := [(Stopped, false)]; to_start := 1; handler := None; main_done := false |}.

(** The handler signals the thread, finds no other, returns, and the signal is
    delivered. *)
Lemma half_run : nsteps quiet 3 (sigint_taken None half_started) half_stopped.
Proof.
  eapply nsteps_l; [eapply (st_kill _ None 0); reflexivity|].
  eapply nsteps_l; [eapply (st_return _ None 1); reflexivity|].
  eapply nsteps_l; [eapply (st_deliver _ 0 Polling); [reflexivity|discriminate]|].
  apply nsteps_O.
Defined.


(** The schedule of Startup.v: the first SIGINT finds the first thread inside
    [poll], is lost on the second, and comes before the third is created; the
    second finds them all inside [poll]. *)
Lemma process_refines_shutdown_witness :
  let EV := demo_env 8 Process.all_units in
  let schedule := starting_schedule ++ (Act <$> started_schedule) in
  let run := run_start (λ _, 0) (Some 3%positive) schedule (item_of <$> demo_entries) []
               demo_start_world in
  let over := proc_of 3 [Ended; Ended; Ended] in
  fst run = Ok ([], [Ended; Ended; Ended])
  ∧ runs schedule (starting 3) over ∧ rtc step (starting 3) over
  ∧ ∃ s, step over s ∧ main_done s = true.
Proof.
  intros EV schedule run over.
  assert (E : fst run = Ok ([], [Ended; Ended; Ended])) by (vm_compute; reflexivity).
  split; [exact E|].
  destruct (process_refines_shutdown (λ _, 0) (Some 3%positive) schedule (item_of <$> demo_entries)
              demo_start_world [] [Ended; Ended; Ended] (snd run) 32 3) as (Hr & Hs & Hj).
  - intros tr f arg. discriminate.
  - reflexivity.
  - rewrite <- E. apply surjective_pairing.
  - cbn. lia.
  - split_and!; [exact Hr|exact Hs|]. apply Hj; reflexivity.
Defined.

End Shutdown.
